(* ===== verification/_CoqProject ===== *)
-Q . S2P
Prelude.v
Utf8.v
TypedArray.v
JsText.v
Number.v
Command.v
Protocol.v
Wire.v
WireServer.v
WireTheorems.v
Transport.v
Pool.v
Client.v
ClientTheorems.v
OneShot.v
WormDB.v
WormDBTheorems.v
WormDBInvariant.v
Base64.v
Json.v
WormDBApi.v
WormDBApiTheorems.v
Events.v
BrowserWire.v
BrowserClient.v
BrowserClientTheorems.v
Prog.v
KvServer.v
ClientCli.v
Mem.v
EventFeed.v
WebApp.v
Notepad.v
Explorer.v
Html.v
PageLink.v
PageTimers.v
NotepadPage.v
Uri.v
ExplorerPage.v
DashboardPage.v
Peers.v
Dashboard.v
DashboardServer.v
MeshCanvas.v
DashboardStatus.v
BenchCli.v
BenchScenarios.v
FinancialBench.v
BenchRunner.v
Sct.v
VectorBench.v
VectorTruth.v
Effects.v
VectorRun.v
Qdrant.v
WormVectors.v
SecurityScript.v
Argv.v
Embedder.v
MemStore.v
AgentFixtures.v
AgentScripts.v
LoadScripts.v
ApiBackend.v
DemoKeys.v
Wasi.v
RedisBench.v
DocsTerminal.v
