(* ===== verification/Prelude.v ===== *)
(** * WormDB's TypeScript programs: a verification library

    WormDB is a key-value server with write-once ([WORM]) keys, written in
    Zig.  The TypeScript of the repository is what talks to it: a wire
    protocol and three clients for Bun ([apps/bun/src/lib]), a client for
    browsers ([apps/browser/src]), a benchmark, two small web servers, a
    command line and a few typed wrappers.  This library models that code and
    proves what its parts promise.

    ** The parts and how they interact

    - Text and bytes: [Utf8] ([TextEncoder], [TextDecoder]), [TypedArray]
      ([Uint8Array], [DataView]), [JsText] (strings), [Number] (numbers from
      text), [Base64], [Json] ([JSON.parse], [JSON.stringify]).  These are
      the parts of the language the programs rely on, as their standards
      define them.
    - The protocol: [Command] ([lib/command.ts], the commands and their text
      form), [Protocol] ([lib/protocol.ts], responses), [Wire]
      ([lib/wire.ts], frames), [BrowserWire] ([apps/browser/src/wire.ts]).
      [WireServer] is the other side ([src/protocol/wire.zig]): it is there so
      that the theorems can say that the server reads what the clients send
      and that the clients read what the server answers.
    - The clients: [Transport] is the write path with its backlog, [Pool] the
      queue of pending requests with their timers and promises; [Client] is
      the keep-alive client of [lib/client.ts], [OneShot] its other mode,
      [WormDB] the managed client of [lib/wormdb.ts] (reconnection,
      re-authentication, subscriptions), [Events] its event iterator,
      [WormDBApi] its typed calls, [BrowserClient] the client of
      [apps/browser/src/client.ts].  Each client is a record of its fields
      and of the runtime objects they refer to, with one function per entry
      point (call, callback, timer) and a function [step] on events; the
      theorems are about every sequence of events.  The runtime's
      [socket.write] is a parameter.
    - The programs on top of the clients: [Prog] is the form of asynchronous
      code that sends text commands, with a run of one program and the
      interleaving of several; [KvServer] answers the commands as
      [src/storage/store.zig] and the procedures do.  [BenchScenarios],
      [Notepad] and [Explorer] are programs of this form
      ([lib/bench/scenarios.ts], [bin/notepad.ts], [bin/explorer.ts]);
      [WebApp] and [EventFeed] are what the two web servers share, [Mem] is
      [examples/agent-memory/client/mem.ts], [ClientCli] is [bin/client.ts],
      [BenchCli] and [BenchRunner] are [lib/bench/cli.ts] and [runner.ts],
      and [Sct] is [apps/browser/demo/auth-provider.ts] with the reader of
      tokens of [src/server/auth.zig].
    - The dashboard ([bin/ui.ts]): [Peers] reads the cluster's members and
      chooses endpoints, [Dashboard] is the module's state (subscription,
      polls, failover) as a state machine, [DashboardServer] its HTTP and
      WebSocket handlers as programs of their effects.
    - The pages: [Html] is what they make of untrusted text, [PageLink] the
      reconnecting WebSocket they share, [PageTimers] their timers, [Uri] the
      keys in the paths they request.  [NotepadPage] ([notepad/app.ts]) and
      [ExplorerPage] ([explorer/app.ts]) are a page's state and elements with
      a function [step] on events: an action of the user, an answer to a
      request (each call is cut at its [await]s), a timer, a message.  Their
      requests are those the handlers of [Notepad] and [Explorer] receive.
      [DashboardPage] is the console and the container panel of [ui/app.ts],
      [DashboardStatus] its statuses, views, events and deployment buttons,
      and [MeshCanvas] the nodes and the render loop of [ui/mesh.ts]; they
      receive what [Dashboard] broadcasts.
    - The financial benchmark ([bin/financial-bench.ts]): [FinancialBench]
      runs the same transfers as procedures of WormDB, as a script of Redis
      and as separate commands of Redis, with seeding and the check of the
      total.
    - The vector benchmark ([bench/vector]): [Effects] is a computation over
      the world of a script, with a clock and errors.  [VectorBench] is the
      calls of the WormDB adapter, the metrics and the arguments of the
      runner, [VectorTruth] the data sets with their ground truth,
      [VectorRun] the runner over the class [Adapter], with the class
      [Answering] of adapters whose commands succeed, whatever their searches
      find; [Qdrant] and [WormVectors] are its two adapters, over classes of
      what they rely on.
    - The agent-memory demo ([examples/agent-memory]): [Embedder] and
      [AgentFixtures] are its hash embedder and its sessions, [AgentScripts]
      its three scripts as computations over a server, and [MemStore] what
      the procedures of [src/procedures/memory.zig] store of a namespace.
    - Scripts: [SecurityScript] is the encoders, the reader of the socket,
      the fixture and the run of tests of [scripts/test-security.ts], with
      the WebSocket codec of the gateway; [LoadScripts] the pipelined load
      of [vinsert-diagnostic.ts], [set-baseline.ts] and
      [async-parallel-test.ts]; [Argv] the loop over the arguments that
      scripts share.  [RedisBench] is [redis-bench.ts], over Redis as a
      parameter, and [Wasi] the host functions of [scripts/wasi-shim.mjs].
      [ApiBackend] is the REST backend of the browser demo, [DemoKeys] its
      key files and its file server.  [DocsTerminal] is the simulated
      terminal of the documentation.

    Definitions keep the names of the source where they can; a comment names
    the expression of the code otherwise.

    ** What the theorems show

    - [WireTheorems]: the encoders write the documented layout, the server
      reads back each command and the client each response, in whatever
      pieces the stream arrives; decoding never throws.  [BrowserWire]: the
      two protocol modules agree.
    - [Transport], [ClientTheorems], [OneShot], [WormDBTheorems]: bytes are
      written in order and none twice; responses settle requests in order; a
      closed connection, a timeout and a [close] settle what they must; a new
      connection replays the token and the subscriptions; reconnection is
      delayed within bounds and gives up when told to.  [WormDBInvariant]: the
      accounting that holds of the managed client after any run of events,
      also of one whose socket goes away below a call or refuses a write, and
      where such a run leaves a request waiting that nothing will answer.
      [BrowserClientTheorems]: the n-th response on a connection is given to
      the n-th request sent on it that has not timed out, which is its own as
      long as none has ([b_late_response_misroutes] otherwise).
    - [Events]: the queue is bounded and in order.  [WormDBApiTheorems],
      [Mem]: the options a caller sets are the ones the procedures read.
    - [BenchScenarios]: the client-side transfer does what the server's does
      when it runs alone, and the server's conserves the total under any
      interleaving.  [BenchRunner]: every operation is launched and counted
      once, the run ends, the percentiles are percentiles.  [BenchCli]: what
      parses is in range.
    - [Notepad], [Explorer]: what is created reads back and heads the list;
      what is locked stays as it was.  [EventFeed]: the feed never stops
      trying and relays every event.
    - [Peers], [Dashboard]: a poll reads the list the server prints, one peer
      per address, the first listed that is not gone, and learns the endpoints
      of those alive that it keeps; the subscription never stops trying; repeated failures move
      it to another endpoint.  [DashboardServer]: the commands that requests
      can cause on the host, with and without the admin token, and the event
      stream in any segmentation that cuts no character.
    - [NotepadPage], [ExplorerPage]: the elements show the state, whatever
      the order of actions and answers; what is typed is sent; what is saved
      reads back from the server; a request reaches the handler of its key,
      or, for the keys an address cannot carry, none.
      [DashboardPage]: the panel shows the last list, its count, states and
      busy marks, although cards are reused, and the console recalls what was
      entered.  [DashboardStatus]: the health, the nodes and the members shown
      are those of the last poll, whether or not it had the list of peers; [MeshCanvas]: the canvas has a node per member and no other.
      [Html]: escaped text reads back, the sanitised tree has no active
      element.
    - [FinancialBench]: the benchmark passes its own check whatever the
      interleaving and the draws, and ends given its turns ([Prog]'s [safe]
      and [within]); the script and the separate commands of Redis agree when
      nothing comes between.
    - [Sct]: the server's verdict on every token the provider mints, at any
      time and for any maximal age (its default refuses the provider's), and a
      chat login gives the chat permissions and no others.  [DemoKeys]: the
      provider signs with the keys that were saved.
    - [VectorTruth]: the ground truth is made of the nearest vectors in
      order.  [VectorRun], [WormVectors]: whatever the searches find, a whole
      run ends and reports the recall of their answers and a latency for each
      query, in any order of the concurrent answers; it is full recall if they
      find the nearest.
    - [Embedder]: the vector of a text depends on its words as a multiset;
      in an even number of dimensions the sign of a word is the parity of its
      bucket, so no two words cancel.  [MemStore], [AgentScripts]: an ingestion stores each chunk
      once and nothing else, a second one is refused, and the benchmark
      reports the recall of what the searches found.
    - [SecurityScript]: what the script sends the gateway reads as the
      command it encodes, and what the server answers the script reads, in
      any segmentation, with the one length for which it does not.
    - [LoadScripts]: however the pipelined calls are answered, every key is
      written with its own value, nothing else is, and every strategy is
      reported.  [ApiBackend]: what is posted reads back.  [RedisBench]: every
      operation is counted once, whatever fails.  [Wasi]: what the engine
      prints arrives in order, a buffer is filled whole and nothing else is,
      and no import changes the size of the memory.  [DocsTerminal]: the
      simulated terminal keeps the store the server keeps, for the lines that
      mean the same to both.

    Next to a theorem stand the executions on which a promise one might
    expect does not hold: a late response that settles another request, a
    [close] that is undone, a transfer to oneself that creates money, a key
    with a space that is written elsewhere, a failover that never tries the
    third endpoint, a WebSocket that asks for no token, a text typed for one
    key and saved under another, a card that stays busy, a refresh that
    hides a failure, client-side transfers whose total drifts.

    ** Bounds and fuel

    Loops that are not structural take fuel that is enough by construction:
    a frame is at least five bytes, so the receive loops run at most as many
    rounds as the buffer has bytes; [JSON.parse] recurses on a text at most
    as often as it has units, plus one; [fill] of the driver adds an
    operation per round and so ends within its free places; the loop of
    [ensureReady] needs two rounds ([ensureReady_settles]).  No theorem takes
    the fuel as a hypothesis; the search of [FinancialBench] for a second
    account, which the code leaves to chance, reports that it is still
    drawing.  Integers of the wire are written out at their
    width; numbers from text are rationals rounded to doubles, without the
    sign of zero, and JSON numbers keep their text.

    ** What is not modelled

    Sockets, timers, the clock, [Math.random] and signatures are events or
    parameters.  Not modelled: the positions and the drawing of the canvas, the
    charts of the dashboard page; printing and
    [process.exit]; the WebSocket upgrade and the building of pages in the web
    servers; the loop of the benchmark over its
    tests; the report of the vector benchmark and its bulk probe; the tests
    themselves of the security script, which are requests to a live server;
    [scatter-smoke.ts], [vector-sanity.ts], [overlay-op.ts] and the smoke
    tests of the WebAssembly build, which try a running server, cluster or
    module; the other
    components of the documentation site.  The Zig server is modelled only where a client's promise
    needs it: keys and values are compared as texts, and the metadata of a
    key is cut to its buffer by units.  Callbacks run one at a time, as on
    the event loop. *)
From Stdlib Require Export ZArith Lia String Ascii.
From stdpp Require Export base option list numbers gmap.

#[global] Open Scope Z_scope.

(** ** JavaScript values

    A JavaScript string is the sequence of its UTF-16 code units; a
    [Uint8Array] is the sequence of its bytes.  Both are lists of integers;
    [is_byte] and [is_unit] bound their elements. *)

Abbreviation jsstr := (list Z) (only parsing).
Abbreviation bytes := (list Z) (only parsing).

(** ASCII literals of the source as JavaScript strings. *)
Definition js (s : string) : jsstr :=
  (λ a, Z.of_N (N_of_ascii a)) <$> list_ascii_of_string s.

(** [.length] as a JavaScript number. *)
Definition len {A} (l : list A) : Z := Z.of_nat (length l).

Definition is_byte (b : Z) : Prop := 0 ≤ b < 256.
Definition is_unit (c : Z) : Prop := 0 ≤ c < 65536.

#[export] Instance is_byte_dec b : Decision (is_byte b).
Proof. unfold is_byte. apply _. Defined.
#[export] Instance is_unit_dec c : Decision (is_unit c).
Proof. unfold is_unit. apply _. Defined.

(** ** Exceptions

    The values the modelled code throws or rejects with: the built-in errors
    it can raise, and the error classes it declares. *)

Inductive exn :=
| RangeError
| SyntaxError
| TypeError
| Error (message : jsstr)
| PayloadTooLargeError (size : Z)
| ClientTimeoutError (timeoutMs : Z)
| ClientConnectionClosedError
| WormServerError (message : jsstr)
| WormDBError (message : jsstr)
| MemError (procedure : jsstr) (message : jsstr).

#[export] Instance exn_eq_dec : EqDecision exn.
Proof. solve_decision. Defined.

Inductive res (A : Type) :=
| Ok (a : A)
| Throw (e : exn).
Arguments Ok {A} a.
Arguments Throw {A} e.

#[export] Instance res_eq_dec {A} `{EqDecision A} : EqDecision (res A).
Proof. solve_decision. Defined.

#[export] Instance res_ret : MRet res := @Ok.
#[export] Instance res_bind : MBind res := λ A B f m,
  match m with Ok a => f a | Throw e => Throw e end.
#[export] Instance res_fmap : FMap res := λ A B f m,
  match m with Ok a => Ok (f a) | Throw e => Throw e end.

(** ** Index arithmetic shared by [slice] and [subarray]

    A negative index counts from the end; indices are clamped to the
    length; an empty range results when the end is not after the start. *)

Definition clamp_index (n k : Z) : Z :=
  if k <? 0 then Z.max 0 (n + k) else Z.min k n.

Definition slice {A} (l : list A) (i j : Z) : list A :=
  let i' := clamp_index (len l) i in
  let j' := clamp_index (len l) j in
  take (Z.to_nat (j' - i')) (drop (Z.to_nat i') l).

Definition slice_from {A} (l : list A) (i : Z) : list A := slice l i (len l).

(** ** Automation *)

Create HintDb wormdb discriminated.
Create Rewrite HintDb len.

Lemma len_nil {A} : len (@nil A) = 0.
Proof. done. Qed.
Lemma len_cons {A} (x : A) l : len (x :: l) = 1 + len l.
Proof. unfold len; cbn [length]; lia. Qed.
Lemma len_app {A} (l k : list A) : len (l ++ k) = len l + len k.
Proof. unfold len; rewrite length_app; lia. Qed.
Lemma len_nonneg {A} (l : list A) : 0 ≤ len l.
Proof. unfold len; lia. Qed.
Lemma len_replicate {A} n (x : A) : len (replicate n x) = Z.of_nat n.
Proof. unfold len; by rewrite length_replicate. Qed.
Lemma len_fmap {A B} (f : A → B) l : len (f <$> l) = len l.
Proof. unfold len; by rewrite length_fmap. Qed.
Lemma len_take {A} n (l : list A) : len (take n l) = Z.min (Z.of_nat n) (len l).
Proof. unfold len; rewrite length_take; lia. Qed.
Lemma len_drop {A} n (l : list A) : len (drop n l) = Z.max 0 (len l - Z.of_nat n).
Proof. unfold len; rewrite length_drop; lia. Qed.
Lemma len_0_nil {A} (l : list A) : len l = 0 → l = [].
Proof. destruct l; [done|]. rewrite len_cons. pose proof (len_nonneg l). lia. Qed.

#[export] Hint Rewrite @len_nil @len_cons @len_app @len_replicate @len_fmap : len.

(** [len_tac] normalises lengths and closes linear goals about them. *)
Ltac note_len :=
  repeat match goal with
  | |- context [len ?l] => lazymatch goal with
       | _ : 0 ≤ len l |- _ => fail | _ => pose proof (len_nonneg l) end
  | H : context [len ?l] |- _ => lazymatch goal with
       | _ : 0 ≤ len l |- _ => fail | _ => pose proof (len_nonneg l) end
  end.
Ltac len_tac := autorewrite with len in *; note_len; lia.

(** Case analysis on integer tests, feeding the result to [lia]. *)
Ltac case_ztest :=
  match goal with
  | |- context [?a <? ?b] => destruct (Z.ltb_spec a b)
  | |- context [?a <=? ?b] => destruct (Z.leb_spec a b)
  | |- context [?a =? ?b] => destruct (Z.eqb_spec a b)
  end.
Ltac case_ztest_in H :=
  match type of H with
  | context [?a <? ?b] => destruct (Z.ltb_spec a b)
  | context [?a <=? ?b] => destruct (Z.leb_spec a b)
  | context [?a =? ?b] => destruct (Z.eqb_spec a b)
  end.

(** Linear arithmetic after turning quotients and remainders by literals
    into equations. *)
Ltac zdivmod := Z.div_mod_to_equations; lia.

(** ** Slices *)

Lemma slice_app_l {A} (l k : list A) : slice (l ++ k) 0 (len l) = l.
Proof.
  unfold slice, clamp_index. rewrite len_app. note_len.
  repeat case_ztest; try lia.
  replace (Z.to_nat _) with (length l) by (unfold len in *; lia).
  replace (Z.to_nat _) with 0%nat by lia.
  by rewrite drop_0, take_app_length.
Qed.

Lemma slice_mid {A} (a l k : list A) i j :
  i = len a → j = len a + len l → slice (a ++ l ++ k) i j = l.
Proof.
  intros -> ->. unfold slice, clamp_index. rewrite !len_app. note_len.
  repeat case_ztest; try lia.
  replace (Z.to_nat (Z.min (len a) _)) with (length a) by (unfold len in *; lia).
  rewrite drop_app_length.
  replace (Z.to_nat _) with (length l) by (unfold len in *; lia).
  by rewrite take_app_length.
Qed.

Lemma slice_tail {A} (a l : list A) i j :
  i = len a → j = len a + len l → slice (a ++ l) i j = l.
Proof. intros. rewrite <- (app_nil_r l) at 1. by apply slice_mid. Qed.

Lemma slice_from_app {A} (a l : list A) i : i = len a → slice_from (a ++ l) i = l.
Proof.
  intros ->. unfold slice_from.
  rewrite <- (app_nil_r l) at 1. apply slice_mid; len_tac.
Qed.

Lemma slice_drop {A} (l : list A) i : 0 ≤ i → slice_from l i = drop (Z.to_nat i) l.
Proof.
  intros Hi. unfold slice_from, slice, clamp_index. note_len.
  repeat case_ztest; try lia. unfold len in *.
  destruct (Z.le_gt_cases i (Z.of_nat (length l))).
  - rewrite (Z.min_l i) by lia. apply take_ge. rewrite length_drop. lia.
  - rewrite Z.min_r by lia. rewrite !drop_ge by lia. by rewrite take_nil.
Qed.

Lemma slice_take_drop {A} (l : list A) i j :
  0 ≤ i ≤ j → j ≤ len l →
  slice l i j = take (Z.to_nat (j - i)) (drop (Z.to_nat i) l).
Proof.
  intros. unfold slice, clamp_index. repeat case_ztest; try lia.
  by rewrite !Z.min_l by lia.
Qed.

(** ** Lists *)

Lemma hd_error_Some_mem {A} (l : list A) x : hd_error l = Some x → x ∈ l.
Proof. destruct l; [done|]. intros [= ->]. left. Qed.

Lemma filter_all {A} (P : A → Prop) `{∀ x, Decision (P x)} (l : list A) :
  Forall P l → filter P l = l.
Proof.
  induction 1 as [|x l Hx _ IH]; [done|]. by rewrite filter_cons, decide_True, IH by done.
Qed.

Lemma filter_split {A} (P : A → Prop) `{∀ x, Decision (P x)} (l : list A) :
  filter P l ++ filter (λ x, ¬ P x) l ≡ₚ l.
Proof.
  induction l as [|x l IH]; [done|]. rewrite !filter_cons.
  destruct (decide (P x)) as [Hx|Hx].
  - rewrite decide_False by tauto. cbn. by rewrite IH.
  - rewrite decide_True by done. by rewrite <- Permutation_middle, IH.
Qed.

(** A subsequence as long as the whole is the whole. *)
Lemma sublist_all {A} (l k : list A) : l `sublist_of` k → (length k ≤ length l)%nat → l = k.
Proof.
  induction 1 as [|x l k _ IH|x l k H _]; cbn; intros Hn; [done|f_equal; apply IH; lia|].
  apply sublist_length in H. lia.
Qed.

(** ** Literals *)

Lemma js_inj s t : js s = js t → s = t.
Proof.
  unfold js. intros H.
  enough (list_ascii_of_string s = list_ascii_of_string t) as E
    by (rewrite <- (string_of_list_ascii_of_string s), E;
        apply string_of_list_ascii_of_string).
  revert H. generalize (list_ascii_of_string s), (list_ascii_of_string t).
  intros l. induction l as [|a l IH]; intros [|b k] H; try done.
  rewrite !fmap_cons in H. injection H as Hab H. apply N2Z.inj in Hab.
  f_equal; [|by apply IH].
  by rewrite <- (ascii_N_embedding a), Hab, ascii_N_embedding.
Qed.
