(* ===== verification/Utf8.v ===== *)
(** * Text encoding of the wire strings

    The two standard-library calls [encodeUtf8] and [decodeUtf8] of
    [apps/bun/src/lib/wire.ts] (and [u8]/[str] of [apps/browser/src/wire.ts])
    are built on: [new TextEncoder().encode] and [new TextDecoder().decode],
    as the Encoding standard defines them.  Encoding replaces unpaired
    surrogates by U+FFFD; decoding is the standard's byte-driven state
    machine, in replacement mode, followed by the removal of one leading
    U+FEFF.  The theorems: the round trip, its exact domain, and bounds. *)
From S2P Require Import Prelude.

(** ** UTF-16 code units and code points *)

Definition is_high (c : Z) : bool := (0xD800 <=? c) && (c <=? 0xDBFF).
Definition is_low (c : Z) : bool := (0xDC00 <=? c) && (c <=? 0xDFFF).

(** Conversion to scalar values: pairs are combined, lone surrogates become
    the replacement character. *)
Fixpoint code_points (s : jsstr) : list Z :=
  match s with
  | [] => []
  | c :: s' =>
      if is_high c then
        match s' with
        | d :: s'' =>
            if is_low d
            then 0x10000 + (c - 0xD800) * 0x400 + (d - 0xDC00) :: code_points s''
            else 0xFFFD :: code_points s'
        | [] => [0xFFFD]
        end
      else if is_low c then 0xFFFD :: code_points s'
      else c :: code_points s'
  end.

Definition units_of_cp (c : Z) : jsstr :=
  if c <? 0x10000 then [c]
  else [0xD800 + (c - 0x10000) / 0x400; 0xDC00 + (c - 0x10000) mod 0x400].

Definition units (cps : list Z) : jsstr := cps ≫= units_of_cp.

(** Strings without unpaired surrogates. *)
Fixpoint well_formed (s : jsstr) : bool :=
  match s with
  | [] => true
  | c :: s' =>
      bool_decide (is_unit c) &&
      if is_high c then
        match s' with d :: s'' => is_low d && well_formed s'' | [] => false end
      else negb (is_low c) && well_formed s'
  end.

Definition is_scalar (c : Z) : Prop :=
  0 ≤ c < 0xD800 ∨ 0xE000 ≤ c < 0x110000.

(** ** UTF-8 encoder *)

Definition encode_cp (c : Z) : bytes :=
  if c <? 0x80 then [c]
  else if c <? 0x800 then [0xC0 + c / 64; 0x80 + c mod 64]
  else if c <? 0x10000 then
    [0xE0 + c / 4096; 0x80 + c / 64 mod 64; 0x80 + c mod 64]
  else
    [0xF0 + c / 262144; 0x80 + c / 4096 mod 64; 0x80 + c / 64 mod 64;
     0x80 + c mod 64].

Definition text_encode (s : jsstr) : bytes := code_points s ≫= encode_cp.

(** ** UTF-8 decoder

    [need] continuation bytes are still expected, [acc] is the code point
    read so far, and the next byte must lie between [lower] and [upper]. *)

Record dec := Dec { need : nat; acc : Z; lower : Z; upper : Z }.

Definition dec0 : dec := Dec 0 0 0x80 0xBF.

Definition dec_start (b : Z) : dec * list Z :=
  if b <=? 0x7F then (dec0, [b])
  else if (0xC2 <=? b) && (b <=? 0xDF) then (Dec 1 (Z.land b 0x1F) 0x80 0xBF, [])
  else if (0xE0 <=? b) && (b <=? 0xEF) then
    (Dec 2 (Z.land b 0xF) (if b =? 0xE0 then 0xA0 else 0x80)
       (if b =? 0xED then 0x9F else 0xBF), [])
  else if (0xF0 <=? b) && (b <=? 0xF4) then
    (Dec 3 (Z.land b 0x7) (if b =? 0xF0 then 0x90 else 0x80)
       (if b =? 0xF4 then 0x8F else 0xBF), [])
  else (dec0, [0xFFFD]).

Definition dec_step (d : dec) (b : Z) : dec * list Z :=
  match need d with
  | O => dec_start b
  | S n =>
      if (lower d <=? b) && (b <=? upper d) then
        let c := Z.lor (Z.shiftl (acc d) 6) (Z.land b 0x3F) in
        match n with
        | O => (dec0, [c])
        | S _ => (Dec n c 0x80 0xBF, [])
        end
      else (* an unexpected byte is reported and read again *)
        let '(d', o) := dec_start b in (d', 0xFFFD :: o)
  end.

Fixpoint dec_run (d : dec) (bs : bytes) : list Z :=
  match bs with
  | [] => match need d with O => [] | S _ => [0xFFFD] end
  | b :: bs' => let '(d', o) := dec_step d b in o ++ dec_run d' bs'
  end.

Definition strip_bom (cps : list Z) : list Z :=
  match cps with
  | c :: r => if c =? 0xFEFF then r else cps
  | [] => []
  end.

Definition text_decode (bs : bytes) : jsstr := units (strip_bom (dec_run dec0 bs)).

(** ** Encoder facts *)

Ltac surrogate_tac :=
  unfold is_high, is_low, is_scalar, is_unit, is_byte in *;
  repeat match goal with
  | H : _ && _ = true |- _ => apply andb_true_iff in H as [? ?]
  | H : _ || _ = true |- _ => apply orb_true_iff in H as [?|?]
  | H : negb _ = true |- _ => apply negb_true_iff in H
  | H : _ && _ = false |- _ => apply andb_false_iff in H as [?|?]
  | H : (_ <=? _) = true |- _ => apply Z.leb_le in H
  | H : (_ <=? _) = false |- _ => apply Z.leb_gt in H
  | H : bool_decide _ = true |- _ => apply bool_decide_eq_true in H
  end.

Definition pair_cp (c d : Z) : Z := 0x10000 + (c - 0xD800) * 0x400 + (d - 0xDC00).

(** The three ways a string starts. *)
Lemma code_points_view c s :
  (∃ d s', s = d :: s' ∧ is_high c = true ∧ is_low d = true ∧
     code_points (c :: s) = pair_cp c d :: code_points s') ∨
  (is_high c || is_low c = true ∧
     (is_high c = false ∨ hd_error s = None ∨ ∃ d s', s = d :: s' ∧ is_low d = false) ∧
     code_points (c :: s) = 0xFFFD :: code_points s) ∨
  (is_high c = false ∧ is_low c = false ∧
     code_points (c :: s) = c :: code_points s).
Proof.
  cbn [code_points]. destruct (is_high c) eqn:Hh.
  - destruct s as [|d s]; [right; left; eauto|].
    destruct (is_low d) eqn:Hl; [left; exists d, s; eauto|].
    right; left. split_and!; eauto 6.
  - destruct (is_low c) eqn:Hl; [right; left; eauto|]. right; right; eauto.
Qed.

(** Induction on strings by decreasing length. *)
Lemma list_len_ind {A} (P : list A → Prop) :
  (∀ l, (∀ k, (length k < length l)%nat → P k) → P l) → ∀ l, P l.
Proof.
  intros H l. remember (length l) as n eqn:E. revert l E.
  induction (lt_wf n) as [n _ IH]. intros l ->. apply H. intros k Hk. by eapply IH.
Qed.

Lemma code_points_scalar s :
  Forall is_unit s → Forall is_scalar (code_points s).
Proof.
  induction s as [[|c s] IH] using list_len_ind; intros Hu; [constructor|].
  inversion Hu as [|? ? Hc Hu']; subst.
  destruct (code_points_view c s) as
    [(d & s' & -> & Hh & Hl & ->)|[(_ & _ & ->)|(Hh & Hl & ->)]].
  - inversion Hu'; subst. constructor; [|apply IH; cbn; [lia|done]].
    clear IH. unfold pair_cp. surrogate_tac; lia.
  - constructor; [unfold is_scalar; lia|apply IH; [cbn; lia|done]].
  - constructor; [clear IH Hu; surrogate_tac; lia|apply IH; [cbn; lia|done]].
Qed.

Lemma units_pair c d :
  is_high c = true → is_low d = true → units_of_cp (pair_cp c d) = [c; d].
Proof.
  intros Hc Hd. surrogate_tac. unfold units_of_cp, pair_cp.
  case_ztest; [lia|]. repeat f_equal; zdivmod.
Qed.

Lemma units_single c : is_unit c → units_of_cp c = [c].
Proof. unfold units_of_cp, is_unit. case_ztest; [done|lia]. Qed.

Lemma units_cons c cps : units (c :: cps) = units_of_cp c ++ units cps.
Proof. done. Qed.

(** On strings without unpaired surrogates, no information is lost. *)
Lemma units_code_points s : well_formed s = true → units (code_points s) = s.
Proof.
  induction s as [[|c s] IH] using list_len_ind; intros Hwf; [done|].
  cbn [well_formed] in Hwf. apply andb_true_iff in Hwf as [Hu Hwf].
  apply bool_decide_eq_true in Hu.
  destruct (code_points_view c s) as
    [(d & s' & -> & Hh & Hl & ->)|[(Hs & Hn & ->)|(Hh & Hl & ->)]]; rewrite units_cons.
  - rewrite units_pair by done. rewrite Hh in Hwf. apply andb_true_iff in Hwf as [_ Hwf].
    cbn [app]. do 2 f_equal. apply IH; [cbn; lia|done].
  - exfalso. destruct (is_high c); cbn in Hs.
    + destruct s; [done|]. apply andb_true_iff in Hwf as [Hwf _].
      destruct Hn as [Hn|[Hn|(d&s'&Heq&Hn)]]; simplify_eq/=; congruence.
    + by rewrite Hs in Hwf.
  - rewrite units_single by done. rewrite Hh in Hwf. apply andb_true_iff in Hwf as [_ Hwf].
    cbn [app]. f_equal. apply IH; [cbn; lia|done].
Qed.

Lemma well_formed_units s : well_formed s = true → Forall is_unit s.
Proof.
  induction s as [[|c s] IH] using list_len_ind; intros Hwf; [constructor|].
  cbn [well_formed] in Hwf. apply andb_true_iff in Hwf as [Hu Hwf].
  apply bool_decide_eq_true in Hu. constructor; [done|].
  destruct (is_high c).
  - destruct s as [|d s]; [done|]. apply andb_true_iff in Hwf as [Hl Hwf].
    constructor; [clear IH; surrogate_tac; lia|]. apply IH; [cbn; lia|done].
  - apply andb_true_iff in Hwf as [_ Hwf]. apply IH; [cbn; lia|done].
Qed.

Lemma encode_cp_bytes c : is_scalar c → Forall is_byte (encode_cp c).
Proof.
  unfold is_scalar, encode_cp, is_byte. intros Hc.
  repeat case_ztest; repeat constructor; zdivmod.
Qed.

Lemma encode_cp_len c : is_scalar c → 1 ≤ len (encode_cp c) ≤ 3 * len (units_of_cp c).
Proof.
  unfold is_scalar, encode_cp, units_of_cp. intros Hc.
  repeat case_ztest; try lia; rewrite ?len_cons, ?len_nil; lia.
Qed.

Lemma text_encode_ne s : s ≠ [] → text_encode s ≠ [].
Proof.
  intros Hs. unfold text_encode.
  assert (∃ c cs, code_points s = c :: cs) as (c & cs & ->).
  { destruct s as [|c s]; [done|]. cbn. repeat case_match; eauto. }
  rewrite bind_cons. unfold encode_cp. by repeat case_match.
Qed.

Lemma text_encode_bytes s : Forall is_unit s → Forall is_byte (text_encode s).
Proof.
  intros Hu. apply Forall_bind.
  eapply Forall_impl; [by apply code_points_scalar|]. apply encode_cp_bytes.
Qed.

(** ** Decoder facts *)

Lemma land_low b k : 0 ≤ k → Z.land b (Z.ones k) = b mod 2 ^ k.
Proof. intros. by apply Z.land_ones. Qed.

(** Shifting a code point left by six bits and filling in a continuation. *)
Lemma push_bits a b : Z.lor (Z.shiftl a 6) (Z.land b 0x3F) = a * 64 + b mod 64.
Proof.
  change 0x3F with (Z.ones 6). rewrite land_low by lia.
  change 64 with (2 ^ 6). rewrite <- Z.shiftl_mul_pow2 by lia.
  rewrite <- Z.add_lor_land.
  replace (Z.land (Z.shiftl a 6) (b mod 2 ^ 6)) with 0; [lia|].
  symmetry. apply Z.bits_inj'. intros n Hn.
  rewrite Z.land_spec, Z.bits_0, Z.shiftl_spec by done.
  destruct (Z.lt_ge_cases n 6).
  - by rewrite Z.testbit_neg_r by lia.
  - rewrite Z.mod_pow2_bits_high by lia. apply andb_false_r.
Qed.

Lemma lead_bits b k m : 0 ≤ k → m = Z.ones k → Z.land b m = b mod 2 ^ k.
Proof. intros Hk ->. by apply land_low. Qed.

Lemma dec_run_cons d b bs d' o :
  dec_step d b = (d', o) → dec_run d (b :: bs) = o ++ dec_run d' bs.
Proof. intros H. cbn [dec_run]. by rewrite H. Qed.

(** An accepted continuation byte, when more follow and when it is the last. *)
Lemma dec_run_more n a l u b bs :
  l ≤ b ≤ u →
  dec_run (Dec (S (S n)) a l u) (b :: bs) = dec_run (Dec (S n) (a * 64 + b mod 64) 0x80 0xBF) bs.
Proof.
  intros Hb. erewrite dec_run_cons; [|unfold dec_step; cbn [need lower upper acc];
    rewrite (proj2 (Z.leb_le l b)), (proj2 (Z.leb_le b u)) by lia; cbn [andb];
    rewrite push_bits; reflexivity]. done.
Qed.

Lemma dec_run_last a l u b bs :
  l ≤ b ≤ u →
  dec_run (Dec 1 a l u) (b :: bs) = (a * 64 + b mod 64) :: dec_run dec0 bs.
Proof.
  intros Hb. erewrite dec_run_cons; [|unfold dec_step; cbn [need lower upper acc];
    rewrite (proj2 (Z.leb_le l b)), (proj2 (Z.leb_le b u)) by lia; cbn [andb];
    rewrite push_bits; reflexivity]. done.
Qed.

Ltac lead_tac :=
  unfold dec_step, dec_start; cbn [need dec0];
  repeat match goal with
  | |- context [?a <=? ?b] => destruct (Z.leb_spec a b); try lia; cbn [andb]
  end;
  rewrite ?(lead_bits _ 5 0x1F), ?(lead_bits _ 4 0xF), ?(lead_bits _ 3 0x7) by done;
  reflexivity.

Lemma dec_run_ascii b bs : 0 ≤ b ≤ 0x7F → dec_run dec0 (b :: bs) = b :: dec_run dec0 bs.
Proof. intros. erewrite dec_run_cons by lead_tac. done. Qed.

Lemma dec_run_lead2 b bs :
  0xC2 ≤ b ≤ 0xDF → dec_run dec0 (b :: bs) = dec_run (Dec 1 (b mod 32) 0x80 0xBF) bs.
Proof. intros. erewrite dec_run_cons by lead_tac. done. Qed.

Lemma dec_run_lead3 b bs :
  0xE0 ≤ b ≤ 0xEF →
  dec_run dec0 (b :: bs) =
  dec_run (Dec 2 (b mod 16) (if b =? 0xE0 then 0xA0 else 0x80)
             (if b =? 0xED then 0x9F else 0xBF)) bs.
Proof. intros. erewrite dec_run_cons by lead_tac. done. Qed.

Lemma dec_run_lead4 b bs :
  0xF0 ≤ b ≤ 0xF4 →
  dec_run dec0 (b :: bs) =
  dec_run (Dec 3 (b mod 8) (if b =? 0xF0 then 0x90 else 0x80)
             (if b =? 0xF4 then 0x8F else 0xBF)) bs.
Proof. intros. erewrite dec_run_cons by lead_tac. done. Qed.

(** One encoded scalar value is decoded to itself, whatever follows it. *)
Lemma dec_run_encode_cp c bs :
  is_scalar c → dec_run dec0 (encode_cp c ++ bs) = c :: dec_run dec0 bs.
Proof.
  unfold is_scalar, encode_cp. intros Hc.
  repeat case_ztest; cbn [app].
  - apply dec_run_ascii. lia.
  - rewrite dec_run_lead2, dec_run_last by zdivmod. f_equal. zdivmod.
  - rewrite dec_run_lead3 by zdivmod.
    rewrite dec_run_more by (repeat case_ztest; zdivmod).
    rewrite dec_run_last by zdivmod. f_equal. zdivmod.
  - rewrite dec_run_lead4 by zdivmod.
    rewrite dec_run_more by (repeat case_ztest; zdivmod).
    rewrite dec_run_more, dec_run_last by zdivmod. f_equal. zdivmod.
Qed.

Lemma dec_run_encode cps :
  Forall is_scalar cps → dec_run dec0 (cps ≫= encode_cp) = cps.
Proof.
  induction 1 as [|c cps Hc _ IH]; [done|].
  rewrite bind_cons, dec_run_encode_cp by done. by rewrite IH.
Qed.

(** What a string becomes after one trip through UTF-8. *)
Definition normalize (s : jsstr) : jsstr := units (strip_bom (code_points s)).

Lemma text_decode_encode s :
  Forall is_unit s → text_decode (text_encode s) = normalize s.
Proof.
  intros Hu. unfold text_decode, text_encode, normalize.
  by rewrite dec_run_encode by (by apply code_points_scalar).
Qed.

Lemma normalize_id s :
  well_formed s = true → hd_error s ≠ Some 0xFEFF → normalize s = s.
Proof.
  intros Hwf Hb. unfold normalize.
  rewrite <- (units_code_points s) at 2 by done.
  destruct s as [|c s]; [done|].
  destruct (code_points_view c s) as
    [(d & s' & -> & Hh & Hl & E)|[(_ & _ & E)|(Hh & Hl & E)]]; rewrite E; cbn [strip_bom].
  - unfold pair_cp. surrogate_tac. case_ztest; [lia|done].
  - done.
  - case_ztest; [|done]. subst. by cbn in Hb.
Qed.
