(* ===== verification/TypedArray.v ===== *)
(** * Typed arrays

    The part of the JavaScript standard library the wire encoders and the
    token minting use: [Uint8Array] allocation, element and block writes, and
    big-endian [DataView] accesses.  Operations that raise return
    [Throw RangeError]; an element store out of range is ignored, as in
    JavaScript.  [filling] describes a zero-initialised array after a run of
    consecutive writes, which is how every encoder of the repository works. *)
From S2P Require Import Prelude.

(** ** Operations *)

(** [new Uint8Array(n)] *)
Definition new_u8 (n : Z) : bytes := replicate (Z.to_nat n) 0.

(** [b[i] = v] *)
Definition put_byte (b : bytes) (i v : Z) : bytes :=
  if (0 <=? i) && (i <? len b) then <[Z.to_nat i := v mod 256]> b else b.

(** [b.set(data, off)] *)
Definition set_at (b : bytes) (off : Z) (data : bytes) : res bytes :=
  if (off <? 0) || (len b <? off + len data) then Throw RangeError
  else Ok (take (Z.to_nat off) b ++ data ++ drop (Z.to_nat (off + len data)) b).

(** The [n] bytes of [v] modulo [256^n], most significant first. *)
Fixpoint be_bytes (n : nat) (v : Z) : bytes :=
  match n with
  | O => []
  | S n' => (v / 256 ^ Z.of_nat n') mod 256 :: be_bytes n' v
  end.

Fixpoint be_value (a : Z) (bs : bytes) : Z :=
  match bs with [] => a | b :: bs' => be_value (a * 256 + b) bs' end.

(** [DataView.setUint32(off, v, false)] and [setBigUint64]: the value is
    taken modulo the width. *)
Definition setUint32 (b : bytes) (off v : Z) : res bytes := set_at b off (be_bytes 4 v).
Definition setBigUint64 (b : bytes) (off v : Z) : res bytes := set_at b off (be_bytes 8 v).

(** [DataView.getUint32(off, false)] *)
Definition getUint32 (b : bytes) (off : Z) : res Z :=
  if (off <? 0) || (len b <? off + 4) then Throw RangeError
  else Ok (be_value 0 (slice b off (off + 4))).

(** ** Big-endian integers *)

Lemma len_be_bytes n v : len (be_bytes n v) = Z.of_nat n.
Proof. induction n as [|n IH]; [done|]. cbn [be_bytes]. rewrite len_cons, IH. lia. Qed.
#[export] Hint Rewrite len_be_bytes : len.

Lemma be_bytes_byte n v : Forall is_byte (be_bytes n v).
Proof.
  induction n as [|n IH]; constructor; [|done].
  unfold is_byte. apply Z.mod_pos_bound. lia.
Qed.

Lemma be_value_acc a bs : be_value a bs = a * 256 ^ len bs + be_value 0 bs.
Proof.
  revert a. induction bs as [|b bs IH]; intros a; cbn [be_value]; [change (len []) with 0; lia|].
  rewrite IH, (IH (0 * 256 + b)), len_cons. note_len.
  rewrite Z.pow_add_r by lia. ring.
Qed.

Lemma be_value_bytes n v : be_value 0 (be_bytes n v) = v mod 256 ^ Z.of_nat n.
Proof.
  induction n as [|n IH]; cbn [be_bytes be_value]; [by rewrite Z.mod_1_r|].
  rewrite be_value_acc, IH, len_be_bytes, Nat2Z.inj_succ, Z.pow_succ_r by lia.
  assert (0 < 256 ^ Z.of_nat n) by (apply Z.pow_pos_nonneg; lia).
  rewrite (Z.mul_comm 256), Z.rem_mul_r by lia. ring.
Qed.

Lemma be_value_bounds bs : Forall is_byte bs → 0 ≤ be_value 0 bs < 256 ^ len bs.
Proof.
  induction 1 as [|c bs Hc _ IH]; [by split|].
  cbn [be_value]. rewrite (be_value_acc (0 * 256 + c)), len_cons.
  pose proof (len_nonneg bs). rewrite Z.pow_add_r by lia. unfold is_byte in *. nia.
Qed.

Lemma be_bytes_value bs :
  Forall is_byte bs → be_bytes (length bs) (be_value 0 bs) = bs.
Proof.
  assert (∀ bs a, Forall is_byte bs → 0 ≤ a →
    be_bytes (length bs) (be_value a bs) = bs) as H; [|by intros; apply H].
  clear bs. induction bs as [|b bs IH]; intros a Hb Ha; [done|].
  inversion Hb as [|? ? Hb1 Hb2]; subst. cbn [length be_bytes be_value].
  unfold is_byte in Hb1. f_equal; [|apply IH; [done|lia]].
  fold (len bs).
  rewrite be_value_acc.
  assert (0 ≤ be_value 0 bs < 256 ^ len bs) as Hr.
  { by apply be_value_bounds. }
  rewrite Z.add_comm, Z.div_add by lia.
  rewrite Z.div_small, Z.add_0_l, Z.add_comm, Z.mod_add by lia.
  apply Z.mod_small. lia.
Qed.

#[global] Arguments be_bytes : simpl never.

(** Reading back a 32-bit field that lies anywhere in a buffer. *)
Lemma getUint32_at pre v post off :
  off = len pre → 0 ≤ v < 2 ^ 32 → getUint32 (pre ++ be_bytes 4 v ++ post) off = Ok v.
Proof.
  intros -> Hv. unfold getUint32. autorewrite with len. note_len.
  repeat case_ztest; try lia. cbn [orb].
  rewrite slice_mid by (rewrite ?len_be_bytes; lia).
  rewrite be_value_bytes. f_equal. apply Z.mod_small. lia.
Qed.

(** ** Arrays filled from the left *)

(** A zeroed array of [n] bytes whose first bytes have been written. *)
Definition filling (n : Z) (pre : bytes) : bytes :=
  pre ++ replicate (Z.to_nat (n - len pre)) 0.

Lemma filling_start n : new_u8 n = filling n [].
Proof. unfold filling, new_u8. change (len []) with 0. by rewrite Z.sub_0_r. Qed.

Lemma filling_done n pre : len pre = n → filling n pre = pre.
Proof. intros <-. unfold filling. by rewrite Z.sub_diag, app_nil_r. Qed.

Lemma len_filling n pre : len pre ≤ n → len (filling n pre) = n.
Proof. intros. unfold filling. len_tac. Qed.

Lemma set_at_filling n pre data off :
  off = len pre → len pre + len data ≤ n →
  set_at (filling n pre) off data = Ok (filling n (pre ++ data)).
Proof.
  intros -> Hn. unfold set_at. note_len. rewrite len_filling by lia.
  repeat case_ztest; try lia. cbn [orb]. f_equal.
  unfold filling. rewrite <- app_assoc.
  rewrite take_app_length' by (unfold len; lia). f_equal. f_equal.
  rewrite drop_app_ge by (unfold len in *; lia).
  rewrite drop_replicate, len_app. f_equal. unfold len in *. lia.
Qed.

Lemma setUint32_filling n pre v off :
  off = len pre → len pre + 4 ≤ n →
  setUint32 (filling n pre) off v = Ok (filling n (pre ++ be_bytes 4 v)).
Proof. intros. apply set_at_filling; [done|rewrite len_be_bytes; lia]. Qed.

Lemma setBigUint64_filling n pre v off :
  off = len pre → len pre + 8 ≤ n →
  setBigUint64 (filling n pre) off v = Ok (filling n (pre ++ be_bytes 8 v)).
Proof. intros. apply set_at_filling; [done|rewrite len_be_bytes; lia]. Qed.

Lemma put_byte_filling n pre v off :
  off = len pre → len pre + 1 ≤ n →
  put_byte (filling n pre) off v = filling n (pre ++ [v mod 256]).
Proof.
  intros -> Hn. unfold put_byte. note_len. rewrite len_filling by lia.
  repeat case_ztest; try lia. cbn [andb]. unfold filling.
  rewrite insert_app_r_alt by (unfold len; lia).
  replace (Z.to_nat (n - len pre)) with (S (Z.to_nat (n - len (pre ++ [v mod 256]))))
    by (rewrite len_app, len_cons, len_nil; lia).
  replace (Z.to_nat (len pre) - length pre)%nat with 0%nat by (unfold len; lia).
  cbn. by rewrite <- app_assoc.
Qed.

(** Executes the next write of an encoder on a [filling]; the remaining
    arithmetic on offsets is linear. *)
Ltac fill_step :=
  first
    [ rewrite filling_start
    | rewrite put_byte_filling by len_tac
    | rewrite setUint32_filling by len_tac
    | rewrite setBigUint64_filling by len_tac
    | rewrite set_at_filling by len_tac ];
  cbn [mbind res_bind].
Ltac fill := repeat fill_step.
