(* ===== verification/JsText.v ===== *)
(** * String operations

    The [String.prototype] operations the clients use, on UTF-16 code units:
    [trim], [split(/\s+/)], [join], [startsWith], [includes], [toUpperCase]
    and [toLowerCase], and the decimal rendering of integers.  The full
    Unicode case mapping of non-ASCII code points is data of the runtime: it
    is the only member of [UnicodeData]. *)
From stdpp Require Import pretty.
From S2P Require Import Prelude Utf8.

(** ** White space (the class [\s], which is also what [trim] removes) *)

Definition is_space (c : Z) : bool :=
  ((9 <=? c) && (c <=? 13)) || (c =? 32) || (c =? 160) || (c =? 0x1680) ||
  ((0x2000 <=? c) && (c <=? 0x200A)) || (c =? 0x2028) || (c =? 0x2029) ||
  (c =? 0x202F) || (c =? 0x205F) || (c =? 0x3000) || (c =? 0xFEFF).

Definition is_line_terminator (c : Z) : bool :=
  (c =? 10) || (c =? 13) || (c =? 0x2028) || (c =? 0x2029).

(** The longest prefix satisfying [f], and the rest. *)
Fixpoint span {A} (f : A → bool) (l : list A) : list A * list A :=
  match l with
  | [] => ([], [])
  | x :: r => if f x then let '(a, b) := span f r in (x :: a, b) else ([], l)
  end.

Definition trimStart (s : jsstr) : jsstr := snd (span is_space s).
Definition trimEnd (s : jsstr) : jsstr := rev (trimStart (rev s)).
Definition trim (s : jsstr) : jsstr := trimEnd (trimStart s).

(** [s.split(/\s+/)]: [sep] says that the previous unit was white space,
    [cur] is the current part. *)
Fixpoint split_space_from (sep : bool) (cur s : jsstr) : list jsstr :=
  match s with
  | [] => [cur]
  | c :: s' =>
      if is_space c then
        if sep then split_space_from true cur s'
        else cur :: split_space_from true [] s'
      else split_space_from false (cur ++ [c]) s'
  end.
Definition split_space (s : jsstr) : list jsstr := split_space_from false [] s.

(** [s.split(d)] for a one-unit separator. *)
Fixpoint split_on_from (d : Z) (cur s : jsstr) : list jsstr :=
  match s with
  | [] => [cur]
  | c :: s' =>
      if c =? d then cur :: split_on_from d [] s' else split_on_from d (cur ++ [c]) s'
  end.
Definition split_on (d : Z) (s : jsstr) : list jsstr := split_on_from d [] s.

(** [parts.join(sep)] *)
Fixpoint join (sep : jsstr) (parts : list jsstr) : jsstr :=
  match parts with
  | [] => []
  | [p] => p
  | p :: r => p ++ sep ++ join sep r
  end.

Fixpoint startsWith (s p : jsstr) {struct p} : bool :=
  match p, s with
  | [], _ => true
  | a :: p', b :: s' => (a =? b) && startsWith s' p'
  | _, [] => false
  end.

Fixpoint includes (s p : jsstr) : bool :=
  startsWith s p || match s with [] => false | _ :: s' => includes s' p end.

(** ** Case conversion *)

Class UnicodeData := {
  upper_other : Z → list Z;  (* full upper-case mapping above U+007F *)
  lower_other : Z → list Z;  (* full lower-case mapping above U+007F *)
}.

(** Code points with unpaired surrogates kept, as string iteration sees them. *)
Fixpoint iterate (s : jsstr) : list Z :=
  match s with
  | [] => []
  | c :: s' =>
      match s' with
      | d :: s'' =>
          if is_high c && is_low d then pair_cp c d :: iterate s''
          else c :: iterate s'
      | [] => [c]
      end
  end.

Section Case.
Context {UD : UnicodeData}.

Definition upper_cp (c : Z) : list Z :=
  if c <? 128 then [if (97 <=? c) && (c <=? 122) then c - 32 else c]
  else upper_other c.
Definition lower_cp (c : Z) : list Z :=
  if c <? 128 then [if (65 <=? c) && (c <=? 90) then c + 32 else c]
  else lower_other c.

Definition toUpperCase (s : jsstr) : jsstr := units (iterate s ≫= upper_cp).
Definition toLowerCase (s : jsstr) : jsstr := units (iterate s ≫= lower_cp).
End Case.

(** ** Numbers as text: [String(n)] of an integer below 10^21 *)
Definition show (n : Z) : jsstr := js (pretty n).

(** ** Facts *)

Definition no_space (s : jsstr) : Prop := Forall (λ c, is_space c = false) s.
#[export] Instance no_space_dec s : Decision (no_space s).
Proof. unfold no_space. apply _. Defined.

(** A word: what [split(/\s+/)] returns between separators. *)
Definition word (s : jsstr) : Prop := s ≠ [] ∧ no_space s.
#[export] Instance word_dec s : Decision (word s).
Proof. unfold word. apply _. Defined.

Lemma span_app {A} (f : A → bool) l k :
  Forall (λ x, f x = true) l →
  match k with [] => True | x :: _ => f x = false end →
  span f (l ++ k) = (l, k).
Proof.
  induction 1 as [|x l Hx _ IH]; cbn [app span]; intros Hk.
  - destruct k as [|x k]; [done|]. cbn. by rewrite Hk.
  - by rewrite Hx, IH.
Qed.

Lemma split_space_word sep cur w s :
  no_space w → w ≠ [] →
  split_space_from sep cur (w ++ s) = split_space_from false (cur ++ w) s.
Proof.
  intros Hw. revert sep cur. induction Hw as [|c w Hc _ IH]; intros sep cur Hne; [done|].
  cbn [app split_space_from]. rewrite Hc.
  destruct w as [|d w]; [done|]. rewrite IH by done. by rewrite <- app_assoc.
Qed.

(** Words joined by single spaces split back into themselves. *)
Lemma split_space_join ws :
  ws ≠ [] → Forall word ws → split_space (join (js " ") ws) = ws.
Proof.
  unfold split_space. intros Hne Hws.
  assert (∀ sep, split_space_from sep [] (join (js " ") ws) = ws) as H; [|apply H].
  revert Hne. induction Hws as [|w ws [Hw1 Hw2] _ IH]; intros Hne sep; [done|].
  destruct ws as [|w' ws].
  - cbn [join]. rewrite <- (app_nil_r w), split_space_word by done. by rewrite app_nil_r.
  - change (join (js " ") (w :: w' :: ws)) with (w ++ 32 :: join (js " ") (w' :: ws)).
    rewrite split_space_word by done. cbn [app split_space_from]. f_equal.
    by apply IH.
Qed.

Lemma trimStart_word s : no_space (take 1 s) → trimStart s = s.
Proof.
  unfold trimStart, no_space. destruct s as [|c s]; [done|]. cbn.
  intros H. inversion H as [|? ? Hc]; subst. by rewrite Hc.
Qed.

Lemma trimEnd_word s c : is_space c = false → trimEnd (s ++ [c]) = s ++ [c].
Proof.
  intros Hc. unfold trimEnd. rewrite rev_app_distr. cbn [rev app].
  rewrite trimStart_word by (cbn; unfold no_space; auto).
  cbn [rev]. by rewrite rev_involutive.
Qed.

Lemma join_cons2 sep p q r : join sep (p :: q :: r) = p ++ sep ++ join sep (q :: r).
Proof. done. Qed.

(** A sequence of words joined by spaces is already trimmed. *)
Lemma trim_join ws : ws ≠ [] → Forall word ws → trim (join (js " ") ws) = join (js " ") ws.
Proof.
  intros Hne Hws. unfold trim. rewrite trimStart_word.
  - assert (∃ s c, join (js " ") ws = s ++ [c] ∧ is_space c = false) as (s & c & E & Hc);
      [|rewrite E; by apply trimEnd_word].
    revert Hne. induction Hws as [|w ws [Hw1 Hw2] _ IH]; intros Hne; [done|].
    destruct ws as [|w' ws].
    + cbn [join]. destruct w as [|c w _] using rev_ind; [done|].
      exists w, c. split; [done|]. apply Forall_app in Hw2 as [_ Hw2]. by inversion Hw2.
    + destruct IH as (s & c & E & Hc); [done|]. rewrite join_cons2, E.
      exists (w ++ js " " ++ s), c. by rewrite <- !app_assoc.
  - destruct Hws as [|w ws [Hw1 Hw2] _]; [done|].
    destruct w as [|c w]; [done|]. inversion Hw2; subst.
    destruct ws; repeat constructor; done.
Qed.

(** A part without the separator is kept whole. *)
Lemma split_on_part d a s cur : d ∉ a →
  split_on_from d cur (a ++ d :: s) = (cur ++ a) :: split_on_from d [] s.
Proof.
  revert cur. induction a as [|c a IH]; intros cur Ha; cbn.
  - by rewrite Z.eqb_refl, app_nil_r.
  - apply not_elem_of_cons in Ha as [Hc Ha]. destruct (Z.eqb_spec c d) as [->|_]; [done|].
    rewrite IH by done. by rewrite <- app_assoc.
Qed.
Lemma split_on_last d a cur : d ∉ a → split_on_from d cur a = [cur ++ a].
Proof.
  revert cur. induction a as [|c a IH]; intros cur Ha; cbn; [by rewrite app_nil_r|].
  apply not_elem_of_cons in Ha as [Hc Ha]. destruct (Z.eqb_spec c d) as [->|_]; [done|].
  rewrite IH by done. by rewrite <- app_assoc.
Qed.

Lemma startsWith_app p s : startsWith (p ++ s) p = true.
Proof. induction p as [|a p IH]; [by destruct s|]. cbn. by rewrite Z.eqb_refl, IH. Qed.

Lemma startsWith_true s p : startsWith s p = true ↔ ∃ r, s = p ++ r.
Proof.
  split; [|intros [r ->]; apply startsWith_app].
  revert s. induction p as [|a p IH]; intros [|b s]; cbn; intros H; eauto; [done|].
  apply andb_true_iff in H as [->%Z.eqb_eq H]. destruct (IH _ H) as [r ->]. by exists r.
Qed.

Lemma iterate_ascii s : Forall (λ c, c < 128) s → iterate s = s.
Proof.
  induction 1 as [|c s Hc _ IH]; [done|]. cbn [iterate].
  destruct s as [|d s]; [done|]. unfold is_high.
  destruct (Z.leb_spec 0xD800 c); [lia|]. cbn [andb]. by rewrite IH.
Qed.
