(* ===== verification/Number.v ===== *)
(** * Numbers from text

    [Number(text)], [parseInt(text)] and the tests the clients make of their
    results.  A number is [NaN], an infinity, or the rational value of a
    double; [to_double] rounds to the nearest double, ties to even.  The sign
    of zero is not represented. *)
From Stdlib Require Import QArith Qround.
From Stdlib Require Qcanon.
From stdpp Require pretty.
From S2P Require Import Prelude JsText.
#[local] Open Scope Z_scope.

Inductive num := NaN | Infinity (negative : bool) | Fin (q : Q).

(** ** Rounding *)

(** [n / d] rounded to the nearest integer, ties to even. *)
Definition round_half_even (n d : Z) : Z :=
  let q := n / d in
  let r := n mod d in
  if 2 * r <? d then q else if d <? 2 * r then q + 1 else if Z.even q then q else q + 1.

(** [n / d] is at least [2 ^ e]. *)
Definition at_least_pow (n d e : Z) : bool :=
  if 0 <=? e then d * 2 ^ e <=? n else d <=? n * 2 ^ (- e).

(** The double nearest to a non-negative rational. *)
Definition round_pos (n d : Z) : option Q :=
  let e0 := Z.log2 n - Z.log2 d in
  let e := if at_least_pow n d e0 then e0 else e0 - 1 in
  let p := Z.max (e - 52) (-1074) in
  let '(m, v) := if 0 <=? p
    then let m := round_half_even n (d * 2 ^ p) in (m * 2 ^ p, inject_Z (m * 2 ^ p))
    else let m := round_half_even (n * 2 ^ (- p)) d in
         (m / 2 ^ (- p), Qred (m # Z.to_pos (2 ^ (- p)))) in
  if 2 ^ 1024 <=? m then None else Some v.

Definition to_double (q : Q) : num :=
  let n := Qnum q in
  let d := Zpos (Qden q) in
  if n =? 0 then Fin 0
  else match round_pos (Z.abs n) d with
       | None => Infinity (n <? 0)
       | Some v => Fin (if n <? 0 then Qopp v else v)
       end.

(** ** [Number(text)] *)

Definition is_digit (c : Z) : bool := (48 <=? c) && (c <=? 57).

Definition digits_value (base : Z) (digit : Z → Z) (s : jsstr) : Z :=
  foldl (λ acc c, acc * base + digit c) 0 s.

Definition dec (s : jsstr) : Z := digits_value 10 (λ c, c - 48) s.

(** [m * 10 ^ e] *)
Definition scale10 (m e : Z) : Q :=
  if 0 <=? e then inject_Z (m * 10 ^ e) else m # Z.to_pos (10 ^ (- e)).

Definition strip_sign (s : jsstr) : bool * jsstr :=
  match s with
  | 43 :: r => (false, r)
  | 45 :: r => (true, r)
  | _ => (false, s)
  end.

(** The exponent part: the empty text, or [e] with an optional sign and digits. *)
Definition exponent (s : jsstr) : option Z :=
  match s with
  | [] => Some 0
  | c :: r =>
      if (c =? 101) || (c =? 69) then
        let '(neg, ds) := strip_sign r in
        match span is_digit ds with
        | ((_ :: _) as ds, []) => Some (if neg then - dec ds else dec ds)
        | _ => None
        end
      else None
  end.

(** A decimal literal without sign: digits, an optional fraction, an
    optional exponent, at least one digit in all. *)
Definition decimal (s : jsstr) : option Q :=
  let '(ip, r) := span is_digit s in
  let '(fp, r) := match r with 46 :: r => span is_digit r | _ => ([], r) end in
  match ip ++ fp with
  | [] => None
  | ds => e ← exponent r; Some (scale10 (dec ds) (e - len fp))
  end.

Definition hex_value (c : Z) : option Z :=
  if is_digit c then Some (c - 48)
  else if (97 <=? c) && (c <=? 102) then Some (c - 87)
  else if (65 <=? c) && (c <=? 70) then Some (c - 55)
  else None.

Definition radix_literal (base : Z) (s : jsstr) : num :=
  match mapM (λ c, d ← hex_value c; if d <? base then Some d else None) s with
  | Some ((_ :: _) as ds) => to_double (inject_Z (digits_value base (λ d, d) ds))
  | _ => NaN
  end.

(** The prefixes [0x], [0o] and [0b], in either case, take no sign. *)
Definition radix_of (s : jsstr) : option (Z * jsstr) :=
  match s with
  | 48 :: c :: r =>
      if (c =? 120) || (c =? 88) then Some (16, r)
      else if (c =? 111) || (c =? 79) then Some (8, r)
      else if (c =? 98) || (c =? 66) then Some (2, r)
      else None
  | _ => None
  end.

Definition signed (neg : bool) (q : Q) : Q := if neg then Qopp q else q.

Definition Number (text : jsstr) : num :=
  let s := trim text in
  match s with
  | [] => Fin 0
  | _ =>
      match radix_of s with
      | Some (base, r) => radix_literal base r
      | None =>
          let '(neg, r) := strip_sign s in
          if bool_decide (r = js "Infinity") then Infinity neg
          else match decimal r with
               | Some q => to_double (signed neg q)
               | None => NaN
               end
      end
  end.

(** [parseInt(text)] and [parseInt(text, 10)] of a text without the prefix
    [0x]: the digits after white space and a sign, whatever follows. *)
Definition parseInt (text : jsstr) : num :=
  let '(neg, r) := strip_sign (trimStart text) in
  match (span is_digit r).1 with
  | [] => NaN
  | ds => to_double (inject_Z (if neg then - dec ds else dec ds))
  end.

(** ** Tests *)

Definition isFinite (x : num) : bool := match x with Fin _ => true | _ => false end.

(** The value of a double that is an integer. *)
Definition as_integer (x : num) : option Z :=
  match x with
  | Fin q => if Qeq_bool q (inject_Z (Qfloor q)) then Some (Qfloor q) else None
  | _ => None
  end.

(** ** Rounding does not pass an integer *)

Lemma round_half_even_le n d z : 0 < d → n ≤ z * d → round_half_even n d ≤ z.
Proof.
  intros Hd Hn. unfold round_half_even. pose proof (Z.div_mod n d ltac:(lia)) as E. pose proof (Z.mod_pos_bound n d Hd) as Hr.
  assert (n / d < z ∨ n / d = z ∧ n mod d = 0) as [?|[-> ->]] by nia; repeat case_match; lia.
Qed.

Lemma round_pos_le n d z v : 0 < n → 0 < d → n ≤ z * d → z ≤ 2 ^ 51 → round_pos n d = Some v → (v <= inject_Z z)%Q.
Proof.
  intros Hn Hd Hz H51. unfold round_pos.
  assert (Z.log2 n - Z.log2 d ≤ 51) as He.
  { pose proof (Z.log2_mul_pow2 d 51 ltac:(lia) ltac:(lia)) as H. pose proof (Z.log2_le_mono n (d * 2 ^ 51) ltac:(nia)). lia. }
  set (p := Z.max _ (-1074)). assert (p < 0) as Hp by (unfold p; destruct (at_least_pow n d _); lia). clearbody p.
  rewrite (proj2 (Z.leb_gt 0 p)) by done. assert (0 < 2 ^ - p) as Hpow by (apply Z.pow_pos_nonneg; lia).
  destruct (_ <=? _); [done|]. intros [= <-]. rewrite Qred_correct. unfold Qle. cbn [Qnum Qden inject_Z].
  rewrite Z2Pos.id, Z.mul_1_r by done. apply round_half_even_le; [done|]. nia.
Qed.

(** ** Integers survive printing and reading *)

Lemma round_int n : 0 ≤ n → round_half_even n 1 = n.
Proof. intros. unfold round_half_even. rewrite Z.div_1_r, Z.mod_1_r. done. Qed.

Lemma Qred_int n (d : positive) : Qred (n * Zpos d # d) = inject_Z n.
Proof.
  rewrite <- (Qcanon.Qred_identity (inject_Z n)) by (cbn; apply Z.gcd_1_r).
  apply Qred_complete. unfold Qeq. cbn. lia.
Qed.

(** Integers up to [2 ^ 53] are doubles. *)
Lemma to_double_int z : Z.abs z ≤ 2 ^ 53 → to_double (inject_Z z) = Fin (inject_Z z).
Proof.
  intros Hz. unfold to_double. cbn [Qnum Qden inject_Z].
  destruct (Z.eqb_spec z 0) as [->|Hne]; [done|].
  assert (round_pos (Z.abs z) 1 = Some (inject_Z (Z.abs z))) as ->.
  { set (n := Z.abs z) in *. assert (0 < n) as Hn by lia. clearbody n.
    unfold round_pos. change (Z.log2 1) with 0. rewrite Z.sub_0_r.
    pose proof (Z.log2_spec n Hn) as [Hlo Hhi]. pose proof (Z.log2_nonneg n) as H0.
    assert (Z.log2 n ≤ 53) as H53.
    { destruct (Z.le_gt_cases (Z.log2 n) 53); [done|].
      pose proof (Z.pow_le_mono_r 2 54 (Z.log2 n) ltac:(lia) ltac:(lia)). lia. }
    unfold at_least_pow. rewrite (proj2 (Z.leb_le _ _) H0), Z.mul_1_l.
    rewrite (proj2 (Z.leb_le _ _) Hlo). rewrite Z.max_l by lia.
    destruct (Z.leb_spec 0 (Z.log2 n - 52)).
    - assert (Z.log2 n = 52 ∨ Z.log2 n = 53) as [E|E] by lia; rewrite E in *.
      + change (2 ^ (52 - 52)) with 1. change (1 * 1) with 1. rewrite round_int, Z.mul_1_r by lia.
        by destruct (Z.leb_spec (2 ^ 1024) n); [lia|].
      + assert (n = 2 ^ 53) as -> by lia. by vm_compute.
    - set (k := - (Z.log2 n - 52)). assert (0 < 2 ^ k) by (apply Z.pow_pos_nonneg; lia).
      rewrite round_int by lia. rewrite Z.div_mul by lia.
      destruct (Z.leb_spec (2 ^ 1024) n); [lia|].
      rewrite <- (Z2Pos.id (2 ^ k)) at 1 by done. by rewrite Qred_int. }
  destruct (Z.ltb_spec z 0).
  - rewrite Z.abs_neq by lia. unfold Qopp, inject_Z. cbn. by rewrite Z.opp_involutive.
  - by rewrite Z.abs_eq by lia.
Qed.

Lemma digit_char x : (x < 10)%N →
  Z.of_N (N_of_ascii (pretty.pretty_N_char x)) = 48 + Z.of_N x.
Proof.
  intros. assert (x = 0 ∨ x = 1 ∨ x = 2 ∨ x = 3 ∨ x = 4 ∨ x = 5 ∨ x = 6 ∨ x = 7 ∨ x = 8 ∨ x = 9)%N
    as Hx by lia.
  by repeat (destruct Hx as [->|Hx]; [done|]); subst.
Qed.

Lemma js_cons a s : js (String a s) = Z.of_N (N_of_ascii a) :: js s.
Proof. done. Qed.

(** What printing a positive number puts before [s]. *)
Lemma show_go x s :
  ∃ ds, js (pretty.pretty_N_go x s) = ds ++ js s ∧ Forall (λ c, is_digit c = true) ds ∧
    (∀ acc, foldl (λ acc c, acc * 10 + (c - 48)) acc ds = acc * 10 ^ len ds + Z.of_N x) ∧
    ((0 < x)%N → ds ≠ []).
Proof.
  revert s. induction (N.lt_wf_0 x) as [x _ IH]; intros s.
  destruct (decide (x = 0)%N) as [->|Hx].
  { exists []. split_and!; [done|done| |done]. intros acc. cbn. change (len []) with 0. lia. }
  rewrite pretty.pretty_N_go_step by lia.
  destruct (IH (x / 10)%N) with (String (pretty.pretty_N_char (x mod 10)%N) s)
    as (ds & E & Hd & Hv & Hh); [apply N.div_lt; lia|].
  pose proof (N.mod_lt x 10 ltac:(lia)) as Hm.
  exists (ds ++ [48 + Z.of_N (x mod 10)]). split_and!.
  - rewrite E, js_cons, digit_char, <- app_assoc by done. done.
  - apply Forall_app. split; [done|]. repeat constructor. unfold is_digit.
    apply andb_true_iff. rewrite !Z.leb_le. revert Hm. generalize (x mod 10)%N. lia.
  - intros acc. rewrite foldl_app. cbn [foldl]. rewrite Hv, len_app. change (len [_]) with 1.
    rewrite Z.pow_add_r by (note_len; lia). pose proof (N.div_mod x 10 ltac:(lia)).
    set (q := (x / 10)%N) in *. set (r := (x mod 10)%N) in *. change (10 ^ 1) with 10. nia.
  - intros _. by destruct ds.
Qed.

(** What printing a natural number gives. *)
Lemma show_digits z : 0 ≤ z →
  show z ≠ [] ∧ Forall (λ c, is_digit c = true) (show z) ∧ dec (show z) = z.
Proof.
  intros Hz. destruct z as [|p|p]; [by repeat constructor| |lia].
  destruct (show_go (Npos p) "") as (ds & E & Hd & Hv & Hne). rewrite app_nil_r in E.
  assert (show (Zpos p) = ds) as ->.
  { by rewrite <- E. }
  split_and!; [by apply Hne|done|]. unfold dec, digits_value. by rewrite Hv.
Qed.

Lemma digit_not_space c : is_digit c = true → is_space c = false.
Proof.
  unfold is_digit, is_space. intros [H1 H2]%andb_true_iff. apply Z.leb_le in H1, H2.
  repeat match goal with |- context [?a <=? ?b] => destruct (Z.leb_spec a b); try lia end;
  repeat match goal with |- context [?a =? ?b] => destruct (Z.eqb_spec a b); try lia end; done.
Qed.

Lemma trim_digits s : Forall (λ c, is_digit c = true) s → trim s = s.
Proof.
  intros Hs. assert (no_space s) as Hn by (eapply Forall_impl; [exact Hs|apply digit_not_space]).
  unfold trim. rewrite trimStart_word.
  - destruct s as [|c s _] using rev_ind; [done|]. apply trimEnd_word.
    apply Forall_app in Hn as [_ Hn]. by inversion Hn.
  - by apply Forall_take.
Qed.

(** [Number(String(z))] is [z] for the natural numbers doubles represent. *)
Lemma Number_show z : 0 ≤ z ≤ 2 ^ 53 → Number (show z) = Fin (inject_Z z).
Proof.
  intros Hz. destruct (show_digits z) as (Hne & Hd & Hv); [lia|].
  unfold Number. rewrite (trim_digits _ Hd).
  assert (decimal (show z) = Some (inject_Z z)) as Hdec.
  { unfold decimal. rewrite <- (app_nil_r (show z)), (span_app _ _ [] Hd) by done.
    rewrite app_nil_r. destruct (show z); [done|]. cbn [mbind option_bind exponent].
    rewrite Hv. unfold scale10. change (0 - len []) with 0. cbn. by rewrite Z.mul_1_r. }
  destruct (show z) as [|c s] eqn:E; [done|]. inversion Hd as [|? ? Hc Hs]; subst.
  assert (radix_of (c :: s) = None) as ->.
  { unfold radix_of. destruct (decide (c = 48)) as [->|]; [|by repeat case_match].
    destruct s as [|x s]; [done|]. inversion Hs as [|? ? Hx]; subst. unfold is_digit in Hx.
    apply andb_true_iff in Hx as [H1%Z.leb_le H2%Z.leb_le].
    repeat match goal with |- context [?a =? ?b] => destruct (Z.eqb_spec a b); try lia end; done. }
  unfold is_digit in Hc. apply andb_true_iff in Hc as [H1%Z.leb_le H2%Z.leb_le].
  assert (strip_sign (c :: s) = (false, c :: s)) as ->.
  { unfold strip_sign. repeat case_match; lia || done. }
  rewrite bool_decide_eq_false_2.
  - rewrite Hdec. cbn [signed]. apply to_double_int. lia.
  - intros [= ->]. lia.
Qed.

Lemma strip_sign_digits s : Forall (λ c, is_digit c = true) s → strip_sign s = (false, s).
Proof.
  intros Hs. destruct s as [|c s]; [done|]. inversion Hs as [|? ? Hc _]; subst. unfold is_digit in Hc.
  apply andb_true_iff in Hc as [H1%Z.leb_le H2%Z.leb_le]. unfold strip_sign. repeat case_match; lia || done.
Qed.

(** [parseInt(String(z))] likewise. *)
Lemma parseInt_show z : 0 ≤ z ≤ 2 ^ 53 → parseInt (show z) = Fin (inject_Z z).
Proof.
  intros Hz. destruct (show_digits z) as (Hne & Hd & Hv); [lia|]. unfold parseInt.
  rewrite trimStart_word
    by (apply Forall_take; eapply Forall_impl; [exact Hd|apply digit_not_space]).
  rewrite strip_sign_digits by done. rewrite <- (app_nil_r (show z)), (span_app _ _ [] Hd) by done.
  cbn [fst]. destruct (show z) as [|c s]; [done|]. rewrite Hv. apply to_double_int. lia.
Qed.

(** An integer drawn below [n] *)
Lemma Qfloor_scaled q n :
  (0 <= q)%Q → (q < 1)%Q → 0 < n → 0 ≤ Qfloor (q * inject_Z n) < n.
Proof.
  intros H0 H1 Hn. assert (0 < inject_Z n)%Q as Hn' by (unfold Qlt; cbn; lia). split.
  - change 0 with (Qfloor 0). apply Qfloor_resp_le. apply Qmult_le_0_compat; [done|by apply Qlt_le_weak].
  - rewrite Zlt_Qlt. eapply Qle_lt_trans; [apply Qfloor_le|].
    rewrite <- (Qmult_1_l (inject_Z n)) at 2. by apply Qmult_lt_compat_r.
Qed.

(** A positive number is printed without a leading zero. *)
Lemma show_go_head x s : ∃ ds, js (pretty.pretty_N_go x s) = ds ++ js s ∧
  (x = 0%N → ds = []) ∧ ((0 < x)%N → ds ≠ [] ∧ head ds ≠ Some 48).
Proof.
  revert s. induction (N.lt_wf_0 x) as [x _ IH]; intros s. destruct (decide (x = 0)%N) as [->|Hx]; [by exists []|].
  rewrite pretty.pretty_N_go_step by lia.
  destruct (IH (x / 10)%N) with (String (pretty.pretty_N_char (x mod 10)%N) s) as (ds & E & H0 & Hp); [apply N.div_lt; lia|].
  pose proof (N.mod_lt x 10 ltac:(lia)) as Hm. exists (ds ++ [48 + Z.of_N (x mod 10)]). split_and!.
  - rewrite E, js_cons, digit_char, <- app_assoc by done. done.
  - done.
  - intros _. split; [by destruct ds|]. destruct (decide (x / 10 = 0)%N) as [Hd|Hd].
    + rewrite (H0 Hd). cbn. intros [= E']. pose proof (N.div_mod x 10 ltac:(lia)) as Hx'. rewrite Hd in Hx'.
      revert E' Hx'. generalize (x mod 10)%N. lia.
    + destruct Hp as [Hne Hh]; [revert Hd; generalize (x / 10)%N; lia|]. by destruct ds.
Qed.
Lemma show_head n : 0 < n → head (show n) ≠ Some 48.
Proof.
  intros Hn. destruct n as [|p|p]; [lia| |lia]. destruct (show_go_head (Npos p) "") as (ds & E & _ & H).
  rewrite app_nil_r in E. assert (show (Zpos p) = ds) as -> by by rewrite <- E. by apply H.
Qed.
