(* ===== verification/Command.v ===== *)
(** * Text commands ([apps/bun/src/lib/command.ts])

    [ParsedCommand] is the tagged union every encoder consumes and
    [parseCommand] the parser of the text form used by [send].  The theorems
    give its behaviour on the commands the clients build from words, and on
    the inputs it rejects. *)
From S2P Require Import Prelude Utf8 JsText.

(** ** The command type *)

Inductive Metric := cosine | dot | l2.

Inductive arg := ArgStr (s : jsstr) | ArgBytes (b : bytes).

Record bulk_item := BulkItem { bi_key : jsstr; bi_vector : bytes; bi_timestamp : Z }.

Inductive ParsedCommand :=
| GET (key : jsstr)
| DEL (key : jsstr)
| SUB (channel : jsstr) (filter : option jsstr)
| UNSUB (channel : jsstr)
| STATUS
| CLUSTER_STATUS
| CLUSTER_PEERS
| SET (key value : jsstr) (worm : bool)
| PUB (channel message : jsstr)
| EXEC (procedure : jsstr) (args : list arg)
| VINSERT (key : jsstr) (vector : bytes) (worm : bool) (namespace : jsstr)
    (metric : Metric) (timestamp : Z) (async : bool)
| VBULKINSERT (namespace : jsstr) (metric : Metric) (worm async : bool)
    (items : list bulk_item).

#[export] Instance Metric_eq_dec : EqDecision Metric.
Proof. solve_decision. Defined.
#[export] Instance arg_eq_dec : EqDecision arg.
Proof. solve_decision. Defined.
#[export] Instance bulk_item_eq_dec : EqDecision bulk_item.
Proof. solve_decision. Defined.
#[export] Instance ParsedCommand_eq_dec : EqDecision ParsedCommand.
Proof. solve_decision. Defined.

Definition metric_name (m : Metric) : jsstr :=
  match m with cosine => js "cosine" | dot => js "dot" | l2 => js "l2" end.

(** ** The parser *)

(** The match of [/^SUB\s+(\S+)(?:\s+(.+))?$/i] against a trimmed string:
    without the [u] flag, [i] folds only ASCII letters of the pattern, and
    [.] excludes line terminators.  Every quantifier is greedy and each
    class borders on its complement, so the first attempt is the only one
    that can succeed. *)
Definition is_ci (lower_letter c : Z) : bool := (c =? lower_letter) || (c =? lower_letter - 32).

Definition match_sub (s : jsstr) : option (jsstr * option jsstr) :=
  match s with
  | a :: b :: c :: r =>
      if is_ci 115 a && is_ci 117 b && is_ci 98 c then
        let '(gap, r1) := span is_space r in
        let '(chan, r2) := span (λ x, negb (is_space x)) r1 in
        if bool_decide (gap = []) || bool_decide (chan = []) then None else
        match r2 with
        | [] => Some (chan, None)
        | _ =>
            let filter := snd (span is_space r2) in
            if bool_decide (filter ≠ []) && forallb (λ x, negb (is_line_terminator x)) filter
            then Some (chan, Some filter) else None
        end
      else None
  | _ => None
  end.

Section Parser.
Context {UD : UnicodeData}.

Definition parseCommand (command : jsstr) : res ParsedCommand :=
  let parts := split_space (trim command) in
  match parts with
  | [] | [] :: _ => Throw (Error (js "Missing command"))
  | p0 :: rest =>
      let verb := toUpperCase p0 in
      if bool_decide (verb = js "GET") then
        match rest with
        | key :: _ => Ok (GET key)
        | [] => Throw (Error (js "Invalid GET command"))
        end
      else if bool_decide (verb = js "DEL") then
        match rest with
        | key :: _ => Ok (DEL key)
        | [] => Throw (Error (js "Invalid DEL command"))
        end
      else if bool_decide (verb = js "SUB") then
        match match_sub (trim command) with
        | None => Throw (Error (js "Invalid SUB command"))
        | Some (channel, filter) => Ok (SUB channel filter)
        end
      else if bool_decide (verb = js "UNSUB") then
        match rest with
        | channel :: _ => Ok (UNSUB channel)
        | [] => Throw (Error (js "Invalid UNSUB command"))
        end
      else if bool_decide (verb = js "STATUS") then Ok STATUS
      else if bool_decide (verb = js "CLUSTER") &&
              bool_decide (toUpperCase <$> hd_error rest = Some (js "STATUS")) then
        Ok CLUSTER_STATUS
      else if bool_decide (verb = js "CLUSTER") &&
              bool_decide (toUpperCase <$> hd_error rest = Some (js "PEERS")) then
        Ok CLUSTER_PEERS
      else if bool_decide (verb = js "SET") then
        match rest with
        | key :: value :: _ =>
            let hasWorm := existsb (λ p, bool_decide (toUpperCase p = js "WORM")) parts in
            Ok (SET key value hasWorm)
        | _ => Throw (Error (js "Invalid SET command"))
        end
      else if bool_decide (verb = js "PUB") then
        match rest with
        | channel :: ((_ :: _) as words) => Ok (PUB channel (join (js " ") words))
        | _ => Throw (Error (js "Invalid PUB command"))
        end
      else if bool_decide (verb = js "EXEC") then
        match rest with
        | procedure :: args => Ok (EXEC procedure (ArgStr <$> args))
        | [] => Throw (Error (js "Invalid EXEC command"))
        end
      else Throw (Error (js "Unsupported command: " ++ verb))
  end.
End Parser.

(** ** Rendering

    The sentences the clients build from a command with template strings
    (for instance [`SET ${key} ${value} WORM`]): the words of the sentence, for the
    commands that have a text form. *)

Definition sentence (ws : list jsstr) : jsstr := join (js " ") ws.

Definition render (c : ParsedCommand) : option (list jsstr) :=
  match c with
  | GET k => Some [js "GET"; k]
  | DEL k => Some [js "DEL"; k]
  | SUB ch None => Some [js "SUB"; ch]
  | SUB ch (Some f) => Some [js "SUB"; ch; f]
  | UNSUB ch => Some [js "UNSUB"; ch]
  | STATUS => Some [js "STATUS"]
  | CLUSTER_STATUS => Some [js "CLUSTER"; js "STATUS"]
  | CLUSTER_PEERS => Some [js "CLUSTER"; js "PEERS"]
  | SET k v worm => Some ([js "SET"; k; v] ++ if worm then [js "WORM"] else [])
  | PUB ch m => Some [js "PUB"; ch; m]
  | EXEC p args =>
      ws ← mapM (λ a, match a with ArgStr s => Some s | ArgBytes _ => None end) args;
      Some (js "EXEC" :: p :: ws)
  | VINSERT _ _ _ _ _ _ _ | VBULKINSERT _ _ _ _ _ => None
  end.

(** ** Facts *)

Section ParserFacts.
Context {UD : UnicodeData}.

Definition says_worm (p : jsstr) : bool := bool_decide (toUpperCase p = js "WORM").

Lemma parse_parts ws :
  ws ≠ [] → Forall word ws → split_space (trim (sentence ws)) = ws.
Proof.
  intros. unfold sentence. rewrite trim_join by done. by apply split_space_join.
Qed.

Lemma span_space_word w r :
  word w → span is_space (w ++ r) = ([], w ++ r).
Proof.
  intros [Hne Hw]. destruct Hw as [|c w Hc Hw]; [done|]. cbn. by rewrite Hc.
Qed.

Lemma span_word w r :
  word w → match r with [] => True | c :: _ => is_space c = true end →
  span (λ x, negb (is_space x)) (w ++ r) = (w, r).
Proof.
  intros [_ Hw] Hr. apply span_app.
  - eapply Forall_impl; [exact Hw|]. cbn. by intros x ->.
  - destruct r; [done|]. by rewrite Hr.
Qed.

Lemma match_sub_channel ch : word ch → match_sub (js "SUB" ++ 32 :: ch) = Some (ch, None).
Proof.
  intros Hch. cbn [match_sub js app fmap list_fmap list_ascii_of_string].
  change (is_ci 115 _ && is_ci 117 _ && is_ci 98 _) with true. cbv iota.
  cbn [span is_space]. change (is_space 32) with true. cbv iota.
  rewrite <- (app_nil_r ch), span_space_word by done. cbv iota beta.
  rewrite span_word by done. destruct Hch as [Hne _].
  rewrite !bool_decide_eq_false_2 by done. by rewrite app_nil_r.
Qed.

Lemma match_sub_filter ch f :
  word ch → word f → match_sub (js "SUB" ++ 32 :: ch ++ 32 :: f) = Some (ch, Some f).
Proof.
  intros Hch Hf. cbn [match_sub js app fmap list_fmap list_ascii_of_string].
  change (is_ci 115 _ && is_ci 117 _ && is_ci 98 _) with true. cbv iota.
  cbn [span]. change (is_space 32) with true. cbv iota.
  rewrite span_space_word by done. cbv iota beta.
  rewrite span_word by done. cbn [span]. change (is_space 32) with true. cbv iota.
  rewrite <- (app_nil_r f), span_space_word by done. rewrite !app_nil_r.
  destruct Hch as [Hne _]. destruct Hf as [Hne' Hf].
  rewrite !bool_decide_eq_false_2 by done. cbn [orb snd].
  rewrite bool_decide_eq_true_2 by done. cbn [andb].
  replace (forallb _ f) with true; [done|]. symmetry. apply List.forallb_forall.
  intros x Hx%list_elem_of_In. unfold no_space in Hf. rewrite Forall_forall in Hf.
  apply Hf in Hx. apply negb_true_iff. revert Hx. unfold is_space, is_line_terminator.
  repeat (case_ztest; try done; cbn [orb andb]); lia.
Qed.

(** A command that starts with the word [v], with the verb test computed. *)
Lemma parse_words v ws :
  word v → Forall word ws → parseCommand (sentence (v :: ws)) =
  let verb := toUpperCase v in
  if bool_decide (verb = js "GET") then
    match ws with key :: _ => Ok (GET key) | [] => Throw (Error (js "Invalid GET command")) end
  else if bool_decide (verb = js "DEL") then
    match ws with key :: _ => Ok (DEL key) | [] => Throw (Error (js "Invalid DEL command")) end
  else if bool_decide (verb = js "SUB") then
    match match_sub (sentence (v :: ws)) with
    | None => Throw (Error (js "Invalid SUB command"))
    | Some (channel, filter) => Ok (SUB channel filter)
    end
  else if bool_decide (verb = js "UNSUB") then
    match ws with
    | channel :: _ => Ok (UNSUB channel) | [] => Throw (Error (js "Invalid UNSUB command"))
    end
  else if bool_decide (verb = js "STATUS") then Ok STATUS
  else if bool_decide (verb = js "CLUSTER") &&
          bool_decide (toUpperCase <$> hd_error ws = Some (js "STATUS")) then
    Ok CLUSTER_STATUS
  else if bool_decide (verb = js "CLUSTER") &&
          bool_decide (toUpperCase <$> hd_error ws = Some (js "PEERS")) then
    Ok CLUSTER_PEERS
  else if bool_decide (verb = js "SET") then
    match ws with
    | key :: value :: _ => Ok (SET key value (existsb says_worm (v :: ws)))
    | _ => Throw (Error (js "Invalid SET command"))
    end
  else if bool_decide (verb = js "PUB") then
    match ws with
    | channel :: ((_ :: _) as words) => Ok (PUB channel (sentence words))
    | _ => Throw (Error (js "Invalid PUB command"))
    end
  else if bool_decide (verb = js "EXEC") then
    match ws with
    | procedure :: args => Ok (EXEC procedure (ArgStr <$> args))
    | [] => Throw (Error (js "Invalid EXEC command"))
    end
  else Throw (Error (js "Unsupported command: " ++ verb)).
Proof.
  intros Hv Hws. unfold parseCommand.
  rewrite parse_parts by (by try constructor).
  unfold sentence. rewrite trim_join by (by try constructor).
  destruct v as [|c v]; [by destruct Hv|]. reflexivity.
Qed.

(** Words of the protocol are words, and upper-case already. *)
Lemma word_keyword (s : string) :
  forallb (λ c, negb (is_space c)) (js s) && negb (String.eqb s "") = true → word (js s).
Proof.
  intros [H Hne]%andb_true_iff. split.
  - destruct s; done.
  - unfold no_space. rewrite Forall_forall. intros c Hc.
    rewrite List.forallb_forall in H. apply negb_true_iff, H. by apply list_elem_of_In.
Qed.

Lemma mapM_args_inv args ws :
  mapM (λ a, match a with ArgStr s => Some s | ArgBytes _ => None end) args = Some ws →
  ArgStr <$> ws = args.
Proof.
  intros H%mapM_Some. induction H as [|[s|b] w args ws Hs _ IH]; by simplify_eq/=.
Qed.

Lemma existsb_false_cons k v extra :
  says_worm k = false → says_worm v = false →
  existsb says_worm (js "SET" :: k :: v :: extra) = existsb says_worm extra.
Proof. intros Hk Hv. cbn [existsb]. by rewrite Hk, Hv. Qed.
End ParserFacts.

(** Closes [word (js "...")] and goals about lists of such words. *)
Ltac words := repeat first
  [ assumption | apply word_keyword; reflexivity | apply Forall_cons; split | apply Forall_nil; exact I ].

(** ** Properties *)

Section Properties.
Context {UD : UnicodeData}.

(** Parsing the sentence a client renders for a command gives the command
    back, provided every interpolated part is a word and, for a mutable [SET],
    neither the key nor the value spells [WORM]. *)
Theorem parse_render c ws :
  render c = Some ws → Forall word ws →
  match c with
  | SET k v false => says_worm k = false ∧ says_worm v = false
  | _ => True
  end →
  parseCommand (sentence ws) = Ok c.
Proof.
  intros Hr Hws Hc.
  assert (∃ v r, ws = v :: r) as (v & r & ->).
  { destruct ws; [|eauto]. destruct c as [| |? []| | | | | | |? args| |];
      simplify_eq/=; by destruct (mapM _ args). }
  apply Forall_cons in Hws as Hws'. destruct Hws' as [Hv Hr'].
  rewrite parse_words by done.
  destruct c as [| |ch [f|]| | | | |k w []| |pr args| |]; cbn [render] in Hr;
    try discriminate Hr.
  12: { apply bind_Some in Hr as (a & Ha%mapM_args_inv & [= <- <-]). cbn. by rewrite Ha. }
  all: injection Hr as <- <-; try reflexivity; rewrite !Forall_cons in Hws.
  - transitivity (match match_sub (js "SUB" ++ 32 :: ch ++ 32 :: f) with
      None => Throw (Error (js "Invalid SUB command")) | Some (c, x) => Ok (SUB c x) end);
      [reflexivity|]. by rewrite match_sub_filter by tauto.
  - transitivity (match match_sub (js "SUB" ++ 32 :: ch) with
      None => Throw (Error (js "Invalid SUB command")) | Some (c, x) => Ok (SUB c x) end);
      [reflexivity|]. by rewrite match_sub_channel by tauto.
  - cbn -[says_worm]. change (says_worm (js "SET")) with false.
    cbn [orb]. change (says_worm (js "WORM")) with true. by rewrite !orb_true_r.
  - destruct Hc as [Hk Hw]. cbn -[says_worm]. change (says_worm (js "SET")) with false.
    by rewrite Hk, Hw.
Qed.
End Properties.
