(* ===== verification/Protocol.v ===== *)
(** * Responses ([apps/bun/src/lib/protocol.ts])

    The response type shared by the Bun clients, and the decoder of the
    line-based text protocol. *)
From Stdlib Require Import QArith Qround.
From S2P Require Import Prelude JsText Number.
#[local] Open Scope Z_scope.

Inductive WormResponse :=
| ok
| error (message : jsstr)
| null
| bulk (value : jsstr)
| event (channel message : jsstr).

#[export] Instance WormResponse_eq_dec : EqDecision WormResponse.
Proof. solve_decision. Defined.

(** [response.type], as the error messages print it. *)
Definition type_of (r : WormResponse) : jsstr :=
  match r with
  | ok => js "ok" | error _ => js "error" | null => js "null"
  | bulk _ => js "bulk" | event _ _ => js "event"
  end.

(** ** The text protocol

    [indexOf] of a line end; [slice] with a fractional end truncates it. *)
Fixpoint index_of_crlf (i : Z) (s : jsstr) : option Z :=
  match s with
  | 13 :: 10 :: _ => Some i
  | _ :: s' => index_of_crlf (i + 1) s'
  | [] => None
  end.

Definition parseSingleResponse (raw : jsstr) : WormResponse :=
  if startsWith raw (js "+OK") then ok
  else if startsWith raw (js "-ERR ") then error (trimEnd (slice_from raw 5))
  else if startsWith raw (js "$-1") then null
  else if startsWith raw (js "$") then
    match index_of_crlf 0 raw with
    | None => error (js "Malformed bulk response")
    | Some split =>
        match Number (slice raw 1 split) with
        | Fin l =>
            if Qle_bool 0 l then
              let payloadStart := split + 2 in
              bulk (slice raw payloadStart (Qfloor (inject_Z payloadStart + l)))
            else error (js "Invalid bulk response length")
        | _ => error (js "Invalid bulk response length")
        end
    end
  else if startsWith raw (js ">EVENT ") then
    match index_of_crlf 0 raw with
    | None => error (js "Malformed event response")
    | Some split =>
        let channel := trim (slice raw 7 split) in
        let message := trimEnd (slice_from raw (split + 2)) in
        event channel message
    end
  else error (js "Unknown response format: " ++ trim raw).

(** ** Reading what a server writes *)

Definition crlf : jsstr := [13; 10].
Definition bulk_text (v : jsstr) : jsstr := js "$" ++ show (len v) ++ crlf ++ v ++ crlf.

Lemma index_of_crlf_app i s r :
  Forall (λ c, c ≠ 13) s → index_of_crlf i (s ++ crlf ++ r) = Some (i + len s).
Proof.
  intros Hs. revert i. induction Hs as [|c s Hc _ IH]; intros i; cbn [app].
  - cbn. f_equal. change (len []) with 0. lia.
  - cbn [index_of_crlf]. rewrite IH, len_cons.
    replace (i + 1 + len s) with (i + (1 + len s)) by lia.
    destruct (decide (c = 13)); [done|]. repeat (case_match; try done).
Qed.

(** A bulk value survives, whatever characters it holds, line ends included. *)
Lemma parse_bulk_text v : len v ≤ 2 ^ 53 → parseSingleResponse (bulk_text v) = bulk v.
Proof.
  intros Hv. pose proof (len_nonneg v) as H0.
  destruct (show_digits (len v) H0) as (Hne & Hd & _).
  assert (index_of_crlf 0 (bulk_text v) = Some (1 + len (show (len v)))) as Hi.
  { unfold bulk_text. rewrite app_assoc, index_of_crlf_app.
    - by rewrite len_app.
    - repeat constructor; [done|]. eapply Forall_impl; [exact Hd|]. intros c Hc ->. done. }
  assert (slice (bulk_text v) 1 (1 + len (show (len v))) = show (len v)) as Hs.
  { unfold bulk_text. by apply slice_mid. }
  assert (slice (bulk_text v) (1 + len (show (len v)) + 2) (1 + len (show (len v)) + 2 + len v) = v) as Hp.
  { unfold bulk_text. rewrite !app_assoc, <- (app_assoc _ v). change (js "$") with [36]. unfold crlf.
    apply slice_mid; len_tac. }
  assert (∀ p, startsWith (bulk_text v) (36 :: p) = startsWith (show (len v) ++ crlf ++ v ++ crlf) p)
    as Hsw by done.
  assert (startsWith (show (len v) ++ crlf ++ v ++ crlf) (js "-1") = false) as Hm.
  { destruct (show (len v)) as [|c s]; [done|]. inversion Hd as [|? ? Hc _]; subst.
    change (js "-1") with [45; 49]. cbn [app startsWith].
    destruct (Z.eqb_spec 45 c) as [<-|]; [by vm_compute in Hc|done]. }
  unfold parseSingleResponse. change (startsWith (bulk_text v) (js "+OK")) with false.
  change (startsWith (bulk_text v) (js "-ERR ")) with false.
  change (js "$-1") with (36 :: js "-1"). rewrite Hsw, Hm.
  change (startsWith (bulk_text v) (js "$")) with true. cbv iota.
  rewrite Hi, Hs, Number_show by lia. cbv zeta.
  rewrite (proj2 (Qle_bool_iff _ _)) by (unfold Qle; cbn; lia).
  f_equal. rewrite <- inject_Z_plus, Qfloor_Z. exact Hp.
Qed.
