(* ===== verification/Wire.v ===== *)
(** * The binary protocol of the Bun client ([apps/bun/src/lib/wire.ts])

    Encoders for every command, the incremental frame reader and the
    response decoder.  The encoders are modelled write by write on typed
    arrays ([TypedArray.v]); [payload_of] and [frame_of] are the layout the
    protocol documents, and [encodeCommandFrame_spec] shows that the encoders
    produce exactly it.  [read_all] is the loop every client runs on its
    receive buffer. *)
From S2P Require Import Prelude Utf8 TypedArray JsText Command Protocol.

(** ** Constants *)

Definition WIRE_MAGIC : bytes := [0x57; 0x57].
Definition MAX_PAYLOAD : Z := 16 * 1024 * 1024.

Inductive CommandCode :=
| Get | Set_ | Del | Status | ClusterStatus | Sub | Unsub | Pub | Exec
| ClusterPeers | Save | Auth | Vinsert | Vdelete | Vbulkinsert.

Definition command_code (c : CommandCode) : Z :=
  match c with
  | Get => 0x01 | Set_ => 0x02 | Del => 0x03 | Status => 0x04
  | ClusterStatus => 0x05 | Sub => 0x06 | Unsub => 0x07 | Pub => 0x08
  | Exec => 0x09 | ClusterPeers => 0x0A | Save => 0x0B | Auth => 0x0C
  | Vinsert => 0x0D | Vdelete => 0x0E | Vbulkinsert => 0x0F
  end.

Definition ROk : Z := 0x00.
Definition RValue : Z := 0x01.
Definition RNull : Z := 0x02.
Definition RErr : Z := 0x03.
Definition REvent : Z := 0x04.

(** ** Byte-level helpers *)

Definition encodeUtf8 (value : jsstr) : bytes := text_encode value.
Definition decodeUtf8 (value : bytes) : jsstr := text_decode value.

Definition writeUint32BE (target : bytes) (offset value : Z) : res bytes :=
  setUint32 target offset value.
Definition writeUint64BE (target : bytes) (offset value : Z) : res bytes :=
  setBigUint64 target offset value.
Definition readUint32BE (source : bytes) (offset : Z) : res Z := getUint32 source offset.

Definition encodeLenPrefixedUtf8 (value : jsstr) : res bytes :=
  let data := encodeUtf8 value in
  let out := new_u8 (4 + len data) in
  out ← writeUint32BE out 0 (len data);
  set_at out 4 data.

Definition writeFrame (code : CommandCode) (payload : bytes) : res bytes :=
  if MAX_PAYLOAD <? len payload then Throw (PayloadTooLargeError (len payload))
  else
    let out := new_u8 (5 + len payload) in
    let out := put_byte out 0 (command_code code) in
    out ← writeUint32BE out 1 (len payload);
    out ← set_at out 5 payload;
    mret out.

(** ** Encoders *)

Definition command_flags (worm async : bool) : Z :=
  let flags := 0 in
  let flags := if worm then Z.lor flags 0x01 else flags in
  if async then Z.lor flags 0x02 else flags.

(** A length-prefixed field written at [off]; returns the array and the
    next offset. *)
Definition put_field (payload : bytes) (off : Z) (data : bytes) : res (bytes * Z) :=
  payload ← writeUint32BE payload off (len data);
  payload ← set_at payload (off + 4) data;
  mret (payload, off + 4 + len data).

Definition encode_arg (a : arg) : bytes :=
  match a with ArgStr s => encodeUtf8 s | ArgBytes b => b end.

(** [for (const a of encodedArgs)] of the EXEC case *)
Fixpoint put_args (payload : bytes) (off : Z) (args : list bytes) : res (bytes * Z) :=
  match args with
  | [] => mret (payload, off)
  | a :: args =>
      '(payload, off) ← put_field payload off a;
      put_args payload off args
  end.

(** The item loop of the VBULKINSERT case, over the encoded keys *)
Fixpoint put_items (payload : bytes) (off : Z) (items : list (bytes * bulk_item))
    : res (bytes * Z) :=
  match items with
  | [] => mret (payload, off)
  | (key, it) :: items =>
      '(payload, off) ← put_field payload off key;
      '(payload, off) ← put_field payload off (bi_vector it);
      payload ← writeUint64BE payload off (bi_timestamp it);
      put_items payload (off + 8) items
  end.

Definition encode_sub (channel : jsstr) (filter : option jsstr) : res bytes :=
  let channel := encodeUtf8 channel in
  let filter :=  (* an empty filter string is falsy *)
    match filter with
    | Some ((_ :: _) as f) => Some (encodeUtf8 f)
    | _ => None
    end in
  let payload := new_u8 (4 + len channel +
    match filter with Some f => 4 + len f | None => 0 end) in
  payload ← writeUint32BE payload 0 (len channel);
  payload ← set_at payload 4 channel;
  match filter with
  | None => writeFrame Sub payload
  | Some f =>
      let filterLenPos := 4 + len channel in
      payload ← writeUint32BE payload filterLenPos (len f);
      payload ← set_at payload (filterLenPos + 4) f;
      writeFrame Sub payload
  end.

Definition encode_set (key value : jsstr) (worm : bool) : res bytes :=
  let key := encodeUtf8 key in
  let value := encodeUtf8 value in
  let payload := new_u8 (1 + 4 + len key + 4 + len value) in
  let payload := put_byte payload 0 (if worm then 0x01 else 0x00) in
  payload ← writeUint32BE payload 1 (len key);
  payload ← set_at payload 5 key;
  let valueLenPos := 5 + len key in
  payload ← writeUint32BE payload valueLenPos (len value);
  payload ← set_at payload (valueLenPos + 4) value;
  writeFrame Set_ payload.

(** Two length-prefixed fields: PUB and VDELETE are written this way. *)
Definition encode_two (code : CommandCode) (a b : bytes) : res bytes :=
  let payload := new_u8 (4 + len a + 4 + len b) in
  payload ← writeUint32BE payload 0 (len a);
  payload ← set_at payload 4 a;
  let bLenPos := 4 + len a in
  payload ← writeUint32BE payload bLenPos (len b);
  payload ← set_at payload (bLenPos + 4) b;
  writeFrame code payload.

Definition sum_sizes (f : bytes → Z) (l : list bytes) (start : Z) : Z :=
  fold_left (λ size a, size + f a) l start.

Definition encode_exec (procedure : jsstr) (args : list arg) : res bytes :=
  let proc := encodeUtf8 procedure in
  let encodedArgs := encode_arg <$> args in
  let size := sum_sizes (λ a, 4 + len a) encodedArgs (4 + len proc + 4) in
  let payload := new_u8 size in
  '(payload, off) ← put_field payload 0 proc;
  payload ← writeUint32BE payload off (len encodedArgs);
  '(payload, _) ← put_args payload (off + 4) encodedArgs;
  writeFrame Exec payload.

Definition encode_vinsert (key : jsstr) (vec : bytes) (worm : bool) (namespace : jsstr)
    (metric : Metric) (timestamp : Z) (async : bool) : res bytes :=
  let key := encodeUtf8 key in
  let ns := encodeUtf8 namespace in
  let metric := encodeUtf8 (metric_name metric) in
  let size := 4 + len key + 4 + len vec + 1 + 4 + len ns + 4 + len metric + 8 in
  let payload := new_u8 size in
  '(payload, off) ← put_field payload 0 key;
  '(payload, off) ← put_field payload off vec;
  let payload := put_byte payload off (command_flags worm async) in
  '(payload, off) ← put_field payload (off + 1) ns;
  '(payload, off) ← put_field payload off metric;
  payload ← writeUint64BE payload off timestamp;
  writeFrame Vinsert payload.

Definition encode_vbulkinsert (namespace : jsstr) (metric : Metric) (worm async : bool)
    (items : list bulk_item) : res bytes :=
  let ns := encodeUtf8 namespace in
  let metric := encodeUtf8 (metric_name metric) in
  let keyed := (λ it, (encodeUtf8 (bi_key it), it)) <$> items in
  let size := fold_left
    (λ size '(k, it), size + (4 + len k + 4 + len (bi_vector it) + 8))
    keyed (4 + len ns + 4 + len metric + 1 + 4) in
  let payload := new_u8 size in
  '(payload, off) ← put_field payload 0 ns;
  '(payload, off) ← put_field payload off metric;
  let payload := put_byte payload off (command_flags worm async) in
  let off := off + 1 in
  payload ← writeUint32BE payload off (len items);
  '(payload, _) ← put_items payload (off + 4) keyed;
  writeFrame Vbulkinsert payload.

Definition encodeCommandFrame (command : ParsedCommand) : res bytes :=
  match command with
  | GET key => payload ← encodeLenPrefixedUtf8 key; writeFrame Get payload
  | DEL key => payload ← encodeLenPrefixedUtf8 key; writeFrame Del payload
  | SUB channel filter => encode_sub channel filter
  | UNSUB channel => payload ← encodeLenPrefixedUtf8 channel; writeFrame Unsub payload
  | STATUS => writeFrame Status (new_u8 0)
  | CLUSTER_STATUS => writeFrame ClusterStatus (new_u8 0)
  | CLUSTER_PEERS => writeFrame ClusterPeers (new_u8 0)
  | SET key value worm => encode_set key value worm
  | PUB channel message => encode_two Pub (encodeUtf8 channel) (encodeUtf8 message)
  | EXEC procedure args => encode_exec procedure args
  | VINSERT key vec worm ns metric ts async => encode_vinsert key vec worm ns metric ts async
  | VBULKINSERT ns metric worm async items => encode_vbulkinsert ns metric worm async items
  end.

Definition encodeAuth (token : bytes) : res bytes :=
  let payload := new_u8 (4 + len token) in
  payload ← writeUint32BE payload 0 (len token);
  payload ← set_at payload 4 token;
  writeFrame Auth payload.

Definition encodeVdelete (key namespace : jsstr) : res bytes :=
  encode_two Vdelete (encodeUtf8 key) (encodeUtf8 namespace).

Definition encodeSave : res bytes := writeFrame Save (new_u8 0).

(** ** Frames and responses *)

Record ParsedFrame := Frame { code : Z; payload : bytes; remaining : bytes }.

Definition byte_at (b : bytes) (i : nat) : Z := default 0 (b !! i).

Definition tryConsumeFrame (buffer : bytes) : option ParsedFrame :=
  if len buffer <? 5 then None else
  match readUint32BE buffer 1 with
  | Throw _ => None
  | Ok payloadLen =>
      let totalLen := 5 + payloadLen in
      if len buffer <? totalLen then None
      else Some (Frame (byte_at buffer 0) (slice buffer 5 totalLen)
                   (slice_from buffer totalLen))
  end.

Definition isEventCode (code : Z) : bool := code =? REvent.

Definition decode_event (payload : bytes) : res WormResponse :=
  let malformed := error (js "Malformed event response") in
  if len payload <? 8 then mret malformed else
  channelLen ← readUint32BE payload 0;
  if len payload <? 4 + channelLen + 4 then mret malformed else
  let channelStart := 4 in
  let channelEnd := channelStart + channelLen in
  msgLen ← readUint32BE payload channelEnd;
  let msgStart := channelEnd + 4 in
  let msgEnd := msgStart + msgLen in
  if len payload <? msgEnd then mret malformed
  else mret (event (decodeUtf8 (slice payload channelStart channelEnd))
                   (decodeUtf8 (slice payload msgStart msgEnd))).

Definition decodeResponse (code : Z) (payload : bytes) : res WormResponse :=
  if code =? ROk then mret ok
  else if code =? RValue then mret (bulk (decodeUtf8 payload))
  else if code =? RNull then mret null
  else if code =? RErr then mret (error (decodeUtf8 payload))
  else if code =? REvent then decode_event payload
  else mret (error (js "Unknown response code: " ++ show code)).

Fixpoint concat_lens (chunks : list bytes) : Z :=
  match chunks with [] => 0 | c :: r => len c + concat_lens r end.

Fixpoint concat_into (out : bytes) (offset : Z) (chunks : list bytes) : res bytes :=
  match chunks with
  | [] => mret out
  | c :: r => out ← set_at out offset c; concat_into out (offset + len c) r
  end.

Definition concatBytes (chunks : list bytes) : res bytes :=
  concat_into (new_u8 (concat_lens chunks)) 0 chunks.

(** [toBytes]: a string is encoded; a buffer is viewed whole; a view is
    re-viewed over its own window of the underlying buffer. *)
Inductive SocketData :=
| DataString (s : jsstr)
| DataBuffer (contents : bytes)
| DataView (buffer : bytes) (byteOffset byteLength : Z).

Definition toBytes (data : SocketData) : bytes :=
  match data with
  | DataString s => encodeUtf8 s
  | DataBuffer contents => contents
  | DataView buffer off n => slice buffer off (off + n)
  end.

(** ** The receive loop

    [while (true) { const frame = tryConsumeFrame(inbound); if (frame == null)
    return; inbound = frame.remaining; ... }], with the body's effect left to
    the client.  A frame takes at least five bytes, so the length of the
    buffer bounds the number of iterations. *)
Fixpoint read_frames (fuel : nat) (inbound : bytes) : list ParsedFrame * bytes :=
  match fuel with
  | O => ([], inbound)
  | S fuel =>
      match tryConsumeFrame inbound with
      | None => ([], inbound)
      | Some frame => let '(fs, rest) := read_frames fuel (remaining frame) in (frame :: fs, rest)
      end
  end.

Definition read_all (inbound : bytes) : list (Z * bytes) * bytes :=
  let '(fs, rest) := read_frames (length inbound) inbound in
  ((λ f, (code f, payload f)) <$> fs, rest).

(** ** The documented layout *)

Definition lp (data : bytes) : bytes := be_bytes 4 (len data) ++ data.

Definition frame_of (code : Z) (payload : bytes) : bytes :=
  code :: be_bytes 4 (len payload) ++ payload.

Definition item_layout (it : bulk_item) : bytes :=
  lp (encodeUtf8 (bi_key it)) ++ lp (bi_vector it) ++ be_bytes 8 (bi_timestamp it).

Definition payload_of (c : ParsedCommand) : CommandCode * bytes :=
  match c with
  | GET k => (Get, lp (encodeUtf8 k))
  | DEL k => (Del, lp (encodeUtf8 k))
  | SUB ch f =>
      (Sub, lp (encodeUtf8 ch) ++
        match f with Some ((_ :: _) as f) => lp (encodeUtf8 f) | _ => [] end)
  | UNSUB ch => (Unsub, lp (encodeUtf8 ch))
  | STATUS => (Status, [])
  | CLUSTER_STATUS => (ClusterStatus, [])
  | CLUSTER_PEERS => (ClusterPeers, [])
  | SET k v worm => (Set_, (if worm then 1 else 0) :: lp (encodeUtf8 k) ++ lp (encodeUtf8 v))
  | PUB ch m => (Pub, lp (encodeUtf8 ch) ++ lp (encodeUtf8 m))
  | EXEC p args =>
      (Exec, lp (encodeUtf8 p) ++ be_bytes 4 (len args) ++ (args ≫= λ a, lp (encode_arg a)))
  | VINSERT k vec worm ns m ts async =>
      (Vinsert, lp (encodeUtf8 k) ++ lp vec ++ [command_flags worm async] ++
        lp (encodeUtf8 ns) ++ lp (encodeUtf8 (metric_name m)) ++ be_bytes 8 ts)
  | VBULKINSERT ns m worm async items =>
      (Vbulkinsert, lp (encodeUtf8 ns) ++ lp (encodeUtf8 (metric_name m)) ++
        [command_flags worm async] ++ be_bytes 4 (len items) ++ (items ≫= item_layout))
  end.

(** A frame is sent unless its payload exceeds the limit. *)
Definition framed (code : CommandCode) (payload : bytes) : res bytes :=
  if MAX_PAYLOAD <? len payload then Throw (PayloadTooLargeError (len payload))
  else Ok (frame_of (command_code code) payload).

(** ** Encoder lemmas *)

Lemma writeFrame_spec c p : writeFrame c p = framed c p.
Proof.
  unfold writeFrame, framed, writeUint32BE. case_ztest; [done|].
  note_len. fill. unfold mret, res_ret. f_equal.
  rewrite filling_done by len_tac. rewrite <- app_assoc. cbn [app]. unfold frame_of.
  f_equal. by destruct c.
Qed.

Lemma len_lp d : len (lp d) = 4 + len d.
Proof. unfold lp. len_tac. Qed.
#[export] Hint Rewrite len_lp : len.

Lemma encodeLenPrefixedUtf8_spec s : encodeLenPrefixedUtf8 s = Ok (lp (encodeUtf8 s)).
Proof.
  unfold encodeLenPrefixedUtf8, writeUint32BE. cbv zeta. note_len. fill.
  f_equal. apply filling_done. len_tac.
Qed.

Lemma put_field_filling n pre d off :
  off = len pre → len pre + 4 + len d ≤ n →
  put_field (filling n pre) off d = Ok (filling n (pre ++ lp d), off + 4 + len d).
Proof.
  intros -> Hn. unfold put_field, writeUint32BE. note_len. fill.
  by rewrite <- app_assoc.
Qed.

Lemma put_args_filling n pre off args :
  off = len pre → len pre + len (args ≫= lp) ≤ n →
  put_args (filling n pre) off args =
  Ok (filling n (pre ++ (args ≫= lp)), off + len (args ≫= lp)).
Proof.
  revert pre off. induction args as [|a args IH]; intros pre off -> Hn; cbn [put_args].
  - cbn. by rewrite app_nil_r, Z.add_0_r.
  - rewrite bind_cons in *. note_len. rewrite put_field_filling by len_tac.
    cbn [mbind res_bind]. rewrite IH by len_tac. rewrite <- app_assoc.
    do 2 f_equal. len_tac.
Qed.

Definition keyed_layout (p : bytes * bulk_item) : bytes :=
  lp p.1 ++ lp (bi_vector p.2) ++ be_bytes 8 (bi_timestamp p.2).

Lemma put_items_filling n pre off items :
  off = len pre → len pre + len (items ≫= keyed_layout) ≤ n →
  put_items (filling n pre) off items =
  Ok (filling n (pre ++ (items ≫= keyed_layout)), off + len (items ≫= keyed_layout)).
Proof.
  revert pre off. induction items as [|[k it] items IH]; intros pre off -> Hn; cbn [put_items].
  - cbn. by rewrite app_nil_r, Z.add_0_r.
  - rewrite bind_cons in *.
    change (keyed_layout (k, it)) with
      (lp k ++ lp (bi_vector it) ++ be_bytes 8 (bi_timestamp it)) in *.
    unfold writeUint64BE. autorewrite with len in Hn. note_len.
    rewrite put_field_filling by len_tac. cbn [mbind res_bind].
    rewrite put_field_filling by len_tac. cbn [mbind res_bind].
    rewrite setBigUint64_filling by len_tac. cbn [mbind res_bind].
    rewrite IH by len_tac. rewrite <- !app_assoc. do 2 f_equal. len_tac.
Qed.

Lemma args_layout args :
  (encode_arg <$> args) ≫= lp = args ≫= (λ a, lp (encode_arg a)).
Proof. induction args; [done|]. by rewrite fmap_cons, !bind_cons, IHargs. Qed.

Lemma keyed_items items :
  ((λ it, (encodeUtf8 (bi_key it), it)) <$> items) ≫= keyed_layout = items ≫= item_layout.
Proof. induction items as [|it items IH]; [done|]. by rewrite fmap_cons, !bind_cons, IH. Qed.

Lemma exec_size l start : sum_sizes (λ a, 4 + len a) l start = start + len (l ≫= lp).
Proof.
  unfold sum_sizes. revert start. induction l as [|a l IH]; intros start; cbn [fold_left].
  - change (len _) with 0. lia.
  - rewrite IH, bind_cons. len_tac.
Qed.

Lemma items_size l start :
  fold_left (λ size '(k, it), size + (4 + len k + 4 + len (bi_vector it) + 8)) l start =
  start + len (l ≫= keyed_layout).
Proof.
  revert start. induction l as [|[k it] l IH]; intros start; cbn [fold_left].
  - change (len _) with 0. lia.
  - rewrite IH, bind_cons.
    change (keyed_layout (k, it)) with
      (lp k ++ lp (bi_vector it) ++ be_bytes 8 (bi_timestamp it)). len_tac.
Qed.

Lemma encode_two_spec c a b : encode_two c a b = framed c (lp a ++ lp b).
Proof.
  unfold encode_two, writeUint32BE. cbv zeta. note_len. fill.
  rewrite writeFrame_spec, filling_done by len_tac. by rewrite <- !app_assoc.
Qed.

Lemma command_flags_byte w a : command_flags w a mod 256 = command_flags w a.
Proof. by destruct w, a. Qed.

Lemma encode_exec_spec p args :
  encode_exec p args =
  framed Exec (lp (encodeUtf8 p) ++ be_bytes 4 (len args) ++ (args ≫= λ a, lp (encode_arg a))).
Proof.
  unfold encode_exec, writeUint32BE. cbv zeta.
  rewrite exec_size, args_layout, len_fmap. note_len.
  rewrite filling_start, put_field_filling by len_tac. cbn [mbind res_bind].
  rewrite setUint32_filling by len_tac. cbn [mbind res_bind].
  rewrite put_args_filling by (rewrite ?args_layout; len_tac). cbn [mbind res_bind].
  rewrite writeFrame_spec, args_layout, filling_done by len_tac. by rewrite <- !app_assoc.
Qed.

Lemma encode_vinsert_spec k vec w ns m ts a :
  encode_vinsert k vec w ns m ts a =
  framed Vinsert (lp (encodeUtf8 k) ++ lp vec ++ [command_flags w a] ++
    lp (encodeUtf8 ns) ++ lp (encodeUtf8 (metric_name m)) ++ be_bytes 8 ts).
Proof.
  unfold encode_vinsert, writeUint64BE. cbv zeta. note_len.
  rewrite filling_start, put_field_filling by len_tac. cbn [mbind res_bind].
  rewrite put_field_filling by len_tac. cbn [mbind res_bind].
  rewrite put_byte_filling by len_tac.
  rewrite put_field_filling by len_tac. cbn [mbind res_bind].
  rewrite put_field_filling by len_tac. cbn [mbind res_bind].
  rewrite setBigUint64_filling by len_tac. cbn [mbind res_bind].
  rewrite writeFrame_spec, filling_done, command_flags_byte by len_tac.
  by rewrite <- !app_assoc.
Qed.

Lemma encode_vbulkinsert_spec ns m w a items :
  encode_vbulkinsert ns m w a items =
  framed Vbulkinsert (lp (encodeUtf8 ns) ++ lp (encodeUtf8 (metric_name m)) ++
    [command_flags w a] ++ be_bytes 4 (len items) ++ (items ≫= item_layout)).
Proof.
  unfold encode_vbulkinsert, writeUint32BE. cbv zeta.
  rewrite items_size, keyed_items. note_len.
  rewrite filling_start, put_field_filling by len_tac. cbn [mbind res_bind].
  rewrite put_field_filling by len_tac. cbn [mbind res_bind].
  rewrite put_byte_filling by len_tac.
  rewrite setUint32_filling by len_tac. cbn [mbind res_bind].
  rewrite put_items_filling by (rewrite ?keyed_items; len_tac). cbn [mbind res_bind].
  rewrite writeFrame_spec, keyed_items, filling_done, command_flags_byte by len_tac.
  by rewrite <- !app_assoc.
Qed.

Lemma encode_set_spec k v w :
  encode_set k v w =
  framed Set_ ((if w then 1 else 0) :: lp (encodeUtf8 k) ++ lp (encodeUtf8 v)).
Proof.
  unfold encode_set, writeUint32BE. cbv zeta. note_len. fill.
  rewrite writeFrame_spec, filling_done by len_tac. rewrite <- !app_assoc.
  by destruct w.
Qed.

Lemma encode_sub_spec ch f :
  encode_sub ch f = framed Sub (payload_of (SUB ch f)).2.
Proof.
  unfold encode_sub, writeUint32BE. cbn [payload_of snd].
  destruct f as [[|c f]|]; cbv zeta; note_len; fill;
    rewrite writeFrame_spec, filling_done by len_tac;
    rewrite <- ?app_assoc, ?app_nil_r; done.
Qed.

(** ** Frame reader lemmas *)

Lemma concat_lens_len chunks : concat_lens chunks = len (concat chunks).
Proof. induction chunks as [|c r IH]; cbn [concat_lens concat]; [done|]. len_tac. Qed.

Lemma concat_into_filling n pre chunks :
  len pre + len (concat chunks) ≤ n →
  concat_into (filling n pre) (len pre) chunks = Ok (filling n (pre ++ concat chunks)).
Proof.
  revert pre. induction chunks as [|c r IH]; intros pre Hn; cbn [concat_into concat].
  - by rewrite app_nil_r.
  - cbn [concat] in Hn. rewrite len_app in Hn. note_len. fill.
    rewrite <- len_app, IH by len_tac. by rewrite <- app_assoc.
Qed.

(** [concatBytes] is concatenation and never throws. *)
Lemma concatBytes_spec chunks : concatBytes chunks = Ok (concat chunks).
Proof.
  unfold concatBytes. rewrite concat_lens_len, filling_start.
  change 0 with (len (@nil Z)). rewrite concat_into_filling by (rewrite len_nil; lia).
  by rewrite filling_done by done.
Qed.

Lemma len_slice {A} (l : list A) i j :
  0 ≤ i ≤ j → j ≤ len l → len (slice l i j) = j - i.
Proof.
  intros. rewrite slice_take_drop by done. rewrite len_take, len_drop. lia.
Qed.

Lemma slice_prefix {A} (l k : list A) i j :
  0 ≤ i ≤ j → j ≤ len l → slice (l ++ k) i j = slice l i j.
Proof.
  intros. rewrite !slice_take_drop by len_tac.
  rewrite drop_app_le by (unfold len in *; lia).
  rewrite take_app_le; [done|]. rewrite length_drop. unfold len in *. lia.
Qed.

Lemma Forall_slice {A} (P : A → Prop) l i j : Forall P l → Forall P (slice l i j).
Proof. intros. unfold slice. by apply Forall_take, Forall_drop. Qed.
#[export] Hint Resolve Forall_slice : wormdb.

Lemma getUint32_ok b off :
  Forall is_byte b → 0 ≤ off → off + 4 ≤ len b →
  ∃ v, getUint32 b off = Ok v ∧ 0 ≤ v < 2 ^ 32 ∧ v = be_value 0 (slice b off (off + 4)).
Proof.
  intros Hb H0 Hn. unfold getUint32. repeat case_ztest; try lia. cbn [orb].
  eexists; split_and!; try done.
  all: pose proof (be_value_bounds (slice b off (off + 4))
    ltac:(by apply Forall_slice)) as Hv; rewrite len_slice in Hv by lia;
    replace (off + 4 - off) with 4 in Hv by lia; lia.
Qed.

Lemma getUint32_prefix b k off :
  0 ≤ off → off + 4 ≤ len b → getUint32 (b ++ k) off = getUint32 b off.
Proof.
  intros H0 Hn. unfold getUint32. rewrite len_app. note_len.
  repeat case_ztest; try lia. cbn [orb]. by rewrite slice_prefix by lia.
Qed.

Lemma slice_cons {A} (x : A) l i j :
  1 ≤ i ≤ j → j ≤ 1 + len l → slice (x :: l) i j = slice l (i - 1) (j - 1).
Proof.
  intros. rewrite !slice_take_drop by (rewrite ?len_cons; lia).
  replace (Z.to_nat i) with (S (Z.to_nat (i - 1))) by lia. cbn [drop]. do 2 f_equal. lia.
Qed.

Lemma slice_split {A} (l : list A) i j :
  0 ≤ i ≤ j → j ≤ len l → slice l i j ++ slice_from l j = slice_from l i.
Proof.
  intros. rewrite slice_take_drop, !slice_drop by lia.
  rewrite <- (take_drop (Z.to_nat (j - i)) (drop (Z.to_nat i) l)) at 2.
  rewrite drop_drop. do 2 f_equal. lia.
Qed.

(** What a successful read says about the buffer: it starts with the frame. *)
Lemma tryConsumeFrame_inv b f :
  Forall is_byte b → tryConsumeFrame b = Some f →
  b = frame_of (code f) (payload f) ++ remaining f ∧ len (payload f) < 2 ^ 32.
Proof.
  intros Hb. unfold tryConsumeFrame, readUint32BE. case_ztest; [done|].
  destruct (getUint32_ok b 1) as (v & -> & Hv & Ev); [done|lia|lia|].
  case_ztest; [done|]. intros [= <-]. cbn [code payload remaining].
  destruct b as [|c b]; [unfold len in *; simpl in *; lia|]. rewrite len_cons in *.
  assert (Forall is_byte b) as Hb' by by inversion Hb.
  rewrite slice_cons in Ev by lia. rewrite !slice_cons by lia.
  rewrite len_slice by lia. split; [|lia].
  unfold frame_of. cbn [byte_at lookup list_lookup default app]. f_equal.
  rewrite <- app_assoc, len_slice by lia.
  rewrite (slice_drop (c :: b)) by lia.
  replace (Z.to_nat (5 + v)) with (S (Z.to_nat (4 + v))) by lia. cbn [drop].
  rewrite <- slice_drop by lia.
  replace (5 - 1) with 4 by lia. replace (5 + v - 1) with (4 + v) in * by lia.
  rewrite slice_split by lia.
  replace (4 + v - 4) with v by lia. subst v.
  replace (1 - 1) with 0 in * by lia. replace (1 + 4 - 1) with 4 in * by lia.
  assert (be_bytes 4 (be_value 0 (slice b 0 4)) = slice b 0 4) as ->.
  { rewrite <- (be_bytes_value (slice b 0 4)) at 2 by by apply Forall_slice.
    f_equal. pose proof (len_slice b 0 4 ltac:(lia) ltac:(lia)). unfold len in *. lia. }
  rewrite slice_split by lia. by rewrite slice_drop by lia.
Qed.

(** Reading back one frame, whatever follows it. *)
Lemma tryConsumeFrame_frame c p rest :
  len p < 2 ^ 32 →
  tryConsumeFrame (frame_of c p ++ rest) = Some (Frame c p rest).
Proof.
  intros Hp. unfold tryConsumeFrame, frame_of, readUint32BE.
  cbn [app]. rewrite <- app_assoc. autorewrite with len. note_len. case_ztest; [lia|].
  change (c :: be_bytes 4 (len p) ++ p ++ rest) with
    ([c] ++ be_bytes 4 (len p) ++ p ++ rest) at 1.
  rewrite getUint32_at by (try done; lia). case_ztest; [lia|].
  change (c :: be_bytes 4 (len p) ++ p ++ rest) with
    ((c :: be_bytes 4 (len p)) ++ p ++ rest).
  rewrite slice_mid by len_tac. f_equal. f_equal.
  rewrite app_assoc. apply slice_from_app. len_tac.
Qed.

(** More bytes never change a frame that is already complete. *)
Lemma tryConsumeFrame_app b k f :
  Forall is_byte b → tryConsumeFrame b = Some f →
  tryConsumeFrame (b ++ k) = Some (Frame (code f) (payload f) (remaining f ++ k)).
Proof.
  intros Hb Hf. destruct (tryConsumeFrame_inv _ _ Hb Hf) as [-> Hl].
  rewrite <- app_assoc. by apply tryConsumeFrame_frame.
Qed.

Lemma remaining_shorter b f :
  Forall is_byte b → tryConsumeFrame b = Some f →
  (length (remaining f) < length b)%nat ∧ Forall is_byte (remaining f) ∧
  Forall is_byte (payload f).
Proof.
  intros Hb Hf. destruct (tryConsumeFrame_inv _ _ Hb Hf) as [E _].
  unfold frame_of in E. rewrite <- app_comm_cons, <- app_assoc in E.
  rewrite E in Hb |- *. apply Forall_cons in Hb as [_ Hb'].
  apply Forall_app in Hb' as [_ [Hp Hr]%Forall_app]. split_and!; [|done|done].
  cbn [length]. rewrite !length_app. lia.
Qed.

(** The loop body, independently of the fuel. *)
Lemma read_frames_fuel n m b :
  Forall is_byte b → (length b ≤ n)%nat → (length b ≤ m)%nat →
  read_frames n b = read_frames m b.
Proof.
  revert m b. induction n as [|n IH]; intros m b Hb Hn Hm.
  - destruct b; [|cbn in Hn; lia]. by destruct m.
  - destruct m as [|m]; [destruct b; [done|cbn in Hm; lia]|]. cbn [read_frames].
    destruct (tryConsumeFrame b) as [f|] eqn:E; [|done].
    destruct (remaining_shorter _ _ Hb E) as (Hs & Hr & _).
    by rewrite (IH m) by (try done; lia).
Qed.

Lemma read_all_step b :
  Forall is_byte b →
  read_all b =
  match tryConsumeFrame b with
  | None => ([], b)
  | Some f => let '(fs, rest) := read_all (remaining f) in
              ((code f, payload f) :: fs, rest)
  end.
Proof.
  intros Hb. unfold read_all. destruct b as [|c b]; [done|].
  cbn [length read_frames]. destruct (tryConsumeFrame (c :: b)) as [f|] eqn:E; [|done].
  destruct (remaining_shorter _ _ Hb E) as (Hs & Hr & _). cbn [length] in Hs.
  rewrite (read_frames_fuel _ (length (remaining f))) by (try done; lia).
  by destruct (read_frames _ (remaining f)) as [fs rest].
Qed.

(** Induction over the frames of a buffer. *)
Lemma read_all_ind (P : bytes → Prop) :
  (∀ b, Forall is_byte b → tryConsumeFrame b = None → P b) →
  (∀ b f, Forall is_byte b → tryConsumeFrame b = Some f → P (remaining f) → P b) →
  ∀ b, Forall is_byte b → P b.
Proof.
  intros H0 H1 b. induction b as [b IH] using list_len_ind. intros Hb.
  destruct (tryConsumeFrame b) as [f|] eqn:E; [|by apply H0].
  destruct (remaining_shorter _ _ Hb E) as (Hs & Hr & _). eapply H1; eauto.
Qed.

Lemma read_all_rest b :
  Forall is_byte b →
  tryConsumeFrame (read_all b).2 = None ∧ Forall is_byte (read_all b).2.
Proof.
  revert b. apply read_all_ind; intros b; [intros Hb E|intros f Hb E IH];
    rewrite read_all_step, E by done; [done|].
  by destruct (read_all (remaining f)).
Qed.

Lemma read_all_payloads b :
  Forall is_byte b → Forall (λ f, Forall is_byte f.2) (read_all b).1.
Proof.
  revert b. apply read_all_ind; intros b; [intros Hb E|intros f Hb E IH];
    rewrite read_all_step, E by done; [done|].
  destruct (remaining_shorter _ _ Hb E) as (_ & _ & Hp).
  destruct (read_all (remaining f)). by constructor.
Qed.

Lemma read_all_app a b :
  Forall is_byte a → Forall is_byte b →
  read_all (a ++ b) =
  let '(f1, r1) := read_all a in
  let '(f2, r2) := read_all (r1 ++ b) in (f1 ++ f2, r2).
Proof.
  intros Ha Hb. revert a Ha. apply read_all_ind.
  - intros a Ha E. rewrite (read_all_step a), E by done. by destruct (read_all (a ++ b)).
  - intros a f Ha E IH. rewrite (read_all_step (a ++ b)) by (by apply Forall_app).
    rewrite (tryConsumeFrame_app _ _ _ Ha E). cbn [code payload remaining].
    rewrite IH, (read_all_step a), E by done.
    destruct (read_all (remaining f)) as [f1 r1].
    by destruct (read_all (r1 ++ b)).
Qed.

(** One [data] callback: the chunk is appended and complete frames are read. *)
Definition receive (inbound chunk : bytes) : res (list (Z * bytes) * bytes) :=
  inbound ← concatBytes [inbound; chunk];
  mret (read_all inbound).

Fixpoint receive_chunks (inbound : bytes) (chunks : list bytes)
    : res (list (Z * bytes) * bytes) :=
  match chunks with
  | [] => mret ([], inbound)
  | c :: r =>
      '(fs, inbound) ← receive inbound c;
      '(fs', inbound) ← receive_chunks inbound r;
      mret (fs ++ fs', inbound)
  end.

Lemma receive_spec inbound chunk : receive inbound chunk = Ok (read_all (inbound ++ chunk)).
Proof.
  unfold receive. rewrite concatBytes_spec. cbn [mbind res_bind concat].
  by rewrite app_nil_r.
Qed.

Lemma receive_chunks_from inbound chunks :
  Forall is_byte inbound → Forall (Forall is_byte) chunks →
  tryConsumeFrame inbound = None →
  receive_chunks inbound chunks = Ok (read_all (inbound ++ concat chunks)).
Proof.
  intros Hi Hc Hn. revert inbound Hi Hn.
  induction Hc as [|c chunks Hc Hcs IH]; intros inbound Hi Hn; cbn [receive_chunks concat].
  - by rewrite app_nil_r, read_all_step, Hn by done.
  - rewrite receive_spec. cbn [mbind res_bind].
    rewrite (app_assoc inbound), (read_all_app (inbound ++ c)).
    2: by apply Forall_app.
    2: { clear -Hcs. induction Hcs; cbn; [constructor|by apply Forall_app]. }
    pose proof (read_all_rest (inbound ++ c) ltac:(by apply Forall_app)) as [Hr1 Hr2].
    destruct (read_all (inbound ++ c)) as [fs r]. cbn [snd] in *.
    rewrite IH by done. cbn [mbind res_bind].
    by destruct (read_all (r ++ concat chunks)).
Qed.

(** A framed response and its bytes. *)
Definition frame_bytes (f : Z * bytes) : bytes := frame_of f.1 f.2.
Definition frame_ok (f : Z * bytes) : Prop :=
  is_byte f.1 ∧ Forall is_byte f.2 ∧ len f.2 < 2 ^ 32.
#[export] Instance frame_ok_dec f : Decision (frame_ok f).
Proof. unfold frame_ok. apply _. Defined.

Lemma frame_bytes_byte f : frame_ok f → Forall is_byte (frame_bytes f).
Proof.
  intros (Hc & Hp & _). unfold frame_bytes, frame_of.
  constructor; [done|]. apply Forall_app. split; [apply be_bytes_byte|done].
Qed.

Lemma read_all_frames fs rest :
  Forall frame_ok fs → Forall is_byte rest → tryConsumeFrame rest = None →
  read_all ((fs ≫= frame_bytes) ++ rest) = (fs, rest).
Proof.
  intros Hfs Hr Hn. induction Hfs as [|[c p] fs Hf Hfs IH].
  - cbn. by rewrite read_all_step, Hn by done.
  - rewrite bind_cons, <- app_assoc, read_all_step.
    + unfold frame_bytes at 1. cbn [fst snd].
      rewrite tryConsumeFrame_frame by apply Hf. cbn [remaining code payload].
      by rewrite IH.
    + apply Forall_app. split; [by apply frame_bytes_byte|].
      apply Forall_app. split; [|done]. apply Forall_bind.
      eapply Forall_impl; [done|]. apply frame_bytes_byte.
Qed.

(** ** Response lemmas *)

Lemma decode_event_total p :
  Forall is_byte p → ∃ r, decode_event p = Ok r ∧
    (r = error (js "Malformed event response") ∨ ∃ c m, r = event c m).
Proof.
  intros Hp. unfold decode_event, readUint32BE. case_ztest; [by eauto|].
  destruct (getUint32_ok p 0) as (v & -> & Hv & _); [done|lia|lia|].
  cbn [mbind res_bind]. case_ztest; [by eauto|].
  destruct (getUint32_ok p (4 + v)) as (w & -> & Hw & _); [done|lia|lia|].
  cbn [mbind res_bind]. case_ztest; eauto 8.
Qed.

Lemma decode_event_lp ch m :
  len ch < 2 ^ 32 → len m < 2 ^ 32 →
  decode_event (lp ch ++ lp m) = Ok (event (decodeUtf8 ch) (decodeUtf8 m)).
Proof.
  intros Hc Hm. unfold decode_event, readUint32BE. autorewrite with len. note_len.
  case_ztest; [lia|]. unfold lp. rewrite <- !app_assoc.
  pose proof (getUint32_at [] (len ch) (ch ++ be_bytes 4 (len m) ++ m) 0) as E.
  cbn [app] in E. rewrite E by (try done; lia). cbn [mbind res_bind].
  case_ztest; [lia|]. rewrite (app_assoc (be_bytes 4 (len ch))).
  rewrite getUint32_at by (try lia; len_tac). cbn [mbind res_bind].
  case_ztest; [lia|]. unfold mret, res_ret. do 3 f_equal.
  - rewrite <- app_assoc. apply slice_mid; len_tac.
  - rewrite app_assoc. apply slice_tail; len_tac.
Qed.

(** Decoding the payload of a received frame never throws. *)
Lemma decodeResponse_ok c p : Forall is_byte p → ∃ r, decodeResponse c p = Ok r.
Proof.
  intros Hp. unfold decodeResponse. repeat case_ztest; eauto.
  destruct (decode_event_total p Hp) as (r & -> & _). eauto.
Qed.

(** ** The layout of every command *)

Lemma layout c : encodeCommandFrame c = framed (payload_of c).1 (payload_of c).2.
Proof.
  destruct c; cbn [encodeCommandFrame payload_of fst snd];
    rewrite ?encodeLenPrefixedUtf8_spec; cbn [mbind res_bind];
    rewrite ?writeFrame_spec; try done.
  - apply encode_sub_spec.
  - apply encode_set_spec.
  - apply encode_two_spec.
  - apply encode_exec_spec.
  - apply encode_vinsert_spec.
  - apply encode_vbulkinsert_spec.
Qed.
