(* ===== verification/WireServer.v ===== *)
(** * The server side of the protocol ([src/protocol/wire.zig])

    The frame reader the server runs on what the clients send, and the
    writer of the responses they read.  It is modelled to state what the
    TypeScript encoders and decoders promise: [server_command] is what the
    server must see of a command, and the round-trip theorems of
    [WireTheorems.v] say that it does.  Memory allocation is assumed to
    succeed. *)
From S2P Require Import Prelude TypedArray Command Wire.

(** ** Errors and commands *)

Inductive WireError :=
| EndOfStream | Corruption | UnknownCommand | PayloadTooLarge | InvalidFlags.

Inductive zres (A : Type) :=
| ZOk (a : A)
| ZErr (e : WireError).
Arguments ZOk {A} a.
Arguments ZErr {A} e.

Record srv_item := SrvItem { si_key : bytes; si_vector : bytes; si_timestamp : Z }.

Inductive srv_command :=
| SGet (key : bytes)
| SSet (key value : bytes) (worm : bool)
| SDelete (key : bytes)
| SStatus
| SClusterStatus
| SClusterPeers
| SSubscribe (channel : bytes) (filter : option bytes)
| SUnsubscribe (channel : bytes)
| SPublish (channel message : bytes)
| SExec (procedure : bytes) (args : list bytes)
| SSave
| SAuth (token : bytes)
| SVinsert (key vector : bytes) (worm : bool) (namespace metric : bytes) (timestamp : Z)
    (is_async : bool)
| SVdelete (key namespace : bytes)
| SVbulkinsert (namespace metric : bytes) (worm is_async : bool) (items : list srv_item)
| SVrabitqInstall (namespace : bytes) (dim seed : Z) (centroid rotation : bytes).

Inductive CommandId :=
| id_get | id_set | id_delete | id_status | id_cluster_status | id_subscribe
| id_unsubscribe | id_publish | id_exec | id_cluster_peers | id_save | id_auth
| id_vinsert | id_vdelete | id_vbulkinsert | id_vrabitq_install.

Definition intToCommandId (b : Z) : option CommandId :=
  match b with
  | 0x01 => Some id_get | 0x02 => Some id_set | 0x03 => Some id_delete
  | 0x04 => Some id_status | 0x05 => Some id_cluster_status | 0x06 => Some id_subscribe
  | 0x07 => Some id_unsubscribe | 0x08 => Some id_publish | 0x09 => Some id_exec
  | 0x0A => Some id_cluster_peers | 0x0B => Some id_save | 0x0C => Some id_auth
  | 0x0D => Some id_vinsert | 0x0E => Some id_vdelete | 0x0F => Some id_vbulkinsert
  | 0x10 => Some id_vrabitq_install
  | _ => None
  end.

(** ** Payload parser

    A parser reads [payload] from a position and returns the next one. *)
Definition parser (A : Type) : Type := bytes → Z → zres (A * Z).

#[export] Instance parser_ret : MRet parser := λ A a _ pos, ZOk (a, pos).
#[export] Instance parser_bind : MBind parser := λ A B f m payload pos,
  match m payload pos with
  | ZOk (a, pos') => f a payload pos'
  | ZErr e => ZErr e
  end.

Definition fail {A} (e : WireError) : parser A := λ _ _, ZErr e.

(** [readBytesField] and [sliceBytesField] *)
Definition bytes_field : parser bytes := λ payload pos,
  if len payload <? pos + 4 then ZErr Corruption else
  let field_len := be_value 0 (slice payload pos (pos + 4)) in
  let pos := pos + 4 in
  if len payload <? pos + field_len then ZErr Corruption else
  ZOk (slice payload pos (pos + field_len), pos + field_len).

(** [if (pos + n > payload.len) return error.Corruption; readInt; pos += n] *)
Definition int_field (n : nat) : parser Z := λ payload pos,
  if len payload <? pos + Z.of_nat n then ZErr Corruption
  else ZOk (be_value 0 (slice payload pos (pos + Z.of_nat n)), pos + Z.of_nat n).

(** [if (pos != payload.len) return error.Corruption] *)
Definition at_end : parser () := λ payload pos,
  if pos =? len payload then ZOk ((), pos) else ZErr Corruption.

Definition more : parser bool := λ payload pos, ZOk (pos <? len payload, pos).
Definition left_bytes : parser Z := λ payload pos, ZOk (len payload - pos, pos).

Fixpoint exec_args (n : nat) : parser (list bytes) :=
  match n with
  | O => mret []
  | S n => a ← bytes_field; r ← exec_args n; mret (a :: r)
  end.

Fixpoint bulk_items (n : nat) : parser (list srv_item) :=
  match n with
  | O => mret []
  | S n =>
      key ← bytes_field;
      vector ← bytes_field;
      timestamp ← int_field 8;
      r ← bulk_items n;
      mret (SrvItem key vector timestamp :: r)
  end.

Definition parseCommandPayload (cmd_id : CommandId) : parser srv_command :=
  match cmd_id with
  | id_get => f ← bytes_field; _ ← at_end; mret (SGet f)
  | id_delete => f ← bytes_field; _ ← at_end; mret (SDelete f)
  | id_unsubscribe => f ← bytes_field; _ ← at_end; mret (SUnsubscribe f)
  | id_subscribe =>
      channel ← bytes_field;
      b ← more;
      filter ← (if b : bool then f ← bytes_field; mret (Some f) else mret None);
      _ ← at_end;
      mret (SSubscribe channel filter)
  | id_set =>
      flags ← int_field 1;
      if negb (Z.land flags 0xFE =? 0) then fail InvalidFlags else
      key ← bytes_field;
      value ← bytes_field;
      _ ← at_end;
      mret (SSet key value (negb (Z.land flags 0x01 =? 0)))
  | id_publish =>
      channel ← bytes_field;
      message ← bytes_field;
      _ ← at_end;
      mret (SPublish channel message)
  | id_status => _ ← at_end; mret SStatus
  | id_cluster_status => _ ← at_end; mret SClusterStatus
  | id_cluster_peers => _ ← at_end; mret SClusterPeers
  | id_save => _ ← at_end; mret SSave
  | id_exec =>
      procedure ← bytes_field;
      arg_count ← int_field 4;
      args ← exec_args (Z.to_nat arg_count);
      _ ← at_end;
      mret (SExec procedure args)
  | id_auth => token ← bytes_field; _ ← at_end; mret (SAuth token)
  | id_vinsert =>
      key ← bytes_field;
      vector ← bytes_field;
      flags ← int_field 1;
      if negb (Z.land flags 0xFC =? 0) then fail InvalidFlags else
      namespace ← bytes_field;
      metric ← bytes_field;
      ts ← int_field 8;
      _ ← at_end;
      mret (SVinsert key vector (negb (Z.land flags 0x01 =? 0)) namespace metric ts
              (negb (Z.land flags 0x02 =? 0)))
  | id_vdelete =>
      key ← bytes_field;
      namespace ← bytes_field;
      _ ← at_end;
      mret (SVdelete key namespace)
  | id_vbulkinsert =>
      namespace ← bytes_field;
      metric ← bytes_field;
      flags ← int_field 1;
      if negb (Z.land flags 0xFC =? 0) then fail InvalidFlags else
      count ← int_field 4;
      rest ← left_bytes;
      let min_item_bytes := 4 + 4 + 8 in
      if rest / min_item_bytes <? count then fail Corruption else
      items ← bulk_items (Z.to_nat count);
      _ ← at_end;
      mret (SVbulkinsert namespace metric (negb (Z.land flags 0x01 =? 0))
              (negb (Z.land flags 0x02 =? 0)) items)
  | id_vrabitq_install =>
      namespace ← bytes_field;
      dim ← int_field 4;
      seed ← int_field 8;
      centroid ← bytes_field;
      rotation ← bytes_field;
      if negb (len centroid =? dim * 4) || negb (len rotation =? dim * dim * 4)
      then fail Corruption else
      _ ← at_end;
      mret (SVrabitqInstall namespace dim seed centroid rotation)
  end.

(** [readFrameAlloc] on the bytes received so far; returns the rest. *)
Definition readFrame (input : bytes) : zres (srv_command * bytes) :=
  if len input <? 5 then ZErr EndOfStream else
  let cmd_id_byte := byte_at input 0 in
  let payload_len := be_value 0 (slice input 1 5) in
  if MAX_PAYLOAD <? payload_len then ZErr PayloadTooLarge else
  if len input <? 5 + payload_len then ZErr EndOfStream else
  let payload := slice input 5 (5 + payload_len) in
  match intToCommandId cmd_id_byte with
  | None => ZErr UnknownCommand
  | Some id =>
      match parseCommandPayload id payload 0 with
      | ZErr e => ZErr e
      | ZOk (c, _) => ZOk (c, slice_from input (5 + payload_len))
      end
  end.

(** ** Responses *)

Inductive srv_response :=
| RespOk
| RespValue (v : option bytes)
| RespErr (msg : bytes)
| RespEvent (channel message : bytes).

Definition writeHeader (code payload_len : Z) : bytes := code :: be_bytes 4 payload_len.
Definition writeLenPrefixed (data : bytes) : bytes := be_bytes 4 (len data) ++ data.

Definition writeResponse (r : srv_response) : zres bytes :=
  match r with
  | RespOk => ZOk (writeHeader 0x00 0)
  | RespValue (Some v) => ZOk (writeHeader 0x01 (len v) ++ v)
  | RespValue None => ZOk (writeHeader 0x02 0)
  | RespErr msg => ZOk (writeHeader 0x03 (len msg) ++ msg)
  | RespEvent channel message =>
      let payload_len := 4 + len channel + (4 + len message) in
      if MAX_PAYLOAD <? payload_len then ZErr PayloadTooLarge
      else ZOk (writeHeader 0x04 payload_len ++ writeLenPrefixed channel ++
                writeLenPrefixed message)
  end.

(** ** What the server must see of a command *)

Definition server_command (c : ParsedCommand) : srv_command :=
  match c with
  | GET k => SGet (encodeUtf8 k)
  | DEL k => SDelete (encodeUtf8 k)
  | SUB ch f =>
      SSubscribe (encodeUtf8 ch)
        (match f with Some ((_ :: _) as f) => Some (encodeUtf8 f) | _ => None end)
  | UNSUB ch => SUnsubscribe (encodeUtf8 ch)
  | STATUS => SStatus
  | CLUSTER_STATUS => SClusterStatus
  | CLUSTER_PEERS => SClusterPeers
  | SET k v worm => SSet (encodeUtf8 k) (encodeUtf8 v) worm
  | PUB ch m => SPublish (encodeUtf8 ch) (encodeUtf8 m)
  | EXEC p args => SExec (encodeUtf8 p) (encode_arg <$> args)
  | VINSERT k vec worm ns m ts async =>
      SVinsert (encodeUtf8 k) vec worm (encodeUtf8 ns) (encodeUtf8 (metric_name m))
        (ts mod 2 ^ 64) async
  | VBULKINSERT ns m worm async items =>
      SVbulkinsert (encodeUtf8 ns) (encodeUtf8 (metric_name m)) worm async
        ((λ it, SrvItem (encodeUtf8 (bi_key it)) (bi_vector it)
                  (bi_timestamp it mod 2 ^ 64)) <$> items)
  end.

(** ** Parser lemmas *)

Lemma parser_bind_ok {A B} (f : A → parser B) (m : parser A) payload pos a pos' :
  m payload pos = ZOk (a, pos') → (m ≫= f) payload pos = f a payload pos'.
Proof. unfold mbind, parser_bind. by intros ->. Qed.

Lemma bytes_field_at pre d post pos :
  pos = len pre → len d < 2 ^ 32 →
  bytes_field (pre ++ lp d ++ post) pos = ZOk (d, pos + 4 + len d).
Proof.
  intros -> Hd. unfold bytes_field, lp. autorewrite with len. note_len.
  case_ztest; [lia|]. rewrite <- app_assoc.
  rewrite slice_mid by (rewrite ?len_be_bytes; lia).
  rewrite be_value_bytes, Z.mod_small by lia.
  case_ztest; [lia|]. f_equal. f_equal.
  rewrite app_assoc. rewrite slice_mid by len_tac. done.
Qed.

Lemma int_field_at n pre v post pos :
  pos = len pre →
  int_field n (pre ++ be_bytes n v ++ post) pos =
  ZOk (v mod 256 ^ Z.of_nat n, pos + Z.of_nat n).
Proof.
  intros ->. unfold int_field. autorewrite with len. note_len. case_ztest; [lia|].
  rewrite slice_mid by (rewrite ?len_be_bytes; lia). by rewrite be_value_bytes.
Qed.

Lemma byte_field_at pre b post pos :
  pos = len pre → int_field 1 (pre ++ b :: post) pos = ZOk (b, pos + 1).
Proof.
  intros ->. unfold int_field. autorewrite with len. note_len. case_ztest; [lia|].
  change (b :: post) with ([b] ++ post).
  rewrite slice_mid by (rewrite ?len_cons, ?len_nil; lia). done.
Qed.

Lemma at_end_ok payload pos : pos = len payload → at_end payload pos = ZOk ((), pos).
Proof. intros ->. unfold at_end. by rewrite Z.eqb_refl. Qed.

Lemma more_ok payload pos b : (pos <? len payload) = b → more payload pos = ZOk (b, pos).
Proof. by intros <-. Qed.

Lemma exec_args_at pre args post pos :
  pos = len pre → Forall (λ a, len a < 2 ^ 32) args →
  exec_args (length args) (pre ++ (args ≫= lp) ++ post) pos =
  ZOk (args, pos + len (args ≫= lp)).
Proof.
  intros -> Ha. revert pre. induction Ha as [|a args Ha _ IH]; intros pre.
  - cbn. unfold mret, parser_ret. by rewrite Z.add_0_r.
  - rewrite bind_cons, <- app_assoc. cbn [length exec_args].
    erewrite parser_bind_ok by (by apply bytes_field_at).
    rewrite (app_assoc pre).
    replace (len pre + 4 + len a) with (len (pre ++ lp a)) by len_tac.
    erewrite parser_bind_ok by apply IH. unfold mret, parser_ret. do 2 f_equal. len_tac.
Qed.

Lemma bulk_items_at pre items post pos :
  pos = len pre →
  Forall (λ it, len (encodeUtf8 (bi_key it)) < 2 ^ 32 ∧ len (bi_vector it) < 2 ^ 32) items →
  bulk_items (length items) (pre ++ (items ≫= item_layout) ++ post) pos =
  ZOk ((λ it, SrvItem (encodeUtf8 (bi_key it)) (bi_vector it)
                (bi_timestamp it mod 2 ^ 64)) <$> items,
       pos + len (items ≫= item_layout)).
Proof.
  intros -> Ha. revert pre. induction Ha as [|it items [Hk Hv] _ IH]; intros pre.
  - cbn. unfold mret, parser_ret. by rewrite Z.add_0_r.
  - rewrite bind_cons. unfold item_layout at 1 3. rewrite <- !app_assoc. cbn [length bulk_items].
    erewrite parser_bind_ok by (by apply bytes_field_at).
    rewrite (app_assoc pre). erewrite parser_bind_ok by (apply bytes_field_at; len_tac || done).
    rewrite (app_assoc (pre ++ _)). erewrite parser_bind_ok by (apply int_field_at; len_tac).
    rewrite (app_assoc ((pre ++ _) ++ _)).
    match goal with |- (_ ≫= _) (?p ++ _) ?q = _ => replace q with (len p) by len_tac end.
    erewrite parser_bind_ok by apply IH. unfold mret, parser_ret.
    do 2 f_equal. len_tac.
Qed.

(** Runs the next parser of a bind on a payload laid out field by field:
    the payload is kept in the form [read ++ next ++ rest]. *)
Ltac next_field l :=
  lazymatch goal with
  | |- (_ ≫= _) (?pre ++ _) _ = _ =>
      erewrite parser_bind_ok by (apply l; (len_tac || done)); cbv beta;
      rewrite ?(app_assoc pre)
  end.
Ltac finish_payload :=
  rewrite ?app_nil_r; erewrite parser_bind_ok by (apply at_end_ok; len_tac);
  unfold mret, parser_ret; cbv beta.

Lemma payload_start (p : bytes) : p = [] ++ p ++ [].
Proof. by rewrite app_nil_r. Qed.

Ltac start_payload :=
  match goal with |- context [(_ ≫= _) ?p 0] => rewrite (payload_start p) end;
  rewrite <- ?app_assoc.

Lemma len_lp_le d l : d ∈ l → len (lp d) ≤ len (l ≫= lp).
Proof.
  induction l as [|a l IH]; intros Hd; [by apply not_elem_of_nil in Hd|].
  rewrite bind_cons, len_app. apply elem_of_cons in Hd as [->|Hd].
  - pose proof (len_nonneg (l ≫= lp)). lia.
  - specialize (IH Hd). pose proof (len_nonneg (lp a)). lia.
Qed.

Lemma len_args_le (l : list bytes) : 4 * len l ≤ len (l ≫= lp).
Proof.
  induction l as [|a l IH]; [done|]. rewrite bind_cons. autorewrite with len. note_len. lia.
Qed.

Lemma len_items_le items :
  16 * len items ≤ len (items ≫= item_layout) ∧
  Forall (λ it, len (encodeUtf8 (bi_key it)) ≤ len (items ≫= item_layout) ∧
                len (bi_vector it) ≤ len (items ≫= item_layout)) items.
Proof.
  induction items as [|it items [IH1 IH2]]; [by split|]. rewrite bind_cons.
  split.
  - unfold item_layout at 1. autorewrite with len. note_len. lia.
  - constructor; [|eapply Forall_impl; [exact IH2|]; cbn; intros it' [??]];
      unfold item_layout at 1 3; autorewrite with len; note_len; lia.
Qed.

Lemma flags_worm w a : negb (Z.land (command_flags w a) 0x01 =? 0) = w.
Proof. by destruct w, a. Qed.
Lemma flags_async w a : negb (Z.land (command_flags w a) 0x02 =? 0) = a.
Proof. by destruct w, a. Qed.
Lemma flags_valid w a : negb (Z.land (command_flags w a) 0xFC =? 0) = false.
Proof. by destruct w, a. Qed.

Lemma parse_one_field (f : bytes → srv_command) d :
  len d < 2 ^ 32 →
  (x ← bytes_field; _ ← at_end; mret (f x)) (lp d) 0 = ZOk (f d, 4 + len d).
Proof.
  intros Hd. start_payload. next_field bytes_field_at. finish_payload. done.
Qed.

Lemma parse_two_fields (f : bytes → bytes → srv_command) a b :
  len a < 2 ^ 32 → len b < 2 ^ 32 →
  (x ← bytes_field; y ← bytes_field; _ ← at_end; mret (f x y)) (lp a ++ lp b) 0 =
  ZOk (f a b, 4 + len a + 4 + len b).
Proof.
  intros Ha Hb. start_payload.
  next_field bytes_field_at. next_field bytes_field_at. finish_payload. done.
Qed.

Lemma parse_exec p args :
  len (payload_of (EXEC p args)).2 ≤ MAX_PAYLOAD →
  ∃ pos, parseCommandPayload id_exec (payload_of (EXEC p args)).2 0 =
         ZOk (server_command (EXEC p args), pos).
Proof.
  unfold MAX_PAYLOAD. cbn [payload_of snd parseCommandPayload server_command].
  rewrite <- args_layout. intros Hn. autorewrite with len in Hn. note_len.
  pose proof (len_args_le (encode_arg <$> args)) as Hargs. rewrite len_fmap in Hargs.
  eexists. start_payload.
  next_field bytes_field_at. next_field int_field_at.
  rewrite Z.mod_small by (change (256 ^ Z.of_nat 4) with (2 ^ 32); lia).
  replace (Z.to_nat (len args)) with (length (encode_arg <$> args))
    by (rewrite length_fmap; unfold len; lia).
  erewrite parser_bind_ok.
  2: { apply exec_args_at; [len_tac|]. rewrite Forall_forall. intros d Hd.
       apply len_lp_le in Hd. rewrite len_lp in Hd. lia. }
  cbv beta. rewrite app_assoc. finish_payload. reflexivity.
Qed.

Lemma parse_vinsert k vec w ns m ts a :
  let c := VINSERT k vec w ns m ts a in
  len (payload_of c).2 ≤ MAX_PAYLOAD →
  ∃ pos, parseCommandPayload id_vinsert (payload_of c).2 0 = ZOk (server_command c, pos).
Proof.
  unfold MAX_PAYLOAD. cbn [payload_of snd parseCommandPayload server_command].
  intros Hn. autorewrite with len in Hn. note_len.
  eexists. start_payload.
  next_field bytes_field_at. next_field bytes_field_at.
  cbn [app]. erewrite parser_bind_ok by (apply byte_field_at; len_tac). cbv beta.
  rewrite flags_valid, flags_worm, flags_async.
  rewrite (cons_middle (command_flags w a)), (app_assoc _ [command_flags w a]).
  next_field bytes_field_at. next_field bytes_field_at. next_field int_field_at.
  finish_payload. reflexivity.
Qed.

Lemma parse_vbulkinsert ns m w a items :
  let c := VBULKINSERT ns m w a items in
  len (payload_of c).2 ≤ MAX_PAYLOAD →
  ∃ pos, parseCommandPayload id_vbulkinsert (payload_of c).2 0 = ZOk (server_command c, pos).
Proof.
  unfold MAX_PAYLOAD. cbn [payload_of snd parseCommandPayload server_command].
  intros Hn. autorewrite with len in Hn. note_len.
  destruct (len_items_le items) as [Hcount Hits].
  eexists. start_payload.
  next_field bytes_field_at. next_field bytes_field_at.
  cbn [app]. erewrite parser_bind_ok by (apply byte_field_at; len_tac). cbv beta.
  rewrite flags_valid, flags_worm, flags_async.
  rewrite (cons_middle (command_flags w a)), (app_assoc _ [command_flags w a]).
  next_field int_field_at.
  rewrite Z.mod_small by (change (256 ^ Z.of_nat 4) with (2 ^ 32); lia).
  erewrite parser_bind_ok by reflexivity. cbv beta zeta.
  autorewrite with len. case_ztest; [zdivmod|].
  replace (Z.to_nat (len items)) with (length items) by (unfold len; lia).
  erewrite parser_bind_ok.
  2: { apply bulk_items_at; [len_tac|]. eapply Forall_impl; [exact Hits|].
       cbn. intros it [??]. lia. }
  cbv beta. rewrite app_assoc. finish_payload. reflexivity.
Qed.

Lemma parse_payload c :
  len (payload_of c).2 ≤ MAX_PAYLOAD →
  ∃ id pos, intToCommandId (command_code (payload_of c).1) = Some id ∧
    parseCommandPayload id (payload_of c).2 0 = ZOk (server_command c, pos).
Proof.
  intros Hn.
  destruct c as [k|k|ch f|ch| | | |k v w|ch m|p args|k vec w ns m ts a|ns m w a items].
  10: { destruct (parse_exec p args Hn). by do 2 eexists. }
  10: { destruct (parse_vinsert k vec w ns m ts a Hn). by do 2 eexists. }
  10: { destruct (parse_vbulkinsert ns m w a items Hn). by do 2 eexists. }
  all: cbn [payload_of fst snd] in *; unfold MAX_PAYLOAD in Hn; autorewrite with len in Hn;
    note_len.
  1, 2, 4: do 2 eexists; split; [reflexivity|]; apply parse_one_field; lia.
  2, 3, 4: do 2 eexists; split; [reflexivity|]; reflexivity.
  - destruct f as [[|x f]|]; do 2 eexists; (split; [reflexivity|]);
      cbn [parseCommandPayload server_command]; start_payload; next_field bytes_field_at;
      autorewrite with len in Hn; note_len.
    2: { erewrite parser_bind_ok by (apply (more_ok _ _ true), Z.ltb_lt; len_tac). cbv beta iota.
         erewrite parser_bind_ok.
         2: { erewrite parser_bind_ok by (apply bytes_field_at; (len_tac || lia)). reflexivity. }
         rewrite ?app_assoc. cbv beta. finish_payload. reflexivity. }
    all: rewrite ?app_nil_r;
      erewrite parser_bind_ok by (apply (more_ok _ _ false), Z.ltb_ge; len_tac); cbv beta iota;
      erewrite parser_bind_ok by reflexivity; cbv beta; finish_payload; reflexivity.
  - do 2 eexists. split; [reflexivity|]. cbn [parseCommandPayload server_command].
    change (?x :: ?l) with ([] ++ x :: l) at 1.
    erewrite parser_bind_ok by (apply byte_field_at; done). cbv beta.
    replace (negb (Z.land (if w then 1 else 0) 0xFE =? 0)) with false by by destruct w.
    replace (negb (Z.land (if w then 1 else 0) 0x01 =? 0)) with w by by destruct w.
    match goal with |- (_ ≫= _) ?p _ = _ =>
      replace p with ([if w then 1 else 0] ++ lp (encodeUtf8 k) ++ lp (encodeUtf8 v) ++ [])
        by (by rewrite app_nil_r) end.
    next_field bytes_field_at. next_field bytes_field_at. finish_payload. reflexivity.
  - do 2 eexists. split; [reflexivity|]. apply parse_two_fields; lia.
Qed.
