(* ===== verification/WireTheorems.v ===== *)
(** * Properties of the wire protocol

    What [Wire.v] (client) and [WireServer.v] (server) promise to each other:
    the encoders implement the documented layout, the server reads back
    exactly the command that was encoded, the client reads back exactly the
    response that was written, in any segmentation of the byte stream. *)
From S2P Require Import Prelude Utf8 TypedArray JsText Command Protocol Wire WireServer.

(** The response a client must decode from what the server writes. *)
Definition client_response (r : srv_response) : WormResponse :=
  match r with
  | RespOk => ok
  | RespValue (Some v) => bulk (decodeUtf8 v)
  | RespValue None => null
  | RespErr msg => error (decodeUtf8 msg)
  | RespEvent channel message => event (decodeUtf8 channel) (decodeUtf8 message)
  end.

Definition response_fields (r : srv_response) : list bytes :=
  match r with
  | RespOk | RespValue None => []
  | RespValue (Some v) => [v]
  | RespErr msg => [msg]
  | RespEvent channel message => [channel; message]
  end.

(** ** Supporting lemmas *)

Lemma framed_ok c p f :
  framed c p = Ok f → f = frame_of (command_code c) p ∧ len p ≤ MAX_PAYLOAD.
Proof. unfold framed. case_ztest; [done|]. by intros [= <-]. Qed.

Lemma readFrame_of c p rest id cmd pos :
  len p ≤ MAX_PAYLOAD → intToCommandId c = Some id →
  parseCommandPayload id p 0 = ZOk (cmd, pos) →
  readFrame (frame_of c p ++ rest) = ZOk (cmd, rest).
Proof.
  intros Hp Hid Hparse. unfold readFrame, frame_of, MAX_PAYLOAD in *.
  rewrite <- app_comm_cons, <- app_assoc. autorewrite with len. note_len.
  case_ztest; [lia|].
  rewrite (slice_mid [c] (be_bytes 4 (len p)) (p ++ rest)) by len_tac.
  rewrite be_value_bytes, Z.mod_small by (change (256 ^ Z.of_nat 4) with (2 ^ 32); lia).
  do 2 (case_ztest; [lia|]). change (byte_at (c :: _) 0) with c. rewrite Hid.
  change (c :: be_bytes 4 (len p) ++ p ++ rest) with
    ((c :: be_bytes 4 (len p)) ++ p ++ rest).
  rewrite slice_mid by len_tac. rewrite Hparse. do 2 f_equal.
  rewrite app_assoc. apply slice_from_app. len_tac.
Qed.

Lemma text_roundtrip s :
  well_formed s = true → hd_error s ≠ Some 0xFEFF → decodeUtf8 (encodeUtf8 s) = s.
Proof.
  intros Hwf Hb. unfold decodeUtf8, encodeUtf8.
  rewrite text_decode_encode by by apply well_formed_units. by apply normalize_id.
Qed.

Lemma writeResponse_frame r out :
  writeResponse r = ZOk out → Forall (λ d, len d < 2 ^ 32) (response_fields r) →
  ∃ c p, out = frame_of c p ∧ len p < 2 ^ 32 ∧
    isEventCode c = (match r with RespEvent _ _ => true | _ => false end) ∧
    decodeResponse c p = Ok (client_response r).
Proof.
  intros Hw Hl. destruct r as [|[v|]|msg|ch m]; cbn [writeResponse response_fields] in *.
  1-4: injection Hw as <-; rewrite ?Forall_cons in Hl; try destruct Hl as [Hl _].
  1: exists 0, []. 2: exists 1, v. 3: exists 2, []. 4: exists 3, msg.
  1-4: split_and!; done.
  revert Hw. case_ztest; [done|]. intros [= <-]. unfold MAX_PAYLOAD in *. note_len.
  rewrite !Forall_cons in Hl. destruct Hl as (Hc & Hm & _).
  exists 4, (lp ch ++ lp m). split_and!; [|len_tac|done|].
  - unfold frame_of. rewrite len_app, !len_lp. reflexivity.
  - by apply decode_event_lp.
Qed.

(** ** Properties *)

(** C1: every command encoder writes exactly the documented layout, and
    throws [PayloadTooLargeError] exactly when the payload exceeds the limit:
    no buffer write is ever out of range. *)
Theorem encodeCommandFrame_layout c :
  encodeCommandFrame c =
  if MAX_PAYLOAD <? len (payload_of c).2
  then Throw (PayloadTooLargeError (len (payload_of c).2))
  else Ok (frame_of (command_code (payload_of c).1) (payload_of c).2).
Proof. apply layout. Qed.

(** C2: whatever follows it on the connection, a frame the client sends is
    read by the server as the command it encodes: same kind, keys, values,
    flags, arguments and items, and nothing of the following bytes is
    consumed. *)
Theorem server_reads_command c f rest :
  encodeCommandFrame c = Ok f →
  readFrame (f ++ rest) = ZOk (server_command c, rest).
Proof.
  rewrite layout. intros [-> Hp]%framed_ok.
  destruct (parse_payload c Hp) as (id & pos & Hid & Hparse). by eapply readFrame_of.
Qed.

Lemma server_reads_command_witness :
  ∃ f, encodeCommandFrame (SET (js "user:1") (js "alice") true) = Ok f ∧
    readFrame (f ++ [1; 2; 3]) =
    ZOk (SSet (encodeUtf8 (js "user:1")) (encodeUtf8 (js "alice")) true, [1; 2; 3]).
Proof.
  eexists. split; [vm_compute; reflexivity|].
  apply (server_reads_command (SET (js "user:1") (js "alice") true)). vm_compute. reflexivity.
Defined.

(** C5: the frames a client extracts do not depend on how the transport cut
    the byte stream into chunks; they are those of the whole stream, and what
    is left is less than a frame. *)
Theorem receive_any_segmentation chunks fs rest :
  Forall (Forall is_byte) chunks →
  concat chunks = (fs ≫= frame_bytes) ++ rest →
  Forall frame_ok fs → tryConsumeFrame rest = None →
  receive_chunks [] chunks = Ok (fs, rest).
Proof.
  intros Hc Hs Hfs Hr.
  rewrite receive_chunks_from by done. cbn [app]. rewrite Hs.
  rewrite read_all_frames; [done|done| |done].
  assert (Forall is_byte (concat chunks)) as Hb.
  { clear -Hc. induction Hc; cbn; [constructor|by apply Forall_app]. }
  rewrite Hs in Hb. by apply Forall_app in Hb as [_ Hb].
Qed.

Lemma receive_any_segmentation_witness :
  receive_chunks [] [[0]; [0; 0; 0; 0; 2]; [0; 0; 0; 0; 1; 0]]
  = Ok ([(0, []); (2, [])], [1; 0]).
Proof.
  apply (receive_any_segmentation _ [(0, []); (2, [])] [1; 0]);
    [apply (bool_decide_unpack _); vm_compute; exact I | reflexivity
    |apply (bool_decide_unpack _); vm_compute; exact I | reflexivity].
Defined.

(** C6: the client decodes every response the server writes to that
    response, also when more bytes follow, and only events are classified as
    events. *)
Theorem response_roundtrip r out rest :
  writeResponse r = ZOk out → Forall (λ d, len d < 2 ^ 32) (response_fields r) →
  ∃ f, tryConsumeFrame (out ++ rest) = Some f ∧ remaining f = rest ∧
    decodeResponse (code f) (payload f) = Ok (client_response r) ∧
    isEventCode (code f) = match r with RespEvent _ _ => true | _ => false end.
Proof.
  intros Hw Hl. destruct (writeResponse_frame _ _ Hw Hl) as (c & p & -> & Hp & He & Hd).
  eexists. split; [by apply tryConsumeFrame_frame|]. by split_and!.
Qed.

Lemma response_roundtrip_witness :
  ∃ f, tryConsumeFrame ([4; 0;0;0;10; 0;0;0;1; 97; 0;0;0;1; 98] ++ [9]) = Some f ∧
    remaining f = [9] ∧
    decodeResponse (code f) (payload f) = Ok (event (js "a") (js "b")) ∧
    isEventCode (code f) = true.
Proof.
  apply (response_roundtrip (RespEvent [97] [98])); [reflexivity|].
  apply (bool_decide_unpack _). vm_compute. exact I.
Defined.

(** A well-formed string that does not start with a byte order mark
    survives the wire: the value sent in a [SET] is the value of the [GET]
    response that carries the stored bytes. *)
Theorem set_get_text k v w f out :
  well_formed v = true → hd_error v ≠ Some 0xFEFF →
  encodeCommandFrame (SET k v w) = Ok f →
  writeResponse (RespValue (Some (encodeUtf8 v))) = ZOk out →
  ∃ key stored fr,
    readFrame f = ZOk (SSet key stored w, []) ∧ stored = encodeUtf8 v ∧
    tryConsumeFrame out = Some fr ∧
    decodeResponse (code fr) (payload fr) = Ok (bulk v).
Proof.
  intros Hwf Hb Hf Hout.
  pose proof Hf as Hf'. rewrite layout in Hf'. apply framed_ok in Hf' as [_ Hl].
  cbn [payload_of snd] in Hl. unfold MAX_PAYLOAD in Hl. autorewrite with len in Hl. note_len.
  assert (readFrame f = ZOk (server_command (SET k v w), [])) as Hr.
  { rewrite <- (app_nil_r f). rewrite layout in Hf. apply framed_ok in Hf as [-> Hp].
    destruct (parse_payload _ Hp) as (id & pos & Hid & Hparse). by eapply readFrame_of. }
  destruct (writeResponse_frame _ _ Hout) as (c & p & -> & Hp & _ & Hd).
  { repeat constructor. lia. }
  do 3 eexists. split_and!; [exact Hr|done| |].
  - rewrite <- (app_nil_r (frame_of c p)). by apply tryConsumeFrame_frame.
  - cbn [code payload]. rewrite Hd. cbn [client_response]. by rewrite text_roundtrip.
Qed.

Lemma set_get_text_witness :
  ∃ key stored fr,
    readFrame [2; 0;0;0;13; 1; 0;0;0;1; 107; 0;0;0;3; 0xE2;0x82;0xAC]
      = ZOk (SSet key stored true, []) ∧ stored = encodeUtf8 [0x20AC] ∧
    tryConsumeFrame [1; 0;0;0;3; 0xE2;0x82;0xAC] = Some fr ∧
    decodeResponse (code fr) (payload fr) = Ok (bulk [0x20AC]).
Proof.
  apply (set_get_text (js "k")); [reflexivity|discriminate|vm_compute; reflexivity|].
  vm_compute. reflexivity.
Defined.

(** A leading byte order mark does not survive: the decoder drops it. *)
Theorem leading_bom_dropped s :
  well_formed s = true → decodeUtf8 (encodeUtf8 (0xFEFF :: s)) = s.
Proof.
  intros Hwf. unfold decodeUtf8, encodeUtf8. rewrite text_decode_encode.
  - unfold normalize. change (0xFEFF :: s) with ([0xFEFF] ++ s).
    cbn [app code_points]. change (is_high 0xFEFF) with false.
    change (is_low 0xFEFF) with false. cbn [strip_bom]. by apply units_code_points.
  - constructor; [by vm_compute|by apply well_formed_units].
Qed.

Lemma leading_bom_dropped_witness : decodeUtf8 (encodeUtf8 (0xFEFF :: js "hi")) = js "hi".
Proof. apply leading_bom_dropped. reflexivity. Defined.

(** C34: decoding never throws, on any byte sequence: codes 0 to 3 give the
    response they name, 4 an event or the malformed-event error, and any
    other code an error response. *)
Theorem decodeResponse_total c p :
  Forall is_byte p →
  ∃ r, decodeResponse c p = Ok r ∧
    match r with
    | ok => c = ROk
    | bulk v => c = RValue ∧ v = decodeUtf8 p
    | null => c = RNull
    | event _ _ => c = REvent
    | error m => (c = RErr ∧ m = decodeUtf8 p) ∨
                 (c = REvent ∧ m = js "Malformed event response") ∨
                 ((c ∉ [ROk; RValue; RNull; RErr; REvent]) ∧
                  m = js "Unknown response code: " ++ show c)
    end.
Proof.
  intros Hp. unfold decodeResponse.
  destruct (Z.eqb_spec c ROk), (Z.eqb_spec c RValue), (Z.eqb_spec c RNull),
    (Z.eqb_spec c RErr), (Z.eqb_spec c REvent); subst; try done;
    try (eexists; split; [reflexivity|]; cbn; tauto).
  - destruct (decode_event_total p Hp) as (r & -> & [->|(ch & m & ->)]);
      (eexists; split; [reflexivity|]; cbn; tauto).
  - eexists. split; [done|]. right; right. split; [|done].
    rewrite !not_elem_of_cons. by split_and!; try apply not_elem_of_nil.
Qed.

Lemma decodeResponse_total_witness :
  ∃ r, decodeResponse 9 [1; 2] = Ok r ∧
    match r with
    | ok => 9 = ROk
    | bulk v => 9 = RValue ∧ v = decodeUtf8 [1; 2]
    | null => 9 = RNull
    | event _ _ => 9 = REvent
    | error m => (9 = RErr ∧ m = decodeUtf8 [1; 2]) ∨
                 (9 = REvent ∧ m = js "Malformed event response") ∨
                 ((9 ∉ [ROk; RValue; RNull; RErr; REvent]) ∧
                  m = js "Unknown response code: " ++ show 9)
    end.
Proof. apply (decodeResponse_total 9 [1; 2]). repeat constructor; lia. Defined.
