(* ===== verification/Transport.v ===== *)
(** * Backpressure-aware writes

    [writeOrQueue] and [flushBacklog], which [client.ts] and [wormdb.ts] share
    word for word: a chunk the socket only partly accepts is kept in a
    backlog, which the [drain] callback flushes front to back.  The runtime's
    [socket.write] is a parameter: [sock_write n data] is what its [n]-th call
    returns.  The theorems: bytes reach the socket in order and none is lost
    or duplicated, as long as no write fails. *)
From S2P Require Import Prelude.

Class Runtime := { sock_write : nat → bytes → Z }.

(** Bun's documented contract for a write that does not fail: the number of
    bytes accepted. *)
Class WritesAccepted (R : Runtime) : Prop :=
  write_accepted : ∀ n data, 0 ≤ sock_write n data ≤ len data.

(** The backlog, the number of [socket.write] calls so far, and the bytes
    each socket has accepted. *)
Record outbox := Outbox {
  writeBacklog : list bytes;
  calls : nat;
  accepted : gmap nat bytes;
}.

Definition accepted_by (s : nat) (o : outbox) : bytes := default [] (accepted o !! s).

Section Transport.
Context {R : Runtime}.

(** [socket.write(data)] *)
Definition socket_write (s : nat) (data : bytes) (o : outbox) : Z * outbox :=
  let n := sock_write (calls o) data in
  (n, Outbox (writeBacklog o) (S (calls o))
        (<[s := accepted_by s o ++ take (Z.to_nat n) data]> (accepted o))).

Definition set_backlog (b : list bytes) (o : outbox) : outbox :=
  Outbox b (calls o) (accepted o).

(** Returns the new state and the exception thrown, if any. *)
Definition writeOrQueue (s : nat) (data : bytes) (o : outbox) : outbox * option exn :=
  match writeBacklog o with
  | _ :: _ => (set_backlog (writeBacklog o ++ [data]) o, None)
  | [] =>
      let '(written, o) := socket_write s data o in
      if written <? 0 then (o, Some (Error (js "socket.write failed")))
      else if written <? len data
      then (set_backlog (writeBacklog o ++ [slice_from data written]) o, None)
      else (o, None)
  end.

(** The [while (this.writeBacklog.length > 0)] loop, over the chunks left. *)
Fixpoint flush_chunks (s : nat) (chunks : list bytes) (o : outbox) : outbox :=
  match chunks with
  | [] => set_backlog [] o
  | chunk :: rest =>
      let '(written, o) := socket_write s chunk o in
      if written <? 0 then flush_chunks s rest o
      else if written <? len chunk then set_backlog (slice_from chunk written :: rest) o
      else flush_chunks s rest o
  end.

Definition flushBacklog (s : nat) (o : outbox) : outbox :=
  flush_chunks s (writeBacklog o) o.

(** ** What is on its way to a socket *)

Definition outgoing (s : nat) (o : outbox) : bytes :=
  accepted_by s o ++ concat (writeBacklog o).

Lemma accepted_by_write s data o :
  accepted_by s (socket_write s data o).2 =
  accepted_by s o ++ take (Z.to_nat (sock_write (calls o) data)) data.
Proof. unfold accepted_by, socket_write. cbn. by rewrite lookup_insert_eq. Qed.

Lemma socket_write_inv s data o n o1 :
  socket_write s data o = (n, o1) →
  n = sock_write (calls o) data ∧ writeBacklog o1 = writeBacklog o ∧
  accepted_by s o1 = accepted_by s o ++ take (Z.to_nat n) data.
Proof.
  intros E. pose proof (accepted_by_write s data o) as H. rewrite E in H.
  unfold socket_write in E. by injection E as <- <-.
Qed.

Lemma accepted_by_other s s' data o :
  s ≠ s' → accepted_by s' (socket_write s data o).2 = accepted_by s' o.
Proof. intros. unfold accepted_by, socket_write. cbn. by rewrite lookup_insert_ne. Qed.

Lemma accepted_by_backlog s b o : accepted_by s (set_backlog b o) = accepted_by s o.
Proof. done. Qed.
Lemma writeBacklog_set b o : writeBacklog (set_backlog b o) = b.
Proof. done. Qed.

Lemma writeOrQueue_backlogged s data o chunk rest :
  writeBacklog o = chunk :: rest →
  writeOrQueue s data o = (set_backlog (chunk :: rest ++ [data]) o, None).
Proof. intros E. unfold writeOrQueue. by rewrite E. Qed.

Lemma writeOrQueue_in_order `{!WritesAccepted R} s data o :
  let '(o', e) := writeOrQueue s data o in
  e = None ∧ outgoing s o' = outgoing s o ++ data.
Proof.
  unfold writeOrQueue, outgoing. destruct (writeBacklog o) as [|c r] eqn:E.
  - destruct (socket_write s data o) as [n o1] eqn:Ew.
    apply socket_write_inv in Ew as (En & Eb & Ha).
    pose proof (write_accepted (calls o) data) as Hw.
    case_ztest; [lia|]. case_ztest; split; try done;
      rewrite ?writeBacklog_set, Eb, E; cbn [app concat];
      rewrite !app_nil_r.
    + rewrite accepted_by_backlog, Ha, slice_drop by lia. by rewrite <- app_assoc, take_drop.
    + rewrite Ha. by rewrite take_ge by (unfold len in *; lia).
  - split; [done|]. cbn [writeBacklog set_backlog]. rewrite concat_app. cbn [concat].
    rewrite app_nil_r, app_assoc. done.
Qed.

Lemma flush_chunks_in_order `{!WritesAccepted R} s chunks o :
  outgoing s (flush_chunks s chunks o) = accepted_by s o ++ concat chunks.
Proof.
  revert o. induction chunks as [|c r IH]; intros o; cbn [flush_chunks concat].
  - unfold outgoing. by rewrite accepted_by_backlog, writeBacklog_set.
  - destruct (socket_write s c o) as [n o1] eqn:Ew.
    apply socket_write_inv in Ew as (En & _ & Ha).
    pose proof (write_accepted (calls o) c) as Hw.
    case_ztest; [lia|]. case_ztest.
    + unfold outgoing. rewrite accepted_by_backlog, Ha, writeBacklog_set. cbn [concat].
      rewrite slice_drop by lia. rewrite <- app_assoc, (app_assoc (take _ _)).
      by rewrite take_drop.
    + rewrite IH, Ha, <- app_assoc. by rewrite (take_ge c) by (unfold len in *; lia).
Qed.

Lemma flushBacklog_in_order `{!WritesAccepted R} s o :
  outgoing s (flushBacklog s o) = outgoing s o.
Proof. unfold flushBacklog. by rewrite flush_chunks_in_order. Qed.

(** ** Runs of sends and drains on one socket *)

Inductive io := Submit (data : bytes) | Drain.

Definition io_step (s : nat) (o : outbox) (e : io) : outbox :=
  match e with
  | Submit data => (writeOrQueue s data o).1
  | Drain => flushBacklog s o
  end.

Definition io_run (s : nat) (es : list io) (o : outbox) : outbox := foldl (io_step s) o es.

Definition submitted (es : list io) : bytes :=
  es ≫= λ e, match e with Submit data => data | Drain => [] end.

Definition outbox0 : outbox := Outbox [] 0 ∅.

Lemma io_run_outgoing `{!WritesAccepted R} s es o :
  outgoing s (io_run s es o) = outgoing s o ++ submitted es.
Proof.
  revert o. induction es as [|e es IH]; intros o; [by rewrite app_nil_r|].
  unfold submitted. rewrite bind_cons. cbn [io_run foldl]. fold (io_run s es (io_step s o e)).
  rewrite IH. fold (submitted es). destruct e as [data|]; cbn [io_step].
  - pose proof (writeOrQueue_in_order s data o) as H.
    destruct (writeOrQueue s data o) as [o' x]. destruct H as [_ H].
    cbn [fst]. by rewrite H, <- app_assoc.
  - by rewrite flushBacklog_in_order.
Qed.

(** Whatever the socket accepts of each write and whenever it drains, the
    bytes it has received are a prefix of the bytes submitted, in order, and
    the rest is exactly the backlog. *)
Theorem stream_prefix `{!WritesAccepted R} s es :
  let o := io_run s es outbox0 in
  submitted es = accepted_by s o ++ concat (writeBacklog o).
Proof.
  cbv zeta. change (accepted_by s ?o ++ concat (writeBacklog ?o)) with (outgoing s o).
  by rewrite io_run_outgoing.
Qed.
End Transport.

(** A runtime that accepts at most three bytes per call. *)
Definition three_bytes : Runtime := {| sock_write := λ _ data, Z.min 3 (len data) |}.

#[export] Instance three_bytes_accepted : WritesAccepted three_bytes.
Proof. intros n data. cbn. note_len. lia. Qed.

(** A runtime that accepts everything. *)
Definition all_bytes : Runtime := {| sock_write := λ _ data, len data |}.

#[export] Instance all_bytes_accepted : WritesAccepted all_bytes.
Proof. intros n data. cbn. note_len. lia. Qed.

Lemma stream_prefix_witness :
  let o := io_run (R := three_bytes) 1 [Submit [1;2;3;4]; Submit [5;6]; Drain; Drain] outbox0 in
  [1;2;3;4;5;6] = accepted_by 1 o ++ concat (writeBacklog o) ∧ writeBacklog o = [].
Proof.
  split; [|reflexivity].
  apply (stream_prefix (R := three_bytes) 1 [Submit [1;2;3;4]; Submit [5;6]; Drain; Drain]).
Defined.
