(* ===== verification/Pool.v ===== *)
(** * Pending requests and their promises

    What the three clients share: a first-in first-out queue of pending
    requests, the timer armed for each, and the promises handed out so far.
    A request, its promise and its timer share an identifier.  [T] is what a
    timer's closure captured, [O] how a promise settles.

    [accounts] is the invariant: the promises handed out are, each exactly
    once, held by the caller ([held]: not yet pending), pending or settled,
    and the armed timers are those of the pending requests. *)
From S2P Require Import Prelude.

Record pool (T O : Type) := Pool {
  pendingQueue : list nat;
  timers : gmap nat T;
  settled : gmap nat O;
  next_id : nat;
}.
Arguments Pool {T O}.
Arguments pendingQueue {T O}.
Arguments timers {T O}.
Arguments settled {T O}.
Arguments next_id {T O}.

Section Pool.
Context {T O : Type}.
Implicit Types (p : pool T O) (id : nat) (o : O) (t : T).

Definition pool0 : pool T O := Pool [] ∅ ∅ 0.

(** A promise is made; its identifier is fresh. *)
Definition fresh p : pool T O := Pool (pendingQueue p) (timers p) (settled p) (S (next_id p)).

(** The first of [resolve]/[reject] wins; later calls have no effect. *)
Definition settle id o p : pool T O :=
  match settled p !! id with
  | Some _ => p
  | None => Pool (pendingQueue p) (timers p) (<[id := o]> (settled p)) (next_id p)
  end.

(** [clearTimeout], and the end of a timer that fired. *)
Definition clear_timer id p : pool T O :=
  Pool (pendingQueue p) (delete id (timers p)) (settled p) (next_id p).

Definition set_queue q p : pool T O := Pool q (timers p) (settled p) (next_id p).

(** [setTimeout], then [pendingQueue.push({ resolve, reject, timeout })]. *)
Definition enqueue id t p : pool T O :=
  Pool (pendingQueue p ++ [id]) (<[id := t]> (timers p)) (settled p) (next_id p).

(** [pendingQueue.pop()], [clearTimeout], [reject] *)
Definition reject_last o p : pool T O :=
  match last (pendingQueue p) with
  | None => p
  | Some pending =>
      settle pending o (clear_timer pending (set_queue (removelast (pendingQueue p)) p))
  end.

(** The queue is replaced by an empty one and its entries rejected in turn. *)
Definition reject_all o p : pool T O :=
  foldl (λ p id, settle id o (clear_timer id p)) (set_queue [] p) (pendingQueue p).

(** [pendingQueue.shift()], [clearTimeout], [resolve] *)
Definition answer o p : pool T O :=
  match pendingQueue p with
  | [] => p
  | pending :: rest => settle pending o (clear_timer pending (set_queue rest p))
  end.

Definition answer_all (os : list O) p : pool T O := foldl (λ p o, answer o p) p os.

(** The timer of request [id] fires: its entry is spliced out of the queue
    and its promise rejected. *)
Definition expire id o p : pool T O :=
  match timers p !! id with
  | None => p
  | Some _ =>
      let q := match list_find (λ x, x = id) (pendingQueue p) with
               | Some (i, _) => delete i (pendingQueue p)
               | None => pendingQueue p
               end in
      settle id o (clear_timer id (set_queue q p))
  end.

(** ** The invariant *)

Definition settled_ids p : list nat := elements (dom (settled p)).

Definition accounts (held : list nat) p : Prop :=
  held ++ pendingQueue p ++ settled_ids p ≡ₚ seq 0 (next_id p) ∧
  dom (timers p) = list_to_set (pendingQueue p).

Lemma accounts_nodup held p :
  accounts held p → NoDup (held ++ pendingQueue p ++ settled_ids p).
Proof. intros [H _]. rewrite H. apply NoDup_seq. Qed.

Lemma accounts_facts held p :
  accounts held p →
  NoDup (pendingQueue p) ∧ (∀ id, id ∈ pendingQueue p → settled p !! id = None) ∧
  (∀ id, id ∈ held → settled p !! id = None ∧ id ∉ pendingQueue p) ∧
  next_id p ∉ held ++ pendingQueue p ++ settled_ids p.
Proof.
  intros H. pose proof (accounts_nodup _ _ H) as (_ & Hh & Hn)%NoDup_app.
  pose proof Hn as (Hq & Hd & _)%NoDup_app.
  assert (∀ id, id ∉ settled_ids p → settled p !! id = None) as Hs.
  { intros id Hid. apply not_elem_of_dom. by rewrite <- elem_of_elements. }
  split_and!; [done|by auto| |].
  - intros id Hid. specialize (Hh id Hid). rewrite elem_of_app in Hh. split; [apply Hs|]; tauto.
  - destruct H as [H _]. rewrite H, elem_of_seq. lia.
Qed.

Lemma accounts_perm held held' p : held ≡ₚ held' → accounts held p → accounts held' p.
Proof. intros E [H Ht]. split; [by rewrite <- E|done]. Qed.

#[export] Instance accounts_proper : Proper ((≡ₚ) ==> (=) ==> (↔)) accounts.
Proof. intros h h' E p p' <-. split; by apply accounts_perm. Qed.

Lemma accounts0 : accounts [] pool0.
Proof. by split. Qed.

Lemma accounts_fresh held p :
  accounts held p → accounts (held ++ [next_id p]) (fresh p).
Proof.
  intros [H Ht]. split; [|done]. unfold settled_ids in *. cbn [pendingQueue settled next_id fresh].
  rewrite seq_S, <- H, <- (app_assoc held [_]), <- (app_assoc held (pendingQueue p ++ _)).
  apply Permutation_app_head, Permutation_app_comm.
Qed.

Lemma accounts_enqueue held id t p :
  accounts (id :: held) p → accounts held (enqueue id t p).
Proof.
  intros [H Ht]. split; unfold settled_ids in *; cbn.
  - rewrite <- H, <- app_assoc. cbn. by rewrite <- !Permutation_middle.
  - rewrite dom_insert_L, Ht, list_to_set_app_L. set_solver.
Qed.

(** Settling promises that were held. *)
Lemma accounts_settle held id o p :
  accounts (id :: held) p → accounts held (settle id o p).
Proof.
  intros H. pose proof (accounts_facts _ _ H) as (_ & _ & Hh & _).
  destruct (Hh id) as [Hn Hq]; [left|]. destruct H as [H Ht].
  unfold settle. rewrite Hn. split; [|done]. unfold settled_ids in *. cbn.
  rewrite dom_insert_L, elements_union_singleton by by apply not_elem_of_dom.
  rewrite <- H. cbn. by rewrite <- !Permutation_middle.
Qed.

Lemma settle_keeps id o p :
  pendingQueue (settle id o p) = pendingQueue p ∧ timers (settle id o p) = timers p ∧
  next_id (settle id o p) = next_id p.
Proof. unfold settle. by destruct (settled p !! id). Qed.

Lemma settle_stable id o id' o' p :
  settled p !! id' = Some o' → settled (settle id o p) !! id' = Some o'.
Proof.
  intros H. unfold settle. destruct (settled p !! id) eqn:E; [done|]. cbn.
  rewrite lookup_insert_ne; [done|]. congruence.
Qed.

Lemma settle_new id o p : settled p !! id = None → settled (settle id o p) !! id = Some o.
Proof. intros H. unfold settle. rewrite H. cbn. apply lookup_insert_eq. Qed.

Lemma settle_other id id' o p :
  id ≠ id' → settled (settle id o p) !! id' = settled p !! id'.
Proof.
  intros H. unfold settle. destruct (settled p !! id); [done|]. cbn. by apply lookup_insert_ne.
Qed.

(** Taking a request out of the queue leaves it held by the callback. *)
Lemma accounts_dequeue held q1 id q2 p :
  pendingQueue p = q1 ++ id :: q2 → accounts held p →
  accounts (id :: held) (clear_timer id (set_queue (q1 ++ q2) p)).
Proof.
  intros Eq H. pose proof (accounts_facts _ _ H) as (Hn & _). destruct H as [H Ht].
  split; unfold settled_ids in *; cbn; rewrite Eq in *.
  - rewrite <- H. rewrite <- !app_assoc. cbn. by rewrite <- !Permutation_middle.
  - rewrite dom_delete_L, Ht. apply NoDup_app in Hn as (_ & H1 & (H2 & _)%NoDup_cons).
    apply set_eq. intros x. rewrite elem_of_difference, !elem_of_list_to_set, !elem_of_app,
      elem_of_cons, elem_of_singleton. specialize (H1 id).
    assert (id ∉ q1) by (intros Hi; apply (H1 Hi); left).
    destruct (decide (x = id)) as [->|]; tauto.
Qed.

Lemma accounts_answer held o p : accounts held p → accounts held (answer o p).
Proof.
  intros H. unfold answer. destruct (pendingQueue p) as [|id q] eqn:E; [done|].
  by apply accounts_settle, (accounts_dequeue held [] id q).
Qed.

Lemma accounts_answer_all held os p : accounts held p → accounts held (answer_all os p).
Proof.
  unfold answer_all. revert p. induction os as [|o os IH]; intros p H; cbn; [done|].
  by apply IH, accounts_answer.
Qed.

Lemma accounts_reject_last held o p : accounts held p → accounts held (reject_last o p).
Proof.
  intros H. unfold reject_last. destruct (last (pendingQueue p)) as [id|] eqn:E; [|done].
  apply last_Some in E as [q E]. rewrite E, removelast_last.
  apply accounts_settle. rewrite <- (app_nil_r q). by apply accounts_dequeue.
Qed.

(** Rejecting everything pending is answering everything with the reason. *)
Lemma reject_all_answer o p :
  reject_all o p = answer_all (replicate (length (pendingQueue p)) o) p.
Proof.
  unfold reject_all, answer_all. remember (pendingQueue p) as q eqn:E.
  revert p E. induction q as [|id q IH]; intros p E; cbn.
  - unfold set_queue. rewrite E. by destruct p.
  - unfold answer at 2. rewrite <- E. rewrite <- IH by (destruct (settle_keeps id o
      (clear_timer id (set_queue q p))) as (-> & _); done).
    f_equal. unfold settle, clear_timer, set_queue. cbn. by destruct (settled p !! id).
Qed.

Lemma accounts_reject_all held o p : accounts held p → accounts held (reject_all o p).
Proof. rewrite reject_all_answer. apply accounts_answer_all. Qed.

(** A timer that fires removes its own request, wherever it is queued. *)
Lemma expire_split held id o p :
  accounts held p → is_Some (timers p !! id) →
  ∃ q1 q2, pendingQueue p = q1 ++ id :: q2 ∧ id ∉ q1 ∧
    expire id o p = settle id o (clear_timer id (set_queue (q1 ++ q2) p)).
Proof.
  intros [_ Ht] [t E]. assert (id ∈ pendingQueue p) as Hin.
  { rewrite <- (elem_of_list_to_set (C := gset nat)), <- Ht. by apply elem_of_dom_2 in E. }
  unfold expire. rewrite E. destruct (list_find _ _) as [[i x]|] eqn:F.
  - apply list_find_Some in F as (F & -> & Hi). exists (take i (pendingQueue p)), (drop (S i) (pendingQueue p)).
    split_and!; [by rewrite take_drop_middle| |by rewrite delete_take_drop].
    intros [j Hj]%list_elem_of_lookup. apply lookup_take_Some in Hj as [Hj Hlt].
    by apply (Hi j id Hj).
  - apply list_find_None in F. rewrite Forall_forall in F. by destruct (F id).
Qed.

Lemma accounts_expire held id o p : accounts held p → accounts held (expire id o p).
Proof.
  intros H. destruct (timers p !! id) eqn:E; [|unfold expire; by rewrite E].
  destruct (expire_split held id o p) as (q1 & q2 & Eq & _ & ->); [done..|].
  by apply accounts_settle, accounts_dequeue.
Qed.

(** ** What answering does *)

Lemma answer_queue o p : pendingQueue (answer o p) = drop 1 (pendingQueue p).
Proof.
  unfold answer. destruct (pendingQueue p) as [|id q] eqn:E; [done|].
  by destruct (settle_keeps id o (clear_timer id (set_queue q p))) as (-> & _).
Qed.

Lemma answer_next o p : next_id (answer o p) = next_id p.
Proof.
  unfold answer. destruct (pendingQueue p) as [|id q]; [done|].
  by destruct (settle_keeps id o (clear_timer id (set_queue q p))) as (_ & _ & ->).
Qed.

Lemma answer_all_next os p : next_id (answer_all os p) = next_id p.
Proof.
  unfold answer_all. revert p. induction os as [|o os IH]; intros p; cbn; [done|].
  by rewrite IH, answer_next.
Qed.

Lemma answer_all_queue os p : pendingQueue (answer_all os p) = drop (length os) (pendingQueue p).
Proof.
  unfold answer_all. revert p. induction os as [|o os IH]; intros p; cbn; [by rewrite drop_0|].
  rewrite IH, answer_queue, drop_drop. done.
Qed.

Lemma answer_stable o p id' o' :
  settled p !! id' = Some o' → settled (answer o p) !! id' = Some o'.
Proof.
  intros H. unfold answer. destruct (pendingQueue p); [done|]. by apply settle_stable.
Qed.

Lemma answer_all_stable os p id' o' :
  settled p !! id' = Some o' → settled (answer_all os p) !! id' = Some o'.
Proof.
  unfold answer_all. revert p. induction os as [|o os IH]; intros p H; cbn; [done|].
  by apply IH, answer_stable.
Qed.

Lemma answer_all_lookup held os p i id o :
  accounts held p → pendingQueue p !! i = Some id → os !! i = Some o →
  settled (answer_all os p) !! id = Some o.
Proof.
  unfold answer_all. revert p i. induction os as [|o1 os IH]; intros p i H Hi Ho; [done|].
  cbn. destruct i as [|i]; cbn in Ho.
  - injection Ho as ->. apply (answer_all_stable os). unfold answer.
    destruct (pendingQueue p) as [|id' q] eqn:E; [done|]. cbn in Hi. injection Hi as ->.
    apply settle_new. destruct (accounts_facts _ _ H) as (_ & Hf & _). apply Hf. rewrite E. left.
  - apply (IH _ i); [by apply accounts_answer| |done].
    rewrite answer_queue, lookup_drop. done.
Qed.

Lemma answer_all_other os p id :
  id ∉ take (length os) (pendingQueue p) → settled (answer_all os p) !! id = settled p !! id.
Proof.
  unfold answer_all. revert p. induction os as [|o os IH]; intros p H; cbn; [done|].
  rewrite IH.
  - unfold answer. destruct (pendingQueue p) as [|id' q] eqn:E; [done|].
    rewrite settle_other; [done|]. intros ->. apply H. cbn. left.
  - rewrite answer_queue. intros Hin. apply H. destruct (pendingQueue p); cbn in *; [|right].
    + by rewrite take_nil in Hin.
    + by rewrite drop_0 in Hin.
Qed.

Lemma answer_all_timers held os p :
  accounts held p → dom (timers (answer_all os p)) = list_to_set (drop (length os) (pendingQueue p)).
Proof.
  intros H%(accounts_answer_all _ os). destruct H as [_ ->]. by rewrite answer_all_queue.
Qed.

Lemma reject_all_queue o p : pendingQueue (reject_all o p) = [].
Proof.
  rewrite reject_all_answer, answer_all_queue, length_replicate. by apply drop_ge.
Qed.

Lemma reject_all_next o p : next_id (reject_all o p) = next_id p.
Proof. rewrite reject_all_answer. apply answer_all_next. Qed.

Lemma reject_all_timers held o p : accounts held p → timers (reject_all o p) = ∅.
Proof.
  intros H%(accounts_reject_all _ o). destruct H as [_ H]. rewrite reject_all_queue in H.
  by apply dom_empty_inv_L.
Qed.

Lemma reject_all_lookup held o p id :
  accounts held p → id ∈ pendingQueue p → settled (reject_all o p) !! id = Some o.
Proof.
  intros H [i Hi]%list_elem_of_lookup. rewrite reject_all_answer.
  eapply answer_all_lookup; [done..|]. apply lookup_replicate_2. by eapply lookup_lt_Some.
Qed.

Lemma reject_all_stable o p id' o' :
  settled p !! id' = Some o' → settled (reject_all o p) !! id' = Some o'.
Proof. rewrite reject_all_answer. apply answer_all_stable. Qed.

Lemma reject_all_other o p id :
  id ∉ pendingQueue p → settled (reject_all o p) !! id = settled p !! id.
Proof.
  intros H. rewrite reject_all_answer. apply answer_all_other.
  rewrite length_replicate, take_ge by done. done.
Qed.

(** A timer that fires is gone before the queue is rejected. *)
Lemma reject_all_fired held o p id :
  accounts held p → reject_all o (clear_timer id p) = reject_all o p.
Proof.
  intros H. assert (reject_all o (clear_timer id p) = clear_timer id (reject_all o p)) as ->.
  { unfold reject_all. change (set_queue [] (clear_timer id p)) with (clear_timer id (set_queue [] p)).
    change (pendingQueue (clear_timer id p)) with (pendingQueue p).
    generalize (set_queue [] p), (pendingQueue p). intros p' q. revert p'.
    induction q as [|id' q IH]; intros p'; cbn; [done|]. rewrite <- IH. f_equal.
    unfold settle, clear_timer. cbn. rewrite delete_delete. by destruct (settled p' !! id'). }
  pose proof (reject_all_timers _ o _ H) as Ht. unfold clear_timer.
  destruct (reject_all o p); cbn in *. subst. by rewrite delete_empty.
Qed.

(** Settling a list of held promises, as when a connection attempt fails. *)
Definition settle_each (ids : list nat) o p : pool T O := foldl (λ p id, settle id o p) p ids.

Lemma accounts_settle_each held ids o p :
  accounts (ids ++ held) p → accounts held (settle_each ids o p).
Proof.
  unfold settle_each. revert p. induction ids as [|id ids IH]; intros p H; cbn; [done|].
  by apply IH, accounts_settle.
Qed.

Lemma settle_each_keeps ids o p :
  pendingQueue (settle_each ids o p) = pendingQueue p ∧
  timers (settle_each ids o p) = timers p ∧ next_id (settle_each ids o p) = next_id p.
Proof.
  unfold settle_each. revert p. induction ids as [|id ids IH]; intros p; cbn; [done|].
  destruct (IH (settle id o p)) as (-> & -> & ->). apply settle_keeps.
Qed.

Lemma settle_each_stable ids o p id' o' :
  settled p !! id' = Some o' → settled (settle_each ids o p) !! id' = Some o'.
Proof.
  unfold settle_each. revert p. induction ids as [|id ids IH]; intros p H; cbn; [done|].
  by apply IH, settle_stable.
Qed.

Lemma settle_each_lookup held ids o p id :
  accounts (ids ++ held) p → id ∈ ids → settled (settle_each ids o p) !! id = Some o.
Proof.
  unfold settle_each. revert p. induction ids as [|i ids IH]; intros p H Hin.
  { by apply elem_of_nil in Hin. }
  cbn. apply elem_of_cons in Hin as [->|Hin]; [|apply IH; [by apply accounts_settle|done]].
  apply (settle_each_stable ids). apply settle_new.
  destruct (accounts_facts _ _ H) as (_ & _ & Hh & _). apply Hh. left.
Qed.

(** A request whose write failed is the last one. *)
Lemma reject_last_enqueue held id t o p :
  accounts (id :: held) p → accounts held (reject_last o (enqueue id t p)).
Proof. intros H. by apply accounts_reject_last, accounts_enqueue. Qed.
End Pool.

#[export] Hint Resolve accounts0 accounts_fresh accounts_enqueue accounts_settle
  accounts_answer accounts_answer_all accounts_reject_last accounts_reject_all
  accounts_settle_each accounts_expire reject_last_enqueue : wormdb.
