(* ===== verification/Client.v ===== *)
(** * The pooled client's promises ([apps/bun/src/lib/client.ts])

    [WormClient] as a state machine: one event per entry point (a call of
    [send], the resumption of a suspended [sendPersistent], a callback of the
    runtime, a timer, a call of [close]), each a function on the object's
    fields and on the runtime objects they refer to (timers, promises, the
    bytes each socket accepted).  [Persistent] is the keep-alive path; the
    connection-per-request path is [OneShot.v]. *)
From S2P Require Import Prelude Utf8 JsText Command Protocol Wire Transport Pool.

(** ** Thrown values *)

(** What a promise rejects with: an [Error] object, or a value that is not
    one, of which only [String(value)] is used. *)
Inductive thrown := IsError (e : exn) | NotError (text : jsstr).

#[export] Instance thrown_eq_dec : EqDecision thrown.
Proof. solve_decision. Defined.

Definition toError (err : thrown) : exn :=
  match err with IsError e => e | NotError text => Error text end.

(** How a promise of a [WormResponse] settles. *)
Inductive outcome := Resolved (r : WormResponse) | Rejected (err : thrown).

#[export] Instance outcome_eq_dec : EqDecision outcome.
Proof. solve_decision. Defined.

Definition rejection (err : thrown) : outcome := Rejected (IsError (toError err)).

(** [vinsertNative] and [vbulkinsertNative]: the command they send, with
    [now] for [BigInt(Date.now())]. *)
Record vinsert_options := VinsertOptions {
  o_worm : option bool; o_namespace : option jsstr; o_metric : option Metric;
  o_timestamp : option Z; o_async : option bool }.

Definition vinsertNative (now : Z) (key : jsstr) (vec : bytes) (o : vinsert_options)
    : ParsedCommand :=
  VINSERT key vec (default true (o_worm o)) (default (js "vec:") (o_namespace o))
    (default cosine (o_metric o)) (default now (o_timestamp o)) (default false (o_async o)).

Definition vbulkinsertNative (now : Z) (items : list (jsstr * bytes * option Z))
    (worm : option bool) (namespace : option jsstr) (metric : option Metric)
    (async : option bool) : ParsedCommand :=
  VBULKINSERT (default (js "vec:") namespace) (default cosine metric) (default false worm)
    (default false async)
    ((λ '(k, v, ts), BulkItem k v (default now ts)) <$> items).

(** ** The keep-alive client *)

Module Persistent.

(** A call of [sendPersistent] suspended at [await this.getOrCreateSocket()]:
    on the connection attempt [n], or with the socket it will resume with. *)
Inductive wait := Connecting (n : nat) | HasSocket (s : nat).

#[export] Instance wait_eq_dec : EqDecision wait.
Proof. solve_decision. Defined.

Record suspended := Suspended { su_id : nat; su_wait : wait; su_frame : bytes }.

(** The fields of [WormClient] ([reqs] holds [pendingQueue], [out] holds
    [writeBacklog]), and the runtime: timers and promises (in [reqs]),
    accepted bytes (in [out]), suspended calls, ended sockets.  The socket of
    connection attempt [n] is [n]. *)
Record client := Client {
  timeoutMs : Z;
  socket : option nat;
  connectPromise : option nat;
  inbound : bytes;
  reqs : pool () outcome;
  out : outbox;
  waiting : list suspended;
  ended : list nat;
  next_conn : nat;
}.

Definition set_socket v c := Client (timeoutMs c) v (connectPromise c) (inbound c) (reqs c)
  (out c) (waiting c) (ended c) (next_conn c).
Definition set_connectPromise v c := Client (timeoutMs c) (socket c) v (inbound c) (reqs c)
  (out c) (waiting c) (ended c) (next_conn c).
Definition set_inbound v c := Client (timeoutMs c) (socket c) (connectPromise c) v (reqs c)
  (out c) (waiting c) (ended c) (next_conn c).
Definition set_reqs v c := Client (timeoutMs c) (socket c) (connectPromise c) (inbound c) v
  (out c) (waiting c) (ended c) (next_conn c).
Definition set_out v c := Client (timeoutMs c) (socket c) (connectPromise c) (inbound c)
  (reqs c) v (waiting c) (ended c) (next_conn c).
Definition set_waiting v c := Client (timeoutMs c) (socket c) (connectPromise c) (inbound c)
  (reqs c) (out c) v (ended c) (next_conn c).
Definition set_ended v c := Client (timeoutMs c) (socket c) (connectPromise c) (inbound c)
  (reqs c) (out c) (waiting c) v (next_conn c).
Definition set_next_conn v c := Client (timeoutMs c) (socket c) (connectPromise c) (inbound
  c) (reqs c) (out c) (waiting c) (ended c) v.

(** [new WormClient({ ..., keepAlive: true })] *)
Definition new_client (timeout : option Z) : client :=
  Client (default 3000 timeout) None None [] pool0 outbox0 [] [] 0.

Definition with_reqs (f : pool () outcome → pool () outcome) (c : client) : client :=
  set_reqs (f (reqs c)) c.

Section Client.
Context {R : Runtime}.

Definition rejectAllPending (err : thrown) (c : client) : client :=
  with_reqs (reject_all (rejection err)) c.

(** [getOrCreateSocket], up to the point where its caller is suspended. *)
Definition getOrCreateSocket (c : client) : wait * client :=
  match socket c with
  | Some s => (HasSocket s, c)
  | None =>
      match connectPromise c with
      | Some n => (Connecting n, c)
      | None =>
          (Connecting (next_conn c),
           set_next_conn (S (next_conn c)) (set_connectPromise (Some (next_conn c)) c))
      end
  end.

(** [sendPersistent], up to its [await]. *)
Definition sendPersistent (parsed : ParsedCommand) (c : client) : client :=
  let id := next_id (reqs c) in
  let c := with_reqs fresh c in
  match encodeCommandFrame parsed with
  | Throw e => with_reqs (settle id (Rejected (IsError e))) c
  | Ok outboundFrame =>
      let '(w, c) := getOrCreateSocket c in
      set_waiting (waiting c ++ [Suspended id w outboundFrame]) c
  end.

(** The rest of [sendPersistent], once the socket is known. *)
Definition send_on (s : nat) (id : nat) (outboundFrame : bytes) (c : client) : client :=
  let c := with_reqs (enqueue id ()) c in
  let '(o, thrown) := writeOrQueue s outboundFrame (out c) in
  let c := set_out o c in
  match thrown with
  | None => c
  | Some err => with_reqs (reject_last (rejection (IsError err))) c
  end.

(** A suspended call resumes: the scheduler picks one that has its socket. *)
Definition resume (id : nat) (c : client) : client :=
  match list_find (λ u, su_id u = id) (waiting c) with
  | Some (i, Suspended _ (HasSocket s) frame) =>
      send_on s id frame (set_waiting (delete i (waiting c)) c)
  | _ => c
  end.

(** The connection promise of attempt [n] settles, and with it the [then]
    of [getOrCreateSocket] and the calls that await it. *)
Definition on_connected (n : nat) (c : client) : client :=
  let c := set_connectPromise None c in
  set_waiting ((λ u, if decide (su_wait u = Connecting n)
                     then Suspended (su_id u) (HasSocket n) (su_frame u) else u)
               <$> waiting c) c.

Definition on_connect_failed (n : nat) (err : thrown) (c : client) : client :=
  let c := set_connectPromise None c in
  let failed := filter (λ u, su_wait u = Connecting n) (waiting c) in
  let c := set_waiting (filter (λ u, su_wait u ≠ Connecting n) (waiting c)) c in
  with_reqs (settle_each (su_id <$> failed) (Rejected err)) c.

(** The socket callbacks. *)
Definition on_open (s : nat) (c : client) : client :=
  let c := set_socket (Some s) c in
  let c := set_inbound [] c in
  set_out (socket_write s WIRE_MAGIC (out c)).2 c.

(** The body of the [while (true)] loop of [data], after a frame was found. *)
Definition on_frame (frame : ParsedFrame) (c : client) : res client :=
  let c := set_inbound (remaining frame) c in
  if isEventCode (code frame) then Ok c
  else match pendingQueue (reqs c) with
       | [] => Ok c
       | pending :: rest =>
           let c := with_reqs (λ r, clear_timer pending (set_queue rest r)) c in
           response ← decodeResponse (code frame) (payload frame);
           Ok (with_reqs (settle pending (Resolved response)) c)
       end.

(** The loop itself; every frame takes at least five bytes, so the length of
    the buffer bounds the iterations.  An exception leaves the callback. *)
Fixpoint data_loop (fuel : nat) (c : client) : client :=
  match fuel with
  | O => c
  | S fuel =>
      match tryConsumeFrame (inbound c) with
      | None => c
      | Some frame =>
          match on_frame frame c with
          | Ok c => data_loop fuel c
          | Throw _ => c
          end
      end
  end.

Definition on_data (chunk : SocketData) (c : client) : client :=
  match concatBytes [inbound c; toBytes chunk] with
  | Throw _ => c
  | Ok b => data_loop (length b) (set_inbound b c)
  end.

Definition on_drain (s : nat) (c : client) : client := set_out (flushBacklog s (out c)) c.

Definition teardown (err : thrown) (c : client) : client :=
  let c := set_socket None c in
  let c := set_connectPromise None c in
  let c := set_out (set_backlog [] (out c)) c in
  rejectAllPending err c.

Definition on_close (c : client) : client := teardown (IsError ClientConnectionClosedError) c.
Definition on_error (err : thrown) (c : client) : client := teardown err c.

(** The timer of request [id] fires. *)
Definition on_timeout (id : nat) (c : client) : client :=
  if decide (is_Some (timers (reqs c) !! id)) then
    rejectAllPending (IsError (ClientTimeoutError (timeoutMs c))) (with_reqs (clear_timer id) c)
  else c.

(** [close()] *)
Definition close (c : client) : client :=
  let c := rejectAllPending (IsError ClientConnectionClosedError) c in
  let c := match socket c with
           | Some s => set_socket None (set_ended (s :: ended c) c)
           | None => c
           end in
  set_inbound [] (set_connectPromise None c).

Inductive event :=
| Send (parsed : ParsedCommand)
| Resume (id : nat)
| Connected (n : nat)
| ConnectFailed (n : nat) (err : thrown)
| Opened (s : nat)
| Data (s : nat) (chunk : SocketData)
| Drained (s : nat)
| Closed (s : nat)
| Errored (s : nat) (err : thrown)
| TimerFires (id : nat)
| CallClose.

Definition step (c : client) (e : event) : client :=
  match e with
  | Send parsed => sendPersistent parsed c
  | Resume id => resume id c
  | Connected n => on_connected n c
  | ConnectFailed n err => on_connect_failed n err c
  | Opened s => on_open s c
  | Data _ chunk => on_data chunk c
  | Drained s => on_drain s c
  | Closed _ => on_close c
  | Errored _ err => on_error err c
  | TimerFires id => on_timeout id c
  | CallClose => close c
  end.

Definition run (es : list event) (c : client) : client := foldl step c es.
End Client.
End Persistent.
