(* ===== verification/ClientTheorems.v ===== *)
(** * The keep-alive client's promises

    Theorems on [Client.Persistent]: no request is lost or settled twice
    whatever the runtime does, a response resolves the oldest pending request,
    a closed connection and a timeout settle every pending request, and a
    pipelined session gives each request its own response. *)
From S2P Require Import Prelude Utf8 JsText Command Protocol Wire Transport Pool Client.

Module Pooled.
Import Persistent.

(** The calls suspended before their request is pending. *)
Definition held (c : client) : list nat := su_id <$> waiting c.

Definition conserved (c : client) : Prop := accounts (held c) (reqs c).

(** ** Conservation, event by event *)

Lemma reject_all_conserved err c : conserved c → conserved (rejectAllPending err c).
Proof. apply accounts_reject_all. Qed.

Lemma sendPersistent_conserved parsed c : conserved c → conserved (sendPersistent parsed c).
Proof.
  unfold conserved, held. intros H%accounts_fresh. unfold sendPersistent.
  destruct (encodeCommandFrame parsed) as [frame|e].
  - unfold getOrCreateSocket. cbn.
    destruct (socket c); [|destruct (connectPromise c)]; cbn; by rewrite fmap_app.
  - apply accounts_settle. eapply accounts_perm; [|exact H].
    symmetry. apply Permutation_cons_append.
Qed.

Lemma send_on_conserved {R : Runtime} s id frame c :
  accounts (id :: held c) (reqs c) → conserved (send_on s id frame c).
Proof.
  intros H. unfold send_on. cbn.
  destruct (writeOrQueue s frame (out c)) as [o [err|]].
  - by apply reject_last_enqueue.
  - by apply accounts_enqueue.
Qed.

Lemma resume_conserved {R : Runtime} id c : conserved c → conserved (resume id c).
Proof.
  intros H. unfold resume.
  destruct (list_find _ (waiting c)) as [[i [id' [n|s] frame]]|] eqn:E; [done| |done].
  apply list_find_Some in E as (Hi & <- & _). apply send_on_conserved.
  eapply accounts_perm; [|exact H]. unfold held. cbn. rewrite list_fmap_delete.
  apply delete_Permutation. by rewrite list_lookup_fmap, Hi.
Qed.

Lemma on_connected_conserved n c : conserved c → conserved (on_connected n c).
Proof.
  unfold conserved. assert (held (on_connected n c) = held c) as ->; [|done].
  unfold held. cbn. rewrite <- list_fmap_compose.
  apply list_fmap_ext. intros _ u _. cbn. by destruct (decide _).
Qed.

Lemma on_connect_failed_conserved n err c :
  conserved c → conserved (on_connect_failed n err c).
Proof.
  intros H. unfold on_connect_failed, conserved. cbn. apply accounts_settle_each.
  eapply accounts_perm; [|exact H]. unfold held. cbn. rewrite <- fmap_app.
  by rewrite filter_split.
Qed.

(** ** The data callback in closed form *)

(** The outcomes the frames of a chunk carry, events left out. *)
Definition answers (fs : list (Z * bytes)) : list outcome :=
  omap (λ '(c, p), if isEventCode c then None else
    match decodeResponse c p with Ok r => Some (Resolved r) | Throw _ => None end) fs.

Definition answered (os : list outcome) (c : client) : client := with_reqs (answer_all os) c.

Lemma answers_cons c p fs :
  answers ((c, p) :: fs) =
  (if isEventCode c then [] else
   match decodeResponse c p with Ok r => [Resolved r] | Throw _ => [] end) ++ answers fs.
Proof.
  unfold answers. cbn. destruct (isEventCode c); [done|]. by destruct (decodeResponse c p).
Qed.

Lemma data_loop_eq b :
  Forall is_byte b → ∀ c fuel, inbound c = b → (length b ≤ fuel)%nat →
  data_loop fuel c = set_inbound (read_all b).2 (answered (answers (read_all b).1) c).
Proof.
  revert b. apply (read_all_ind (λ b, ∀ c fuel, inbound c = b → (length b ≤ fuel)%nat →
    data_loop fuel c = set_inbound (read_all b).2 (answered (answers (read_all b).1) c))).
  - intros b Hb E c fuel <- Hf. rewrite read_all_step, E by done. cbn [fst snd].
    destruct fuel; cbn; rewrite ?E; by destruct c.
  - intros b f Hb E IH c fuel <- Hf.
    destruct (remaining_shorter _ _ Hb E) as (Hs & Hr & Hp).
    destruct fuel as [|fuel]; [lia|]. rewrite read_all_step by done. cbn [data_loop].
    rewrite E. destruct (read_all (remaining f)) as [fs rest] eqn:Er. cbn [fst snd] in *.
    rewrite answers_cons. unfold on_frame. cbn [set_inbound reqs].
    destruct (isEventCode (code f)); cbn [app]; [by rewrite IH by (try done; lia)|].
    destruct (decodeResponse_ok (code f) (payload f) Hp) as [r ->]. cbn [app].
    unfold answered, with_reqs, answer_all. cbn [foldl]. unfold answer at 2.
    destruct (pendingQueue (reqs c)) as [|p q] eqn:Eq; cbn [mbind res_bind];
      by rewrite IH by (try done; lia).
Qed.

Definition received (chunk : bytes) (c : client) : list (Z * bytes) * bytes :=
  read_all (inbound c ++ chunk).

Lemma on_data_eq chunk c :
  Forall is_byte (inbound c) → Forall is_byte (toBytes chunk) →
  on_data chunk c =
  set_inbound (received (toBytes chunk) c).2
    (answered (answers (received (toBytes chunk) c).1) c).
Proof.
  intros Hi Hc. unfold on_data, received. rewrite concatBytes_spec. cbn [concat].
  rewrite app_nil_r.
  rewrite (data_loop_eq (inbound c ++ toBytes chunk)) by (try done; by apply Forall_app).
  done.
Qed.

(** ** Every event *)

Definition event_ok (e : event) : Prop :=
  match e with Data _ chunk => Forall is_byte (toBytes chunk) | _ => True end.

Definition good (c : client) : Prop := conserved c ∧ Forall is_byte (inbound c).

Lemma received_bytes chunk c :
  Forall is_byte (inbound c) → Forall is_byte chunk → Forall is_byte (received chunk c).2.
Proof. intros. apply read_all_rest. by apply Forall_app. Qed.

Lemma send_on_inbound {R : Runtime} s id frame c : inbound (send_on s id frame c) = inbound c.
Proof. unfold send_on. cbn. by destruct (writeOrQueue _ _ _) as [o [err|]]. Qed.

Lemma timeout_eq id c :
  conserved c → is_Some (timers (reqs c) !! id) →
  on_timeout id c = rejectAllPending (IsError (ClientTimeoutError (timeoutMs c))) c.
Proof.
  intros H Hi. unfold on_timeout, rejectAllPending. rewrite decide_True by done.
  unfold with_reqs. cbn [reqs set_reqs]. by rewrite (reject_all_fired (held c)).
Qed.

Lemma step_good {R : Runtime} c e : good c → event_ok e → good (step c e).
Proof.
  intros [H Hb] He. unfold good. destruct e; cbn [step event_ok] in *.
  - split; [by apply sendPersistent_conserved|]. unfold sendPersistent, getOrCreateSocket.
    destruct (encodeCommandFrame _); cbn; [|done].
    destruct (socket c); [|destruct (connectPromise c)]; done.
  - split; [by apply resume_conserved|]. unfold resume.
    destruct (list_find _ _) as [[i [id' [n|s] frame]]|]; try done. by rewrite send_on_inbound.
  - split; [by apply on_connected_conserved|done].
  - by split; [apply on_connect_failed_conserved|].
  - by split; [|constructor].
  - rewrite on_data_eq by done. split; [|by apply received_bytes].
    by apply accounts_answer_all.
  - by split.
  - split; [by apply reject_all_conserved|done].
  - split; [by apply reject_all_conserved|done].
  - unfold on_timeout. destruct (decide _) as [Hi|]; [|done].
    pose proof (timeout_eq id c H Hi) as E. unfold on_timeout in E.
    rewrite decide_True in E by done. rewrite E. by split; [apply reject_all_conserved|].
  - split; [|constructor]. unfold close. cbn.
    pose proof (reject_all_conserved (IsError ClientConnectionClosedError) c H) as H'.
    by destruct (socket c).
Qed.

Lemma new_client_good t : good (new_client t).
Proof. split; [by split|constructor]. Qed.

Lemma run_good {R : Runtime} es c : good c → Forall event_ok es → good (run es c).
Proof.
  intros H Hes. revert c H. induction Hes as [|e es He Hes IH]; intros c H; [done|].
  apply IH. by apply step_good.
Qed.

(** ** Sessions

    A stretch of events on one socket: calls, resumptions, drains and data,
    where the server never sends more responses than it was sent requests.
    The history is the requests put on the wire and the bytes received. *)

Inductive session {R : Runtime} (s : nat) (c0 : client)
    : list (nat * bytes) → bytes → client → Prop :=
| session_start : session s c0 [] [] c0
| session_call parsed rs bs c :
    session s c0 rs bs c → session s c0 rs bs (sendPersistent parsed c)
| session_connected n rs bs c :
    session s c0 rs bs c → session s c0 rs bs (on_connected n c)
| session_send i id frame rs bs c :
    session s c0 rs bs c →
    list_find (λ u, su_id u = id) (waiting c) = Some (i, Suspended id (HasSocket s) frame) →
    session s c0 (rs ++ [(id, frame)]) bs (resume id c)
| session_drain rs bs c :
    session s c0 rs bs c → session s c0 rs bs (on_drain s c)
| session_data chunk rs bs c :
    session s c0 rs bs c → Forall is_byte (toBytes chunk) →
    (length (answers (read_all (bs ++ toBytes chunk)).1) ≤ length rs)%nat →
    session s c0 rs (bs ++ toBytes chunk) (on_data chunk c).

(** What a session preserves: requests are pending in the order they were
    written, less those answered, and the wire carries their frames. *)
Record session_inv {R : Runtime} (s : nat) (c0 : client) (rs : list (nat * bytes)) (bs : bytes)
    (c : client) : Prop := SessionInv {
  si_good : good c;
  si_bytes : Forall is_byte bs;
  si_count : (length (answers (read_all bs).1) ≤ length rs)%nat;
  si_inbound : inbound c = (read_all bs).2;
  si_pending : pendingQueue (reqs c) = drop (length (answers (read_all bs).1)) rs.*1;
  si_settled : ∀ i id o, rs.*1 !! i = Some id → answers (read_all bs).1 !! i = Some o →
    settled (reqs c) !! id = Some o;
  si_wire : outgoing s (out c) = outgoing s (out c0) ++ concat rs.*2;
}.

Lemma answers_app fs gs : answers (fs ++ gs) = answers fs ++ answers gs.
Proof. apply omap_app. Qed.

(** ** Session steps *)

Lemma call_inv {R : Runtime} s c0 rs bs c parsed :
  session_inv s c0 rs bs c → session_inv s c0 rs bs (sendPersistent parsed c).
Proof.
  intros [Hg Hb Hn Hi Hp Hs Hw]. pose proof (step_good c (Send parsed) Hg I) as Hg'.
  cbn [step] in Hg'. unfold sendPersistent, getOrCreateSocket in *.
  destruct (encodeCommandFrame parsed) as [f|e].
  - destruct (socket _); [|destruct (connectPromise _)]; by split.
  - destruct (settle_keeps (next_id (reqs c)) (Rejected (IsError e)) (fresh (reqs c)))
      as (Eq & _). split; try done.
    + cbn. by rewrite Eq.
    + intros. cbn. apply settle_stable. by eapply Hs.
Qed.

Lemma send_inv {R : Runtime} `{!WritesAccepted R} s c0 rs bs c i id frame :
  session_inv s c0 rs bs c →
  list_find (λ u, su_id u = id) (waiting c) = Some (i, Suspended id (HasSocket s) frame) →
  session_inv s c0 (rs ++ [(id, frame)]) bs (resume id c).
Proof.
  intros [Hg Hb Hn Hi Hp Hs Hw] Hf. pose proof (step_good c (Resume id) Hg I) as Hg'.
  cbn [step] in Hg'. unfold resume in *. rewrite Hf in *.
  set (c1 := set_waiting _ _) in *.
  pose proof (writeOrQueue_in_order s frame (out c1)) as Hio.
  assert (Hlt : ∀ j o, answers (read_all bs).1 !! j = Some o → (j < length rs)%nat).
  { intros j o Ho%lookup_lt_Some. lia. }
  unfold send_on in *. cbn [out with_reqs set_reqs c1 set_waiting] in *.
  destruct (writeOrQueue s frame (out c)) as [o x]. destruct Hio as [-> Ho]. cbn in *.
  split; try done.
  - rewrite length_app. lia.
  - cbn. rewrite Hp, fmap_app. cbn. rewrite drop_app_le by (rewrite length_fmap; lia). done.
  - intros j id' o' Hj Ho'. cbn. eapply Hs; [|done]. pose proof (Hlt _ _ Ho') as Hl.
    rewrite fmap_app, lookup_app_l in Hj by (rewrite length_fmap; lia). done.
  - cbn. rewrite Ho, Hw, fmap_app, concat_app. cbn. by rewrite app_nil_r, app_assoc.
Qed.

Lemma data_inv {R : Runtime} s c0 rs bs c chunk :
  session_inv s c0 rs bs c → Forall is_byte (toBytes chunk) →
  (length (answers (read_all (bs ++ toBytes chunk)).1) ≤ length rs)%nat →
  session_inv s c0 rs (bs ++ toBytes chunk) (on_data chunk c).
Proof.
  intros [Hg Hb Hn Hi Hp Hs Hw] Hc Hle.
  pose proof (step_good c (Data s chunk) Hg Hc) as Hg'. cbn [step] in Hg'.
  destruct Hg as [Hcv Hin]. rewrite on_data_eq in * by done.
  unfold received in *. rewrite Hi in *.
  pose proof (read_all_app bs (toBytes chunk) Hb Hc) as E.
  destruct (read_all bs) as [f1 r1]. cbn [fst snd] in *.
  destruct (read_all (r1 ++ toBytes chunk)) as [f2 r2]. cbn [fst snd] in *.
  split; rewrite ?E in *; cbn [fst snd] in *; try done; [by apply Forall_app|..];
    rewrite answers_app.
  - cbn. by rewrite answer_all_queue, Hp, length_app, drop_drop.
  - intros i id o Hid Ho.
    change (settled (answer_all (answers f2) (reqs c)) !! id = Some o).
    apply lookup_app_Some in Ho as [Ho|[Hge Ho]].
    + apply answer_all_stable. by eapply Hs.
    + eapply answer_all_lookup; [done| |done]. rewrite Hp, lookup_drop.
      rewrite <- Hid. f_equal. lia.
Qed.

Lemma session_holds {R : Runtime} `{!WritesAccepted R} s c0 rs bs c :
  good c0 → pendingQueue (reqs c0) = [] → inbound c0 = [] →
  session s c0 rs bs c → session_inv s c0 rs bs c.
Proof.
  intros Hg Hp Hi. induction 1.
  - split; try done; cbn; try (by rewrite app_nil_r).
  - by apply call_inv.
  - destruct IHsession as [? ? ? ? ? ? ?]. split; try done. by apply (step_good c (Connected n)).
  - by eapply send_inv.
  - destruct IHsession as [? ? ? ? ? ? Hw]. split; try done.
    cbn. by rewrite flushBacklog_in_order.
  - by eapply data_inv.
Qed.

(** ** The properties *)

(** C4: on the keep-alive client no request is lost and none is settled twice:
    after any sequence of calls, callbacks, timers and closes, the promises
    handed out are, each exactly once, suspended, pending or settled, and the
    armed timers are exactly those of the pending requests. *)
Theorem requests_conserved {R : Runtime} timeout es :
  Forall event_ok es →
  let c := run es (new_client timeout) in
  (su_id <$> waiting c) ++ pendingQueue (reqs c) ++ elements (dom (settled (reqs c)))
    ≡ₚ seq 0 (next_id (reqs c)) ∧
  dom (timers (reqs c)) = list_to_set (pendingQueue (reqs c)).
Proof. intros Hes. apply run_good; [apply new_client_good|done]. Qed.

(** A chunk of received bytes settles the oldest pending requests, in
    order, with the decoded responses it completes; events settle nothing,
    surplus responses are dropped, no other promise changes, and the
    incomplete tail waits for the next chunk. *)
Theorem responses_in_order {R : Runtime} timeout es chunk :
  Forall event_ok es → Forall is_byte (toBytes chunk) →
  let c := run es (new_client timeout) in
  let c' := on_data chunk c in
  let r := read_all (inbound c ++ toBytes chunk) in
  inbound c' = r.2 ∧
  pendingQueue (reqs c') = drop (length (answers r.1)) (pendingQueue (reqs c)) ∧
  (∀ i id o, pendingQueue (reqs c) !! i = Some id → answers r.1 !! i = Some o →
     settled (reqs c') !! id = Some o) ∧
  (∀ id, id ∉ take (length (answers r.1)) (pendingQueue (reqs c)) →
     settled (reqs c') !! id = settled (reqs c) !! id).
Proof.
  intros Hes Hc c c' r. destruct (run_good es (new_client timeout)
    (new_client_good timeout) Hes) as [Hg Hb]. fold c in Hg, Hb.
  subst c'. rewrite on_data_eq by done. split_and!; [done|apply answer_all_queue| |].
  - intros. by eapply answer_all_lookup.
  - intros. by apply answer_all_other.
Qed.

(** The entry points that give up on the connection, with the reason. *)
Definition gives_up (e : event) (c : client) : option thrown :=
  match e with
  | Closed _ | CallClose => Some (IsError ClientConnectionClosedError)
  | Errored _ err => Some err
  | TimerFires id => if decide (is_Some (timers (reqs c) !! id))
                     then Some (IsError (ClientTimeoutError (timeoutMs c))) else None
  | _ => None
  end.

(** A closed or failed connection, a call of [close] and a timer that
    fires reject every pending request with the reason, leave none pending
    and no timer armed. *)
Theorem giving_up_settles_all {R : Runtime} timeout es e err :
  Forall event_ok es →
  let c := run es (new_client timeout) in
  gives_up e c = Some err →
  pendingQueue (reqs (step c e)) = [] ∧ timers (reqs (step c e)) = ∅ ∧
  ∀ id, id ∈ pendingQueue (reqs c) → settled (reqs (step c e)) !! id = Some (rejection err).
Proof.
  intros Hes c He. destruct (run_good es (new_client timeout)
    (new_client_good timeout) Hes) as [Hg Hb]. fold c in Hg, Hb.
  assert (reqs (step c e) = reject_all (rejection err) (reqs c)) as ->.
  { destruct e; cbn [gives_up step] in *; try done; simplify_eq; try done.
    - destruct (decide _) as [Hi|]; [|done]. simplify_eq. by rewrite timeout_eq.
    - unfold close. cbn. by destruct (socket c). }
  split_and!; [apply reject_all_queue|by eapply reject_all_timers|].
  intros. by eapply reject_all_lookup.
Qed.

(** C3: pipelining.  On a fresh connection whose server answers no more
    requests than it was sent, with any interleaving of calls, partial
    writes, drains and received chunks: the wire carries the frames of the
    requests in order, and the [i]-th response received settles the [i]-th
    request written. *)
Theorem pipelined_session {R : Runtime} `{!WritesAccepted R} s c0 rs bs c :
  good c0 → pendingQueue (reqs c0) = [] → inbound c0 = [] →
  session s c0 rs bs c →
  outgoing s (out c) = outgoing s (out c0) ++ concat rs.*2 ∧
  pendingQueue (reqs c) = drop (length (answers (read_all bs).1)) rs.*1 ∧
  ∀ i id o, rs.*1 !! i = Some id → answers (read_all bs).1 !! i = Some o →
    settled (reqs c) !! id = Some o.
Proof. intros ? ? ? []%session_holds; done. Qed.

(** ** Concrete runs *)

Definition get (k : string) : event := Send (GET (js k)).
Definition value_frame (v : string) : bytes := frame_of RValue (encodeUtf8 (js v)).

(** Two requests written on one connection. *)
Definition two_requests : list event :=
  [get "a"; get "b"; Opened 0; Connected 0; Resume 0; Resume 1].

Local Notation both := (run (R := three_bytes) two_requests (new_client None)) (only parsing).

Lemma two_requests_ok : Forall event_ok two_requests.
Proof. repeat constructor. Qed.

Lemma requests_conserved_witness :
  dom (timers (reqs both)) = list_to_set (pendingQueue (reqs both)) ∧
  pendingQueue (reqs both) = [0; 1]%nat.
Proof.
  split; [|vm_compute; reflexivity].
  apply (requests_conserved (R := three_bytes) None two_requests two_requests_ok).
Defined.

Definition chunk1 : SocketData := DataBuffer (value_frame "x" ++ [0; 0]).

Lemma chunk1_bytes : Forall is_byte (toBytes chunk1).
Proof. apply (bool_decide_unpack _). vm_compute. exact I. Qed.

Lemma responses_in_order_witness :
  settled (reqs (on_data chunk1 both)) !! 0%nat = Some (Resolved (bulk (js "x"))) ∧
  settled (reqs (on_data chunk1 both)) !! 1%nat = settled (reqs both) !! 1%nat.
Proof.
  pose proof (responses_in_order (R := three_bytes) None two_requests chunk1
    two_requests_ok chunk1_bytes) as (_ & _ & Hs & Ho).
  split.
  - apply (Hs 0%nat); vm_compute; reflexivity.
  - apply Ho. apply (bool_decide_unpack _). vm_compute. exact I.
Defined.

Lemma giving_up_settles_all_witness :
  pendingQueue (reqs (step (R := three_bytes) both (TimerFires 0))) = [] ∧
  timers (reqs (step (R := three_bytes) both (TimerFires 0))) = ∅ ∧
  ∀ id, id ∈ pendingQueue (reqs both) →
    settled (reqs (step (R := three_bytes) both (TimerFires 0))) !! id
    = Some (Rejected (IsError (ClientTimeoutError 3000))).
Proof.
  apply (giving_up_settles_all (R := three_bytes) None two_requests (TimerFires 0)
    (IsError (ClientTimeoutError 3000)) two_requests_ok).
  vm_compute. reflexivity.
Defined.

(** The same two requests as a session, answered in two chunks. *)
Local Notation connected := (run (R := three_bytes)
  [get "a"; get "b"; Opened 0; Connected 0] (new_client None)) (only parsing).
Definition frame_a : bytes := frame_of 1 (lp (encodeUtf8 (js "a"))).
Definition frame_b : bytes := frame_of 1 (lp (encodeUtf8 (js "b"))).
Definition reply_x : SocketData := DataBuffer (value_frame "x").
Definition reply_y : SocketData := DataBuffer (value_frame "y").
Local Notation answered_twice :=
  (on_data reply_y (on_data reply_x
    (resume (R := three_bytes) 1 (resume (R := three_bytes) 0 connected)))) (only parsing).

Lemma replies_bytes : Forall is_byte (toBytes reply_x) ∧ Forall is_byte (toBytes reply_y).
Proof. split; apply (bool_decide_unpack _); vm_compute; exact I. Qed.

Lemma answered_twice_session :
  session (R := three_bytes) 0 connected [(0%nat, frame_a); (1%nat, frame_b)]
    (value_frame "x" ++ value_frame "y") answered_twice.
Proof.
  destruct replies_bytes as [Hx Hy].
  apply (session_data 0 connected reply_y [(0%nat, frame_a); (1%nat, frame_b)] (value_frame "x"));
    [|done|apply Nat.leb_le; vm_compute; reflexivity].
  apply (session_data 0 connected reply_x [(0%nat, frame_a); (1%nat, frame_b)] []);
    [|done|apply Nat.leb_le; vm_compute; reflexivity].
  apply (session_send 0 connected 0 1 frame_b [(0%nat, frame_a)]);
    [|vm_compute; reflexivity].
  apply (session_send 0 connected 0 0 frame_a []); [|vm_compute; reflexivity].
  apply session_start.
Qed.

Lemma connected_good : good connected.
Proof. apply run_good; [apply new_client_good|repeat constructor]. Qed.

Lemma pipelined_session_witness :
  settled (reqs answered_twice) !! 0%nat = Some (Resolved (bulk (js "x"))) ∧
  settled (reqs answered_twice) !! 1%nat = Some (Resolved (bulk (js "y"))).
Proof.
  pose proof (pipelined_session (R := three_bytes) 0 connected _ _ _ connected_good
    eq_refl eq_refl answered_twice_session) as (_ & _ & Hs).
  split; [apply (Hs 0%nat)|apply (Hs 1%nat)]; vm_compute; reflexivity.
Defined.

(** ** What a timeout and a close leave behind *)

(** A connection with nothing in flight but the pending requests. *)
Record quiet (s : nat) (c : client) : Prop := Quiet {
  q_socket : socket c = Some s;
  q_waiting : waiting c = [];
  q_inbound : inbound c = [];
  q_backlog : writeBacklog (out c) = [];
}.

(** A request sent on a quiet connection with nothing pending. *)
Lemma send_resume {R : Runtime} s c parsed frame :
  (∀ n data, sock_write n data = len data) →
  quiet s c → pendingQueue (reqs c) = [] → encodeCommandFrame parsed = Ok frame →
  let c' := resume (next_id (reqs c)) (sendPersistent parsed c) in
  pendingQueue (reqs c') = [next_id (reqs c)] ∧
  settled (reqs c') = settled (reqs c) ∧ inbound c' = [].
Proof.
  intros Hw [Hs Hwt Hi Hb] Hp He. unfold sendPersistent, getOrCreateSocket. rewrite He. cbn.
  rewrite Hs. cbn. rewrite Hwt. unfold resume. cbn. rewrite decide_True by done. cbn.
  unfold send_on, writeOrQueue, socket_write. cbn. rewrite Hb, Hw. note_len.
  repeat case_ztest; try lia. cbn. by rewrite Hp.
Qed.

(** The response to a request that timed out settles the next request:
    a timeout rejects the pending requests but keeps the connection, and
    forgets that their responses are still owed. *)
Theorem late_response_settles_next {R : Runtime} timeout es id parsed frame s chunk r :
  (∀ n data, sock_write n data = len data) →
  Forall event_ok es → Forall is_byte (toBytes chunk) →
  let c1 := run es (new_client timeout) in
  quiet s c1 → id ∈ pendingQueue (reqs c1) →
  encodeCommandFrame parsed = Ok frame →
  answers (read_all (toBytes chunk)).1 = [Resolved r] →
  let next := next_id (reqs c1) in
  let c2 := run [TimerFires id; Send parsed; Resume next; Data s chunk] c1 in
  settled (reqs c2) !! id = Some (rejection (IsError (ClientTimeoutError (timeoutMs c1)))) ∧
  settled (reqs c2) !! next = Some (Resolved r).
Proof.
  intros Hw Hes Hc c1 Hq Hid Hf Ha next c2.
  destruct (run_good es (new_client timeout) (new_client_good timeout) Hes) as [Hg Hb].
  fold c1 in Hg, Hb.
  assert (is_Some (timers (reqs c1) !! id)) as Ht.
  { apply elem_of_dom. destruct Hg as [_ ->]. by apply elem_of_list_to_set. }
  set (ct := on_timeout id c1).
  assert (good ct) as Hgt by by apply (step_good c1 (TimerFires id)).
  assert (quiet s ct ∧ pendingQueue (reqs ct) = [] ∧ next_id (reqs ct) = next ∧
    settled (reqs ct) !! id = Some (rejection (IsError (ClientTimeoutError (timeoutMs c1)))))
    as (Hqt & Hpt & Hnt & Hst).
  { subst ct. rewrite timeout_eq by done. destruct Hq as [? ? ? ?]. split_and!; [by split|..].
    - apply reject_all_queue.
    - apply reject_all_next.
    - by eapply reject_all_lookup. }
  destruct (send_resume s ct parsed frame Hw Hqt Hpt Hf) as (Hpr & Hsr & Hir).
  set (cr := resume (next_id (reqs ct)) (sendPersistent parsed ct)) in *.
  assert (good cr) as Hgr
    by (apply (step_good _ (Resume _)); [by apply (step_good ct (Send parsed))|done]).
  change c2 with (on_data chunk (resume next (sendPersistent parsed ct))).
  rewrite <- Hnt. fold cr. rewrite on_data_eq by (try apply Hgr; done).
  unfold received. rewrite Hir, app_nil_l, Ha. cbn [reqs set_inbound answered with_reqs set_reqs].
  split.
  - apply answer_all_stable. by rewrite Hsr.
  - apply (answer_all_lookup (held cr) _ _ 0); [apply Hgr|by rewrite Hpr|done].
Qed.

Definition one_request : list event := [get "a"; Opened 0; Connected 0; Resume 0].

Lemma late_response_settles_next_witness :
  settled (reqs (run (R := all_bytes) [TimerFires 0; get "b"; Resume 1; Data 0 reply_x]
    (run (R := all_bytes) one_request (new_client None)))) !! 1%nat
  = Some (Resolved (bulk (js "x"))).
Proof.
  apply (late_response_settles_next (R := all_bytes) None one_request 0 (GET (js "b"))
    frame_b 0 reply_x (bulk (js "x"))).
  - done.
  - repeat constructor.
  - apply replies_bytes.
  - split; vm_compute; reflexivity.
  - apply (bool_decide_unpack _). vm_compute. exact I.
  - vm_compute. reflexivity.
  - vm_compute. reflexivity.
Defined.

(** [close] keeps the write backlog: if the connection had a partial
    write pending, nothing a later connection sends reaches its socket until
    a drain event, and the drain puts the rest of the old frame first. *)
Theorem close_keeps_backlog {R : Runtime} c chunk rest s parsed frame :
  writeBacklog (out c) = chunk :: rest →
  encodeCommandFrame parsed = Ok frame →
  let c1 := on_open s (close c) in
  let c2 := send_on s (next_id (reqs c)) frame c1 in
  writeBacklog (out c2) = chunk :: rest ++ [frame] ∧
  accepted_by s (out c2) = accepted_by s (out c1).
Proof.
  intros Hb He. cbv zeta.
  assert (writeBacklog (out (on_open s (close c))) = chunk :: rest) as H.
  { unfold on_open, close. cbn. destruct (socket c); done. }
  generalize dependent (on_open s (close c)). intros c1 H.
  unfold send_on. cbn [out with_reqs set_reqs].
  by rewrite (writeOrQueue_backlogged s frame _ chunk rest) by done.
Qed.

(** The first frame is half written when [close] is called. *)
Definition stuck : Runtime := {| sock_write := λ n data, if decide (n = 0)%nat then len data else 3 |}.

Lemma close_keeps_backlog_witness :
  let c := run (R := stuck) one_request (new_client None) in
  let c2 := send_on (R := stuck) 1 1 frame_b (on_open (R := stuck) 1 (close c)) in
  writeBacklog (out c2) = slice_from frame_a 3 :: [] ++ [frame_b].
Proof.
  intros c c2.
  apply (close_keeps_backlog (R := stuck) c (slice_from frame_a 3) [] 1 (GET (js "b")) frame_b);
    vm_compute; reflexivity.
Defined.
End Pooled.
