(* ===== verification/OneShot.v ===== *)
(** * A connection per request ([WormClient.sendOneShotParsed])

    The state of one call (its local variables and the runtime objects they
    refer to) with one function per callback, and the theorems: the call
    settles exactly once with its first event, its response is the first
    frame that is not an event whatever the chunks, and it writes a prefix of
    its frame. *)
From S2P Require Import Prelude Utf8 JsText Command Protocol Wire Transport Client.

(** The local variables of [sendOneShotParsed] ([settled] is implied by the
    outcome of the promise), the timer, and what the socket has been told. *)
Record call := Call {
  timeoutMs : Z;
  settled : bool;
  inbound : bytes;
  socketRef : bool;
  timer : bool;
  pendingBytes : option bytes;
  result : option outcome;
  writes : nat;
  written : bytes;
  ended : bool;
}.

Section OneShot.
Context {R : Runtime}.

(** Entry, up to [await Bun.connect(...)]: encoding errors reject at once. *)
Definition sendOneShotParsed (timeoutMs : Z) (parsed : ParsedCommand) : res call :=
  frame ← encodeCommandFrame parsed;
  outboundFrame ← concatBytes [WIRE_MAGIC; frame];
  Ok (Call timeoutMs false [] false true (Some outboundFrame) None 0 [] false).

Definition finalize (o : outcome) (c : call) : call :=
  if settled c then c
  else Call (timeoutMs c) true (inbound c) (socketRef c) false (pendingBytes c)
         (Some o) (writes c) (written c) (if socketRef c then true else ended c).

Definition fail (err : thrown) (c : call) : call := finalize (rejection err) c.
Definition finish (value : WormResponse) (c : call) : call := finalize (Resolved value) c.

Definition writeChunk (c : call) : call :=
  match pendingBytes c with
  | None => c
  | Some data =>
      let n := sock_write (writes c) data in
      let rest := if n <? 0 then Some data
                  else if n <? len data then Some (slice_from data n) else None in
      Call (timeoutMs c) (settled c) (inbound c) (socketRef c) (timer c) rest (result c)
        (S (writes c)) (written c ++ take (Z.to_nat n) data) (ended c)
  end.

Definition set_inbound (b : bytes) (c : call) : call :=
  Call (timeoutMs c) (settled c) b (socketRef c) (timer c) (pendingBytes c) (result c)
    (writes c) (written c) (ended c).

(** The [while (!settled)] loop of [data]; an exception leaves it. *)
Fixpoint data_loop (fuel : nat) (c : call) : call :=
  match fuel with
  | O => c
  | S fuel =>
      if settled c then c else
      match tryConsumeFrame (inbound c) with
      | None => c
      | Some frame =>
          let c := set_inbound (remaining frame) c in
          if isEventCode (code frame) then data_loop fuel c
          else match decodeResponse (code frame) (payload frame) with
               | Ok response => finish response c
               | Throw _ => c
               end
      end
  end.

Definition on_data (chunk : SocketData) (c : call) : call :=
  match concatBytes [inbound c; toBytes chunk] with
  | Throw _ => c
  | Ok b => data_loop (length b) (set_inbound b c)
  end.

Definition on_connected (c : call) : call :=
  Call (timeoutMs c) (settled c) (inbound c) true (timer c) (pendingBytes c) (result c)
    (writes c) (written c) (ended c).

Inductive event :=
| Opened | Drained | Data (chunk : SocketData) | Closed | Errored (err : thrown)
| Connected | ConnectFailed (err : thrown) | TimerFires.

Definition step (c : call) (e : event) : call :=
  match e with
  | Opened | Drained => writeChunk c
  | Data chunk => on_data chunk c
  | Closed => if settled c then c else fail (IsError ClientConnectionClosedError) c
  | Errored err | ConnectFailed err => fail err c
  | Connected => on_connected c
  | TimerFires => if timer c then fail (IsError (ClientTimeoutError (timeoutMs c))) c else c
  end.

Definition run (es : list event) (c : call) : call := foldl step c es.

Definition event_ok (e : event) : Prop :=
  match e with Data chunk => Forall is_byte (toBytes chunk) | _ => True end.

(** ** What a run decides *)

(** The first frame that is not an event. *)
Definition first_answer (fs : list (Z * bytes)) : option (Z * bytes) :=
  hd_error (filter (λ f, isEventCode f.1 = false) fs).

(** What settles the call, reading the events from the left: the first
    failure, or the chunk that completes the first frame that is not an
    event; [bs] is what was received before. *)
Fixpoint verdict (t : Z) (bs : bytes) (es : list event) : option outcome :=
  match es with
  | [] => None
  | Closed :: _ => Some (rejection (IsError ClientConnectionClosedError))
  | Errored err :: _ | ConnectFailed err :: _ => Some (rejection err)
  | TimerFires :: _ => Some (rejection (IsError (ClientTimeoutError t)))
  | Data chunk :: es =>
      match first_answer (read_all (bs ++ toBytes chunk)).1 with
      | Some (c, p) => match decodeResponse c p with Ok r => Some (Resolved r) | Throw _ => None end
      | None => verdict t (bs ++ toBytes chunk) es
      end
  | _ :: es => verdict t bs es
  end.

Lemma settled_stable es c : settled c = true → settled (run es c) = true ∧ result (run es c) = result c.
Proof.
  revert c. induction es as [|e es IH]; intros c H; [done|].
  cbn [run foldl]. fold (run es (step c e)).
  assert (settled (step c e) = true ∧ result (step c e) = result c) as [H1 H2].
  { destruct e; cbn [step]; unfold fail, finalize; rewrite ?H; try done.
    1,2: unfold writeChunk; destruct (pendingBytes c); done.
    - unfold on_data. rewrite concatBytes_spec. destruct (length _); [done|]. cbn. by rewrite H.
    - by destruct (timer c). }
  destruct (IH _ H1) as [H3 H4]. by rewrite H3, H4.
Qed.

(** The data loop in closed form, before the call has settled. *)
Lemma call_loop_eq b :
  Forall is_byte b → ∀ c fuel, inbound c = b → settled c = false → (length b ≤ fuel)%nat →
  match first_answer (read_all b).1 with
  | None => data_loop fuel c = set_inbound (read_all b).2 c
  | Some (k, p) => ∃ r rest, decodeResponse k p = Ok r ∧
      data_loop fuel c = finish r (set_inbound rest c)
  end.
Proof.
  revert b. apply (read_all_ind (λ b, ∀ c fuel, inbound c = b → settled c = false →
    (length b ≤ fuel)%nat → match first_answer (read_all b).1 with
    | None => data_loop fuel c = set_inbound (read_all b).2 c
    | Some (k, p) => ∃ r rest, decodeResponse k p = Ok r ∧
        data_loop fuel c = finish r (set_inbound rest c)
    end)).
  - intros b Hb E c fuel <- Hs Hf. rewrite read_all_step, E by done. cbn [fst snd].
    destruct fuel; cbn; rewrite ?Hs, ?E; by destruct c.
  - intros b f Hb E IH c fuel <- Hs Hf.
    destruct (remaining_shorter _ _ Hb E) as (Hsh & Hr & Hp).
    destruct fuel as [|fuel]; [lia|]. rewrite read_all_step by done. cbn [data_loop].
    rewrite E, Hs. specialize (IH (set_inbound (remaining f) c) fuel eq_refl Hs ltac:(lia)).
    destruct (read_all (remaining f)) as [fs rest]. cbn [fst snd] in *.
    unfold first_answer in *. rewrite filter_cons. cbn [fst].
    destruct (isEventCode (code f)) eqn:Ev.
    + rewrite decide_False by done. exact IH.
    + rewrite decide_True by done. cbn [hd_error].
      destruct (decodeResponse_ok (code f) (payload f) Hp) as [r Er]. rewrite Er. eauto.
Qed.

(** What has been received so far determines the buffer. *)
Record open_call (bs : bytes) (c : call) : Prop := OpenCall {
  oc_settled : settled c = false;
  oc_timer : timer c = true;
  oc_result : result c = None;
  oc_bytes : Forall is_byte bs;
  oc_inbound : inbound c = (read_all bs).2;
  oc_none : first_answer (read_all bs).1 = None;
}.

Lemma first_answer_app fs gs :
  first_answer fs = None → first_answer (fs ++ gs) = first_answer gs.
Proof.
  unfold first_answer. rewrite filter_app. destruct (filter _ fs); done.
Qed.

Lemma on_data_open bs chunk c :
  open_call bs c → Forall is_byte (toBytes chunk) →
  match first_answer (read_all (bs ++ toBytes chunk)).1 with
  | None => open_call (bs ++ toBytes chunk) (on_data chunk c)
  | Some (k, p) => ∃ r, decodeResponse k p = Ok r ∧
      settled (on_data chunk c) = true ∧ result (on_data chunk c) = Some (Resolved r)
  end.
Proof.
  intros [Hs Ht Hr Hb Hi Hn] Hc. unfold on_data. rewrite concatBytes_spec. cbn [concat].
  rewrite app_nil_r. pose proof (read_all_app bs (toBytes chunk) Hb Hc) as E.
  pose proof (proj2 (read_all_rest bs Hb)) as Hb1.
  destruct (read_all bs) as [f1 r1]. cbn [fst snd] in *.
  assert (Forall is_byte (inbound c ++ toBytes chunk)) as Hbs by (rewrite Hi; by apply Forall_app).
  pose proof (call_loop_eq _ Hbs (set_inbound (inbound c ++ toBytes chunk) c) _ eq_refl Hs
    (le_n _)) as Hd.
  rewrite Hi in *. destruct (read_all (r1 ++ toBytes chunk)) as [f2 r2] eqn:E2.
  rewrite E. cbn [fst snd] in *. rewrite first_answer_app by done.
  destruct (first_answer f2) as [[k p]|] eqn:Ef.
  - destruct Hd as (r & rest & Er & ->). exists r. split; [done|].
    unfold finish, finalize. cbn. rewrite Hs. done.
  - rewrite Hd. split; try done; [by apply Forall_app| |]; rewrite E; cbn [fst snd]; [done|].
    by rewrite first_answer_app.
Qed.

Lemma data_loop_timeout fuel c : timeoutMs (data_loop fuel c) = timeoutMs c.
Proof.
  revert c. induction fuel as [|fuel IH]; intros c; [done|]. cbn [data_loop].
  destruct (settled c) eqn:Hs; [done|]. destruct (tryConsumeFrame _) as [f|]; [|done].
  destruct (isEventCode _); [by rewrite IH|]. destruct (decodeResponse _ _); [|done].
  unfold finish, finalize. cbn. by rewrite Hs.
Qed.

Lemma step_keeps bs c e :
  open_call bs c → e = Opened ∨ e = Drained ∨ e = Connected →
  open_call bs (step c e) ∧ timeoutMs (step c e) = timeoutMs c.
Proof.
  intros [] [->|[->| ->]]; cbn [step]; unfold writeChunk; try destruct (pendingBytes c);
    split; try done; by split.
Qed.

Lemma finalize_run es o c : settled c = false → result (run es (finalize o c)) = Some o.
Proof.
  intros Hs. assert (settled (finalize o c) = true) as H by (unfold finalize; by rewrite Hs).
  destruct (settled_stable es _ H) as [_ ->]. unfold finalize. by rewrite Hs.
Qed.

Lemma verdict_run bs es c :
  open_call bs c → Forall event_ok es →
  result (run es c) = verdict (timeoutMs c) bs es.
Proof.
  intros Hc Hes. revert bs c Hc. induction Hes as [|e es He Hes IH]; intros bs c Hc.
  { by apply Hc. }
  change (run (e :: es) c) with (run es (step c e)).
  pose proof (step_keeps bs c e Hc) as Hk.
  destruct e; cbn [verdict].
  1,2,6: destruct Hk as [H1 H2]; [tauto|]; by rewrite (IH bs), H2.
  2-5: cbn [step]; rewrite ?(oc_settled _ _ Hc), ?(oc_timer _ _ Hc);
    apply finalize_run, (oc_settled _ _ Hc).
  pose proof (on_data_open bs chunk c Hc He) as Hd. cbn [step].
  destruct (first_answer _) as [[k p]|].
  - destruct Hd as (r & -> & H1 & H2). by destruct (settled_stable es _ H1) as [_ ->].
  - rewrite (IH _ _ Hd). f_equal. unfold on_data. rewrite concatBytes_spec.
    by rewrite data_loop_timeout.
Qed.

Lemma send_open t parsed c : sendOneShotParsed t parsed = Ok c → open_call [] c ∧ timeoutMs c = t.
Proof.
  unfold sendOneShotParsed. destruct (encodeCommandFrame parsed); [|done].
  cbn [mbind res_bind]. rewrite concatBytes_spec. intros [= <-].
  split; [|done]. split; try done; by rewrite read_all_step by done.
Qed.

(** ** The properties *)

(** A one-shot call settles with the first of its events that decides it:
    a failure with that failure, a chunk that completes the first non-event
    frame with the decoded response; later events do not change it. *)
Theorem one_shot_verdict t parsed c es :
  sendOneShotParsed t parsed = Ok c → Forall event_ok es →
  result (run es c) = verdict t [] es.
Proof.
  intros H Hes. destruct (send_open _ _ _ H) as [Ho <-]. by apply verdict_run.
Qed.

Lemma verdict_chunks t bs chunks k p r :
  Forall is_byte bs → Forall (Forall is_byte) (toBytes <$> chunks) →
  first_answer (read_all bs).1 = None →
  first_answer (read_all (bs ++ concat (toBytes <$> chunks))).1 = Some (k, p) →
  decodeResponse k p = Ok r →
  verdict t bs (Data <$> chunks) = Some (Resolved r).
Proof.
  revert bs. induction chunks as [|ch chunks IH]; intros bs Hb Hc Hn Ha Hr.
  { cbn in Ha. rewrite app_nil_r in Ha. congruence. }
  cbn [fmap list_fmap verdict concat] in *. apply Forall_cons in Hc as [Hch Hc].
  assert (Forall is_byte (concat (toBytes <$> chunks))) as Hcc.
  { clear -Hc. induction Hc; cbn; [constructor|by apply Forall_app]. }
  assert (Forall is_byte (bs ++ toBytes ch)) as Hbc by by apply Forall_app.
  destruct (first_answer (read_all (bs ++ toBytes ch)).1) as [[k' p']|] eqn:E.
  - rewrite app_assoc, read_all_app in Ha by done.
    destruct (read_all (bs ++ toBytes ch)) as [f1 r1]. cbn [fst] in *.
    destruct (read_all (r1 ++ _)) as [f2 r2]. cbn [fst] in *.
    unfold first_answer in *. rewrite filter_app in Ha.
    destruct (filter _ f1); [done|]. cbn in *. simplify_eq. by rewrite Hr.
  - apply IH; try done. by rewrite <- app_assoc.
Qed.

(** However the reply is cut into chunks, and whatever event frames
    precede it, a one-shot call resolves with the first response in it. *)
Theorem one_shot_any_segmentation t parsed c chunks k p r :
  sendOneShotParsed t parsed = Ok c →
  Forall (Forall is_byte) (toBytes <$> chunks) →
  first_answer (read_all (concat (toBytes <$> chunks))).1 = Some (k, p) →
  decodeResponse k p = Ok r →
  result (run (Data <$> chunks) c) = Some (Resolved r).
Proof.
  intros H Hc Ha Hr. destruct (send_open _ _ _ H) as [Ho _]. rewrite (verdict_run []).
  - by eapply verdict_chunks.
  - done.
  - clear -Hc. induction chunks; cbn in *; [constructor|].
    apply Forall_cons in Hc as []. constructor; auto.
Qed.

Lemma verdict_timer t bs es : Forall event_ok es → Forall is_byte bs →
  TimerFires ∈ es → is_Some (verdict t bs es).
Proof.
  intros Hes. revert bs. induction Hes as [|e es He Hes IH]; intros bs Hb Hin.
  { by apply elem_of_nil in Hin. }
  destruct e; cbn [verdict]; try (by eexists);
    (apply elem_of_cons in Hin as [|Hin]; [done|]); auto.
  destruct (first_answer _) as [[k p]|] eqn:Ef; [|apply IH; [by apply Forall_app|done]].
  assert (Forall is_byte p) as Hp.
  { assert (Forall (λ f, Forall is_byte f.2) (read_all (bs ++ toBytes chunk)).1) as Hall.
    { apply read_all_payloads. by apply Forall_app. }
    unfold first_answer in Ef. rewrite Forall_forall in Hall.
    apply (Hall (k, p)). apply hd_error_Some_mem in Ef. by apply list_elem_of_filter in Ef as []. }
  destruct (decodeResponse_ok k p Hp) as [r ->]. by eexists.
Qed.

(** A one-shot call whose timer fires has settled: no promise is left
    hanging, whatever the connection does. *)
Theorem one_shot_settles t parsed c es :
  sendOneShotParsed t parsed = Ok c → Forall event_ok es → TimerFires ∈ es →
  is_Some (result (run es c)).
Proof.
  intros H Hes Ht. destruct (send_open _ _ _ H) as [Ho _].
  rewrite (verdict_run [] _ _ Ho Hes). by apply verdict_timer.
Qed.

Definition left_to_write (c : call) : bytes := default [] (pendingBytes c).

Lemma data_loop_writes fuel c :
  written (data_loop fuel c) = written c ∧ pendingBytes (data_loop fuel c) = pendingBytes c.
Proof.
  revert c. induction fuel as [|fuel IH]; intros c; [done|]. cbn [data_loop].
  destruct (settled c) eqn:Hs; [done|]. destruct (tryConsumeFrame _) as [f|]; [|done].
  destruct (isEventCode _); [apply (IH (set_inbound (remaining f) c))|].
  destruct (decodeResponse _ _); [|done]. unfold finish, finalize. cbn. by rewrite Hs.
Qed.

Lemma step_writes `{!WritesAccepted R} c e :
  written (step c e) ++ left_to_write (step c e) = written c ++ left_to_write c.
Proof.
  assert (∀ o, written (finalize o c) ++ left_to_write (finalize o c) =
    written c ++ left_to_write c) as Hf by (intros o; unfold finalize; by destruct (settled c)).
  assert (written (writeChunk c) ++ left_to_write (writeChunk c) =
    written c ++ left_to_write c) as Hw.
  { unfold writeChunk, left_to_write. destruct (pendingBytes c) as [data|] eqn:E; [|by rewrite E].
    pose proof (write_accepted (writes c) data) as Ha. cbn.
    case_ztest; [lia|]. case_ztest; cbn.
    - rewrite slice_drop, <- app_assoc, take_drop by lia. done.
    - rewrite take_ge by (unfold len in *; lia). by rewrite app_nil_r. }
  destruct e; cbn [step]; try done; try apply Hf.
  - unfold on_data. rewrite concatBytes_spec. unfold left_to_write.
    by destruct (data_loop_writes (length (concat [inbound c; toBytes chunk]))
      (set_inbound (concat [inbound c; toBytes chunk]) c)) as [-> ->].
  - destruct (settled c); [done|apply Hf].
  - destruct (timer c); [apply Hf|done].
Qed.

(** A one-shot call writes the preamble and its frame, in order: what the
    socket accepted followed by what is left is the whole request. *)
Theorem one_shot_writes `{!WritesAccepted R} t parsed c frame es :
  encodeCommandFrame parsed = Ok frame → sendOneShotParsed t parsed = Ok c →
  written (run es c) ++ left_to_write (run es c) = WIRE_MAGIC ++ frame.
Proof.
  intros Hf H. assert (written c ++ left_to_write c = WIRE_MAGIC ++ frame) as <-.
  { unfold sendOneShotParsed in H. rewrite Hf in H. cbn [mbind res_bind] in H.
    rewrite concatBytes_spec in H. injection H as <-. cbn. by rewrite app_nil_r. }
  clear H Hf. revert c. induction es as [|e es IH]; intros c; [done|].
  change (run (e :: es) c) with (run es (step c e)). by rewrite IH, step_writes.
Qed.

Lemma settled_ended e c : settled c = true → ended (step c e) = ended c ∧ settled (step c e) = true.
Proof.
  intros H. destruct e; cbn [step]; unfold fail, finalize; rewrite ?H; try done.
  1,2: unfold writeChunk; destruct (pendingBytes c); done.
  - unfold on_data. rewrite concatBytes_spec. destruct (length _); [done|]. cbn. by rewrite H.
  - by destruct (timer c).
Qed.

(** A call that times out while the connection is being made has already
    reported the failure, and yet its command is written when the socket
    opens, and the socket is never ended. *)
Theorem timed_out_call_still_writes t parsed c frame es :
  encodeCommandFrame parsed = Ok frame → sendOneShotParsed t parsed = Ok c →
  let request := WIRE_MAGIC ++ frame in
  let c' := run [TimerFires; Opened; Connected] c in
  result c' = Some (rejection (IsError (ClientTimeoutError t))) ∧
  written c' = take (Z.to_nat (sock_write 0 request)) request ∧
  ended (run es c') = false.
Proof.
  intros Hf H request c'. unfold sendOneShotParsed in H. rewrite Hf in H.
  cbn [mbind res_bind] in H. rewrite concatBytes_spec in H.
  assert (concat [WIRE_MAGIC; frame] = request) as E by (cbn; by rewrite app_nil_r).
  rewrite E in H. injection H as <-. split_and!; [done|done|].
  assert (ended c' = false ∧ settled c' = true) as [H1 H2] by done.
  clearbody c'. clear E Hf. revert c' H1 H2. induction es as [|e es IH]; intros c' H1 H2; [done|].
  change (run (e :: es) c') with (run es (step c' e)).
  destruct (settled_ended e c' H2) as [H3 H4]. apply IH; congruence.
Qed.
End OneShot.

(** ** Concrete calls *)

Definition request_c : call :=
  Call 500 false [] false true
    (Some (WIRE_MAGIC ++ frame_of 1 (lp (encodeUtf8 (js "k"))))) None 0 [] false.

Lemma request_c_sent : sendOneShotParsed 500 (GET (js "k")) = Ok request_c.
Proof. reflexivity. Qed.

(** An event frame, then the value, cut in two. *)
Definition cut_reply : list SocketData :=
  [DataBuffer (frame_of REvent (lp [99] ++ lp [109]) ++ [1; 0; 0]); DataBuffer [0; 1; 120]].

Definition cut_events : list event := Data <$> cut_reply.

Lemma cut_reply_bytes : Forall (Forall is_byte) (toBytes <$> cut_reply).
Proof. apply (bool_decide_unpack _). vm_compute. exact I. Qed.

Lemma cut_events_ok : Forall event_ok (cut_events ++ [TimerFires]).
Proof.
  apply Forall_app. split; [|by repeat constructor].
  pose proof cut_reply_bytes as H. repeat (apply Forall_cons in H as [? H]).
  repeat constructor; done.
Qed.

Lemma one_shot_verdict_witness :
  result (run (R := three_bytes) (cut_events ++ [TimerFires]) request_c) =
  verdict 500 [] (cut_events ++ [TimerFires]) ∧
  verdict 500 [] (cut_events ++ [TimerFires]) = Some (Resolved (bulk (js "x"))).
Proof.
  split; [|vm_compute; reflexivity].
  exact (one_shot_verdict (R := three_bytes) 500 _ request_c _ request_c_sent cut_events_ok).
Defined.

Lemma one_shot_any_segmentation_witness :
  result (run (R := three_bytes) (Data <$> cut_reply) request_c) =
  Some (Resolved (bulk (js "x"))).
Proof.
  apply (one_shot_any_segmentation (R := three_bytes) 500 (GET (js "k")) request_c cut_reply
    RValue [120]); [apply request_c_sent|apply cut_reply_bytes| |]; vm_compute; reflexivity.
Defined.

Lemma one_shot_settles_witness :
  is_Some (result (run (R := three_bytes) (cut_events ++ [TimerFires]) request_c)).
Proof.
  apply (one_shot_settles (R := three_bytes) 500 (GET (js "k")) request_c _ request_c_sent
    cut_events_ok). apply elem_of_app. right. by apply list_elem_of_singleton.
Defined.

Lemma one_shot_writes_witness :
  written (run (R := three_bytes) [Opened; Drained] request_c) ++
  left_to_write (run (R := three_bytes) [Opened; Drained] request_c) =
  WIRE_MAGIC ++ frame_of 1 (lp (encodeUtf8 (js "k"))).
Proof.
  apply (one_shot_writes (R := three_bytes) 500 (GET (js "k")) request_c);
    [reflexivity|apply request_c_sent].
Defined.

Lemma timed_out_call_still_writes_witness :
  written (run (R := three_bytes) [TimerFires; Opened; Connected] request_c) = [87; 87; 1].
Proof.
  apply (timed_out_call_still_writes (R := three_bytes) 500 (GET (js "k")) request_c
    (frame_of 1 (lp (encodeUtf8 (js "k")))) []); [reflexivity|apply request_c_sent].
Defined.
