(* ===== verification/WormDB.v ===== *)
(** * The managed client ([apps/bun/src/lib/wormdb.ts])

    [WormDB]'s connection engine as a state machine: lazy and eager
    connection, reconnection with backoff, re-authentication and
    resubscription when a connection opens, the first-in first-out request
    queue, event routing, subscriptions, the liveness ping and teardown.
    Each entry point (a call, the resumption of a suspended call, a runtime
    callback, a timer) is one [event]; [step] is its effect on the fields.

    Callbacks run atomically, as on the event loop; the model lets any
    callback run before a suspended call resumes.  Subscription entries are
    objects with an identity ([entries]), because [subscribe] keeps a
    reference to one across an await.  User handlers are identified by
    number: [delivered] is the log of their invocations. *)
From Stdlib Require Import QArith.
From S2P Require Import Prelude Utf8 JsText Command Protocol Wire Transport Pool.
#[local] Open Scope Z_scope.

(** ** Data *)

Inductive WormDBState := Idle | Connecting | Ready | Reconnecting | Closed.

#[export] Instance WormDBState_eq_dec : EqDecision WormDBState.
Proof. solve_decision. Defined.

(** Options after the defaults of the constructor; [maxAttempts] is [None]
    for [Infinity]. *)
Record options := Options {
  timeoutMs : Z;
  enabled : bool;
  minDelayMs : Z;
  maxDelayMs : Z;
  maxAttempts : option Z;
  pingIntervalMs : Z;
}.

Record ReconnectOptions := ReconnectOpts {
  ro_enabled : option bool; ro_minDelayMs : option Z; ro_maxDelayMs : option Z;
  ro_maxAttempts : option Z }.

Definition DEFAULT_RECONNECT : bool * Z * Z * option Z := (true, 100, 10000, None).

(** The constructor's merge of the caller's options with the defaults. *)
Definition make_options (timeout : option Z) (r : ReconnectOptions) (ping : option Z) : options :=
  let '(en, mn, mx, at_) := DEFAULT_RECONNECT in
  Options (default 3000 timeout) (default en (ro_enabled r)) (default mn (ro_minDelayMs r))
    (default mx (ro_maxDelayMs r))
    (match ro_maxAttempts r with Some n => Some n | None => at_ end) (default 0 ping).

Record WormEvent := Event { ev_channel : jsstr; ev_message : jsstr }.

#[export] Instance WormEvent_eq_dec : EqDecision WormEvent.
Proof. solve_decision. Defined.

(** [handlers] is a [Set], in insertion order. *)
Record SubEntry := Entry { filter : option jsstr; handlers : list nat; wireSubscribed : bool }.

(** How the promise of a request settles: with a raw frame, with nothing (a
    call of [connect]), or with an error. *)
Inductive outcome := GotFrame (code : Z) (payload : bytes) | Done | Failed (e : exn).

#[export] Instance outcome_eq_dec : EqDecision outcome.
Proof. solve_decision. Defined.

(** A call inside [ensureReady]: its promise, and the frame it will send
    ([None] for [connect]). *)
Record caller := Caller { ca_id : nat; ca_frame : option bytes }.

(** A call that is not parked: at the top of the loop of [ensureReady], or
    about to resume with its socket. *)
Inductive phase := Loop | HasSocket (s : nat).

(** What follows the [await] of a request inside the client. *)
Inductive kont :=
| KPlain
| KAuth (token : bytes)
| KSub (channel : jsstr) (handler entry : nat).

(** The fields of [WormDB] ([reqs] holds [pendingQueue], [out] holds
    [writeBacklog]; a timer remembers the generation it was armed in), then
    the runtime: resumable calls, continuations, the heap of entries, active
    subscriptions, handler invocations, ended sockets, counters. *)
Record db := Db {
  stateValue : WormDBState;
  socket : option nat;
  inbound : bytes;
  reqs : pool nat outcome;
  out : outbox;
  readyWaiters : list caller;
  subs : list (jsstr * nat);
  authToken : option bytes;
  reconnectAttempts : Z;
  reconnectTimer : option Q;
  pingTimer : bool;
  lastActivityMs : Z;
  connecting : bool;
  generation : nat;
  running : list (caller * phase);
  konts : gmap nat kont;
  entries : gmap nat SubEntry;
  subscriptions : gmap nat (jsstr * nat);
  delivered : list (nat * WormEvent);
  ended : list nat;
  next_entry : nat;
  next_sub : nat;
}.

Definition set_stateValue v c := Db v (socket c) (inbound c) (reqs c) (out c) (readyWaiters c)
  (subs c) (authToken c) (reconnectAttempts c) (reconnectTimer c) (pingTimer c)
  (lastActivityMs c) (connecting c) (generation c) (running c) (konts c) (entries c)
  (subscriptions c) (delivered c) (ended c) (next_entry c) (next_sub c).
Definition set_socket v c := Db (stateValue c) v (inbound c) (reqs c) (out c) (readyWaiters c)
  (subs c) (authToken c) (reconnectAttempts c) (reconnectTimer c) (pingTimer c)
  (lastActivityMs c) (connecting c) (generation c) (running c) (konts c) (entries c)
  (subscriptions c) (delivered c) (ended c) (next_entry c) (next_sub c).
Definition set_inbound v c := Db (stateValue c) (socket c) v (reqs c) (out c) (readyWaiters c)
  (subs c) (authToken c) (reconnectAttempts c) (reconnectTimer c) (pingTimer c)
  (lastActivityMs c) (connecting c) (generation c) (running c) (konts c) (entries c)
  (subscriptions c) (delivered c) (ended c) (next_entry c) (next_sub c).
Definition set_reqs v c := Db (stateValue c) (socket c) (inbound c) v (out c) (readyWaiters c)
  (subs c) (authToken c) (reconnectAttempts c) (reconnectTimer c) (pingTimer c)
  (lastActivityMs c) (connecting c) (generation c) (running c) (konts c) (entries c)
  (subscriptions c) (delivered c) (ended c) (next_entry c) (next_sub c).
Definition set_out v c := Db (stateValue c) (socket c) (inbound c) (reqs c) v (readyWaiters c)
  (subs c) (authToken c) (reconnectAttempts c) (reconnectTimer c) (pingTimer c)
  (lastActivityMs c) (connecting c) (generation c) (running c) (konts c) (entries c)
  (subscriptions c) (delivered c) (ended c) (next_entry c) (next_sub c).
Definition set_readyWaiters v c := Db (stateValue c) (socket c) (inbound c) (reqs c) (out c) v
  (subs c) (authToken c) (reconnectAttempts c) (reconnectTimer c) (pingTimer c)
  (lastActivityMs c) (connecting c) (generation c) (running c) (konts c) (entries c)
  (subscriptions c) (delivered c) (ended c) (next_entry c) (next_sub c).
Definition set_subs v c := Db (stateValue c) (socket c) (inbound c) (reqs c) (out c)
  (readyWaiters c) v (authToken c) (reconnectAttempts c) (reconnectTimer c) (pingTimer c)
  (lastActivityMs c) (connecting c) (generation c) (running c) (konts c) (entries c)
  (subscriptions c) (delivered c) (ended c) (next_entry c) (next_sub c).
Definition set_authToken v c := Db (stateValue c) (socket c) (inbound c) (reqs c) (out c)
  (readyWaiters c) (subs c) v (reconnectAttempts c) (reconnectTimer c) (pingTimer c)
  (lastActivityMs c) (connecting c) (generation c) (running c) (konts c) (entries c)
  (subscriptions c) (delivered c) (ended c) (next_entry c) (next_sub c).
Definition set_reconnectAttempts v c := Db (stateValue c) (socket c) (inbound c) (reqs c) (out
  c) (readyWaiters c) (subs c) (authToken c) v (reconnectTimer c) (pingTimer c)
  (lastActivityMs c) (connecting c) (generation c) (running c) (konts c) (entries c)
  (subscriptions c) (delivered c) (ended c) (next_entry c) (next_sub c).
Definition set_reconnectTimer v c := Db (stateValue c) (socket c) (inbound c) (reqs c) (out c)
  (readyWaiters c) (subs c) (authToken c) (reconnectAttempts c) v (pingTimer c)
  (lastActivityMs c) (connecting c) (generation c) (running c) (konts c) (entries c)
  (subscriptions c) (delivered c) (ended c) (next_entry c) (next_sub c).
Definition set_pingTimer v c := Db (stateValue c) (socket c) (inbound c) (reqs c) (out c)
  (readyWaiters c) (subs c) (authToken c) (reconnectAttempts c) (reconnectTimer c) v
  (lastActivityMs c) (connecting c) (generation c) (running c) (konts c) (entries c)
  (subscriptions c) (delivered c) (ended c) (next_entry c) (next_sub c).
Definition set_lastActivityMs v c := Db (stateValue c) (socket c) (inbound c) (reqs c) (out c)
  (readyWaiters c) (subs c) (authToken c) (reconnectAttempts c) (reconnectTimer c) (pingTimer
  c) v (connecting c) (generation c) (running c) (konts c) (entries c) (subscriptions c)
  (delivered c) (ended c) (next_entry c) (next_sub c).
Definition set_connecting v c := Db (stateValue c) (socket c) (inbound c) (reqs c) (out c)
  (readyWaiters c) (subs c) (authToken c) (reconnectAttempts c) (reconnectTimer c) (pingTimer
  c) (lastActivityMs c) v (generation c) (running c) (konts c) (entries c) (subscriptions c)
  (delivered c) (ended c) (next_entry c) (next_sub c).
Definition set_generation v c := Db (stateValue c) (socket c) (inbound c) (reqs c) (out c)
  (readyWaiters c) (subs c) (authToken c) (reconnectAttempts c) (reconnectTimer c) (pingTimer
  c) (lastActivityMs c) (connecting c) v (running c) (konts c) (entries c) (subscriptions c)
  (delivered c) (ended c) (next_entry c) (next_sub c).
Definition set_running v c := Db (stateValue c) (socket c) (inbound c) (reqs c) (out c)
  (readyWaiters c) (subs c) (authToken c) (reconnectAttempts c) (reconnectTimer c) (pingTimer
  c) (lastActivityMs c) (connecting c) (generation c) v (konts c) (entries c) (subscriptions
  c) (delivered c) (ended c) (next_entry c) (next_sub c).
Definition set_konts v c := Db (stateValue c) (socket c) (inbound c) (reqs c) (out c)
  (readyWaiters c) (subs c) (authToken c) (reconnectAttempts c) (reconnectTimer c) (pingTimer
  c) (lastActivityMs c) (connecting c) (generation c) (running c) v (entries c) (subscriptions
  c) (delivered c) (ended c) (next_entry c) (next_sub c).
Definition set_entries v c := Db (stateValue c) (socket c) (inbound c) (reqs c) (out c)
  (readyWaiters c) (subs c) (authToken c) (reconnectAttempts c) (reconnectTimer c) (pingTimer
  c) (lastActivityMs c) (connecting c) (generation c) (running c) (konts c) v (subscriptions
  c) (delivered c) (ended c) (next_entry c) (next_sub c).
Definition set_subscriptions v c := Db (stateValue c) (socket c) (inbound c) (reqs c) (out c)
  (readyWaiters c) (subs c) (authToken c) (reconnectAttempts c) (reconnectTimer c) (pingTimer
  c) (lastActivityMs c) (connecting c) (generation c) (running c) (konts c) (entries c) v
  (delivered c) (ended c) (next_entry c) (next_sub c).
Definition set_delivered v c := Db (stateValue c) (socket c) (inbound c) (reqs c) (out c)
  (readyWaiters c) (subs c) (authToken c) (reconnectAttempts c) (reconnectTimer c) (pingTimer
  c) (lastActivityMs c) (connecting c) (generation c) (running c) (konts c) (entries c)
  (subscriptions c) v (ended c) (next_entry c) (next_sub c).
Definition set_ended v c := Db (stateValue c) (socket c) (inbound c) (reqs c) (out c)
  (readyWaiters c) (subs c) (authToken c) (reconnectAttempts c) (reconnectTimer c) (pingTimer
  c) (lastActivityMs c) (connecting c) (generation c) (running c) (konts c) (entries c)
  (subscriptions c) (delivered c) v (next_entry c) (next_sub c).
Definition set_next_entry v c := Db (stateValue c) (socket c) (inbound c) (reqs c) (out c)
  (readyWaiters c) (subs c) (authToken c) (reconnectAttempts c) (reconnectTimer c) (pingTimer
  c) (lastActivityMs c) (connecting c) (generation c) (running c) (konts c) (entries c)
  (subscriptions c) (delivered c) (ended c) v (next_sub c).
Definition set_next_sub v c := Db (stateValue c) (socket c) (inbound c) (reqs c) (out c)
  (readyWaiters c) (subs c) (authToken c) (reconnectAttempts c) (reconnectTimer c) (pingTimer
  c) (lastActivityMs c) (connecting c) (generation c) (running c) (konts c) (entries c)
  (subscriptions c) (delivered c) (ended c) (next_entry c) v.

Definition new_db : db :=
  Db Idle None [] pool0 outbox0 [] [] None 0 None false 0 false 0 [] ∅ ∅ ∅ [] [] 0 0.

Definition with_reqs (f : pool nat outcome → pool nat outcome) (c : db) : db :=
  set_reqs (f (reqs c)) c.

(** What a callback reads from outside: [Date.now()] and [Math.random()]. *)
Record env := Env { now : Z; random : Q }.

Definition timed_out (cfg : options) : exn := ClientTimeoutError (timeoutMs cfg).

Section WormDB.
Context {R : Runtime} (cfg : options).

(** ** Teardown and reconnection *)

Definition rejectAllPending (err : exn) (c : db) : db := with_reqs (reject_all (Failed err)) c.

Definition rejectReadyWaiters (err : exn) (c : db) : db :=
  let out := readyWaiters c in
  with_reqs (settle_each (ca_id <$> out) (Failed err)) (set_readyWaiters [] c).

Definition stopPing (c : db) : db := set_pingTimer false c.

Definition startPing (c : db) : db :=
  if (pingIntervalMs cfg <=? 0) || pingTimer c then c else set_pingTimer true c.

(** [min(maxDelayMs, minDelayMs * 2 ** reconnectAttempts)] *)
Definition backoff (attempts : Z) : Z := Z.min (maxDelayMs cfg) (minDelayMs cfg * 2 ^ attempts).

(** [backoff / 2 + Math.random() * (backoff / 2)], as a rational. *)
Definition delay (attempts : Z) (rnd : Q) : Q :=
  (inject_Z (backoff attempts) / 2 + rnd * (inject_Z (backoff attempts) / 2))%Q.

Definition exhausted (c : db) : bool :=
  match maxAttempts cfg with None => false | Some n => n <=? reconnectAttempts c end.

Definition scheduleReconnect (e : env) (c : db) : db :=
  if bool_decide (is_Some (reconnectTimer c)) || connecting c || bool_decide (stateValue c = Closed)
  then c
  else if exhausted c
  then rejectReadyWaiters ClientConnectionClosedError (set_stateValue Closed c)
  else
    let d := delay (reconnectAttempts c) (random e) in
    set_reconnectTimer (Some d) (set_reconnectAttempts (reconnectAttempts c + 1) c).

Definition handleDisconnect (e : env) (cause : option exn) (c : db) : db :=
  let c := set_socket None c in
  let c := set_inbound [] c in
  let c := set_out (set_backlog [] (out c)) c in
  let c := stopPing c in
  let reason := default ClientConnectionClosedError cause in
  let c := rejectAllPending reason c in
  if bool_decide (stateValue c = Closed) then c
  else if negb (enabled cfg)
  then rejectReadyWaiters reason (set_stateValue Idle c)
  else scheduleReconnect e (set_stateValue Reconnecting c).

Definition end_socket (c : db) : option db :=
  match socket c with
  | Some s => Some (set_ended (s :: ended c) (set_socket None c))
  | None => None
  end.

Definition failConnection (e : env) (err : exn) (c : db) : db :=
  let c := rejectAllPending err c in
  match end_socket c with
  | Some c => handleDisconnect e None c
  | None => c
  end.

Definition close (c : db) : db :=
  let c := set_stateValue Closed c in
  let c := set_reconnectTimer None c in
  let c := stopPing c in
  let c := rejectAllPending ClientConnectionClosedError c in
  let c := rejectReadyWaiters ClientConnectionClosedError c in
  let c := default c (end_socket c) in
  set_out (set_backlog [] (out c)) (set_inbound [] c).

(** ** Requests *)

Definition openSocket (c : db) : db :=
  if connecting c || bool_decide (stateValue c = Closed) then c else set_connecting true c.

(** The loop of [ensureReady] for one call, up to its next suspension.  Its
    callers run it with two rounds: a round that opens a socket leaves
    [connecting] set, so the next one suspends. *)
Fixpoint ensureReady (fuel : nat) (k : caller) (c : db) : db :=
  match fuel with
  | O => c
  | S fuel =>
      if bool_decide (stateValue c = Closed)
      then with_reqs (settle (ca_id k) (Failed ClientConnectionClosedError)) c
      else
        let wait :=
          if negb (connecting c) && bool_decide (reconnectTimer c = None)
          then ensureReady fuel k
                 (openSocket (if bool_decide (stateValue c = Idle)
                              then set_stateValue Connecting c else c))
          else set_readyWaiters (readyWaiters c ++ [k]) c in
        match socket c with
        | Some s => if bool_decide (stateValue c = Ready)
                    then set_running (running c ++ [(k, HasSocket s)]) c else wait
        | None => wait
        end
  end.

Definition enqueuePending (id : nat) (c : db) : db := with_reqs (enqueue id (generation c)) c.

(** [requestRaw(frame)] up to its first suspension, and what is to follow. *)
Definition requestRaw (frame : option bytes) (k : kont) (c : db) : db :=
  let id := next_id (reqs c) in
  let c := with_reqs fresh c in
  let c := set_konts (<[id := k]> (konts c)) c in
  ensureReady 2 (Caller id frame) c.

(** The rest of [requestRaw], with the socket. *)
Definition send_on (e : env) (s : nat) (k : caller) (c : db) : db :=
  match ca_frame k with
  | None => with_reqs (settle (ca_id k) Done) c
  | Some frame =>
      let c := enqueuePending (ca_id k) c in
      let '(o, thrown) := writeOrQueue s frame (out c) in
      let c := set_out o c in
      match thrown with
      | None => set_lastActivityMs (now e) c
      | Some err => with_reqs (reject_last (Failed err)) c
      end
  end.

(** A suspended call resumes. *)
Definition resume (e : env) (id : nat) (c : db) : db :=
  match list_find (λ u, ca_id u.1 = id) (running c) with
  | None => c
  | Some (i, (k, p)) =>
      let c := set_running (delete i (running c)) c in
      match p with
      | Loop => ensureReady 2 k c
      | HasSocket s => send_on e s k c
      end
  end.

(** ** The connection opens *)

(** One pipelined frame of [onOpen]: a promise nobody waits for, then the
    write.  The second component is the exception, which leaves [onOpen]. *)
Definition pipeline (s : nat) (frame : res bytes) (c : db) : db * option exn :=
  let id := next_id (reqs c) in
  let c := enqueuePending id (with_reqs fresh c) in
  match frame with
  | Throw err => (c, Some err)
  | Ok f => let '(o, thrown) := writeOrQueue s f (out c) in (set_out o c, thrown)
  end.

(** The [SUB] frames to send again: entries once acknowledged, in order. *)
Definition resubscription (c : db) (sub : jsstr * nat) : option (res bytes) :=
  entry ← entries c !! sub.2;
  if wireSubscribed entry
  then Some (encodeCommandFrame (SUB sub.1 (filter entry))) else None.

Definition resubscriptions (c : db) : list (res bytes) := omap (resubscription c) (subs c).

Fixpoint pipeline_all (s : nat) (frames : list (res bytes)) (c : db) : db * option exn :=
  match frames with
  | [] => (c, None)
  | f :: frames =>
      match pipeline s f c with
      | (c, None) => pipeline_all s frames c
      | (c, Some err) => (c, Some err)
      end
  end.

Definition onOpen (e : env) (s : nat) (c : db) : db :=
  let c := set_generation (S (generation c)) c in
  let c := set_socket (Some s) c in
  let c := set_inbound [] c in
  let c := set_out (set_backlog [] (out c)) c in
  let c := set_out (socket_write s WIRE_MAGIC (out c)).2 c in
  let auth := match authToken c with Some token => [encodeAuth token] | None => [] end in
  match pipeline_all s (auth ++ resubscriptions c) c with
  | (c, Some _) => c
  | (c, None) =>
      let c := set_stateValue Ready c in
      let c := set_reconnectAttempts 0 c in
      let c := set_lastActivityMs (now e) c in
      let c := startPing c in
      let waiters := readyWaiters c in
      set_running (running c ++ ((λ k, (k, Loop)) <$> waiters)) (set_readyWaiters [] c)
  end.

(** ** Received data *)

Definition routes (channel : jsstr) (evt : WormEvent) : bool :=
  bool_decide (ev_channel evt = channel) || startsWith (ev_channel evt) channel.

Definition recipients (c : db) (evt : WormEvent) : list nat :=
  subs c ≫= λ '(channel, i),
    if routes channel evt then default [] (handlers <$> entries c !! i) else [].

Definition dispatchEvent (evt : WormEvent) (c : db) : db :=
  set_delivered (delivered c ++ ((λ h, (h, evt)) <$> recipients c evt)) c.

(** The body of the loop of [onData]. *)
Definition on_frame (frame : ParsedFrame) (c : db) : res db :=
  let c := set_inbound (remaining frame) c in
  if isEventCode (code frame) then
    decoded ← decodeResponse (code frame) (payload frame);
    match decoded with
    | event channel message => Ok (dispatchEvent (Event channel message) c)
    | _ => Ok c
    end
  else Ok (with_reqs (answer (GotFrame (code frame) (payload frame))) c).

Fixpoint data_loop (fuel : nat) (c : db) : db :=
  match fuel with
  | O => c
  | S fuel =>
      match tryConsumeFrame (inbound c) with
      | None => c
      | Some frame => match on_frame frame c with Ok c => data_loop fuel c | Throw _ => c end
      end
  end.

Definition onData (e : env) (chunk : bytes) (c : db) : db :=
  match concatBytes [inbound c; chunk] with
  | Throw _ => c
  | Ok b => data_loop (length b) (set_lastActivityMs (now e) (set_inbound b c))
  end.

(** ** Timers *)

(** The timeout armed by [enqueuePending]: a stale generation is ignored. *)
Definition on_timeout (e : env) (id : nat) (c : db) : db :=
  match timers (reqs c) !! id with
  | None => c
  | Some g =>
      let c := with_reqs (clear_timer id) c in
      if bool_decide (generation c = g) then failConnection e (timed_out cfg) c else c
  end.

Definition on_reconnect_timer (c : db) : db :=
  if bool_decide (is_Some (reconnectTimer c)) then openSocket (set_reconnectTimer None c) else c.

Definition on_ping (e : env) (c : db) : db :=
  if pingTimer c && bool_decide (stateValue c = Ready) && bool_decide (is_Some (socket c)) &&
     negb (now e - lastActivityMs c <? pingIntervalMs cfg)
  then match encodeCommandFrame STATUS with
       | Ok f => requestRaw (Some f) KPlain c
       | Throw _ => c
       end
  else c.

(** ** Authentication and subscriptions *)

Definition auth (token : bytes) (c : db) : db :=
  match encodeAuth token with
  | Throw _ => c
  | Ok f => requestRaw (Some f) (KAuth token) c
  end.

Definition lookup_sub (channel : jsstr) (c : db) : option nat :=
  match list_find (λ p, p.1 = channel) (subs c) with Some (_, (_, i)) => Some i | None => None end.

Definition delete_sub (channel : jsstr) (c : db) : db :=
  set_subs (base.filter (λ p, p.1 ≠ channel) (subs c)) c.

Definition set_handlers (f : list nat → list nat) (i : nat) (c : db) : db :=
  set_entries (alter (λ en, Entry (filter en) (f (handlers en)) (wireSubscribed en)) i (entries c)) c.

Definition add_handler (h : nat) (hs : list nat) : list nat :=
  if decide (h ∈ hs) then hs else hs ++ [h].
Definition delete_handler (h : nat) (hs : list nat) : list nat := base.filter (λ x, x ≠ h) hs.
Definition no_handlers (i : nat) (c : db) : bool :=
  bool_decide (default [] (handlers <$> entries c !! i) = []).

(** The subscription object handed to the caller. *)
Definition subscribed (channel : jsstr) (handler : nat) (c : db) : db :=
  set_next_sub (S (next_sub c))
    (set_subscriptions (<[next_sub c := (channel, handler)]> (subscriptions c)) c).

(** The [catch] of [subscribe]. *)
Definition subscribe_failed (channel : jsstr) (handler i : nat) (c : db) : db :=
  let c := set_handlers (delete_handler handler) i c in
  if no_handlers i c then delete_sub channel c else c.

Definition subscribe (channel : jsstr) (handler : nat) (opt_filter : option jsstr) (c : db) : db :=
  match lookup_sub channel c with
  | Some i => subscribed channel handler (set_handlers (add_handler handler) i c)
  | None =>
      let i := next_entry c in
      let c := set_next_entry (S i) c in
      let c := set_entries (<[i := Entry opt_filter [] false]> (entries c)) c in
      let c := set_subs (subs c ++ [(channel, i)]) c in
      let c := set_handlers (add_handler handler) i c in
      match encodeCommandFrame (SUB channel opt_filter) with
      | Throw _ => subscribe_failed channel handler i c
      | Ok f => requestRaw (Some f) (KSub channel handler i) c
      end
  end.

Definition removeHandler (channel : jsstr) (handler : nat) (c : db) : db :=
  match lookup_sub channel c with
  | None => c
  | Some i =>
      let c := set_handlers (delete_handler handler) i c in
      if negb (no_handlers i c) then c
      else
        let c := delete_sub channel c in
        if bool_decide (is_Some (socket c)) && bool_decide (stateValue c = Ready)
        then match encodeCommandFrame (UNSUB channel) with
             | Ok f => requestRaw (Some f) KPlain c
             | Throw _ => c
             end
        else c
  end.

(** [unsubscribe()] of a subscription object: [active] guards it. *)
Definition unsubscribe (t : nat) (c : db) : db :=
  match subscriptions c !! t with
  | None => c
  | Some (channel, handler) =>
      removeHandler channel handler (set_subscriptions (delete t (subscriptions c)) c)
  end.

Definition response_of (o : outcome) : res WormResponse :=
  match o with
  | GotFrame code payload => decodeResponse code payload
  | Done => Throw (Error [])
  | Failed err => Throw err
  end.

(** The code after the [await] of a request, once its promise has settled. *)
Definition continue_ (id : nat) (c : db) : db :=
  match konts c !! id, settled (reqs c) !! id with
  | Some k, Some o =>
      let c := set_konts (delete id (konts c)) c in
      match k, response_of o with
      | KPlain, _ => c
      | KAuth token, Ok (error _) => c
      | KAuth token, Ok _ => set_authToken (Some token) c
      | KAuth token, Throw _ => c
      | KSub channel handler i, Ok (error _) => subscribe_failed channel handler i c
      | KSub channel handler i, Ok _ =>
          subscribed channel handler
            (set_entries (alter (λ en, Entry (filter en) (handlers en) true) i (entries c)) c)
      | KSub channel handler i, Throw _ => subscribe_failed channel handler i c
      end
  | _, _ => c
  end.

(** ** Events *)

Inductive event :=
| CallConnect
| CallRequest (frame : bytes)
| CallAuth (token : bytes)
| CallSubscribe (channel : jsstr) (handler : nat) (filter : option jsstr)
| CallUnsubscribe (subscription : nat)
| CallClose
| Resume (id : nat)
| Continue (id : nat)
| Opened (s : nat)
| ConnectResolved
| ConnectRejected (err : exn)
| Data (s : nat) (chunk : SocketData)
| Drained (s : nat)
| SocketClosed (s : nat)
| SocketError (s : nat) (err : exn)
| TimerFires (id : nat)
| ReconnectTimerFires
| PingFires.

Definition step (e : env) (c : db) (ev : event) : db :=
  match ev with
  | CallConnect => requestRaw None KPlain c
  | CallRequest frame => requestRaw (Some frame) KPlain c
  | CallAuth token => auth token c
  | CallSubscribe channel handler flt => subscribe channel handler flt c
  | CallUnsubscribe t => unsubscribe t c
  | CallClose => close c
  | Resume id => resume e id c
  | Continue id => continue_ id c
  | Opened s => onOpen e s (set_connecting false c)
  | ConnectResolved => set_connecting false c
  | ConnectRejected err => handleDisconnect e (Some err) (set_connecting false c)
  | Data _ chunk => onData e (toBytes chunk) c
  | Drained s => set_out (flushBacklog s (out c)) c
  | SocketClosed _ => handleDisconnect e None c
  | SocketError _ err => handleDisconnect e (Some err) c
  | TimerFires id => on_timeout e id c
  | ReconnectTimerFires => on_reconnect_timer c
  | PingFires => on_ping e c
  end.

Definition run (es : list (env * event)) (c : db) : db :=
  foldl (λ c '(e, ev), step e c ev) c es.
End WormDB.
