(* ===== verification/WormDBTheorems.v ===== *)
(** * The managed client keeps its promises

    Theorems on [WormDB.v]: the invariant of the connection state machine,
    first-in first-out responses, what a timeout, a disconnection and a close
    do, what a reconnection sends, backoff and retry limits, event routing
    and subscriptions. *)
From Stdlib Require Import QArith Lqa.
From S2P Require Import Prelude Utf8 JsText Command Protocol Wire Transport Pool WormDB.
#[local] Open Scope Z_scope.

Module Managed.

(** ** The invariant *)

(** Calls whose request is not pending yet. *)
Definition held (c : db) : list nat :=
  (ca_id <$> readyWaiters c) ++ ((λ u, ca_id u.1) <$> running c).

(** The frames a reconnection would send can be encoded. *)
Record encodable (c : db) : Prop := Encodable {
  en_auth : ∀ t, authToken c = Some t → ∃ f, encodeAuth t = Ok f;
  en_konts : ∀ id t, konts c !! id = Some (KAuth t) → ∃ f, encodeAuth t = Ok f;
  en_subs : ∀ ch i, (ch, i) ∈ subs c →
    ∃ en f, entries c !! i = Some en ∧ encodeCommandFrame (SUB ch (filter en)) = Ok f;
  en_fresh : ∀ i en, entries c !! i = Some en → (i < next_entry c)%nat;
}.

(** What holds even between a teardown's statements; [hs] are the calls a
    step is working on. *)
Record sound (hs : list nat) (c : db) : Prop := Sound {
  so_accounts : accounts (hs ++ held c) (reqs c);
  so_timer : is_Some (reconnectTimer c) → connecting c = false;
  so_encodable : encodable c;
}.

(** The connection state machine's invariant: ready exactly when there is a
    socket, nothing pending without one unless the client is closed, at most
    one connection at a time, and every armed timeout belongs to the current
    connection. *)
Record wf (hs : list nat) (c : db) : Prop := Wf {
  wf_sound : sound hs c;
  wf_inbound : Forall is_byte (inbound c);
  wf_ready : stateValue c = Ready ↔ is_Some (socket c);
  wf_pending : socket c = None →
    pendingQueue (reqs c) = [] ∨ (stateValue c = Closed ∧ connecting c = false);
  wf_connecting : connecting c = true → socket c = None;
  wf_timer : is_Some (reconnectTimer c) → socket c = None;
  wf_gen : map_Forall (λ _ g, g = generation c) (timers (reqs c));
}.

(** The environment's side: a connection opens only while one is being
    made, received chunks are bytes, and a call handed a socket resumes
    before the runtime reports that socket lost (its resumption is a
    microtask, the report is not).  The program itself can close the client
    in between: such a call resumes in the closed client. *)
Definition valid (c : db) (ev : event) : Prop :=
  match ev with
  | Opened _ => connecting c = true
  | Data _ chunk => Forall is_byte (toBytes chunk)
  | Resume id => ∀ i k s, list_find (λ u, ca_id u.1 = id) (running c) = Some (i, (k, HasSocket s)) →
                   socket c = Some s ∨ (stateValue c = Closed ∧ connecting c = false)
  | _ => True
  end.

Section Invariant.
Context {R : Runtime} `{!WritesAccepted R} (cfg : options).

Lemma new_db_wf : wf [] new_db.
Proof.
  split; try done.
  - split; [by split|done|]. split; try done. by intros ? ? ?%elem_of_nil.
  - split; [done|by intros []].
  - by left.
Qed.

(** *** Teardown *)

Lemma rejectReadyWaiters_sound hs err c : sound hs c → sound hs (rejectReadyWaiters err c).
Proof.
  intros [Ha Ht [? ? ? ?]]. split; [|done|by split].
  unfold rejectReadyWaiters, held in *. cbn. apply accounts_settle_each.
  eapply accounts_perm; [|exact Ha]. rewrite !app_assoc. apply Permutation_app_tail, Permutation_app_comm.
Qed.

Lemma rejectReadyWaiters_keeps err c :
  pendingQueue (reqs (rejectReadyWaiters err c)) = pendingQueue (reqs c) ∧
  timers (reqs (rejectReadyWaiters err c)) = timers (reqs c).
Proof.
  destruct (settle_each_keeps (ca_id <$> readyWaiters c) (Failed err) (reqs c)) as (? & ? & _).
  by split.
Qed.

Lemma scheduleReconnect_down e c :
  sound [] c → socket c = None → pendingQueue (reqs c) = [] → Forall is_byte (inbound c) →
  stateValue c ≠ Ready → timers (reqs c) = ∅ →
  wf [] (scheduleReconnect cfg e c).
Proof.
  intros Hs Hsk Hp Hb Hst Htm. unfold scheduleReconnect.
  assert (∀ c', sound [] c' → socket c' = None → pendingQueue (reqs c') = [] →
    Forall is_byte (inbound c') → stateValue c' ≠ Ready → timers (reqs c') = ∅ → wf [] c') as Hwf.
  { intros c' ? Hn ? ? ? E. split; try done; rewrite ?Hn, ?E; try done. by left. }
  destruct (bool_decide_reflect (is_Some (reconnectTimer c))); cbn [orb]; [by apply Hwf|].
  destruct (connecting c) eqn:Hc; cbn [orb]; [by apply Hwf|].
  destruct (bool_decide_reflect (stateValue c = Closed)); [by apply Hwf|].
  destruct (exhausted _ _).
  - apply Hwf; try done.
    + apply rejectReadyWaiters_sound. destruct Hs as [? ? []]. by split.
    + by rewrite (proj1 (rejectReadyWaiters_keeps _ _)).
    + by rewrite (proj2 (rejectReadyWaiters_keeps _ _)).
  - apply Hwf; try done. destruct Hs as [? ? []]. by split.
Qed.

(** The fields a disconnection resets, whatever follows. *)
Definition dropped (cause : option exn) (c : db) : db :=
  rejectAllPending (default ClientConnectionClosedError cause)
    (stopPing (set_out (set_backlog [] (out c)) (set_inbound [] (set_socket None c)))).

Lemma dropped_sound cause c : sound [] c → sound [] (dropped cause c).
Proof.
  intros [Ha Ht [? ? ? ?]]. split; [|done|by split]. by apply accounts_reject_all.
Qed.

Lemma dropped_reqs cause c :
  reqs (dropped cause c) =
  reject_all (Failed (default ClientConnectionClosedError cause)) (reqs c).
Proof. done. Qed.

Lemma handleDisconnect_eq e cause c :
  handleDisconnect cfg e cause c =
  if bool_decide (stateValue c = Closed) then dropped cause c
  else if negb (enabled cfg)
  then rejectReadyWaiters (default ClientConnectionClosedError cause)
         (set_stateValue Idle (dropped cause c))
  else scheduleReconnect cfg e (set_stateValue Reconnecting (dropped cause c)).
Proof. done. Qed.

Lemma handleDisconnect_wf e cause c : sound [] c → wf [] (handleDisconnect cfg e cause c).
Proof.
  intros Hs. pose proof (dropped_sound cause c Hs) as Hd.
  assert (pendingQueue (reqs (dropped cause c)) = [] ∧ timers (reqs (dropped cause c)) = ∅)
    as [Hp Ht].
  { rewrite dropped_reqs. split; [apply reject_all_queue|].
    eapply reject_all_timers, Hs. }
  rewrite handleDisconnect_eq. destruct (bool_decide_reflect (stateValue c = Closed)) as [Hc|Hc].
  - split; try done; [|by left|by rewrite Ht].
    cbn. rewrite Hc. split; [done|by intros []].
  - destruct (negb (enabled cfg)).
    + assert (sound [] (set_stateValue Idle (dropped cause c))) as Hsi
        by (destruct Hd as [? ? []]; by split).
      apply (rejectReadyWaiters_sound [] (default ClientConnectionClosedError cause)) in Hsi.
      destruct (rejectReadyWaiters_keeps (default ClientConnectionClosedError cause)
        (set_stateValue Idle (dropped cause c))) as [E1 E2].
      split; try done; try (by split; [done|intros []]); [left|];
        by rewrite ?E1, ?E2; cbn -[dropped]; rewrite ?Hp, ?Ht.
    + apply scheduleReconnect_down; try done.
      destruct Hd as [? ? []]. by split.
Qed.

Lemma failConnection_wf e err c : wf [] c → wf [] (failConnection cfg e err c).
Proof.
  intros H. assert (sound [] (rejectAllPending err c)) as Hs.
  { destruct H as [[? ? []] ? ? ? ? ? ?]. split; [by apply accounts_reject_all|done|by split]. }
  unfold failConnection, end_socket. cbn. destruct (socket c) as [s|] eqn:Es.
  - apply handleDisconnect_wf. destruct Hs as [? ? []]. by split.
  - destruct H as [[? ? ?] ? ? ? ? ? Hg]. split; try done; cbn; rewrite ?Es; try done.
    + left. apply reject_all_queue.
    + rewrite (reject_all_timers ([] ++ held c)) by done. done.
Qed.

(** *** Requests *)

(** The loop of [ensureReady] in closed form: at most one round opens a
    socket, so two rounds always reach a suspension or a failure. *)
Definition settled_or_parked (k : caller) (c : db) : db :=
  if bool_decide (stateValue c = Closed)
  then with_reqs (settle (ca_id k) (Failed ClientConnectionClosedError)) c
  else
    let parked c := set_readyWaiters (readyWaiters c ++ [k]) c in
    let wait :=
      if negb (connecting c) && bool_decide (reconnectTimer c = None)
      then parked (set_connecting true (if bool_decide (stateValue c = Idle)
                                        then set_stateValue Connecting c else c))
      else parked c in
    match socket c with
    | Some s => if bool_decide (stateValue c = Ready)
                then set_running (running c ++ [(k, HasSocket s)]) c else wait
    | None => wait
    end.

Lemma ensureReady_eq n k c : ensureReady (S (S n)) k c = settled_or_parked k c.
Proof.
  cbn [ensureReady]. unfold settled_or_parked, openSocket.
  destruct (connecting c) eqn:Hc; [done|]. cbn [negb andb].
  destruct (bool_decide (reconnectTimer c = None)); [|done].
  destruct (bool_decide_reflect (stateValue c = Idle)) as [Hi|Hi]; cbn.
  - rewrite Hi, Hc. repeat (rewrite bool_decide_false by done; cbn). by destruct (socket c).
  - rewrite Hc. destruct (bool_decide (stateValue c = Closed)) eqn:E; [done|]. cbn. rewrite E.
    destruct (socket c); [|done]. by destruct (bool_decide (stateValue c = Ready)) eqn:Er; rewrite ?Er.
Qed.

Lemma held_parked k c :
  held (set_readyWaiters (readyWaiters c ++ [k]) c) ≡ₚ ca_id k :: held c.
Proof.
  unfold held. cbn. rewrite fmap_app, <- app_assoc. cbn. symmetry. apply Permutation_middle.
Qed.

Lemma held_running k p c :
  held (set_running (running c ++ [(k, p)]) c) ≡ₚ ca_id k :: held c.
Proof.
  unfold held. cbn. rewrite fmap_app, app_assoc. symmetry. apply Permutation_cons_append.
Qed.

Lemma park_wf k c : wf [ca_id k] c → wf [] (set_readyWaiters (readyWaiters c ++ [k]) c).
Proof.
  intros [[Ha Ht [? ? ? ?]] Hi Hr Hp Hc Htm Hg]. split; try done.
  split; [|done|by split]. eapply accounts_perm; [|exact Ha]. by rewrite held_parked.
Qed.

Lemma schedule_wf k p c : wf [ca_id k] c → wf [] (set_running (running c ++ [(k, p)]) c).
Proof.
  intros [[Ha Ht [? ? ? ?]] Hi Hr Hp Hc Htm Hg]. split; try done.
  split; [|done|by split]. eapply accounts_perm; [|exact Ha]. by rewrite held_running.
Qed.

Lemma settle_wf id o hs c : wf (id :: hs) c → wf hs (with_reqs (settle id o) c).
Proof.
  intros [[Ha Ht [? ? ? ?]] Hi Hr Hp Hc Htm Hg].
  destruct (settle_keeps id o (reqs c)) as (E1 & E2 & E3).
  split; try done; cbn; rewrite ?E1, ?E2; try done.
  split; [|done|by split]. by apply accounts_settle.
Qed.

Lemma ensureReady_wf k c : wf [ca_id k] c → wf [] (ensureReady 2 k c).
Proof.
  intros H. rewrite ensureReady_eq. unfold settled_or_parked. cbv zeta.
  case_bool_decide as Hcl; [by apply settle_wf|].
  destruct (socket c) as [s|] eqn:Es.
  - rewrite (bool_decide_true (stateValue c = Ready)) by (apply H; by rewrite Es).
    by apply schedule_wf.
  - destruct (connecting c) eqn:Hco; cbn [negb andb]; [by apply park_wf|].
    case_bool_decide as Htn; [|by apply park_wf].
    apply park_wf. destruct H as [[Ha Ht [? ? ? ?]] Hi Hr Hp Hc Htm Hg].
    assert (stateValue c ≠ Ready) as Hnr by (rewrite Hr, Es; by intros []).
    assert (pendingQueue (reqs c) = []) as Hpn by by destruct (Hp Es) as [|[]].
    case_bool_decide as Hid; (split; [split; [done| |by split]|..]); cbn; try done;
      rewrite ?Htn, ?Es; try done; try (by left); by intros [].
Qed.

Lemma requestRaw_wf frame k c :
  (∀ t, k = KAuth t → ∃ f, encodeAuth t = Ok f) → wf [] c → wf [] (requestRaw frame k c).
Proof.
  intros Hk [[Ha Ht [He1 He2 He3 He4]] Hi Hr Hp Hc Htm Hg]. unfold requestRaw. apply ensureReady_wf.
  split; try done. split; [|done|].
  - cbn [ca_id]. apply accounts_fresh in Ha. eapply accounts_perm; [|exact Ha].
    symmetry. apply Permutation_cons_append.
  - split; try done. cbn. intros id t. destruct (decide (id = next_id (reqs c))) as [->|].
    + rewrite lookup_insert_eq. intros [= ->]. by apply Hk.
    + rewrite lookup_insert_ne by done. apply He2.
Qed.

Lemma send_on_wf e s k c :
  socket c = Some s ∨ (stateValue c = Closed ∧ connecting c = false) →
  wf [ca_id k] c → wf [] (send_on e s k c).
Proof.
  intros Hs H. unfold send_on. destruct (ca_frame k) as [frame|]; [|by apply settle_wf].
  destruct H as [[Ha Ht [? ? ? ?]] Hi Hr Hp Hc Htm Hg]. cbn.
  pose proof (writeOrQueue_in_order s frame (out c)) as Hw.
  destruct (writeOrQueue s frame (out c)) as [o x]. destruct Hw as [-> _].
  split; try done; cbn.
  - split; [by apply accounts_enqueue|done|by split].
  - intros En. destruct Hs as [Hs|Hs]; [by rewrite Hs in En|by right].
  - by apply map_Forall_insert_2.
Qed.

Lemma held_delete i k p c :
  running c !! i = Some (k, p) →
  ca_id k :: held (set_running (delete i (running c)) c) ≡ₚ held c.
Proof.
  intros Hi. unfold held. cbn. rewrite list_fmap_delete.
  rewrite Permutation_middle. apply Permutation_app_head. symmetry.
  apply delete_Permutation. by rewrite list_lookup_fmap, Hi.
Qed.

Lemma resume_wf e id c : valid c (Resume id) → wf [] c → wf [] (resume e id c).
Proof.
  intros Hv H. unfold resume. cbn in Hv.
  destruct (list_find _ (running c)) as [[i [k p]]|] eqn:E; [|done].
  assert (running c !! i = Some (k, p)) as Hi by by apply list_find_Some in E as (? & _).
  assert (wf [ca_id k] (set_running (delete i (running c)) c)) as Hw.
  { destruct H as [[Ha Ht [? ? ? ?]] Hb Hr Hp Hc Htm Hg]. split; try done.
    split; [|done|by split]. eapply accounts_perm; [|exact Ha]. symmetry. by eapply held_delete. }
  destruct p as [|s]; [by apply ensureReady_wf|]. apply send_on_wf; [|done].
  by eapply (Hv i k).
Qed.

(** *** Opening a connection *)

Lemma resubscriptions_ok c : encodable c → ∃ fs, resubscriptions c = Ok <$> fs.
Proof.
  intros [_ _ Hs _]. unfold resubscriptions.
  assert (∀ ch i, (ch, i) ∈ subs c →
    ∃ en f, entries c !! i = Some en ∧ encodeCommandFrame (SUB ch (filter en)) = Ok f) as H by done.
  clear Hs. induction (subs c) as [|[ch i] l IH]; [by exists []|].
  destruct IH as [fs E]. { intros. apply H. by right. }
  destruct (H ch i) as (en & f & Hen & Hf); [left|].
  assert (resubscription c (ch, i) = None ∨ resubscription c (ch, i) = Some (Ok f)) as Hr.
  { unfold resubscription. cbn [fst snd]. rewrite Hen, <- Hf.
    cbn [mbind option_bind]. destruct (wireSubscribed en); auto. }
  change (omap (resubscription c) ((ch, i) :: l)) with
    (match resubscription c (ch, i) with
     | Some y => y :: omap (resubscription c) l | None => omap (resubscription c) l end).
  rewrite E. destruct Hr as [-> | ->]; [by exists fs|by exists (f :: fs)].
Qed.

Lemma opening_frames_ok c :
  encodable c →
  ∃ fs, match authToken c with Some token => [encodeAuth token] | None => [] end ++
        resubscriptions c = Ok <$> fs.
Proof.
  intros H. destruct (resubscriptions_ok c H) as [fs ->].
  destruct (authToken c) as [t|] eqn:E; [|by exists fs].
  destruct (en_auth _ H t E) as [f ->]. by exists (f :: fs).
Qed.

(** Pipelining frames queues a promise for each and writes them in order. *)
Lemma pipeline_all_ok s fs hs c :
  accounts hs (reqs c) →
  map_Forall (λ _ g, g = generation c) (timers (reqs c)) →
  ∃ o r, pipeline_all s (Ok <$> fs) c = (set_out o (set_reqs r c), None) ∧
    outgoing s o = outgoing s (out c) ++ concat fs ∧
    accounts hs r ∧ map_Forall (λ _ g, g = generation c) (timers r) ∧
    pendingQueue r = pendingQueue (reqs c) ++ seq (next_id (reqs c)) (length fs) ∧
    settled r = settled (reqs c).
Proof.
  revert c. induction fs as [|f fs IH]; intros c Ha Hg.
  - exists (out c), (reqs c). rewrite !app_nil_r. split_and!; try done. by destruct c.
  - cbn [fmap list_fmap pipeline_all]. unfold pipeline.
    pose proof (writeOrQueue_in_order s f (out c)) as Hw. cbn [out enqueuePending with_reqs set_reqs].
    destruct (writeOrQueue s f (out c)) as [o x]. destruct Hw as [-> Ho].
    set (c1 := set_out o _). destruct (IH c1) as (o2 & r2 & E & Ho2 & Ha2 & Hg2 & Hp2 & Hs2).
    + cbn. apply accounts_enqueue. eapply accounts_perm; [|by apply accounts_fresh].
      symmetry. apply Permutation_cons_append.
    + cbn. by apply map_Forall_insert_2.
    + exists o2, r2. rewrite E. split_and!; try done.
      * rewrite Ho2. change (out c1) with o. by rewrite Ho, <- app_assoc.
      * rewrite Hp2. cbn. by rewrite <- app_assoc.
Qed.

(** Nothing is pending while a connection is being made. *)
Lemma connecting_pending c : wf [] c → connecting c = true → pendingQueue (reqs c) = [].
Proof.
  intros [_ _ _ Hp Hc _ _] Hco. destruct (Hp (Hc Hco)) as [|[_ E]]; [done|congruence].
Qed.

(** What [onOpen] does on a well-formed client, in full. *)
Lemma onOpen_eq e s c :
  wf [] c → connecting c = true →
  ∃ fs o r, match authToken c with Some token => [encodeAuth token] | None => [] end ++
            resubscriptions c = Ok <$> fs ∧
    onOpen cfg e s (set_connecting false c) =
      (let c1 := startPing cfg (set_lastActivityMs (now e) (set_reconnectAttempts 0
         (set_stateValue Ready (set_out o (set_reqs r (set_inbound [] (set_socket (Some s)
         (set_generation (S (generation c)) (set_connecting false c))))))))) in
       set_running (running c1 ++ ((λ k, (k, Loop)) <$> readyWaiters c1))
         (set_readyWaiters [] c1)) ∧
    outgoing s o = accepted_by s (out c) ++
                   take (Z.to_nat (sock_write (calls (out c)) WIRE_MAGIC)) WIRE_MAGIC ++ concat fs ∧
    accounts (held c) r ∧ map_Forall (λ _ g, g = S (generation c)) (timers r) ∧
    pendingQueue r = seq (next_id (reqs c)) (length fs) ∧ settled r = settled (reqs c).
Proof.
  intros Hw Hco. pose proof (connecting_pending c Hw Hco) as Hp.
  destruct Hw as [[Ha Ht He] Hi Hr _ Hc Htm Hg].
  destruct (opening_frames_ok c He) as [fs Efs]. exists fs.
  assert (timers (reqs c) = ∅) as Hti.
  { destruct Ha as [_ Hd]. rewrite Hp in Hd. by apply dom_empty_inv_L. }
  unfold onOpen. cbv zeta.
  set (c0 := set_out (socket_write s WIRE_MAGIC _).2 _).
  change (authToken c0) with (authToken c). change (resubscriptions c0) with (resubscriptions c).
  rewrite Efs.
  destruct (pipeline_all_ok s fs (held c) c0) as (o & r & E & Ho & Ha2 & Hg2 & Hp2 & Hs2).
  - done.
  - cbn. by rewrite Hti.
  - rewrite E. exists o, r. split_and!; try done.
    + rewrite Ho. unfold outgoing. cbn. unfold accepted_by. cbn. rewrite lookup_insert_eq. cbn.
      by rewrite app_nil_r, <- app_assoc.
    + rewrite Hp2. cbn. by rewrite Hp.
Qed.

Lemma onOpen_wf e s c :
  wf [] c → connecting c = true → wf [] (onOpen cfg e s (set_connecting false c)).
Proof.
  intros H Hco. destruct (onOpen_eq e s c H Hco) as (fs & o & r & Efs & -> & Ho & Ha & Hg & Hp & Hs).
  destruct H as [[_ Ht [? ? ? ?]] Hi Hr Hpd Hc Htm _]. unfold startPing.
  assert (reconnectTimer c = None) as Hn.
  { destruct (reconnectTimer c); [|done]. rewrite Ht in Hco by done. done. }
  assert (held c ≡ₚ [] ++ (ca_id <$> []) ++ ((λ u : caller * phase, ca_id u.1) <$>
    (running c ++ ((λ k, (k, Loop)) <$> readyWaiters c)))) as Hperm.
  { unfold held. cbn. rewrite fmap_app, <- list_fmap_compose. cbn. apply Permutation_app_comm. }
  destruct ((pingIntervalMs cfg <=? 0) || _);
    (split; cbn; rewrite ?Hn; try done; try (by split; eauto); try (by intros []));
    (split; cbn; rewrite ?Hn; [by rewrite <- Hperm|by intros []|by split]).
Qed.

(** *** Data *)

(** What a chunk carries: the raw responses, and the events. *)
Definition responses (fs : list (Z * bytes)) : list outcome :=
  omap (λ '(c, p), if isEventCode c then None else Some (GotFrame c p)) fs.

Definition pushed (fs : list (Z * bytes)) : list WormEvent :=
  omap (λ '(c, p), if isEventCode c then
    match decodeResponse c p with Ok (Protocol.event ch m) => Some (Event ch m) | _ => None end
    else None) fs.

Definition deliveries (c : db) (evts : list WormEvent) : list (nat * WormEvent) :=
  evts ≫= λ evt, (λ h, (h, evt)) <$> recipients c evt.

(** Responses go to the oldest pending requests, events to their handlers. *)
Definition processed (fs : list (Z * bytes)) (rest : bytes) (c : db) : db :=
  set_inbound rest (set_delivered (delivered c ++ deliveries c (pushed fs))
    (with_reqs (answer_all (responses fs)) c)).

Lemma pushed_cons c p fs :
  pushed ((c, p) :: fs) =
  (if isEventCode c then
    match decodeResponse c p with Ok (Protocol.event ch m) => [Event ch m] | _ => [] end
   else []) ++ pushed fs.
Proof.
  unfold pushed. cbn. destruct (isEventCode c); [|done].
  destruct (decodeResponse c p) as [[]|]; done.
Qed.

Lemma data_step_eq b :
  Forall is_byte b → ∀ c fuel, inbound c = b → (length b ≤ fuel)%nat →
  data_loop fuel c = processed (read_all b).1 (read_all b).2 c.
Proof.
  revert b. apply (read_all_ind (λ b, ∀ c fuel, inbound c = b → (length b ≤ fuel)%nat →
    data_loop fuel c = processed (read_all b).1 (read_all b).2 c)).
  - intros b Hb E c fuel <- Hf. rewrite read_all_step, E by done. unfold processed. cbn.
    rewrite app_nil_r. destruct fuel; cbn; rewrite ?E; by destruct c.
  - intros b f Hb E IH c fuel <- Hf.
    destruct (remaining_shorter _ _ Hb E) as (Hs & Hr & Hp).
    destruct fuel as [|fuel]; [lia|]. rewrite read_all_step by done. cbn [data_loop]. rewrite E.
    destruct (read_all (remaining f)) as [fs rest] eqn:Er. cbn [fst snd] in *.
    unfold on_frame, processed. rewrite pushed_cons. cbn [set_inbound].
    destruct (isEventCode (code f)) eqn:Ev.
    + destruct (decodeResponse_ok (code f) (payload f) Hp) as [r Hd]. rewrite Hd. cbn [mbind res_bind].
      assert (responses ((code f, payload f) :: fs) = responses fs) as ->
        by (unfold responses; cbn; by rewrite Ev).
      destruct r as [| | | |ch m]; rewrite IH by (try done; lia); try done.
      unfold processed, dispatchEvent, deliveries. cbn. by rewrite <- app_assoc.
    + rewrite IH by (try done; lia).
      assert (responses ((code f, payload f) :: fs) = GotFrame (code f) (payload f) :: responses fs)
        as -> by (unfold responses; cbn; by rewrite Ev). done.
Qed.

Lemma onData_eq e chunk c :
  Forall is_byte (inbound c) → Forall is_byte chunk →
  onData e chunk c =
  processed (read_all (inbound c ++ chunk)).1 (read_all (inbound c ++ chunk)).2
    (set_lastActivityMs (now e) c).
Proof.
  intros Hi Hc. unfold onData. rewrite concatBytes_spec. cbn [concat]. rewrite app_nil_r.
  by rewrite (data_step_eq (inbound c ++ chunk)) by (try done; by apply Forall_app).
Qed.

Lemma map_Forall_answer_all (P : nat → nat → Prop) os (p : pool nat outcome) :
  map_Forall P (timers p) → map_Forall P (timers (answer_all os p)).
Proof.
  unfold answer_all. revert p. induction os as [|o os IH]; intros p H; cbn; [done|].
  apply IH. unfold answer. destruct (pendingQueue p) as [|id q]; [done|].
  destruct (settle_keeps id o (clear_timer id (set_queue q p))) as (_ & -> & _).
  by apply map_Forall_delete.
Qed.

Lemma onData_wf e chunk c : wf [] c → Forall is_byte chunk → wf [] (onData e chunk c).
Proof.
  intros [[Ha Ht [? ? ? ?]] Hi Hr Hp Hc Htm Hg] Hch. rewrite onData_eq by done.
  split; try done; cbn.
  - split; [by apply accounts_answer_all|done|by split].
  - apply read_all_rest. by apply Forall_app.
  - intros E. destruct (Hp E) as [Hn|]; [left|by right]. by rewrite answer_all_queue, Hn, drop_nil.
  - by apply map_Forall_answer_all.
Qed.

(** *** Subscriptions *)

(** Only the subscription fields change, and resubscription stays possible. *)
Lemma wf_subs c c' :
  wf [] c →
  set_subs (subs c) (set_entries (entries c) (set_subscriptions (subscriptions c)
    (set_next_entry (next_entry c) (set_next_sub (next_sub c) c')))) = c →
  (∀ i en, entries c' !! i = Some en → (i < next_entry c')%nat) →
  (∀ ch i, (ch, i) ∈ subs c' →
    ∃ en f, entries c' !! i = Some en ∧ encodeCommandFrame (SUB ch (filter en)) = Ok f) →
  wf [] c'.
Proof.
  intros H E Hf Hs. rewrite <- E in H. clear E. destruct c'.
  destruct H as [[? ? []] ? ? ? ? ? ?]. by split.
Qed.

(** Changing an entry but not its filter. *)
Lemma alter_subs (g : SubEntry → SubEntry) i (m : gmap nat SubEntry) (l : list (jsstr * nat)) :
  (∀ en, filter (g en) = filter en) →
  (∀ ch j, (ch, j) ∈ l →
    ∃ en f, m !! j = Some en ∧ encodeCommandFrame (SUB ch (filter en)) = Ok f) →
  ∀ ch j, (ch, j) ∈ l →
    ∃ en f, alter g i m !! j = Some en ∧ encodeCommandFrame (SUB ch (filter en)) = Ok f.
Proof.
  intros Hg H ch j Hin. destruct (H ch j Hin) as (en & f & Hl & Hf).
  destruct (decide (i = j)) as [->|].
  - exists (g en), f. rewrite lookup_alter_eq, Hl. by rewrite Hg.
  - exists en, f. by rewrite lookup_alter_ne.
Qed.

Lemma lookup_alter_filter (g : SubEntry → SubEntry) i (m : gmap nat SubEntry) j en :
  alter g i m !! j = Some en → ∃ en', m !! j = Some en'.
Proof.
  destruct (decide (i = j)) as [->|]; [rewrite lookup_alter_eq|by rewrite lookup_alter_ne; eauto].
  destruct (m !! j); [by eauto|done].
Qed.

Lemma set_handlers_wf g i c : wf [] c → wf [] (set_handlers g i c).
Proof.
  intros H. apply (wf_subs c); [done|by destruct c| |].
  - intros j en [en' Hl]%lookup_alter_filter. by eapply H.
  - apply alter_subs; [done|apply H].
Qed.

Lemma delete_sub_wf ch c : wf [] c → wf [] (delete_sub ch c).
Proof.
  intros H. apply (wf_subs c); [done|by destruct c|apply H|]. cbn.
  intros ch' i Hin. apply list_elem_of_filter in Hin as [_ Hin]. by apply H.
Qed.

Lemma subscribed_wf ch h c : wf [] c → wf [] (subscribed ch h c).
Proof. intros H. apply (wf_subs c); [done|by destruct c|apply H|apply H]. Qed.

Lemma subscribe_failed_wf ch h i c : wf [] c → wf [] (subscribe_failed ch h i c).
Proof.
  intros H. unfold subscribe_failed. destruct (no_handlers _ _);
    by try apply delete_sub_wf; apply set_handlers_wf.
Qed.

Lemma subscribe_wf ch h flt c : wf [] c → wf [] (subscribe ch h flt c).
Proof.
  intros H. unfold subscribe. destruct (lookup_sub ch c) as [i|].
  { by apply subscribed_wf, set_handlers_wf. }
  cbv zeta. set (i := next_entry c). set (c0 := set_handlers _ _ _).
  assert (∀ ch' j, (ch', j) ∈ subs c →
    ∃ en f, entries c0 !! j = Some en ∧ encodeCommandFrame (SUB ch' (filter en)) = Ok f) as Hold.
  { intros ch' j Hin. destruct (en_subs _ (so_encodable _ _ (wf_sound _ _ H)) ch' j Hin)
      as (en & f & Hl & Hf).
    assert (j < i)%nat as Hlt
      by (by eapply (en_fresh _ (so_encodable _ _ (wf_sound _ _ H)))).
    exists en, f. split; [|done]. cbn. rewrite lookup_alter_ne, lookup_insert_ne by lia. done. }
  assert (∀ j en, entries c0 !! j = Some en → (j < next_entry c0)%nat) as Hfr.
  { intros j en [en' Hl]%lookup_alter_filter. cbn in Hl |- *.
    destruct (decide (i = j)) as [->|]; [lia|]. rewrite lookup_insert_ne in Hl by done.
    apply (en_fresh _ (so_encodable _ _ (wf_sound _ _ H))) in Hl. lia. }
  assert (entries c0 !! i = Some (Entry flt [h] false)) as Hi.
  { cbn. rewrite lookup_alter_eq, lookup_insert_eq. done. }
  destruct (encodeCommandFrame (SUB ch flt)) as [f|e] eqn:Hf.
  - apply requestRaw_wf; [done|]. apply (wf_subs c); [done|by destruct c|done|].
    intros ch' j. cbn. rewrite elem_of_app, list_elem_of_singleton. intros [Hin|[= -> ->]]; [by eauto|].
    exists (Entry flt [h] false), f. by split.
  - unfold subscribe_failed.
    set (c1 := set_handlers _ _ c0).
    assert (no_handlers i c1 = true) as ->.
    { unfold no_handlers. apply bool_decide_true. cbn [c1 set_handlers entries set_entries].
      rewrite lookup_alter_eq, Hi. cbn. by rewrite decide_False by tauto. }
    apply (wf_subs c); [done|by destruct c| |].
    + intros j en [en' Hl]%lookup_alter_filter. by apply Hfr in Hl.
    + cbn [subs delete_sub set_subs]. intros ch' j [Hne Hin]%list_elem_of_filter.
      apply (alter_subs _ i (entries c0) (subs c)); [done|done|].
      cbn in Hin. apply elem_of_app in Hin as [Hin|Hin]; [done|].
      apply list_elem_of_singleton in Hin. by injection Hin as -> ->.
Qed.

Lemma removeHandler_wf ch h c : wf [] c → wf [] (removeHandler ch h c).
Proof.
  intros H. unfold removeHandler. destruct (lookup_sub ch c) as [i|]; [|done].
  pose proof (set_handlers_wf (delete_handler h) i c H) as H1.
  destruct (negb _); [done|]. apply (delete_sub_wf ch) in H1.
  destruct (_ && _); [|done]. destruct (encodeCommandFrame _); [|done].
  by apply requestRaw_wf.
Qed.

Lemma unsubscribe_wf t c : wf [] c → wf [] (unsubscribe t c).
Proof.
  intros H. unfold unsubscribe. destruct (subscriptions c !! t) as [[ch h]|]; [|done].
  apply removeHandler_wf, (wf_subs c); [done|by destruct c|apply H|apply H].
Qed.

Lemma forget_kont_wf id c : wf [] c → wf [] (set_konts (delete id (konts c)) c).
Proof.
  intros [[Ha Ht [? Hk ? ?]] Hi Hr Hp Hc Htm Hg]. split; try done.
  split; try done. split; try done. cbn. intros i t [_ Hl]%lookup_delete_Some. by eapply Hk.
Qed.

Lemma continue_wf id c : wf [] c → wf [] (continue_ id c).
Proof.
  intros H. unfold continue_. destruct (konts c !! id) as [k|] eqn:Ek; [|done].
  destruct (settled (reqs c) !! id) as [o|]; [|done].
  pose proof (forget_kont_wf id c H) as H1. set (c1 := set_konts _ _) in *.
  assert (∀ t, k = KAuth t → wf [] (set_authToken (Some t) c1)) as Hauth.
  { intros t ->. destruct (en_konts _ (so_encodable _ _ (wf_sound _ _ H)) _ _ Ek) as [f Hf].
    destruct H1 as [[Ha Ht [? Hk ? ?]] Hi Hr Hp Hc Htm Hg]. split; try done.
    split; try done. split; try done. cbn. intros t' [= ->]. by exists f. }
  destruct k as [|t|ch h i]; [done|destruct (response_of o) as [[]|]; auto|].
  assert (wf [] (subscribed ch h (set_entries
    (alter (λ en, Entry (filter en) (handlers en) true) i (entries c1)) c1))) as Hsub.
  { apply subscribed_wf, (wf_subs c1); [done|by destruct c1| |].
    - intros j en [en' Hl]%lookup_alter_filter. by eapply H1.
    - apply alter_subs; [done|apply H1]. }
  destruct (response_of o) as [[]|]; auto using subscribe_failed_wf.
Qed.

(** *** Every event *)

Lemma out_wf o c : wf [] c → wf [] (set_out o c).
Proof. intros [[Ha Ht [? ? ? ?]] Hi Hr Hp Hc Htm Hg]. split; try done; by split. Qed.

Lemma connected_sound c : sound [] c → sound [] (set_connecting false c).
Proof. intros [Ha Ht [? ? ? ?]]. by split. Qed.

Lemma openSocket_wf c : wf [] c → socket c = None → reconnectTimer c = None → wf [] (openSocket c).
Proof.
  intros H Hs Ht. unfold openSocket. destruct (connecting c) eqn:Hco; [done|]. cbn [orb].
  case_bool_decide as Hcl; [done|].
  destruct H as [[Ha _ [? ? ? ?]] Hi Hr Hp Hc Htm Hg]. split; try done.
  - split; [done| |done]. cbn. rewrite Ht. by intros [].
  - left. by destruct (Hp Hs) as [|[]].
Qed.

Lemma close_wf c : wf [] c → wf [] (close c).
Proof.
  intros H. assert (sound [] (rejectReadyWaiters ClientConnectionClosedError
    (rejectAllPending ClientConnectionClosedError
      (stopPing (set_reconnectTimer None (set_stateValue Closed c)))))) as Hs.
  { apply rejectReadyWaiters_sound. destruct H as [[Ha _ [? ? ? ?]] _ _ _ _ _ _].
    split; [by apply accounts_reject_all|by intros []|by split]. }
  unfold close. cbv zeta. set (c1 := rejectReadyWaiters _ _) in *.
  assert (pendingQueue (reqs c1) = [] ∧ timers (reqs c1) = ∅) as [Hp Ht].
  { subst c1. rewrite (proj1 (rejectReadyWaiters_keeps _ _)), (proj2 (rejectReadyWaiters_keeps _ _)).
    split; [apply reject_all_queue|]. eapply reject_all_timers, H. }
  unfold end_socket. change (socket c1) with (socket c).
  destruct (socket c) as [s|] eqn:Es; cbn [default]; destruct Hs as [? ? []];
    (split; cbn -[c1]; rewrite ?Ht, ?Hp; try done);
    try (by left); try (by split; [|by intros []|]); change (socket c1) with (socket c);
    change (stateValue c1) with Closed; change (reconnectTimer c1) with (@None Q);
    rewrite ?Es; try done; by intros [].
Qed.

(** A timeout of the current connection fails it. *)
Lemma db_timeout_eq e id g c :
  wf [] c → timers (reqs c) !! id = Some g →
  on_timeout cfg e id c = failConnection cfg e (timed_out cfg) c.
Proof.
  intros H E. unfold on_timeout. rewrite E.
  rewrite bool_decide_true by (symmetry; by eapply (wf_gen _ _ H)).
  unfold failConnection, rejectAllPending, with_reqs. cbn [reqs set_reqs].
  rewrite (reject_all_fired ([] ++ held c)) by apply H. done.
Qed.

Lemma timeout_wf e id c : wf [] c → wf [] (on_timeout cfg e id c).
Proof.
  intros H. destruct (timers (reqs c) !! id) as [g|] eqn:E.
  - rewrite (db_timeout_eq e id g) by done. by apply failConnection_wf.
  - unfold on_timeout. by rewrite E.
Qed.

Lemma step_wf e c ev : wf [] c → valid c ev → wf [] (step cfg e c ev).
Proof.
  intros H Hv. destruct ev; cbn [step] in *.
  - by apply requestRaw_wf.
  - by apply requestRaw_wf.
  - unfold auth. destruct (encodeAuth token) as [f|] eqn:E; [|done].
    apply requestRaw_wf; [|done]. intros t [= ->]. eauto.
  - by apply subscribe_wf.
  - by apply unsubscribe_wf.
  - by apply close_wf.
  - by apply resume_wf.
  - by apply continue_wf.
  - by apply onOpen_wf.
  - destruct H as [[Ha Ht [? ? ? ?]] Hi Hr Hp Hc Htm Hg]. split; try done; try by split.
    intros E. destruct (Hp E) as [|[]]; [by left|by right].
  - by apply handleDisconnect_wf, connected_sound, H.
  - by apply onData_wf.
  - by apply out_wf.
  - by apply handleDisconnect_wf, H.
  - by apply handleDisconnect_wf, H.
  - by apply timeout_wf.
  - unfold on_reconnect_timer. case_bool_decide as Ht; [|done].
    apply openSocket_wf; [|exact (wf_timer _ _ H Ht)|done].
    destruct H as [[Ha _ [? ? ? ?]] Hi Hr Hp Hc Htm Hg]. split; try done; [|by intros []].
    split; [done|by intros []|by split].
  - unfold on_ping. destruct (_ && _); [|done].
    destruct (encodeCommandFrame STATUS); [|done]. by apply requestRaw_wf.
Qed.

(** ** The properties *)

(** Runs the environment can produce. *)
Fixpoint valid_run (es : list (env * event)) (c : db) : Prop :=
  match es with
  | [] => True
  | (e, ev) :: es => valid c ev ∧ valid_run es (step cfg e c ev)
  end.

Lemma run_wf es c : wf [] c → valid_run es c → wf [] (run cfg es c).
Proof.
  revert c. induction es as [|[e ev] es IH]; intros c H Hv; [done|].
  destruct Hv as [Hv1 Hv2]. apply IH; [|done]. by apply step_wf.
Qed.

Lemma reachable_wf es : valid_run es new_db → wf [] (run cfg es new_db).
Proof. apply run_wf, new_db_wf. Qed.

(** A disconnection drops the socket, empties the queue and unsettles
    nothing. *)
Lemma handleDisconnect_drops e cause c :
  let c' := handleDisconnect cfg e cause c in
  socket c' = None ∧ pendingQueue (reqs c') = [] ∧
  (∀ i o, settled (reqs c) !! i = Some o → settled (reqs c') !! i = Some o).
Proof.
  cbv zeta. rewrite handleDisconnect_eq.
  assert (∀ i o, settled (reqs c) !! i = Some o →
    settled (reqs (dropped cause c)) !! i = Some o) as Hd.
  { intros i o. rewrite dropped_reqs. apply reject_all_stable. }
  assert (pendingQueue (reqs (dropped cause c)) = []) as Hp by apply reject_all_queue.
  assert (∀ err v, let c' := rejectReadyWaiters err (set_stateValue v (dropped cause c)) in
    socket c' = None ∧ pendingQueue (reqs c') = [] ∧
    (∀ i o, settled (reqs c) !! i = Some o → settled (reqs c') !! i = Some o)) as Hr.
  { intros err v. split; [done|]. rewrite (proj1 (rejectReadyWaiters_keeps _ _)). split; [done|].
    intros i o Hi. by apply settle_each_stable, Hd. }
  case_bool_decide; [done|]. destruct (negb _); [apply Hr|].
  unfold scheduleReconnect. destruct (_ || _); [done|]. destruct (exhausted _ _); [|done].
  apply (Hr ClientConnectionClosedError Closed).
Qed.

(** So does a failed connection, which rejects what was pending with its
    own reason first. *)
Lemma failConnection_drops e err c :
  accounts (held c) (reqs c) →
  let c' := failConnection cfg e err c in
  socket c' = None ∧ pendingQueue (reqs c') = [] ∧
  (∀ i, i ∈ pendingQueue (reqs c) → settled (reqs c') !! i = Some (Failed err)).
Proof.
  intros Ha. cbv zeta. unfold failConnection.
  assert (∀ i, i ∈ pendingQueue (reqs c) →
    settled (reqs (rejectAllPending err c)) !! i = Some (Failed err)) as Hs.
  { intros i Hi. by eapply reject_all_lookup. }
  unfold end_socket. change (socket (rejectAllPending err c)) with (socket c).
  destruct (socket c) as [s|] eqn:Es.
  - edestruct handleDisconnect_drops as (-> & -> & Hk). split_and!; [done..|].
    intros i Hi. by apply Hk, Hs.
  - split_and!; [done|apply reject_all_queue|done].
Qed.

(** A timeout tears the connection down: every request in flight is
    rejected with the timeout, the socket is dropped with everything
    buffered for it, and late responses settle nothing. *)
Theorem db_timeout_tears_down es e id :
  valid_run es new_db →
  let c := run cfg es new_db in
  let c' := on_timeout cfg e id c in
  id ∈ pendingQueue (reqs c) →
  (∀ i, i ∈ pendingQueue (reqs c) →
     settled (reqs c') !! i = Some (Failed (ClientTimeoutError (timeoutMs cfg)))) ∧
  pendingQueue (reqs c') = [] ∧ socket c' = None ∧ stateValue c' ≠ Ready ∧
  (∀ e' chunk, Forall is_byte chunk →
     settled (reqs (onData e' chunk c')) = settled (reqs c')).
Proof.
  intros Hv c c' Hid. pose proof (reachable_wf es Hv) as H. fold c in H.
  pose proof (timeout_wf e id c H) as H'. fold c' in H'.
  assert (is_Some (timers (reqs c) !! id)) as [g Hg].
  { apply elem_of_dom. rewrite (proj2 (so_accounts _ _ (wf_sound _ _ H))).
    by apply elem_of_list_to_set. }
  assert (c' = failConnection cfg e (timed_out cfg) c) as Ec
    by (unfold c'; by rewrite (db_timeout_eq e id g)).
  destruct (failConnection_drops e (timed_out cfg) c) as (Hs & Hp & Hr); [apply H|].
  rewrite <- Ec in Hs, Hp, Hr.
  split_and!; [exact Hr|done|done| |].
  - rewrite (wf_ready _ _ H'), Hs. by intros [].
  - intros e' chunk Hch. rewrite onData_eq by (try done; apply H'). cbn.
    generalize (responses (read_all (inbound c' ++ chunk)).1). intros os.
    assert (∀ r : pool nat outcome, pendingQueue r = [] → answer_all os r = r) as ->; [|done|done].
    unfold answer_all. intros r Hr'. induction os as [|o os IH]; [done|]. cbn.
    unfold answer at 2. by rewrite Hr'.
Qed.

Lemma elem_of_recipients c evt h :
  h ∈ recipients c evt ↔
  ∃ ch i en r, (ch, i) ∈ subs c ∧ entries c !! i = Some en ∧ h ∈ handlers en ∧
    ev_channel evt = ch ++ r.
Proof.
  unfold recipients. rewrite list_elem_of_bind. split.
  - intros ([ch i] & Hh & Hin). destruct (routes ch evt) eqn:Er; [|by apply elem_of_nil in Hh].
    destruct (entries c !! i) as [en|] eqn:Ei; [|by apply elem_of_nil in Hh].
    unfold routes in Er. apply orb_true_iff in Er as [Er|Er].
    + apply bool_decide_eq_true in Er. exists ch, i, en, []. rewrite app_nil_r. done.
    + apply startsWith_true in Er as [r Er]. by exists ch, i, en, r.
  - intros (ch & i & en & r & Hin & Hi & Hh & Hr). exists (ch, i). split; [|done].
    unfold routes. rewrite Hi, Hr, startsWith_app, orb_true_r. done.
Qed.

(** C8: received data.  The complete frames of a chunk are processed in
    order: the responses settle the oldest pending requests with their raw
    frames, and each event is handed once to every handler of every
    subscription whose channel is a prefix of the event's channel, and to no
    other; events never touch the queue. *)
Theorem db_data_in_order es e chunk :
  valid_run es new_db → Forall is_byte chunk →
  let c := run cfg es new_db in
  let c' := onData e chunk c in
  let r := read_all (inbound c ++ chunk) in
  inbound c' = r.2 ∧
  pendingQueue (reqs c') = drop (length (responses r.1)) (pendingQueue (reqs c)) ∧
  (∀ i id o, pendingQueue (reqs c) !! i = Some id → responses r.1 !! i = Some o →
     settled (reqs c') !! id = Some o) ∧
  delivered c' = delivered c ++ deliveries c (pushed r.1) ∧
  (∀ evt h, h ∈ recipients c evt ↔ ∃ ch i en suffix, (ch, i) ∈ subs c ∧
     entries c !! i = Some en ∧ h ∈ handlers en ∧ ev_channel evt = ch ++ suffix).
Proof.
  intros Hv Hc c c' r. pose proof (reachable_wf es Hv) as H. fold c in H. subst c'.
  rewrite onData_eq by (try done; apply H). fold r.
  split_and!; [done|apply answer_all_queue| |done|apply elem_of_recipients].
  intros i id o Hi Ho. eapply answer_all_lookup; [|done..]. apply H.
Qed.

(** C35: a reconnection replays the session and nothing else.  When a
    connection opens (and its first write, the preamble, is accepted whole),
    the bytes on their way to the new socket are the preamble, the [AUTH]
    frame if a token was accepted before, and one [SUB] frame for each
    acknowledged subscription, in order; one promise per frame is pending,
    no earlier request is sent again, and every call that was waiting is
    released, in order, only now. *)
Theorem db_reconnect_replays es e s :
  valid_run es new_db →
  let c := run cfg es new_db in
  connecting c = true → accepted_by s (out c) = [] →
  sock_write (calls (out c)) WIRE_MAGIC = len WIRE_MAGIC →
  let c' := step cfg e c (Opened s) in
  ∃ fs, match authToken c with Some token => [encodeAuth token] | None => [] end ++
        resubscriptions c = Ok <$> fs ∧
    outgoing s (out c') = WIRE_MAGIC ++ concat fs ∧
    pendingQueue (reqs c') = seq (next_id (reqs c)) (length fs) ∧
    settled (reqs c') = settled (reqs c) ∧
    running c' = running c ++ ((λ k, (k, Loop)) <$> readyWaiters c) ∧
    readyWaiters c' = [] ∧ stateValue c' = Ready ∧ socket c' = Some s ∧ reconnectAttempts c' = 0.
Proof.
  intros Hv c Hco Hs Hm c'. pose proof (reachable_wf es Hv) as H. fold c in H.
  destruct (onOpen_eq e s c H Hco) as (fs & o & r & Efs & E & Ho & Ha & Hg & Hp & Hst).
  exists fs. split; [done|]. subst c'. cbn [step]. rewrite E, Hs, Hm in *.
  rewrite app_nil_l in Ho. unfold startPing.
  by destruct ((pingIntervalMs cfg <=? 0) || _); cbn -[WIRE_MAGIC outgoing]; rewrite Ho.
Qed.

(** The reconnection backoff: the delay lies between half the backoff
    and the backoff, which doubles with each failed attempt up to the
    configured maximum. *)
Theorem db_backoff e c d :
  0 ≤ minDelayMs cfg → 0 ≤ maxDelayMs cfg → 0 ≤ reconnectAttempts c →
  (0 <= random e <= 1)%Q →
  reconnectTimer c = None → reconnectTimer (scheduleReconnect cfg e c) = Some d →
  let b := backoff cfg (reconnectAttempts c) in
  (inject_Z b / 2 <= d <= inject_Z b)%Q ∧ 0 ≤ b ≤ maxDelayMs cfg ∧
  b = Z.min (maxDelayMs cfg) (minDelayMs cfg * 2 ^ reconnectAttempts c) ∧
  reconnectAttempts (scheduleReconnect cfg e c) = reconnectAttempts c + 1.
Proof.
  intros Hmin Hmax Ha [Hr0 Hr1] Ht Hd b. unfold scheduleReconnect in Hd |- *.
  set (busy := bool_decide _ || _ || _) in *. destruct busy; [congruence|].
  destruct (exhausted cfg c); cbn in Hd; [congruence|]. injection Hd as <-.
  assert (0 ≤ b ≤ maxDelayMs cfg) as Hb.
  { unfold b, backoff. assert (0 ≤ minDelayMs cfg * 2 ^ reconnectAttempts c); [|lia].
    apply Z.mul_nonneg_nonneg; [done|]. by apply Z.pow_nonneg. }
  assert (0 <= inject_Z b)%Q as Hq by (rewrite <- (Zle_Qle 0); lia).
  split; [|split_and!; [apply Hb|apply Hb|done|done]].
  unfold delay. fold b. unfold Qdiv. change (/ 2)%Q with (1 # 2)%Q. split; nra.
Qed.

Lemma requestRaw_closed frame k c :
  stateValue c = Closed →
  requestRaw frame k c =
  set_konts (<[next_id (reqs c) := k]> (konts c))
    (with_reqs (λ r, settle (next_id (reqs c)) (Failed ClientConnectionClosedError) (fresh r)) c).
Proof. intros H. unfold requestRaw. cbn. by rewrite H, bool_decide_true by done. Qed.

Lemma handleDisconnect_closed e cause c :
  stateValue c = Closed → stateValue (handleDisconnect cfg e cause c) = Closed.
Proof. intros H. rewrite handleDisconnect_eq. by rewrite bool_decide_true. Qed.

Lemma subscribe_failed_state ch h i c : stateValue (subscribe_failed ch h i c) = stateValue c.
Proof. unfold subscribe_failed. by destruct (no_handlers _ _). Qed.

Lemma data_loop_state fuel c : stateValue (data_loop fuel c) = stateValue c.
Proof.
  revert c. induction fuel as [|fuel IH]; intros c; cbn; [done|].
  destruct (tryConsumeFrame _) as [f|]; [|done]. unfold on_frame.
  destruct (isEventCode _); [|by rewrite IH].
  destruct (decodeResponse _ _) as [[]|]; cbn; rewrite ?IH; done.
Qed.

Lemma close_fields c :
  stateValue (close c) = Closed ∧ socket (close c) = None ∧ reconnectTimer (close c) = None ∧
  pingTimer (close c) = false ∧ readyWaiters (close c) = [].
Proof. unfold close, end_socket. cbn. by destruct (socket c) eqn:Es. Qed.

Definition is_closed (c : db) : Prop := stateValue c = Closed.

Lemma requestRaw_is_closed frame k c : is_closed c → is_closed (requestRaw frame k c).
Proof. intros H. rewrite requestRaw_closed by done. exact H. Qed.

Lemma subscribe_is_closed ch h flt c : is_closed c → is_closed (subscribe ch h flt c).
Proof.
  intros H. unfold subscribe. destruct (lookup_sub ch c); [exact H|].
  destruct (encodeCommandFrame _); [by apply requestRaw_is_closed|].
  unfold is_closed. by rewrite subscribe_failed_state.
Qed.

Lemma unsubscribe_is_closed t c : is_closed c → is_closed (unsubscribe t c).
Proof.
  intros H. unfold unsubscribe. destruct (subscriptions c !! t) as [[ch h]|]; [|exact H].
  unfold removeHandler. destruct (lookup_sub _ _); [|exact H]. destruct (negb _); [exact H|].
  destruct (_ && _); [|exact H].
  destruct (encodeCommandFrame _); [by apply requestRaw_is_closed|exact H].
Qed.

Lemma resume_is_closed e id c : is_closed c → is_closed (resume e id c).
Proof.
  intros H. unfold resume. destruct (list_find _ _) as [[i [k [|s]]]|]; [| |exact H].
  - rewrite ensureReady_eq. unfold settled_or_parked. rewrite bool_decide_true by exact H. exact H.
  - unfold send_on. destruct (ca_frame k); [|exact H].
    destruct (writeOrQueue _ _ _) as [o []]; exact H.
Qed.

Lemma continue_is_closed id c : is_closed c → is_closed (continue_ id c).
Proof.
  intros H. unfold continue_.
  destruct (konts c !! id) as [[]|], (settled (reqs c) !! id) as [o|]; try exact H;
    destruct (response_of o) as [[]|]; try exact H;
    unfold is_closed; by rewrite subscribe_failed_state.
Qed.

Lemma timeout_is_closed e id c : is_closed c → is_closed (on_timeout cfg e id c).
Proof.
  intros H. unfold on_timeout. destruct (timers _ !! _); [|exact H].
  destruct (bool_decide _); [|exact H]. unfold failConnection, end_socket.
  destruct (socket _); [|exact H]. by apply handleDisconnect_closed.
Qed.

Lemma step_closed e c ev :
  (∀ s, ev ≠ Opened s) → is_closed c → is_closed (step cfg e c ev).
Proof.
  intros Hne H. destruct ev; cbn [step];
    try exact H; try (by apply handleDisconnect_closed);
    auto using requestRaw_is_closed, subscribe_is_closed, unsubscribe_is_closed,
      resume_is_closed, continue_is_closed, timeout_is_closed.
  - unfold auth. destruct (encodeAuth token); [by apply requestRaw_is_closed|exact H].
  - apply close_fields.
  - by destruct (Hne s).
  - unfold onData. rewrite concatBytes_spec. unfold is_closed. rewrite data_loop_state. exact H.
  - unfold on_reconnect_timer. destruct (bool_decide _); [|exact H]. unfold openSocket.
    cbn [stateValue set_reconnectTimer]. rewrite bool_decide_true, orb_true_r by exact H. exact H.
  - unfold on_ping. rewrite (bool_decide_false (stateValue c = Ready)) by (rewrite H; done).
    rewrite andb_false_r. exact H.
Qed.

Lemma run_closed es c :
  Forall (λ x, ∀ s, x.2 ≠ Opened s) es → is_closed c → is_closed (run cfg es c).
Proof.
  intros Hes. revert c. induction Hes as [|[e ev] es Hev Hes IH]; intros c Hc; [exact Hc|].
  change (run cfg ((e, ev) :: es) c) with (run cfg es (step cfg e c ev)).
  apply IH. by apply step_closed.
Qed.

Lemma close_pending c : pendingQueue (reqs (close c)) = [].
Proof.
  assert (reqs (close c) = reqs (rejectReadyWaiters ClientConnectionClosedError
    (rejectAllPending ClientConnectionClosedError c))) as ->.
  { unfold close, end_socket. cbn. by destruct (socket c). }
  rewrite (proj1 (rejectReadyWaiters_keeps _ _)). apply reject_all_queue.
Qed.

Lemma close_rejects c id :
  wf [] c → id ∈ pendingQueue (reqs c) ++ (ca_id <$> readyWaiters c) →
  settled (reqs (close c)) !! id = Some (Failed ClientConnectionClosedError).
Proof.
  intros H Hid.
  assert (reqs (close c) = settle_each (ca_id <$> readyWaiters c)
    (Failed ClientConnectionClosedError)
    (reject_all (Failed ClientConnectionClosedError) (reqs c))) as ->.
  { unfold close, end_socket. cbn. by destruct (socket c). }
  apply elem_of_app in Hid as [Hid|Hid].
  - apply settle_each_stable. eapply reject_all_lookup; [apply H|done].
  - apply (settle_each_lookup ((λ u, ca_id u.1) <$> running c)); [|done].
    apply accounts_reject_all. apply H.
Qed.

Lemma closed_call frame k c :
  wf [] c → stateValue c = Closed →
  settled (reqs (requestRaw frame k c)) !! next_id (reqs c) =
  Some (Failed ClientConnectionClosedError).
Proof.
  intros H Hc. rewrite requestRaw_closed by done.
  cbn [reqs set_konts with_reqs set_reqs]. apply settle_new. cbn [settled fresh].
  destruct (accounts_facts _ _ (so_accounts _ _ (wf_sound _ _ H))) as (_ & _ & _ & Hf).
  apply not_elem_of_dom. rewrite <- elem_of_elements. intros Hin. apply Hf.
  rewrite !elem_of_app. by do 2 right.
Qed.

(** [close] is prompt, and final until a connection opens: every request
    in flight and every waiting call is rejected, no retry is scheduled, the
    socket is gone; and whatever happens then, short of a connection opening,
    the client stays closed; a call made while it is closed is rejected at
    once. *)
Theorem db_close es :
  valid_run es new_db →
  let c := run cfg es new_db in
  let c' := close c in
  (socket c' = None ∧ reconnectTimer c' = None ∧ pingTimer c' = false ∧
   pendingQueue (reqs c') = [] ∧ readyWaiters c' = []) ∧
  (∀ id, id ∈ pendingQueue (reqs c) ++ (ca_id <$> readyWaiters c) →
     settled (reqs c') !! id = Some (Failed ClientConnectionClosedError)) ∧
  (∀ es', Forall (λ x, ∀ s, x.2 ≠ Opened s) es' → stateValue (run cfg es' c') = Closed) ∧
  (∀ frame k, settled (reqs (requestRaw frame k c')) !! next_id (reqs c') =
     Some (Failed ClientConnectionClosedError)).
Proof.
  intros Hv c c'. pose proof (reachable_wf es Hv) as H. fold c in H.
  pose proof (close_wf c H) as H'. destruct (close_fields c) as (Hst & Hs & Ht & Hp & Hw).
  split_and!; try done.
  - apply close_pending.
  - intros id Hid. by apply close_rejects.
  - intros es' Hes. by apply run_closed.
  - intros frame k. by apply closed_call.
Qed.

(** A client with nothing left to tear down. *)
Record torn_down (c : db) : Prop := TornDown {
  td_socket : socket c = None;
  td_inbound : inbound c = [];
  td_backlog : writeBacklog (out c) = [];
  td_ping : pingTimer c = false;
  td_pending : pendingQueue (reqs c) = [];
  td_next : stateValue c = Closed ∨
    (enabled cfg = false ∧ stateValue c = Idle ∧ readyWaiters c = []) ∨
    (enabled cfg = true ∧ stateValue c = Reconnecting ∧
     (is_Some (reconnectTimer c) ∨ connecting c = true));
}.

Lemma scheduleReconnect_torn_down e c :
  socket c = None → inbound c = [] → writeBacklog (out c) = [] → pingTimer c = false →
  pendingQueue (reqs c) = [] → enabled cfg = true → stateValue c = Reconnecting →
  torn_down (scheduleReconnect cfg e c).
Proof.
  intros Hs Hi Hb Hp Hq He Hst. unfold scheduleReconnect.
  case_bool_decide as Ht; cbn [orb]; [split; try done; right; right; auto|].
  destruct (connecting c) eqn:Hco; cbn [orb]; [split; try done; right; right; auto|].
  case_bool_decide as Hc; [congruence|].
  destruct (exhausted cfg c); split; try done.
  - by rewrite (proj1 (rejectReadyWaiters_keeps _ _)).
  - by left.
  - right; right. split_and!; try done. left. by eexists.
Qed.

Lemma handleDisconnect_torn_down e cause c : torn_down (handleDisconnect cfg e cause c).
Proof.
  rewrite handleDisconnect_eq.
  assert (pendingQueue (reqs (dropped cause c)) = []) as Hq by apply reject_all_queue.
  assert (stateValue (dropped cause c) = stateValue c) as Hst by done.
  assert (socket (dropped cause c) = None ∧ inbound (dropped cause c) = [] ∧
    writeBacklog (out (dropped cause c)) = [] ∧ pingTimer (dropped cause c) = false)
    as (H1 & H2 & H3 & H4) by done.
  generalize dependent (dropped cause c). intros d Hq Hst H1 H2 H3 H4.
  case_bool_decide as Hc; [split; try done; left; congruence|].
  destruct (enabled cfg) eqn:He; cbn [negb].
  - by apply scheduleReconnect_torn_down.
  - split; try done.
    + by rewrite (proj1 (rejectReadyWaiters_keeps _ _)).
    + right; left. done.
Qed.

Lemma torn_down_stays e cause c : torn_down c → handleDisconnect cfg e cause c = c.
Proof.
  intros [Hs Hi Hb Hp Hq Hn]. rewrite handleDisconnect_eq.
  assert (dropped cause c = c) as ->.
  { unfold dropped, rejectAllPending, with_reqs. rewrite reject_all_answer. cbn. rewrite Hq. cbn.
    unfold set_reqs, stopPing, set_pingTimer, set_out, set_inbound, set_socket, set_backlog. cbn.
    rewrite <- Hs, <- Hi, <- Hb at 1. rewrite <- Hp at 1. destruct c as [? ? ? ? []]; done. }
  destruct Hn as [Hn|[(He & Hn & Hw)|(He & Hn & Hw)]]; rewrite Hn.
  - by rewrite bool_decide_true.
  - rewrite bool_decide_false, He by done. cbn.
    unfold rejectReadyWaiters, with_reqs, settle_each. cbn. rewrite Hw. cbn. 
    unfold set_reqs, set_readyWaiters, set_stateValue. cbn. rewrite <- Hn, <- Hw at 1.
    by destruct c.
  - rewrite bool_decide_false, He by done. cbn [negb].
    assert (set_stateValue Reconnecting c = c) as -> by (rewrite <- Hn; by destruct c).
    unfold scheduleReconnect. destruct Hw as [Hw|Hw].
    + by rewrite bool_decide_true.
    + rewrite Hw. by rewrite orb_true_r.
Qed.

(** Disconnecting twice is disconnecting once: the second teardown, when
    the runtime reports the loss of a socket the client has already dropped,
    changes nothing. *)
Theorem db_disconnect_idempotent e1 e2 cause1 cause2 c :
  handleDisconnect cfg e2 cause2 (handleDisconnect cfg e1 cause1 c) =
  handleDisconnect cfg e1 cause1 c.
Proof. apply torn_down_stays, handleDisconnect_torn_down. Qed.

(** ** Retries *)

(** One failed attempt: the retry timer fires, the connection is refused. *)
Definition refused (err : exn) : list (env * event) → Prop :=
  λ es, ∃ e1 e2, es = [(e1, ReconnectTimerFires); (e2, ConnectRejected err)].

Definition attempt (e : env) (err : exn) (c : db) : db :=
  step cfg e (step cfg e c ReconnectTimerFires) (ConnectRejected err).

Lemma attempt_again e err c :
  wf [] c → enabled cfg = true → stateValue c = Reconnecting → is_Some (reconnectTimer c) →
  exhausted cfg c = false →
  let c' := attempt e err c in
  stateValue c' = Reconnecting ∧ is_Some (reconnectTimer c') ∧
  reconnectAttempts c' = reconnectAttempts c + 1 ∧ readyWaiters c' = readyWaiters c.
Proof.
  intros H He Hst Ht Hx. unfold attempt. cbn [step]. unfold on_reconnect_timer.
  rewrite bool_decide_true by done. unfold openSocket. cbn. 
  assert (connecting c = false) as Hc by by apply (so_timer _ _ (wf_sound _ _ H)).
  rewrite Hc, Hst, bool_decide_false by done. cbn.
  rewrite handleDisconnect_eq. cbn. rewrite Hst, bool_decide_false, He by done. cbn.
  unfold scheduleReconnect. cbn. rewrite !bool_decide_false by (done || by intros []).
  unfold exhausted in *. cbn. rewrite Hx. cbn. split_and!; try done; by eexists.
Qed.

Lemma attempt_last e err c :
  wf [] c → enabled cfg = true → stateValue c = Reconnecting → is_Some (reconnectTimer c) →
  exhausted cfg c = true →
  let c' := attempt e err c in
  stateValue c' = Closed ∧ reconnectTimer c' = None ∧
  reqs c' = settle_each (ca_id <$> readyWaiters c) (Failed ClientConnectionClosedError)
              (reject_all (Failed err) (reqs c)).
Proof.
  intros H He Hst Ht Hx. unfold attempt. cbn [step]. unfold on_reconnect_timer.
  rewrite bool_decide_true by done. unfold openSocket. cbn.
  assert (connecting c = false) as Hc by by apply (so_timer _ _ (wf_sound _ _ H)).
  rewrite Hc, Hst, bool_decide_false by done. cbn.
  rewrite handleDisconnect_eq. cbn. rewrite Hst, bool_decide_false, He by done. cbn.
  unfold scheduleReconnect. cbn. rewrite !bool_decide_false by (done || by intros []).
  unfold exhausted in *. cbn. rewrite Hx. done.
Qed.

Lemma attempt_wf e err c : wf [] c → wf [] (attempt e err c).
Proof. intros H. unfold attempt. apply step_wf; [|done]. by apply step_wf. Qed.

Definition attempts (l : list (env * exn)) (c : db) : db :=
  foldl (λ c '(e, err), attempt e err c) c l.

Lemma attempts_kept m l c :
  maxAttempts cfg = Some m → enabled cfg = true →
  wf [] c → stateValue c = Reconnecting → is_Some (reconnectTimer c) →
  reconnectAttempts c + len l ≤ m →
  let c' := attempts l c in
  wf [] c' ∧ stateValue c' = Reconnecting ∧ is_Some (reconnectTimer c') ∧
  reconnectAttempts c' = reconnectAttempts c + len l ∧ readyWaiters c' = readyWaiters c.
Proof.
  intros Hm He. revert c. induction l as [|[e err] l IH]; intros c H Hst Ht Hl.
  { cbn. rewrite Z.add_0_r. done. }
  rewrite len_cons in *. note_len.
  assert (exhausted cfg c = false) as Hx by (unfold exhausted; rewrite Hm; lia).
  destruct (attempt_again e err c H He Hst Ht Hx) as (H1 & H2 & H3 & H4).
  destruct (IH (attempt e err c)) as (H5 & H6 & H7 & H8 & H9); [by apply attempt_wf|done..|lia|].
  cbn [attempts foldl]. fold (attempts l (attempt e err c)). split_and!; [done..|lia|congruence].
Qed.

(** Retries are bounded by [maxAttempts]: while it has attempts left a
    client whose connection attempts fail stays reconnecting with its callers
    waiting; when they run out it closes, and rejects every waiting call. *)
Theorem db_gives_up m es l e err :
  valid_run es new_db → maxAttempts cfg = Some m → enabled cfg = true →
  let c := run cfg es new_db in
  stateValue c = Reconnecting → is_Some (reconnectTimer c) →
  reconnectAttempts c + len l = m →
  let c1 := attempts l c in
  let c2 := attempt e err c1 in
  (stateValue c1 = Reconnecting ∧ readyWaiters c1 = readyWaiters c) ∧
  stateValue c2 = Closed ∧ reconnectTimer c2 = None ∧
  ∀ id, id ∈ ca_id <$> readyWaiters c →
    settled (reqs c2) !! id = Some (Failed ClientConnectionClosedError).
Proof.
  intros Hv Hm He c Hst Ht Hl c1 c2. pose proof (reachable_wf es Hv) as H. fold c in H.
  clearbody c. destruct (attempts_kept m l c Hm He H Hst Ht) as (H1 & H2 & H3 & H4 & H5); [lia|].
  fold c1 in H1, H2, H3, H4, H5. clearbody c1.
  assert (exhausted cfg c1 = true) as Hx by (unfold exhausted; rewrite Hm, H4; lia).
  destruct (attempt_last e err c1 H1 He H2 H3 Hx) as (H6 & H7 & H8). fold c2 in H6, H7, H8.
  split_and!; try done. intros id Hid. rewrite H8, H5.
  apply (settle_each_lookup ((λ u, ca_id u.1) <$> running c1)); [|done].
  apply accounts_reject_all. rewrite <- H5. apply H1.
Qed.

(** [ensureReady] always comes to rest within two rounds of its loop: the
    call is rejected because the client is closed, or parked, or handed the
    current socket of a ready client; and it starts at most one connection. *)
Theorem ensureReady_settles n k c :
  settled (reqs c) !! ca_id k = None →
  let c' := ensureReady (2 + n) k c in
  c' = ensureReady 2 k c ∧
  ((stateValue c = Closed ∧
    settled (reqs c') !! ca_id k = Some (Failed ClientConnectionClosedError)) ∨
   (readyWaiters c' = readyWaiters c ++ [k] ∧
    (connecting c' = true ∨ is_Some (reconnectTimer c'))) ∨
   (∃ s, socket c = Some s ∧ stateValue c = Ready ∧
    running c' = running c ++ [(k, HasSocket s)])).
Proof.
  intros Hk c'. unfold c'. rewrite (ensureReady_eq n), (ensureReady_eq 0). split; [done|].
  clear c'. unfold settled_or_parked. cbv zeta. case_bool_decide as Hc.
  { left. split; [done|]. by apply settle_new. }
  assert (∀ P, (let w := if negb (connecting c) && bool_decide (reconnectTimer c = None)
      then set_readyWaiters (readyWaiters (set_connecting true
             (if bool_decide (stateValue c = Idle) then set_stateValue Connecting c else c)) ++ [k])
             (set_connecting true
             (if bool_decide (stateValue c = Idle) then set_stateValue Connecting c else c))
      else set_readyWaiters (readyWaiters c ++ [k]) c in
    readyWaiters w = readyWaiters c ++ [k] ∧ (connecting w = true ∨ is_Some (reconnectTimer w))
    → P) → P) as Hw.
  { intros P HP. apply HP. cbv zeta. destruct (connecting c) eqn:Hco; cbn [negb andb].
    - by split; [|left].
    - case_bool_decide as Ht; [by case_bool_decide; split; try left|].
      split; [done|]. right. cbn. destruct (reconnectTimer c); [by eexists|done]. }
  apply Hw. intros Hpark. destruct (socket c) as [s|]; [|by right; left].
  destruct (bool_decide_reflect (stateValue c = Ready)); [|by right; left].
  right; right. by exists s.
Qed.

(** ** What the teardown misses *)

Lemma opens_ready e s c :
  wf [] c → connecting c = true →
  let c' := onOpen cfg e s (set_connecting false c) in
  stateValue c' = Ready ∧ socket c' = Some s ∧ ended c' = ended c.
Proof.
  intros H Hco c'. unfold c'. destruct (onOpen_eq e s c H Hco) as (fs & o & r & _ & -> & _).
  unfold startPing. by destruct ((pingIntervalMs cfg <=? 0) || _).
Qed.

(** [close] does not stop a connection attempt in progress: if the
    connection then opens, the closed client is ready again, with a live
    socket that nothing will end. *)
Theorem db_close_undone es e1 e2 s :
  valid_run es new_db →
  let c := run cfg es new_db in
  connecting c = true →
  let c' := step cfg e2 (step cfg e1 c CallClose) (Opened s) in
  stateValue (step cfg e1 c CallClose) = Closed ∧
  stateValue c' = Ready ∧ socket c' = Some s ∧ ended c' = ended c.
Proof.
  intros Hv c Hco. pose proof (reachable_wf es Hv) as H. fold c in H. clearbody c. cbn [step].
  assert (connecting (close c) = true ∧ ended (close c) = ended c) as [Hco' He].
  { unfold close, end_socket. cbn. by rewrite (wf_connecting _ _ H Hco). }
  destruct (close_fields c) as (Hst & _).
  destruct (opens_ready e2 s (close c) (close_wf c H) Hco') as (H1 & H2 & H3).
  rewrite He in H3. done.
Qed.

(** A second subscriber of a channel is stranded when the first one's
    [SUB] fails: its entry stays, unacknowledged, so no [SUB] is sent for the
    channel again, neither by a reconnection nor by a later [subscribe],
    which succeeds without talking to the server. *)
Theorem db_second_subscriber_stranded ch h1 h2 h3 i id flt flt' o m c :
  lookup_sub ch c = Some i → entries c !! i = Some (Entry flt [h1; h2] false) → h1 ≠ h2 →
  konts c !! id = Some (KSub ch h1 i) → settled (reqs c) !! id = Some o →
  response_of o = Ok (error m) →
  let c' := continue_ id c in
  lookup_sub ch c' = Some i ∧ entries c' !! i = Some (Entry flt [h2] false) ∧
  resubscription c' (ch, i) = None ∧ reqs (subscribe ch h3 flt' c') = reqs c'.
Proof.
  intros Hl He Hne Hk Ho Hr c'.
  assert (delete_handler h1 [h1; h2] = [h2]) as Hd.
  { unfold delete_handler. rewrite !filter_cons, filter_nil.
    rewrite decide_False by (intros Hn; by apply Hn). by rewrite decide_True. }
  assert (c' = set_handlers (delete_handler h1) i (set_konts (delete id (konts c)) c)) as ->.
  { unfold c', continue_. rewrite Hk, Ho, Hr. unfold subscribe_failed.
    assert (no_handlers i (set_handlers (delete_handler h1) i (set_konts (delete id (konts c)) c))
      = false) as ->; [|done].
    unfold no_handlers. cbn -[delete_handler]. rewrite lookup_alter_eq, He. cbn -[delete_handler].
    by rewrite Hd. }
  assert (entries (set_handlers (delete_handler h1) i (set_konts (delete id (konts c)) c)) !! i =
    Some (Entry flt [h2] false)) as He'.
  { cbn -[delete_handler]. rewrite lookup_alter_eq, He. cbn -[delete_handler]. by rewrite Hd. }
  assert (lookup_sub ch (set_handlers (delete_handler h1) i (set_konts (delete id (konts c)) c)) =
    Some i) as Hl' by done.
  split_and!; [done|done| |].
  - unfold resubscription. cbn [snd]. by rewrite He'.
  - unfold subscribe. by rewrite Hl'.
Qed.
End Invariant.

(** ** Concrete runs *)

(** [valid_run], decided. *)
Definition valid_b (c : db) (ev : event) : bool :=
  match ev with
  | Opened _ => connecting c
  | Data _ chunk => bool_decide (Forall is_byte (toBytes chunk))
  | Resume id =>
      match list_find (λ u, ca_id u.1 = id) (running c) with
      | Some (_, (_, HasSocket s)) =>
          bool_decide (socket c = Some s) ||
          (bool_decide (stateValue c = Closed) && negb (connecting c))
      | _ => true
      end
  | _ => true
  end.

Fixpoint valid_run_b {R : Runtime} cfg (es : list (env * event)) (c : db) : bool :=
  match es with
  | [] => true
  | (e, ev) :: es => valid_b c ev && valid_run_b cfg es (step cfg e c ev)
  end.

Lemma valid_run_b_ok {R : Runtime} cfg es c : valid_run_b cfg es c = true → valid_run cfg es c.
Proof.
  revert c. induction es as [|[e ev] es IH]; intros c; [done|]. cbn [valid_run_b valid_run].
  intros [Hv He]%andb_true_iff. split; [|by apply IH]. clear He IH.
  destruct ev; try done; unfold valid_b in Hv.
  - intros i k s E. rewrite E in Hv. apply orb_true_iff in Hv as [Hv|Hv].
    + left. by apply bool_decide_eq_true in Hv.
    + right. apply andb_true_iff in Hv as [Hv Hn]. apply bool_decide_eq_true in Hv.
      by destruct (connecting c).
  - by apply bool_decide_eq_true in Hv.
Qed.

Definition opts : options := make_options None (ReconnectOpts None None None (Some 2)) None.
Definition e0 : env := Env 1000 (1 # 2).
Definition at0 (evs : list event) : list (env * event) := (λ ev, (e0, ev)) <$> evs.
Definition frame_of_get (k : string) : bytes := frame_of 1 (lp (encodeUtf8 (js k))).

(** Subscribed, authenticated, one request in flight. *)
Definition session_run : list (env * event) := at0
  [CallAuth [1; 2; 3]; Opened 0; ConnectResolved; Resume 0; Resume 0;
   Data 0 (DataBuffer (frame_of ROk [])); Continue 0;
   CallSubscribe (js "vec:") 7 None; Resume 1; Data 0 (DataBuffer (frame_of ROk [])); Continue 1;
   CallRequest (frame_of_get "a"); Resume 2].

Local Notation live := (WormDB.run (R := all_bytes) opts session_run new_db) (only parsing).

Lemma session_run_valid : valid_run (R := all_bytes) opts session_run new_db.
Proof. apply valid_run_b_ok. vm_compute. reflexivity. Qed.

Lemma db_timeout_tears_down_witness :
  pendingQueue (reqs live) = [2]%nat ∧
  settled (reqs (on_timeout opts e0 2 live)) !! 2%nat =
  Some (Failed (ClientTimeoutError 3000)).
Proof.
  assert (pendingQueue (reqs live) = [2]%nat) as Hp by (vm_compute; reflexivity).
  split; [exact Hp|].
  apply (db_timeout_tears_down (R := all_bytes) opts session_run e0 2 session_run_valid);
    rewrite Hp; left.
Defined.

(** A value for the request in flight, then an event, then a partial frame. *)
Definition mixed : bytes :=
  frame_of RValue [120] ++ frame_of REvent (lp (encodeUtf8 (js "vec:x")) ++ lp [109]) ++ [0; 0].

Lemma mixed_bytes : Forall is_byte mixed.
Proof. apply (bool_decide_unpack _). vm_compute. exact I. Qed.

Lemma db_data_in_order_witness :
  settled (reqs (onData e0 mixed live)) !! 2%nat = Some (GotFrame RValue [120]) ∧
  delivered (onData e0 mixed live) =
    delivered live ++ deliveries live (pushed (read_all (inbound live ++ mixed)).1) ∧
  deliveries live (pushed (read_all (inbound live ++ mixed)).1) =
    [(7%nat, Event (js "vec:x") (js "m"))].
Proof.
  destruct (db_data_in_order (R := all_bytes) opts session_run e0 mixed session_run_valid
    mixed_bytes) as (_ & _ & Hs & Hd & _).
  split; [|split; [exact Hd|vm_compute; reflexivity]].
  apply (Hs 0%nat); vm_compute; reflexivity.
Defined.

(** The connection is lost and a new one is being made; a call waits. *)
Definition lost_run : list (env * event) :=
  session_run ++ at0 [SocketClosed 0; CallRequest (frame_of_get "b"); ReconnectTimerFires].

Local Notation lost := (WormDB.run (R := all_bytes) opts lost_run new_db) (only parsing).

Lemma lost_run_valid : valid_run (R := all_bytes) opts lost_run new_db.
Proof. apply valid_run_b_ok. vm_compute. reflexivity. Qed.

Lemma db_reconnect_replays_witness :
  ∃ fs, outgoing 1 (out (step (R := all_bytes) opts e0 lost (Opened 1))) = WIRE_MAGIC ++ concat fs ∧
    length fs = 2%nat.
Proof.
  destruct (db_reconnect_replays (R := all_bytes) opts lost_run e0 1 lost_run_valid)
    as (fs & Hfs & Ho & _); [vm_compute; reflexivity..|].
  exists fs. split; [exact Ho|]. apply (f_equal length) in Hfs. rewrite length_fmap in Hfs.
  rewrite <- Hfs. vm_compute. reflexivity.
Defined.

Lemma db_backoff_witness :
  (inject_Z 200 / 2 <= 150 <= inject_Z 200)%Q ∧ backoff opts 1 = 200.
Proof.
  set (c := WormDB.set_reconnectAttempts 1 new_db).
  assert (reconnectTimer (scheduleReconnect opts e0 c) = Some (delay opts 1 (1 # 2))) as Ht
    by (vm_compute; reflexivity).
  split; [|reflexivity].
  destruct (db_backoff opts e0 c _ ltac:(vm_compute; discriminate)
    ltac:(vm_compute; discriminate) ltac:(vm_compute; discriminate)
    ltac:(split; vm_compute; discriminate) eq_refl Ht) as [Hb _].
  split; vm_compute; discriminate.
Defined.

(** One request in flight, another waiting behind a connection attempt. *)
Lemma db_close_witness :
  settled (reqs (close lost)) !! 3%nat = Some (Failed ClientConnectionClosedError) ∧
  socket (close lost) = None.
Proof.
  destruct (db_close (R := all_bytes) opts lost_run lost_run_valid) as ((Hs & _) & Hr & _).
  split; [|exact Hs]. apply Hr.
  assert (ca_id <$> readyWaiters lost = [3]%nat) as -> by (vm_compute; reflexivity).
  apply elem_of_app. right. left.
Defined.

(** Reconnecting, with one call waiting and two attempts allowed. *)
Definition down_run : list (env * event) :=
  session_run ++ at0 [SocketClosed 0; CallRequest (frame_of_get "b")].

Local Notation down := (WormDB.run (R := all_bytes) opts down_run new_db) (only parsing).

Lemma down_run_valid : valid_run (R := all_bytes) opts down_run new_db.
Proof. apply valid_run_b_ok. vm_compute. reflexivity. Qed.

Lemma db_gives_up_witness :
  let c2 := attempt (R := all_bytes) opts e0 SyntaxError
    (attempts (R := all_bytes) opts [(e0, RangeError)] down) in
  stateValue c2 = Closed ∧ settled (reqs c2) !! 3%nat = Some (Failed ClientConnectionClosedError).
Proof.
  destruct (db_gives_up (R := all_bytes) opts 2 down_run [(e0, RangeError)] e0 SyntaxError
    down_run_valid eq_refl eq_refl) as (_ & H1 & _ & H2); [vm_compute; reflexivity| |vm_compute; reflexivity|].
  { eexists. vm_compute. reflexivity. }
  split; [exact H1|]. apply H2.
  assert (ca_id <$> readyWaiters down = [3]%nat) as -> by (vm_compute; reflexivity). left.
Defined.

Lemma ensureReady_settles_witness :
  ensureReady 7 (Caller 5 None) new_db = ensureReady 2 (Caller 5 None) new_db.
Proof. apply (ensureReady_settles 5 (Caller 5 None) new_db eq_refl). Defined.

Lemma db_close_undone_witness :
  stateValue (step (R := all_bytes) opts e0 (step (R := all_bytes) opts e0 lost CallClose) (Opened 1))
  = Ready.
Proof.
  apply (db_close_undone (R := all_bytes) opts lost_run e0 e0 1 lost_run_valid).
  vm_compute. reflexivity.
Defined.

(** Two subscribers of one channel; the server refuses. *)
Definition refused_run : list (env * event) := at0
  [CallSubscribe (js "c") 1 None; CallSubscribe (js "c") 2 None; Opened 0; Resume 0; Resume 0;
   Data 0 (DataBuffer (frame_of RErr [33]))].

Local Notation stranded := (WormDB.run (R := all_bytes) opts refused_run new_db) (only parsing).

Lemma db_second_subscriber_stranded_witness :
  resubscription (continue_ 0 stranded) (js "c", 0%nat) = None ∧
  reqs (subscribe (js "c") 3 None (continue_ 0 stranded)) = reqs (continue_ 0 stranded).
Proof.
  destruct (db_second_subscriber_stranded (js "c") 1 2 3 0 0 None None
    (GotFrame RErr [33]) [33] stranded) as (_ & _ & H1 & H2); try (vm_compute; reflexivity); [done|].
  by split.
Defined.
End Managed.
