(* ===== verification/WormDBInvariant.v ===== *)
(** * The managed client under any sequence of events

    [WormDBTheorems.v] proves the invariant of the connection state machine
    for the runs a well-behaved runtime produces.  This file proves what
    holds whatever the events, their order and the outcome of every write:
    the promises are conserved, a timer belongs to a pending request, a
    ready client has a socket, and no call waits in a ready or a closed one.
    It also runs the case in which a request outlives its connection: a call
    made in the same tick as [close()]. *)
From Stdlib Require Import QArith.
From S2P Require Import Prelude Utf8 JsText Command Protocol Wire Transport Pool WormDB WormDBTheorems.
#[local] Open Scope Z_scope.

Module Untrusted.
Export Managed.

(** ** Conservation without the timers

    A timeout of an earlier connection drops its timer and nothing else, so
    in general a pending request may have no timer. *)
Section Conserved.
Context {T O : Type}.
Implicit Types (p : pool T O) (id : nat) (o : O) (t : T).

Definition conserved (hs : list nat) p : Prop :=
  hs ++ pendingQueue p ++ settled_ids p ≡ₚ seq 0 (next_id p) ∧
  dom (timers p) ⊆ list_to_set (pendingQueue p).

Lemma conserved_perm hs hs' p : hs ≡ₚ hs' → conserved hs p → conserved hs' p.
Proof. intros E [H Ht]. split; [by rewrite <- E|done]. Qed.


Lemma conserved_nodup hs p : conserved hs p → NoDup (hs ++ pendingQueue p ++ settled_ids p).
Proof. intros [H _]. rewrite H. apply NoDup_seq. Qed.

Lemma conserved_fresh hs p : conserved hs p → conserved (next_id p :: hs) (fresh p).
Proof.
  intros [H Ht]. split; [|done]. unfold settled_ids in *. cbn [pendingQueue settled next_id fresh].
  rewrite seq_S, <- H. cbn [app]. apply Permutation_cons_append.
Qed.

Lemma conserved_enqueue hs id t p : conserved (id :: hs) p → conserved hs (enqueue id t p).
Proof.
  intros [H Ht]. split; unfold settled_ids in *; cbn.
  - rewrite <- H, <- app_assoc. cbn. by rewrite <- !Permutation_middle.
  - rewrite dom_insert_L, list_to_set_app_L. set_solver.
Qed.

Lemma conserved_settle hs id o p : conserved (id :: hs) p → conserved hs (settle id o p).
Proof.
  intros H. pose proof (conserved_nodup _ _ H) as [Hn _]%NoDup_cons.
  destruct H as [H Ht]. assert (settled p !! id = None) as Hs.
  { apply not_elem_of_dom. rewrite <- elem_of_elements. intros Hin. apply Hn.
    rewrite !elem_of_app. by do 2 right. }
  unfold settle. rewrite Hs. split; [|done]. unfold settled_ids in *. cbn.
  rewrite dom_insert_L, elements_union_singleton by by apply not_elem_of_dom.
  rewrite <- H. cbn. by rewrite <- !Permutation_middle.
Qed.

Lemma conserved_settle_each hs ids o p :
  conserved (ids ++ hs) p → conserved hs (settle_each ids o p).
Proof.
  unfold settle_each. revert p. induction ids as [|id ids IH]; intros p H; cbn; [done|].
  by apply IH, conserved_settle.
Qed.

Lemma conserved_dequeue hs q1 id q2 p :
  pendingQueue p = q1 ++ id :: q2 → conserved hs p →
  conserved (id :: hs) (clear_timer id (set_queue (q1 ++ q2) p)).
Proof.
  intros Eq [H Ht]. split; unfold settled_ids in *; cbn; rewrite Eq in *.
  - rewrite <- H, <- !app_assoc. cbn. by rewrite <- !Permutation_middle.
  - rewrite dom_delete_L. rewrite !list_to_set_app_L in *. cbn in Ht. set_solver.
Qed.

Lemma conserved_clear_timer hs id p : conserved hs p → conserved hs (clear_timer id p).
Proof. intros [H Ht]. split; [done|]. cbn. rewrite dom_delete_L. set_solver. Qed.

Lemma conserved_answer hs o p : conserved hs p → conserved hs (answer o p).
Proof.
  intros H. unfold answer. destruct (pendingQueue p) as [|id q] eqn:E; [done|].
  by apply conserved_settle, (conserved_dequeue hs [] id q).
Qed.

Lemma conserved_reject_all hs o p : conserved hs p → conserved hs (reject_all o p).
Proof.
  rewrite reject_all_answer. unfold answer_all. generalize (replicate (length (pendingQueue p)) o).
  intros os. revert p. induction os as [|o' os IH]; intros p H; cbn; [done|].
  by apply IH, conserved_answer.
Qed.

Lemma conserved_reject_last hs o p : conserved hs p → conserved hs (reject_last o p).
Proof.
  intros H. unfold reject_last. destruct (last (pendingQueue p)) as [id|] eqn:E; [|done].
  apply last_Some in E as [q E]. rewrite E, removelast_last.
  apply conserved_settle. rewrite <- (app_nil_r q). by apply conserved_dequeue.
Qed.

(** The timers' values come from [enqueue] alone. *)
Lemma settle_timers id o p : timers (settle id o p) = timers p.
Proof. by destruct (settle_keeps id o p) as (_ & -> & _). Qed.

Lemma answer_timers (P : nat → T → Prop) o p :
  map_Forall P (timers p) → map_Forall P (timers (answer o p)).
Proof.
  intros H. unfold answer. destruct (pendingQueue p); [done|]. rewrite settle_timers.
  by apply map_Forall_delete.
Qed.

Lemma reject_all_timers_kept (P : nat → T → Prop) o p :
  map_Forall P (timers p) → map_Forall P (timers (reject_all o p)).
Proof.
  rewrite reject_all_answer. unfold answer_all. generalize (replicate (length (pendingQueue p)) o).
  intros os. revert p. induction os as [|o' os IH]; intros p H; cbn; [done|].
  by apply IH, answer_timers.
Qed.

Lemma reject_last_timers (P : nat → T → Prop) o p :
  map_Forall P (timers p) → map_Forall P (timers (reject_last o p)).
Proof.
  intros H. unfold reject_last. destruct (last _); [|done]. rewrite settle_timers.
  by apply map_Forall_delete.
Qed.
End Conserved.

(** ** The invariant of every run *)

Record weak (hs : list nat) (c : db) : Prop := Weak {
  we_conserved : conserved (hs ++ held c) (reqs c);
  we_timers : map_Forall (λ _ g, (g ≤ generation c)%nat) (timers (reqs c));
  we_timer : is_Some (reconnectTimer c) → connecting c = false;
  we_ready : stateValue c = Ready → is_Some (socket c) ∧ readyWaiters c = [];
  we_closed : stateValue c = Closed → readyWaiters c = [];
}.

Section Invariant.
Context {R : Runtime} (cfg : options).

Lemma new_db_weak : weak [] new_db.
Proof. split; try done; by intros []. Qed.

(** Steps on the promises alone. *)
Lemma reqs_weak hs hs' f c :
  (conserved (hs ++ held c) (reqs c) → conserved (hs' ++ held c) (f (reqs c))) →
  (map_Forall (λ _ g, (g ≤ generation c)%nat) (timers (reqs c)) →
   map_Forall (λ _ g, (g ≤ generation c)%nat) (timers (f (reqs c)))) →
  weak hs c → weak hs' (with_reqs f c).
Proof. intros H1 H2 [? ? ? ? ?]. split; auto. Qed.

Lemma settle_weak hs id o c : weak (id :: hs) c → weak hs (with_reqs (settle id o) c).
Proof. apply reqs_weak; [apply conserved_settle|by rewrite settle_timers]. Qed.

Lemma reject_all_weak hs o c : weak hs c → weak hs (with_reqs (reject_all o) c).
Proof. apply reqs_weak; [apply conserved_reject_all|apply reject_all_timers_kept]. Qed.

Lemma reject_last_weak hs o c : weak hs c → weak hs (with_reqs (reject_last o) c).
Proof. apply reqs_weak; [apply conserved_reject_last|apply reject_last_timers]. Qed.

Lemma answer_weak hs o c : weak hs c → weak hs (with_reqs (answer o) c).
Proof. apply reqs_weak; [apply conserved_answer|apply answer_timers]. Qed.

Lemma clear_timer_weak hs id c : weak hs c → weak hs (with_reqs (clear_timer id) c).
Proof. apply reqs_weak; [apply conserved_clear_timer|by apply map_Forall_delete]. Qed.

Lemma enqueue_weak hs id c : weak (id :: hs) c → weak hs (enqueuePending id c).
Proof.
  apply reqs_weak; [apply conserved_enqueue|]. intros H. by apply map_Forall_insert_2.
Qed.

Lemma fresh_weak hs c : weak hs c → weak (next_id (reqs c) :: hs) (with_reqs fresh c).
Proof. apply reqs_weak; [apply conserved_fresh|done]. Qed.

(** Steps on fields the invariant does not read. *)
Lemma frame_weak hs c c' :
  reqs c' = reqs c → readyWaiters c' = readyWaiters c → running c' = running c →
  generation c' = generation c → reconnectTimer c' = reconnectTimer c →
  connecting c' = connecting c → stateValue c' = stateValue c → socket c' = socket c →
  weak hs c → weak hs c'.
Proof.
  intros E1 E2 E3 E4 E5 E6 E7 E8 [H1 H2 H3 H4 H5]. unfold held in *.
  split; unfold held; rewrite ?E1, ?E2, ?E3, ?E4, ?E5, ?E6, ?E7, ?E8; done.
Qed.

(** *** Teardown *)

(** A client that has lost its socket: [Reconnecting] is what the code
    writes first. *)
Lemma rejectReadyWaiters_weak err v c :
  v ≠ Ready → weak [] (set_stateValue Reconnecting c) →
  weak [] (rejectReadyWaiters err (set_stateValue v c)).
Proof.
  intros Hv [H1 H2 H3 H4 H5]. split; try done.
  - cbn. apply conserved_settle_each. exact H1.
  - rewrite (proj2 (rejectReadyWaiters_keeps _ _)). exact H2.
Qed.

Lemma scheduleReconnect_weak e c :
  weak [] (set_stateValue Reconnecting c) →
  weak [] (scheduleReconnect cfg e (set_stateValue Reconnecting c)).
Proof.
  intros H. unfold scheduleReconnect.
  destruct (bool_decide (is_Some _)); cbn [orb]; [done|].
  destruct (connecting (set_stateValue Reconnecting c)) eqn:Hco; cbn [orb]; [done|].
  destruct (bool_decide (_ = Closed)); [done|]. destruct (exhausted _ _).
  - by apply (rejectReadyWaiters_weak _ Closed (set_stateValue Reconnecting c)).
  - destruct H as [H1 H2 H3 H4 H5]. by split.
Qed.

Lemma handleDisconnect_weak e cause c :
  conserved (held c) (reqs c) → map_Forall (λ _ g, (g ≤ generation c)%nat) (timers (reqs c)) →
  (is_Some (reconnectTimer c) → connecting c = false) →
  (stateValue c = Closed → readyWaiters c = []) →
  weak [] (handleDisconnect cfg e cause c).
Proof.
  intros Hc Ht Hco Hcl. rewrite handleDisconnect_eq.
  assert (conserved (held (dropped cause c)) (reqs (dropped cause c))) as Hc'
    by by apply conserved_reject_all.
  assert (map_Forall (λ _ g, (g ≤ generation c)%nat) (timers (reqs (dropped cause c)))) as Ht'
    by by apply reject_all_timers_kept.
  assert (weak [] (set_stateValue Reconnecting (dropped cause c))) as Hd by by split.
  case_bool_decide as E.
  - split; try done. change (stateValue (dropped cause c)) with (stateValue c). congruence.
  - destruct (negb _); [by apply rejectReadyWaiters_weak|by apply scheduleReconnect_weak].
Qed.

Lemma failConnection_weak e err c : weak [] c → weak [] (failConnection cfg e err c).
Proof.
  intros H%(reject_all_weak _ (Failed err)). unfold failConnection.
  change (with_reqs (reject_all (Failed err)) c) with (rejectAllPending err c) in H.
  unfold end_socket. destruct (socket _); [|done]. destruct H as [H1 H2 H3 H4 H5].
  by apply handleDisconnect_weak.
Qed.

Lemma close_weak c : weak [] c → weak [] (close c).
Proof.
  intros H. assert (weak [] (rejectReadyWaiters ClientConnectionClosedError
    (set_stateValue Closed (stopPing (set_reconnectTimer None
      (rejectAllPending ClientConnectionClosedError c)))))) as Hw.
  { apply rejectReadyWaiters_weak; [done|]. apply (reject_all_weak _ (Failed ClientConnectionClosedError)) in H.
    destruct H as [H1 H2 H3 H4 H5]. split; try done. by intros []. }
  unfold close, end_socket. cbv zeta.
  change (socket (rejectReadyWaiters _ _)) with (socket c).
  destruct (socket c) as [s|]; cbn [default]; destruct Hw as [H1 H2 H3 H4 H5]; by split.
Qed.

(** *** Requests *)

Lemma park_weak k c :
  stateValue c ≠ Ready → stateValue c ≠ Closed → weak [ca_id k] c →
  weak [] (set_readyWaiters (readyWaiters c ++ [k]) c).
Proof.
  intros Hr Hc [H1 H2 H3 H4 H5]. split; try done.
  eapply conserved_perm; [|exact H1]. by rewrite held_parked.
Qed.

Lemma schedule_weak k p c : weak [ca_id k] c → weak [] (set_running (running c ++ [(k, p)]) c).
Proof.
  intros [H1 H2 H3 H4 H5]. split; try done.
  eapply conserved_perm; [|exact H1]. by rewrite held_running.
Qed.

Lemma ensureReady_weak k c : weak [ca_id k] c → weak [] (ensureReady 2 k c).
Proof.
  intros H. rewrite ensureReady_eq. unfold settled_or_parked. cbv zeta.
  case_bool_decide as Hcl; [by apply settle_weak|].
  set (wait := if negb _ && _ then _ else _).
  assert (stateValue c ≠ Ready → weak [] wait) as Hwait.
  { intros Hr. unfold wait. destruct (negb _ && _) eqn:E; [|by apply park_weak].
    apply andb_true_iff in E as [_ E%bool_decide_eq_true]. destruct H as [H1 H2 H3 H4 H5].
    case_bool_decide;
      [apply (park_weak k (set_connecting true (set_stateValue Connecting c)))
      |apply (park_weak k (set_connecting true c))]; try done;
      split; try done; cbn; rewrite E; by intros []. }
  destruct (socket c) as [s|] eqn:Es.
  - destruct (bool_decide_reflect (stateValue c = Ready)); [by apply schedule_weak|by apply Hwait].
  - apply Hwait. intros Hr. destruct (we_ready _ _ H Hr) as [[] _]. congruence.
Qed.

Lemma requestRaw_weak frame k c : weak [] c → weak [] (requestRaw frame k c).
Proof.
  intros H%fresh_weak. unfold requestRaw. apply ensureReady_weak.
  by apply (frame_weak _ (with_reqs fresh c)).
Qed.

Lemma send_on_weak e s k c : weak [ca_id k] c → weak [] (send_on e s k c).
Proof.
  intros H. unfold send_on. destruct (ca_frame k) as [frame|]; [|by apply settle_weak].
  apply enqueue_weak in H. cbv zeta. destruct (writeOrQueue _ _ _) as [o [err|]].
  - by apply reject_last_weak, (frame_weak _ (enqueuePending (ca_id k) c)).
  - by apply (frame_weak _ (enqueuePending (ca_id k) c)).
Qed.

Lemma resume_weak e id c : weak [] c → weak [] (resume e id c).
Proof.
  intros H. unfold resume. destruct (list_find _ (running c)) as [[i [k p]]|] eqn:E; [|done].
  assert (running c !! i = Some (k, p)) as Hi by by apply list_find_Some in E as (? & _).
  assert (weak [ca_id k] (set_running (delete i (running c)) c)) as Hw.
  { destruct H as [H1 H2 H3 H4 H5]. split; try done.
    eapply conserved_perm; [|exact H1]. symmetry. by eapply held_delete. }
  destruct p as [|s]; [by apply ensureReady_weak|by apply send_on_weak].
Qed.

(** *** Opening a connection *)

Lemma pipeline_weak s f c :
  weak [] c → weak [] (pipeline s f c).1 ∧ socket (pipeline s f c).1 = socket c.
Proof.
  intros H%fresh_weak%enqueue_weak. unfold pipeline. destruct f as [f|err]; [|done].
  destruct (writeOrQueue _ _ _) as [o x]. split; [|done].
  by apply (frame_weak _ (enqueuePending (next_id (reqs c)) (with_reqs fresh c))).
Qed.

Lemma pipeline_all_weak s fs c :
  weak [] c → weak [] (pipeline_all s fs c).1 ∧ socket (pipeline_all s fs c).1 = socket c.
Proof.
  revert c. induction fs as [|f fs IH]; intros c H; [done|]. cbn [pipeline_all].
  destruct (pipeline_weak s f c H) as [H1 E1]. destruct (pipeline s f c) as [c1 [err|]]; [done|].
  cbn in H1, E1. destruct (IH c1 H1) as [H2 E2]. split; [done|congruence].
Qed.

Lemma startPing_fields c :
  reqs (startPing cfg c) = reqs c ∧ readyWaiters (startPing cfg c) = readyWaiters c ∧
  running (startPing cfg c) = running c ∧ generation (startPing cfg c) = generation c ∧
  reconnectTimer (startPing cfg c) = reconnectTimer c ∧
  connecting (startPing cfg c) = connecting c ∧
  stateValue (startPing cfg c) = stateValue c ∧ socket (startPing cfg c) = socket c.
Proof. unfold startPing. by destruct (_ || _). Qed.

Lemma onOpen_weak e s c : weak [] c → weak [] (onOpen cfg e s (set_connecting false c)).
Proof.
  intros [H1 H2 H3 H4 H5]. unfold onOpen. cbv zeta. set (c0 := set_out _ (set_out _ _)).
  assert (weak [] c0) as H0.
  { split; try done.
    - intros id g Hg. cbn. specialize (H2 id g Hg). cbn in H2. lia.
    - intros Hr. split; [by eexists|]. by apply H4. }
  destruct (pipeline_all_weak s (match authToken c0 with Some token => [encodeAuth token]
    | None => [] end ++ resubscriptions c0) c0 H0) as [Hw Hs].
  destruct (pipeline_all _ _ _) as [c1 [err|]]; [done|]. cbn in Hw, Hs.
  set (c2 := set_lastActivityMs _ _).
  destruct (startPing_fields c2) as (E1 & E2 & E3 & E4 & E5 & E6 & E7 & E8).
  destruct Hw as [W1 W2 W3 W4 W5].
  split; try done; cbn -[startPing c2]; rewrite ?E1, ?E2, ?E3, ?E4, ?E5, ?E6, ?E8; try done.
  - eapply conserved_perm; [|exact W1]. unfold held. cbn -[startPing c2].
    rewrite ?E2, ?E3, fmap_app, <- list_fmap_compose. cbn. apply Permutation_app_comm.
Qed.

(** *** Data *)

Lemma on_frame_weak f c c' : weak [] c → on_frame f c = Ok c' → weak [] c'.
Proof.
  intros H. unfold on_frame. destruct (isEventCode (code f)).
  - destruct (decodeResponse _ _) as [r|]; [|done]. cbn.
    destruct r; intros [= <-]; by apply (frame_weak _ c).
  - intros [= <-]. by apply answer_weak, (frame_weak _ c).
Qed.

Lemma onData_weak e chunk c : weak [] c → weak [] (onData e chunk c).
Proof.
  intros H. unfold onData. destruct (concatBytes _) as [b|]; [|done].
  assert (weak [] (set_lastActivityMs (now e) (set_inbound b c))) as Hb by by apply (frame_weak _ c).
  revert Hb. generalize (set_lastActivityMs (now e) (set_inbound b c)). generalize (length b).
  intros fuel. induction fuel as [|fuel IH]; intros c1 H1; [done|]. cbn [data_loop].
  destruct (tryConsumeFrame _) as [f|]; [|done].
  destruct (on_frame f c1) as [c2|] eqn:E; [|done]. by eapply IH, on_frame_weak.
Qed.

(** *** Subscriptions *)

Lemma subscribe_failed_weak ch h i c : weak [] c → weak [] (subscribe_failed ch h i c).
Proof. intros H. unfold subscribe_failed. destruct (no_handlers _ _); by apply (frame_weak _ c). Qed.

Lemma subscribe_weak ch h flt c : weak [] c → weak [] (subscribe ch h flt c).
Proof.
  intros H. unfold subscribe. destruct (lookup_sub ch c) as [i|]; [by apply (frame_weak _ c)|].
  cbv zeta. set (c1 := set_handlers _ _ _).
  assert (weak [] c1) as H1 by by apply (frame_weak _ c).
  destruct (encodeCommandFrame _); [by apply requestRaw_weak|by apply subscribe_failed_weak].
Qed.

Lemma removeHandler_weak ch h c : weak [] c → weak [] (removeHandler ch h c).
Proof.
  intros H. unfold removeHandler. destruct (lookup_sub ch c) as [i|]; [|done]. cbv zeta.
  destruct (negb _); [by apply (frame_weak _ c)|].
  assert (weak [] (delete_sub ch (set_handlers (delete_handler h) i c))) as H1
    by by apply (frame_weak _ c).
  destruct (_ && _); [|done]. destruct (encodeCommandFrame _); [by apply requestRaw_weak|done].
Qed.

Lemma continue_weak id c : weak [] c → weak [] (continue_ id c).
Proof.
  intros H. unfold continue_. destruct (konts c !! id) as [k|]; [|done].
  destruct (settled (reqs c) !! id) as [o|]; [|done].
  assert (weak [] (set_konts (delete id (konts c)) c)) as Hc by by apply (frame_weak _ c).
  destruct k as [|token|ch h i]; [done| |].
  - destruct (response_of o) as [[]|]; try done; by apply (frame_weak _ c).
  - destruct (response_of o) as [[]|]; try (by apply subscribe_failed_weak);
      by apply (frame_weak _ c).
Qed.

(** *** Timers, and every event *)

Lemma on_timeout_weak e id c : weak [] c → weak [] (on_timeout cfg e id c).
Proof.
  intros H. unfold on_timeout. destruct (timers (reqs c) !! id) as [g|]; [|done].
  apply (clear_timer_weak _ id) in H. cbv zeta. case_bool_decide; [by apply failConnection_weak|done].
Qed.

Lemma openSocket_weak c : reconnectTimer c = None → weak [] c → weak [] (openSocket c).
Proof.
  intros Ht [H1 H2 H3 H4 H5]. unfold openSocket. destruct (_ || _); [done|].
  split; try done. cbn. rewrite Ht. by intros [].
Qed.

Lemma unconnect_weak c : weak [] c → weak [] (set_connecting false c).
Proof. intros [H1 H2 H3 H4 H5]. by split. Qed.

Lemma disconnect_weak e cause c : weak [] c → weak [] (handleDisconnect cfg e cause c).
Proof. intros [H1 H2 H3 H4 H5]. by apply handleDisconnect_weak. Qed.

Lemma step_weak e c ev : weak [] c → weak [] (step cfg e c ev).
Proof.
  intros H. destruct ev; cbn [step];
    auto using requestRaw_weak, subscribe_weak, close_weak, resume_weak, continue_weak,
      onOpen_weak, onData_weak, on_timeout_weak, unconnect_weak, disconnect_weak.
  - unfold auth. destruct (encodeAuth token); [by apply requestRaw_weak|done].
  - unfold unsubscribe. destruct (subscriptions c !! _) as [[ch h]|]; [|done].
    by apply removeHandler_weak, (frame_weak _ c).
  - by apply (frame_weak _ c).
  - unfold on_reconnect_timer. case_bool_decide; [|done]. apply openSocket_weak; [done|].
    destruct H as [H1 H2 H3 H4 H5]. split; try done. by intros [].
  - unfold on_ping. destruct (_ && _); [|done].
    destruct (encodeCommandFrame STATUS); [by apply requestRaw_weak|done].
Qed.

Lemma run_weak es c : weak [] c → weak [] (run cfg es c).
Proof.
  unfold run. revert c. induction es as [|[e ev] es IH]; intros c H; [done|]. cbn.
  by apply IH, step_weak.
Qed.

(** ** The property *)

(** C7: the connection state machine.  Whatever the sequence of calls,
    resumptions, runtime callbacks and timers, whatever the runtime answers
    to writes: every promise handed out is, exactly once, held by a suspended
    call, pending or settled; only pending requests have a timeout armed; a
    ready client has a socket; no call waits for a connection in a ready or a
    closed client; and a retry is never scheduled while a connection is being
    made.  If moreover no write fails, connections open only when one is
    being made, and a call handed a socket resumes before the runtime reports
    that socket lost ([valid]; the program may still close the client in
    between): the client is ready exactly when it has a socket; a client
    without one that is not closed has nothing pending and no timeout armed;
    a connection is being made, or a retry scheduled, only while there is no
    socket; and every pending request has a timeout of the current
    connection. *)
Theorem db_invariant es :
  let c := run cfg es new_db in
  (((ca_id <$> readyWaiters c) ++ ((λ u, ca_id u.1) <$> running c)) ++
     pendingQueue (reqs c) ++ elements (dom (settled (reqs c))) ≡ₚ seq 0 (next_id (reqs c)) ∧
   (∀ id, is_Some (timers (reqs c) !! id) → id ∈ pendingQueue (reqs c)) ∧
   (stateValue c = Ready → is_Some (socket c) ∧ readyWaiters c = []) ∧
   (stateValue c = Closed → readyWaiters c = []) ∧
   (is_Some (reconnectTimer c) → connecting c = false)) ∧
  (WritesAccepted R → valid_run cfg es new_db →
   (stateValue c = Ready ↔ is_Some (socket c)) ∧
   (socket c = None → stateValue c ≠ Closed →
      pendingQueue (reqs c) = [] ∧ timers (reqs c) = ∅) ∧
   (connecting c = true →
      socket c = None ∧ reconnectTimer c = None ∧ pendingQueue (reqs c) = []) ∧
   (is_Some (reconnectTimer c) → socket c = None) ∧
   (∀ id, id ∈ pendingQueue (reqs c) ↔ timers (reqs c) !! id = Some (generation c))).
Proof.
  intros c. split.
  - destruct (run_weak es new_db new_db_weak) as [[H1 Hd] H2 H3 H4 H5]. split_and!; try done.
    intros id Hid%elem_of_dom. by apply Hd, elem_of_list_to_set in Hid.
  - intros Hw Hv. pose proof (reachable_wf cfg es Hv) as H. fold c in H.
    pose proof (connecting_pending c H) as Hcp.
    destruct H as [[[Ha Hd] Ht _] _ Hr Hp Hc Htm Hg]. split_and!; try done.
    + intros Hs Hcl. destruct (Hp Hs) as [Hn|[]]; [|done]. split; [done|].
      rewrite Hn in Hd. by apply dom_empty_inv_L.
    + intros Hco. split_and!; [by apply Hc| |by apply Hcp].
      destruct (reconnectTimer c); [|done]. rewrite Ht in Hco; done.
    + intros id. rewrite <- (elem_of_list_to_set (C := gset nat)), <- Hd, elem_of_dom. split.
      * intros [g Eg]. rewrite Eg. f_equal. by eapply (Hg id).
      * intros E. by eexists.
Qed.
End Invariant.

(** ** Concrete runs *)

Local Notation live := (WormDB.run (R := all_bytes) opts session_run new_db) (only parsing).

Lemma db_invariant_witness :
  (stateValue live = Ready ↔ is_Some (socket live)) ∧ socket live = Some 0%nat ∧
  (2%nat ∈ pendingQueue (reqs live) ↔ timers (reqs live) !! 2%nat = Some (generation live)) ∧
  pendingQueue (reqs live) = [2]%nat.
Proof.
  destruct (proj2 (db_invariant (R := all_bytes) opts session_run) _ session_run_valid)
    as (Hr & _ & _ & _ & Hp).
  split; [exact Hr|]. split; [vm_compute; reflexivity|]. split; [apply Hp|vm_compute; reflexivity].
Defined.

(** A call made in the same tick as [close()]: it resumes after [close] has
    rejected what was pending, and its request joins the queue of a client
    without a connection, until the runtime reports the ended socket closed
    or the request times out. *)
Definition closing_run : list (env * event) :=
  session_run ++ at0 [CallRequest (frame_of_get "b"); CallClose; Resume 3].

Local Notation closing := (WormDB.run (R := all_bytes) opts closing_run new_db) (only parsing).

Lemma closing_call_outlives_close :
  valid_run (R := all_bytes) opts closing_run new_db ∧
  stateValue closing = Closed ∧ socket closing = None ∧ connecting closing = false ∧
  pendingQueue (reqs closing) = [3]%nat ∧ settled (reqs closing) !! 3%nat = None ∧
  settled (reqs (on_timeout opts e0 3 closing)) !! 3%nat = Some (Failed (ClientTimeoutError 3000)) ∧
  settled (reqs (step (R := all_bytes) opts e0 closing (SocketClosed 0))) !! 3%nat =
    Some (Failed ClientConnectionClosedError).
Proof.
  split; [apply valid_run_b_ok; vm_compute; reflexivity|]. repeat split; vm_compute; reflexivity.
Qed.

(** A write that fails while a connection opens leaves a socket without the
    client being ready, and the next call opens a second connection beside
    it: the converse of "a ready client has a socket" needs the writes to be
    accepted. *)
#[local] Instance failing : Runtime :=
  { sock_write := λ n data, if (n <=? 4)%nat then len data else -1 }.

Definition failed_run : list (env * event) :=
  session_run ++ at0 [SocketClosed 0; ReconnectTimerFires; Opened 1; ConnectResolved;
                      CallRequest (frame_of_get "b")].

Lemma failed_opening_not_ready :
  let c := WormDB.run (R := failing) opts failed_run new_db in
  stateValue c = Reconnecting ∧ socket c = Some 1%nat ∧ connecting c = true ∧ length (pendingQueue (reqs c)) = 1%nat ∧
  stateValue (WormDB.run (R := failing) opts session_run new_db) = Ready.
Proof. vm_compute. done. Qed.
End Untrusted.
