(* ===== verification/Base64.v ===== *)
(** * Base64

    [atob], the decoder of [Buffer.from(text, "base64")] and the standard
    encoder, with the round trips. *)
From S2P Require Import Prelude Utf8.

(** ** Decoding *)

(** [atob]: ASCII white space is dropped, then padding, then each group of
    four digits gives three bytes. *)
Definition b64_digit (c : Z) : option Z :=
  if (65 <=? c) && (c <=? 90) then Some (c - 65)
  else if (97 <=? c) && (c <=? 122) then Some (c - 71)
  else if (48 <=? c) && (c <=? 57) then Some (c + 4)
  else if c =? 43 then Some 62
  else if c =? 47 then Some 63
  else None.

Definition b64_space (c : Z) : bool :=
  (c =? 9) || (c =? 10) || (c =? 12) || (c =? 13) || (c =? 32).

Definition b64_trim (s : jsstr) : jsstr :=
  let s := filter (λ c, b64_space c = false) s in
  if len s mod 4 =? 0 then
    match rev s with
    | 61 :: 61 :: r => rev r
    | 61 :: r => rev r
    | _ => s
    end
  else s.

Fixpoint b64_groups (ds : list Z) : option bytes :=
  match ds with
  | a :: b :: c :: d :: r =>
      rest ← b64_groups r;
      Some ([a * 4 + b / 16; (b mod 16) * 16 + c / 4; (c mod 4) * 64 + d] ++ rest)
  | [a; b; c] => Some [a * 4 + b / 16; (b mod 16) * 16 + c / 4]
  | [a; b] => Some [a * 4 + b / 16]
  | [_] => None
  | [] => Some []
  end.

Definition atob (s : jsstr) : res bytes :=
  match ds ← mapM b64_digit (b64_trim s); b64_groups ds with
  | Some b => Ok b
  | None => Throw (Error (js "InvalidCharacterError"))
  end.

(** [Buffer.from(text, "base64")]: decoding stops at the first padding,
    accepts the URL alphabet, ignores every other character and a last digit
    that stands alone. *)
Definition buffer_digit (c : Z) : option Z :=
  if c =? 45 then Some 62 else if c =? 95 then Some 63 else b64_digit c.

Fixpoint until_pad (s : jsstr) : jsstr :=
  match s with
  | [] => []
  | c :: s => if c =? 61 then [] else c :: until_pad s
  end.

Fixpoint lenient_groups (ds : list Z) : bytes :=
  match ds with
  | a :: b :: c :: d :: r =>
      [a * 4 + b / 16; (b mod 16) * 16 + c / 4; (c mod 4) * 64 + d] ++ lenient_groups r
  | [a; b; c] => [a * 4 + b / 16; (b mod 16) * 16 + c / 4]
  | [a; b] => [a * 4 + b / 16]
  | _ => []
  end.

Definition buffer_from_base64 (s : jsstr) : bytes := lenient_groups (omap buffer_digit (until_pad s)).

(** ** Encoding *)

(** The standard encoder (RFC 4648 with padding):
    [Buffer.from(bytes).toString("base64")]. *)
Definition b64_char (d : Z) : Z :=
  if d <? 26 then d + 65 else if d <? 52 then d + 71 else if d <? 62 then d - 4
  else if d =? 62 then 43 else 47.

Fixpoint b64_encode (b : bytes) : jsstr :=
  match b with
  | x :: y :: z :: r =>
      (b64_char <$> [x / 4; x mod 4 * 16 + y / 16; y mod 16 * 4 + z / 64; z mod 64]) ++ b64_encode r
  | [x; y] => (b64_char <$> [x / 4; x mod 4 * 16 + y / 16; y mod 16 * 4]) ++ [61]
  | [x] => (b64_char <$> [x / 4; x mod 4 * 16]) ++ [61; 61]
  | [] => []
  end.

Lemma b64_digit_char d : 0 ≤ d < 64 → b64_digit (b64_char d) = Some d.
Proof.
  intros H. unfold b64_char, b64_digit. repeat case_ztest; cbn [andb]; try lia; try (f_equal; lia).
Qed.

(** The digits without padding, and the padding. *)
Fixpoint b64_digits (b : bytes) : list Z :=
  match b with
  | x :: y :: z :: r =>
      [x / 4; x mod 4 * 16 + y / 16; y mod 16 * 4 + z / 64; z mod 64] ++ b64_digits r
  | [x; y] => [x / 4; x mod 4 * 16 + y / 16; y mod 16 * 4]
  | [x] => [x / 4; x mod 4 * 16]
  | [] => []
  end.

Fixpoint b64_pad (b : bytes) : jsstr :=
  match b with
  | _ :: _ :: _ :: r => b64_pad r
  | [_; _] => [61]
  | [_] => [61; 61]
  | [] => []
  end.

Lemma triple_ind (P : bytes → Prop) :
  P [] → (∀ x, P [x]) → (∀ x y, P [x; y]) → (∀ x y z r, P r → P (x :: y :: z :: r)) → ∀ b, P b.
Proof.
  intros H0 H1 H2 H3 b. induction b as [b IH] using list_len_ind.
  destruct b as [|x [|y [|z r]]]; auto. apply H3, IH. cbn. lia.
Qed.

Lemma b64_encode_eq b : b64_encode b = (b64_char <$> b64_digits b) ++ b64_pad b.
Proof. induction b using triple_ind; try done. cbn. by rewrite IHb. Qed.

Lemma b64_digits_range b : Forall is_byte b → Forall (λ d, 0 ≤ d < 64) (b64_digits b).
Proof.
  induction b as [|x|x y|x y z r IH] using triple_ind; intros Hb;
    repeat (apply Forall_cons in Hb as [? Hb]); unfold is_byte in *; cbn;
    repeat (apply Forall_cons; split); auto; zdivmod.
Qed.

Lemma b64_char_range d : 0 ≤ d < 64 → b64_char d ≠ 61 ∧ b64_space (b64_char d) = false.
Proof.
  intros H. unfold b64_char, b64_space. repeat case_ztest; cbn [orb]; try lia;
    (split; [lia|]); repeat case_ztest; try lia; done.
Qed.

Lemma b64_pad_cases b :
  (b64_pad b = [] ∨ b64_pad b = [61] ∨ b64_pad b = [61; 61]) ∧
  len (b64_digits b ++ b64_pad b) mod 4 = 0.
Proof.
  induction b as [|x|x y|x y z r [IH1 IH2]] using triple_ind; cbn [b64_digits b64_pad];
    try (split; [by auto|reflexivity]).
  split; [done|]. rewrite <- app_assoc, len_app.
  change (len [_; _; _; _]) with 4. rewrite Z.add_comm.
  replace 4 with (1 * 4) at 1 by lia. by rewrite Z.mod_add.
Qed.

Lemma mapM_digits ds :
  Forall (λ d, 0 ≤ d < 64) ds → mapM b64_digit (b64_char <$> ds) = Some ds.
Proof.
  induction 1 as [|d ds Hd _ IH]; [done|].
  rewrite fmap_cons. cbn [mapM]. by rewrite b64_digit_char, IH.
Qed.

Lemma b64_groups_digits b : Forall is_byte b → b64_groups (b64_digits b) = Some b.
Proof.
  induction b as [|x|x y|x y z r IH] using triple_ind; intros Hb;
    repeat (apply Forall_cons in Hb as [? Hb]); unfold is_byte in *; cbn [b64_digits b64_groups app].
  - done.
  - do 2 f_equal. zdivmod.
  - do 2 f_equal; [zdivmod|]. f_equal. zdivmod.
  - rewrite IH by done. cbn. do 2 f_equal; [zdivmod|]. f_equal; [zdivmod|]. f_equal. zdivmod.
Qed.

Lemma b64_trim_encode b :
  Forall is_byte b → b64_trim (b64_encode b) = b64_char <$> b64_digits b.
Proof.
  intros Hb. rewrite b64_encode_eq. destruct (b64_pad_cases b) as [Hp Hm].
  pose proof (b64_digits_range b Hb) as Hd. set (cs := b64_char <$> b64_digits b).
  assert (Forall (λ c, c ≠ 61 ∧ b64_space c = false) cs) as Hc.
  { apply Forall_fmap. eapply Forall_impl; [exact Hd|]. intros d. apply b64_char_range. }
  unfold b64_trim. rewrite filter_all.
  2: { apply Forall_app. split; [eapply Forall_impl; [exact Hc|]; cbn; tauto|].
       destruct Hp as [-> |[-> | ->]]; repeat constructor. }
  rewrite len_app in Hm. rewrite len_app. unfold cs at 1. rewrite len_fmap, Hm.
  cbn [Z.eqb]. rewrite rev_app_distr.
  assert (∀ r, rev cs ≠ 61 :: r) as Hne.
  { intros r E. apply (f_equal (@rev Z)) in E. rewrite rev_involutive in E. cbn in E.
    rewrite E in Hc. apply Forall_app in Hc as [_ Hc]. by apply Forall_cons in Hc as [[] _]. }
  destruct Hp as [-> |[-> | ->]]; cbn [rev app]; [rewrite app_nil_r| |by rewrite rev_involutive].
  - destruct (rev cs) as [|c l] eqn:E; [done|].
    destruct (decide (c = 61)) as [->|Hc61]; [by destruct (Hne l)|].
    destruct c as [|p|p]; try done. do 6 (destruct p; try done).
  - destruct (rev cs) as [|c l] eqn:E; [by rewrite <- (rev_involutive cs), E|].
    assert (c ≠ 61) as Hc61 by (intros ->; by destruct (Hne l)).
    assert (rev (c :: l) = cs) as Hrev by (rewrite <- E; apply rev_involutive).
    destruct c as [|p|p]; try exact Hrev. do 6 (destruct p; try exact Hrev). done.
Qed.


Lemma quad_ind (P : list Z → Prop) :
  P [] → (∀ a, P [a]) → (∀ a b, P [a; b]) → (∀ a b c, P [a; b; c]) →
  (∀ a b c d r, P r → P (a :: b :: c :: d :: r)) → ∀ l, P l.
Proof.
  intros H0 H1 H2 H3 H4 l. induction l as [l IH] using list_len_ind.
  destruct l as [|a [|b [|c [|d r]]]]; auto. apply H4, IH. cbn. lia.
Qed.

Lemma lenient_groups_strict ds b : b64_groups ds = Some b → lenient_groups ds = b.
Proof.
  revert b. induction ds as [|a|a b'|a b' c|a b' c d r IH] using quad_ind; intros b H; cbn in H; simplify_eq; try done.
  apply bind_Some in H as (rest & Hr & [= <-]). cbn. by rewrite (IH rest).
Qed.

Lemma buffer_from_encode b : Forall is_byte b → buffer_from_base64 (b64_encode b) = b.
Proof.
  intros Hb. unfold buffer_from_base64. apply lenient_groups_strict.
  enough (omap buffer_digit (until_pad (b64_encode b)) = b64_digits b) as -> by by apply b64_groups_digits.
  rewrite b64_encode_eq. pose proof (b64_digits_range b Hb) as Hd. clear Hb.
  assert (until_pad (b64_pad b) = []) as Hp.
  { destruct (b64_pad_cases b) as [[-> |[-> | ->]] _]; done. }
  revert Hp. generalize (b64_pad b). induction Hd as [|d ds Hd _ IH]; intros p Hp; cbn.
  { by rewrite Hp. }
  pose proof (b64_char_range d Hd) as [Hc _]. destruct (Z.eqb_spec (b64_char d) 61); [done|]. cbn.
  assert (buffer_digit (b64_char d) = Some d) as ->; [|by rewrite IH].
  unfold buffer_digit. rewrite b64_digit_char by done.
  assert (b64_char d ≠ 45 ∧ b64_char d ≠ 95) as [? ?] by (unfold b64_char; repeat case_ztest; lia).
  by rewrite !(proj2 (Z.eqb_neq _ _)).
Qed.

(** Base64 text is made of word characters that are not letters of a command
    flag's separators: it never splits. *)
Lemma b64_encode_no_space b : Forall is_byte b → Forall (λ c, 43 ≤ c < 123) (b64_encode b).
Proof.
  intros Hb. rewrite b64_encode_eq. apply Forall_app. split.
  - apply Forall_fmap. eapply Forall_impl; [by apply b64_digits_range|]. intros d Hd. cbn in *.
    unfold b64_char. repeat case_ztest; lia.
  - destruct (b64_pad_cases b) as [[-> |[-> | ->]] _]; repeat constructor; lia.
Qed.
