(* ===== verification/Json.v ===== *)
(** * JSON values

    The values [JSON.parse] produces, property access, [JSON.stringify]
    without indentation and [JSON.parse], with the round trip.  A number keeps
    its text; an object keeps its fields in the order they were first set. *)
From Stdlib Require Import QArith.
From S2P Require Import Prelude Utf8 JsText Number Protocol.
#[local] Open Scope Z_scope.

Inductive json :=
| JNull
| JBool (b : bool)
| JNum (text : jsstr)
| JStr (s : jsstr)
| JArr (items : list json)
| JObj (fields : list (jsstr * json)).

Definition jnum (n : Z) : json := JNum (show n).

(** [value.name]: a property that is absent is [None] ([undefined]); reading
    one of [null] throws.  A repeated field counts as its last occurrence. *)
Definition prop (v : json) (name : jsstr) : res (option json) :=
  match v with
  | JNull => Throw TypeError
  | JObj fields => Ok (snd <$> last (filter (λ f, f.1 = name) fields))
  | _ => Ok None
  end.

(** [JSON.stringify] *)
Definition hex_digit (d : Z) : Z := if d <? 10 then 48 + d else 87 + d.

Definition quote_unit (c : Z) : jsstr :=
  if c =? 34 then [92; 34]
  else if c =? 92 then [92; 92]
  else if c =? 8 then js "\b"
  else if c =? 12 then js "\f"
  else if c =? 10 then js "\n"
  else if c =? 13 then js "\r"
  else if c =? 9 then js "\t"
  else if c <? 32 then js "\u00" ++ [hex_digit (c / 16); hex_digit (c mod 16)]
  else [c].

(** Unpaired surrogates are escaped. *)
Definition u_escape (c : Z) : jsstr :=
  js "\u" ++ [hex_digit (c / 4096); hex_digit (c / 256 mod 16); hex_digit (c / 16 mod 16);
             hex_digit (c mod 16)].

Fixpoint quote_units (s : jsstr) : jsstr :=
  match s with
  | [] => []
  | c :: s' =>
      if is_high c then
        match s' with
        | d :: s'' =>
            if is_low d then c :: d :: quote_units s'' else u_escape c ++ quote_units s'
        | [] => u_escape c
        end
      else if is_low c then u_escape c ++ quote_units s'
      else quote_unit c ++ quote_units s'
  end.

Definition quote (s : jsstr) : jsstr := [34] ++ quote_units s ++ [34].

Fixpoint stringify (v : json) : jsstr :=
  match v with
  | JNull => js "null"
  | JBool b => if b then js "true" else js "false"
  | JNum text => text
  | JStr s => quote s
  | JArr items => js "[" ++ join (js ",") (stringify <$> items) ++ js "]"
  | JObj fields =>
      js "{" ++ join (js ",") ((λ f, quote f.1 ++ js ":" ++ stringify f.2) <$> fields) ++ js "}"
  end.

(** [v.name = x] *)
Fixpoint set_field (fields : list (jsstr * json)) (f : jsstr * json) : list (jsstr * json) :=
  match fields with
  | [] => [f]
  | g :: fields => if bool_decide (g.1 = f.1) then f :: fields else g :: set_field fields f
  end.
Definition set_fields (fields new : list (jsstr * json)) : list (jsstr * json) :=
  fold_left set_field new fields.

(** A response as [JSON.stringify] prints it *)
Definition response_json (r : WormResponse) : json :=
  JObj ((js "type", JStr (type_of r)) ::
    match r with
    | error m => [(js "message", JStr m)]
    | bulk v => [(js "value", JStr v)]
    | event ch m => [(js "channel", JStr ch); (js "message", JStr m)]
    | _ => []
    end).

(** ** [JSON.parse] *)

Definition json_space (c : Z) : bool := (c =? 32) || (c =? 9) || (c =? 10) || (c =? 13).
Definition skip (s : jsstr) : jsstr := (span json_space s).2.

Definition simple_escape (c : Z) : option Z :=
  if (c =? 34) || (c =? 92) || (c =? 47) then Some c
  else if c =? 98 then Some 8
  else if c =? 102 then Some 12
  else if c =? 110 then Some 10
  else if c =? 114 then Some 13
  else if c =? 116 then Some 9
  else None.

Definition hex4 (a b c d : Z) : option Z :=
  a ← hex_value a; b ← hex_value b; c ← hex_value c; d ← hex_value d;
  Some (((a * 16 + b) * 16 + c) * 16 + d).

(** The rest of a string, after the opening quote. *)
Fixpoint string_body (s : jsstr) : option (jsstr * jsstr) :=
  match s with
  | [] => None
  | c :: s' =>
      if c =? 34 then Some ([], s')
      else if c =? 92 then
        match s' with
        | [] => None
        | e :: r =>
            if e =? 117 then
              match r with
              | x :: y :: z :: w :: r =>
                  u ← hex4 x y z w; '(t, r) ← string_body r; Some (u :: t, r)
              | _ => None
              end
            else u ← simple_escape e; '(t, r) ← string_body r; Some (u :: t, r)
        end
      else if c <? 32 then None
      else '(t, r) ← string_body s'; Some (c :: t, r)
  end.

Definition digits1 (s : jsstr) : option (jsstr * jsstr) :=
  match span is_digit s with ([], _) => None | x => Some x end.

(** A number: its text and what follows it. *)
Definition json_number (s : jsstr) : option (jsstr * jsstr) :=
  let '(sign, r) := match s with c :: r => if c =? 45 then ([c], r) else ([], s) | [] => ([], s) end in
  '(ip, r) ← digits1 r;
  if bool_decide (ip ≠ [48] ∧ head ip = Some 48) then None else
  '(fp, r) ← match r with
             | c :: r' => if c =? 46 then '(ds, r) ← digits1 r'; Some (c :: ds, r) else Some ([], r)
             | [] => Some ([], r)
             end;
  '(ep, r) ← match r with
             | c :: r' =>
                 if (c =? 101) || (c =? 69) then
                   let '(sg, r') := match r' with
                                    | g :: r'' => if (g =? 43) || (g =? 45) then ([g], r'') else ([], r')
                                    | [] => ([], r')
                                    end in
                   '(ds, r) ← digits1 r'; Some (c :: sg ++ ds, r)
                 else Some ([], r)
             | [] => Some ([], r)
             end;
  Some (sign ++ ip ++ fp ++ ep, r).

Definition keyword (s : jsstr) (w : string) (v : json) : option (json * jsstr) :=
  if startsWith s (js w) then Some (v, drop (length (js w)) s) else None.

(** Recursive descent; a value takes at least one character, which bounds the
    depth and the number of the calls. *)
Fixpoint value (n : nat) (s : jsstr) : option (json * jsstr) :=
  match n with
  | O => None
  | S n =>
      match skip s with
      | [] => None
      | c :: r =>
          if c =? 34 then '(t, r) ← string_body r; Some (JStr t, r)
          else if c =? 91 then
            match skip r with
            | c' :: r' => if c' =? 93 then Some (JArr [], r') else '(l, r) ← items n r; Some (JArr l, r)
            | [] => None
            end
          else if c =? 123 then
            match skip r with
            | c' :: r' => if c' =? 125 then Some (JObj [], r')
                          else '(l, r) ← fields n r; Some (JObj (set_fields [] l), r)
            | [] => None
            end
          else if c =? 116 then keyword (c :: r) "true" (JBool true)
          else if c =? 102 then keyword (c :: r) "false" (JBool false)
          else if c =? 110 then keyword (c :: r) "null" JNull
          else '(t, r) ← json_number (c :: r); Some (JNum t, r)
      end
  end
with items (n : nat) (s : jsstr) : option (list json * jsstr) :=
  match n with
  | O => None
  | S n =>
      '(v, r) ← value n s;
      match skip r with
      | c :: r => if c =? 44 then '(l, r) ← items n r; Some (v :: l, r)
                  else if c =? 93 then Some ([v], r) else None
      | [] => None
      end
  end
with fields (n : nat) (s : jsstr) : option (list (jsstr * json) * jsstr) :=
  match n with
  | O => None
  | S n =>
      match skip s with
      | q :: r =>
          if negb (q =? 34) then None else
          '(k, r) ← string_body r;
          match skip r with
          | c :: r =>
              if negb (c =? 58) then None else
              '(v, r) ← value n r;
              match skip r with
              | c :: r => if c =? 44 then '(l, r) ← fields n r; Some ((k, v) :: l, r)
                          else if c =? 125 then Some ([(k, v)], r) else None
              | [] => None
              end
          | [] => None
          end
      | [] => None
      end
  end.

Definition JSON_parse (text : jsstr) : option json :=
  '(v, r) ← value (S (length text)) text;
  match skip r with [] => Some v | _ => None end.

(** ** Strings survive *)

Lemma hex_digit_value d : 0 ≤ d < 16 → hex_value (hex_digit d) = Some d.
Proof.
  intros H. unfold hex_digit, hex_value, is_digit. repeat (case_ztest; try lia; cbn [andb]); f_equal; lia.
Qed.

Lemma hex4_escape c : 0 ≤ c < 65536 →
  hex4 (hex_digit (c / 4096)) (hex_digit (c / 256 mod 16)) (hex_digit (c / 16 mod 16))
    (hex_digit (c mod 16)) = Some c.
Proof. intros H. unfold hex4. rewrite !hex_digit_value by zdivmod. cbn. f_equal. zdivmod. Qed.

Lemma u_escape_body c s t r : 0 ≤ c < 65536 → string_body s = Some (t, r) →
  string_body (u_escape c ++ s) = Some (c :: t, r).
Proof.
  intros Hc Hs. unfold u_escape. change (js "\u") with [92; 117]. cbn [app string_body].
  change (92 =? 34) with false. change (92 =? 92) with true. change (117 =? 117) with true. cbv iota.
  rewrite hex4_escape by done. cbn [mbind option_bind]. by rewrite Hs.
Qed.

Lemma quote_unit_body c s t r :
  is_unit c → is_high c = false → is_low c = false → string_body s = Some (t, r) →
  string_body (quote_unit c ++ s) = Some (c :: t, r).
Proof.
  intros Hc _ _ Hs. unfold is_unit in Hc. unfold quote_unit.
  repeat match goal with |- context [if ?a =? ?b then _ else _] =>
    destruct (Z.eqb_spec a b) as [->|]; [cbn; by rewrite Hs|] end.
  destruct (Z.ltb_spec c 32).
  - pose proof (u_escape_body c s t r ltac:(lia) Hs) as H'. unfold u_escape in H'.
    assert (c / 4096 = 0 ∧ c / 256 mod 16 = 0 ∧ c / 16 mod 16 = c / 16) as (E1 & E2 & E3) by zdivmod.
    rewrite E1, E2, E3 in H'. exact H'.
  - cbn [app string_body]. destruct (Z.eqb_spec c 34); [done|]. destruct (Z.eqb_spec c 92); [done|].
    destruct (Z.ltb_spec c 32); [lia|]. by rewrite Hs.
Qed.

Lemma plain_body c s t r : 0xD800 ≤ c → string_body s = Some (t, r) →
  string_body (c :: s) = Some (c :: t, r).
Proof.
  intros Hc Hs. cbn [string_body]. destruct (Z.eqb_spec c 34); [lia|]. destruct (Z.eqb_spec c 92); [lia|].
  destruct (Z.ltb_spec c 32); [lia|]. by rewrite Hs.
Qed.

Lemma quote_units_body s rest :
  Forall is_unit s → string_body (quote_units s ++ 34 :: rest) = Some (s, rest).
Proof.
  induction s as [[|c s] IH] using list_len_ind; intros Hu; [done|].
  inversion Hu as [|? ? Hc Hs]; subst. cbn [quote_units].
  assert (string_body (quote_units s ++ 34 :: rest) = Some (s, rest)) as IHs by (apply IH; [cbn; lia|done]).
  assert (∀ x, is_high x = true ∨ is_low x = true → 0xD800 ≤ x) as Hsur.
  { intros x. unfold is_high, is_low. rewrite !andb_true_iff, !Z.leb_le. lia. }
  unfold is_unit in Hc. destruct (is_high c) eqn:Hh.
  - destruct s as [|d s].
    + apply (u_escape_body c (34 :: rest)); [lia|done].
    + destruct (is_low d) eqn:Hl.
      * cbn [app]. inversion Hs; subst. apply plain_body; [by apply Hsur; left|].
        apply plain_body; [by apply Hsur; right|]. apply IH; [cbn; lia|done].
      * rewrite <- app_assoc. apply u_escape_body; [lia|done].
  - destruct (is_low c) eqn:Hl; rewrite <- app_assoc.
    + apply u_escape_body; [lia|done].
    + by apply quote_unit_body.
Qed.

(** ** Values survive *)

Definition delim (rest : jsstr) : Prop :=
  match rest with [] => True | c :: _ => c = 44 ∨ c = 93 ∨ c = 125 end.

(** The text of a number, as [JSON.stringify] prints one. *)
Definition number_ok (text : jsstr) : Prop :=
  ∀ rest, delim rest → json_number (text ++ rest) = Some (text, rest).

Inductive json_ok : json → Prop :=
| ok_null : json_ok JNull
| ok_bool b : json_ok (JBool b)
| ok_num t : number_ok t → well_formed t = true → json_ok (JNum t)
| ok_str s : Forall is_unit s → json_ok (JStr s)
| ok_arr l : Forall json_ok l → json_ok (JArr l)
| ok_obj fs : NoDup fs.*1 → Forall (λ f, Forall is_unit f.1 ∧ json_ok f.2) fs → json_ok (JObj fs).

Fixpoint size (v : json) : nat :=
  match v with
  | JArr l => S (sum_list_with (λ v, S (size v)) l)
  | JObj fs => S (sum_list_with (λ f, S (size f.2)) fs)
  | _ => 1
  end.

Lemma set_fields_fresh fs new :
  NoDup ((fs ++ new).*1) → set_fields fs new = fs ++ new.
Proof.
  revert fs. induction new as [|f new IH]; intros fs H; [by rewrite app_nil_r|].
  change (set_fields fs (f :: new)) with (set_fields (set_field fs f) new).
  assert (set_field fs f = fs ++ [f]) as ->.
  { rewrite fmap_app in H. apply NoDup_app in H as (_ & H & _). clear IH.
    induction fs as [|g fs IHf]; [done|]. cbn. rewrite bool_decide_eq_false_2.
    - f_equal. apply IHf. intros x Hx. apply H. by right.
    - intros E. apply (H f.1); cbn; [rewrite E|]; left. }
  rewrite IH; rewrite <- app_assoc; done.
Qed.

Lemma number_head t : number_ok t →
  ∃ c r, t = c :: r ∧ (c = 45 ∨ is_digit c = true).
Proof.
  intros H. specialize (H [] I). rewrite app_nil_r in H. destruct t as [|c r]; [done|].
  exists c, r. split; [done|]. destruct (decide (c = 45)) as [|Hc]; [by left|right].
  unfold json_number in H. destruct (Z.eqb_spec c 45); [done|]. unfold digits1 in H. cbn [span] in H.
  by destruct (is_digit c).
Qed.

Lemma skip_cons c r : json_space c = false → skip (c :: r) = c :: r.
Proof. unfold skip. cbn. by intros ->. Qed.

Lemma size_pos v : (1 ≤ size v)%nat.
Proof. destruct v; cbn; lia. Qed.

(** What a value starts with. *)
Definition starter (c : Z) : Prop := json_space c = false ∧ c ≠ 93 ∧ c ≠ 125.
Lemma number_starter c r : number_ok (c :: r) → starter c.
Proof.
  intros Ht. destruct (number_head _ Ht) as (c' & r' & [= <- <-] & Hc). unfold starter.
  destruct Hc as [->|Hc]; [done|]. unfold is_digit in Hc.
  apply andb_true_iff in Hc as [H1%Z.leb_le H2%Z.leb_le]. unfold json_space.
  repeat match goal with |- context [?a =? ?b] => destruct (Z.eqb_spec a b); [lia|] end. split_and!; [done|lia..].
Qed.
Lemma stringify_head v : json_ok v → ∃ c r, stringify v = c :: r ∧ starter c.
Proof.
  destruct 1 as [|[]|t Ht _|s _|l _|fs _ _]; try (eexists _, _; split; [reflexivity|done]).
  destruct (number_head t Ht) as (c & r & -> & _). exists c, r. split; [done|by apply (number_starter c r)].
Qed.

Lemma starter_skip c r : starter c → skip (c :: r) = c :: r.
Proof. intros [H _]. by apply skip_cons. Qed.

(** One field of an object, as it is printed. *)
Definition field_text (f : jsstr * json) : jsstr := quote f.1 ++ js ":" ++ stringify f.2.

Lemma value_number n t rest : number_ok t → delim rest → value (S n) (t ++ rest) = Some (JNum t, rest).
Proof.
  intros Ht Hr. destruct (number_head t Ht) as (c & r & -> & Hc). cbn [app value].
  assert (starter c ∧ c ≠ 34 ∧ c ≠ 91 ∧ c ≠ 123 ∧ c ≠ 116 ∧ c ≠ 102 ∧ c ≠ 110) as (Hs & N).
  { assert (starter c) as Hs by by apply (number_starter c r).
    split; [done|]. destruct Hc as [->|Hc]; [lia|]. unfold is_digit in Hc.
    apply andb_true_iff in Hc as [H1%Z.leb_le H2%Z.leb_le]. lia. }
  rewrite starter_skip by done.
  repeat match goal with |- context [if ?a =? ?b then _ else _] => destruct (Z.eqb_spec a b); [lia|] end.
  rewrite app_comm_cons, Ht by done. done.
Qed.

Lemma join_comma {A} (f : A → jsstr) x l :
  join (js ",") (f <$> (x :: l)) = f x ++ match l with [] => [] | _ => 44 :: join (js ",") (f <$> l) end.
Proof. destruct l; cbn; [by rewrite app_nil_r|done]. Qed.

Lemma parse_stringify_all n :
  (∀ v rest, json_ok v → (size v ≤ n)%nat → delim rest → value n (stringify v ++ rest) = Some (v, rest)) ∧
  (∀ l rest, Forall json_ok l → (sum_list_with (λ v, S (size v)) l ≤ n)%nat → l ≠ [] →
     items n (join (js ",") (stringify <$> l) ++ 93 :: rest) = Some (l, rest)) ∧
  (∀ fs rest, Forall (λ f, Forall is_unit f.1 ∧ json_ok f.2) fs →
     (sum_list_with (λ f, S (size f.2)) fs ≤ n)%nat → fs ≠ [] →
     fields n (join (js ",") (field_text <$> fs) ++ 125 :: rest) = Some (fs, rest)).
Proof.
  induction n as [|n (IHv & IHi & IHf)].
  { split_and!; [intros v ? _ Hn; pose proof (size_pos v); lia| |];
      (intros [|] ? _ Hn Hne; [done|cbn in Hn; lia]). }
  split_and!.
  - intros v rest Hv Hn Hr. destruct Hv as [|b|t Ht _|s Hs|l Hl|fs Hd Hf].
    + reflexivity.
    + by destruct b.
    + by apply value_number.
    + cbn [stringify]. unfold quote. rewrite <- !app_assoc. cbn [app value]. rewrite skip_cons by done.
      change (34 =? 34) with true. cbv iota. by rewrite quote_units_body.
    + cbn [stringify]. change (js "[") with [91]. change (js "]") with [93].
      rewrite <- !app_assoc. cbn [app value]. rewrite skip_cons by done.
      change (91 =? 34) with false. change (91 =? 91) with true. cbv iota.
      destruct l as [|v l]; [reflexivity|]. rewrite IHi; [|done|cbn in *; lia|done].
      rewrite join_comma. inversion Hl as [|? ? Hv _]; subst.
      destruct (stringify_head v Hv) as (c & r & -> & Hs). cbn [app]. rewrite starter_skip by done.
      destruct Hs as (_ & Hs & _). by destruct (Z.eqb_spec c 93).
    + change (stringify (JObj fs)) with (js "{" ++ join (js ",") (field_text <$> fs) ++ js "}").
      change (js "{") with [123]. change (js "}") with [125].
      rewrite <- !app_assoc. cbn [app value]. rewrite skip_cons by done.
      change (123 =? 34) with false. change (123 =? 91) with false. change (123 =? 123) with true. cbv iota.
      destruct fs as [|f fs]; [reflexivity|]. rewrite IHf; [|done|cbn in *; lia|done].
      rewrite join_comma. unfold field_text at 1, quote. rewrite <- !app_assoc. cbn [app].
      rewrite skip_cons by done. change (34 =? 125) with false. cbv iota. cbn [mbind option_bind].
      by rewrite (set_fields_fresh []) by done.
  - intros [|v l] rest Hl Hn Hne; [done|]. inversion Hl as [|? ? Hv Hl']; subst. cbn in Hn.
    rewrite join_comma, <- app_assoc. cbn [items]. rewrite IHv; [|done|lia|destruct l; cbn; auto].
    cbn [mbind option_bind]. destruct l as [|w l]; [done|]. cbn [app]. rewrite skip_cons by done.
    change (44 =? 44) with true. cbv iota. by rewrite IHi by (done || lia).
  - intros [|f fs] rest Hf Hn Hne; [done|]. inversion Hf as [|? ? [Hk Hv] Hf']; subst. cbn in Hn.
    rewrite join_comma, <- app_assoc. unfold field_text at 1, quote. rewrite <- !app_assoc. cbn [app fields].
    rewrite skip_cons by done. change (34 =? 34) with true. cbn [negb]. rewrite quote_units_body by done.
    cbn [mbind option_bind]. change (js ":") with [58]. cbn [app]. rewrite skip_cons by done.
    change (58 =? 58) with true. cbn [negb]. rewrite IHv; [|done|lia|destruct fs; cbn; auto].
    cbn [mbind option_bind]. destruct fs as [|g fs]; [by destruct f|]. cbn [app]. rewrite skip_cons by done.
    change (44 =? 44) with true. cbv iota. rewrite IHf by (done || lia). by destruct f.
Qed.

Lemma stringify_size n v : (size v ≤ n)%nat → json_ok v → (size v ≤ length (stringify v))%nat.
Proof.
  revert v. induction n as [|n IH]; intros v Hn Hv; [pose proof (size_pos v); lia|].
  destruct Hv as [|[]|t Ht _|s Hs|l Hl|fs Hd Hf]; cbn [size stringify] in *; try (cbn; lia).
  - destruct (number_head t Ht) as (c & r & -> & _). cbn. lia.
  - change (js "[") with [91]. change (js "]") with [93]. cbn [app length]. rewrite length_app. cbn [length].
    enough (sum_list_with (λ v, S (size v)) l ≤ S (length (join (js ",") (stringify <$> l))))%nat by lia.
    assert (sum_list_with (λ v, S (size v)) l ≤ n)%nat as Hn' by lia. clear Hn.
    induction Hl as [|v l Hv Hl IHl]; [cbn; lia|]. rewrite join_comma, length_app. cbn [sum_list_with] in *.
    specialize (IHl ltac:(lia)). pose proof (IH v ltac:(lia) Hv). destruct l; cbn [length sum_list_with] in *; lia.
  - change (js "{") with [123]. change (js "}") with [125]. cbn [app length]. rewrite length_app. cbn [length].
    change (λ f, quote f.1 ++ js ":" ++ stringify f.2) with field_text.
    enough (sum_list_with (λ f, S (size f.2)) fs ≤ S (length (join (js ",") (field_text <$> fs))))%nat by lia.
    assert (sum_list_with (λ f, S (size f.2)) fs ≤ n)%nat as Hn' by lia. clear Hn Hd.
    induction Hf as [|f fs [_ Hv] Hf IHl]; [cbn; lia|]. rewrite join_comma, length_app. cbn [sum_list_with] in *.
    specialize (IHl ltac:(lia)). pose proof (IH f.2 ltac:(lia) Hv).
    assert (length (stringify f.2) ≤ length (field_text f))%nat by (unfold field_text; rewrite !length_app; lia).
    destruct fs; cbn [length sum_list_with] in *; lia.
Qed.

(** [JSON.parse(JSON.stringify(v))] is [v]. *)
Lemma parse_stringify v : json_ok v → JSON_parse (stringify v) = Some v.
Proof.
  intros Hv. unfold JSON_parse. destruct (parse_stringify_all (S (length (stringify v)))) as (H & _ & _).
  specialize (H v [] Hv). rewrite app_nil_r in H. rewrite H; [done| |done].
  pose proof (stringify_size (size v) v ltac:(lia) Hv). lia.
Qed.

(** ** What [JSON.stringify] prints is well-formed, lone surrogates included *)

Lemma well_formed_app s t : well_formed s = true → well_formed t = true → well_formed (s ++ t) = true.
Proof.
  intros Hs Ht. induction s as [[|c s] IH] using list_len_ind; [done|]. cbn [app well_formed] in *.
  apply andb_true_iff in Hs as [Hu Hs]. rewrite Hu. cbn [andb]. destruct (is_high c).
  - destruct s as [|d s]; [done|]. cbn [app]. apply andb_true_iff in Hs as [-> Hs]. apply IH; [cbn; lia|done].
  - apply andb_true_iff in Hs as [-> Hs]. apply IH; [cbn; lia|done].
Qed.

Lemma well_formed_ascii s : Forall (λ c, 0 ≤ c < 128) s → well_formed s = true.
Proof.
  induction 1 as [|c s Hc _ IH]; [done|]. cbn. rewrite bool_decide_eq_true_2 by (unfold is_unit; lia).
  assert (is_high c = false ∧ is_low c = false) as [-> ->]; [|done].
  unfold is_high, is_low. rewrite !andb_false_iff, !Z.leb_gt. lia.
Qed.

Lemma hex_digit_ascii d : 0 ≤ d < 16 → 0 ≤ hex_digit d < 128.
Proof. unfold hex_digit. case_ztest; lia. Qed.

Lemma u_escape_ascii c : 0 ≤ c < 65536 → Forall (λ c, 0 ≤ c < 128) (u_escape c).
Proof.
  intros Hc. unfold u_escape. apply Forall_app. split; [by repeat constructor|].
  repeat (apply Forall_cons; split); [..|done]; apply hex_digit_ascii; zdivmod.
Qed.

Lemma quote_unit_well_formed c : is_unit c → is_high c = false → is_low c = false →
  well_formed (quote_unit c) = true.
Proof.
  intros Hc Hh Hl. unfold is_unit in Hc. unfold quote_unit.
  repeat match goal with |- context [if ?a =? ?b then _ else _] => destruct (Z.eqb_spec a b); [done|] end.
  destruct (Z.ltb_spec c 32).
  - apply well_formed_ascii, Forall_app. split; [by repeat constructor|].
    repeat (apply Forall_cons; split); [..|done]; apply hex_digit_ascii; zdivmod.
  - cbn. rewrite Hh, Hl. by rewrite bool_decide_eq_true_2.
Qed.

Lemma quote_units_well_formed s : Forall is_unit s → well_formed (quote_units s) = true.
Proof.
  induction s as [[|c s] IH] using list_len_ind; intros Hu; [done|].
  inversion Hu as [|? ? Hc Hs]; subst. cbn [quote_units]. unfold is_unit in Hc.
  assert (well_formed (quote_units s) = true) as IHs by (apply IH; [cbn; lia|done]).
  destruct (is_high c) eqn:Hh.
  - destruct s as [|d s]; [by apply well_formed_ascii, u_escape_ascii; lia|].
    destruct (is_low d) eqn:Hl.
    + cbn [well_formed]. rewrite Hh, Hl, bool_decide_eq_true_2 by (unfold is_unit; lia). cbn [andb].
      inversion Hs; subst. apply IH; [cbn; lia|done].
    + apply well_formed_app; [by apply well_formed_ascii, u_escape_ascii; lia|done].
  - destruct (is_low c) eqn:Hl; apply well_formed_app; try done.
    + by apply well_formed_ascii, u_escape_ascii; lia.
    + by apply quote_unit_well_formed.
Qed.

Lemma quote_well_formed s : Forall is_unit s → well_formed (quote s) = true.
Proof.
  intros Hs. unfold quote. apply well_formed_app; [done|]. apply well_formed_app; [|done].
  by apply quote_units_well_formed.
Qed.

Lemma join_well_formed ws :
  Forall (λ w, well_formed w = true) ws → well_formed (join (js ",") ws) = true.
Proof.
  induction 1 as [|w ws Hw _ IH]; [done|]. destruct ws as [|w' ws]; [done|]. rewrite join_cons2.
  by repeat apply well_formed_app.
Qed.

Lemma stringify_well_formed v : json_ok v → well_formed (stringify v) = true.
Proof.
  remember (size v) as n eqn:E. revert v E. induction (lt_wf n) as [n _ IH]. intros v -> Hv.
  destruct Hv as [|[]|t _ Ht|s Hs|l Hl|fs _ Hf]; try done.
  - by apply quote_well_formed.
  - cbn [stringify]. repeat apply well_formed_app; try done. apply join_well_formed, Forall_fmap.
    assert (∀ v, v ∈ l → (size v < size (JArr l))%nat) as Hlt.
    { intros v Hv. cbn. pose proof (sum_list_with_in v (λ v, S (size v)) l Hv). cbn in *. lia. }
    apply Forall_forall. intros v Hv. cbn. eapply (IH (size v)); [by apply Hlt|done|].
    by eapply Forall_forall in Hv.
  - change (stringify (JObj fs)) with (js "{" ++ join (js ",") (field_text <$> fs) ++ js "}").
    repeat apply well_formed_app; try done. apply join_well_formed, Forall_fmap.
    assert (∀ f, f ∈ fs → (size f.2 < size (JObj fs))%nat) as Hlt.
    { intros f Hin. cbn. pose proof (sum_list_with_in f (λ f, S (size f.2)) fs Hin). cbn in *. lia. }
    apply Forall_forall. intros f Hin. pose proof (Forall_forall (λ f, Forall is_unit f.1 ∧ json_ok f.2) fs) as [H _].
    destruct (H Hf f Hin) as [Hk Hv]. cbv beta. unfold field_text.
    apply well_formed_app; [by apply quote_well_formed|]. apply well_formed_app; [done|]. by eapply (IH (size f.2)); [apply Hlt|..].
Qed.

(** ** Fields *)

Lemma set_field_fst fs f x : x ∈ (set_field fs f).*1 ↔ x ∈ fs.*1 ∨ x = f.1.
Proof.
  induction fs as [|g fs IH]; cbn; [set_solver|]. case_bool_decide as Hg; cbn.
  - rewrite Hg. set_solver.
  - rewrite !elem_of_cons, IH. tauto.
Qed.

Lemma set_field_nodup fs f : NoDup fs.*1 → NoDup (set_field fs f).*1.
Proof.
  induction fs as [|g fs IH]; cbn; [intros _; apply NoDup_singleton|]. rewrite NoDup_cons. intros [Hg H].
  case_bool_decide as E; cbn; rewrite NoDup_cons; [by rewrite <- E|].
  split; [|by apply IH]. rewrite set_field_fst. intros [H'|H']; [done|by apply E].
Qed.

Lemma set_field_elem fs f g : NoDup fs.*1 →
  g ∈ set_field fs f ↔ g = f ∨ (g ∈ fs ∧ g.1 ≠ f.1).
Proof.
  induction fs as [|h fs IH]; cbn; [set_solver|]. rewrite NoDup_cons. intros [Hh Hd].
  case_bool_decide as E.
  - rewrite !elem_of_cons. split; [|set_solver]. intros [->|Hg]; [by left|right]. split; [by right|].
    intros E'. apply Hh. rewrite E, <- E'. by apply list_elem_of_fmap_2.
  - rewrite !elem_of_cons, IH by done. split; [|tauto]. intros [->|[->|[? ?]]]; tauto.
Qed.

Lemma set_field_ok fs k x : json_ok (JObj fs) → Forall is_unit k → json_ok x →
  json_ok (JObj (set_field fs (k, x))).
Proof.
  inversion 1 as [| | | | |? Hd Hf]; subst. intros Hk Hx. constructor; [by apply set_field_nodup|].
  rewrite Forall_forall in *. intros g. rewrite set_field_elem by done. intros [->|[Hg _]]; [done|by apply Hf].
Qed.

Lemma prop_field fs k x : NoDup fs.*1 → (k, x) ∈ fs → prop (JObj fs) k = Ok (Some x).
Proof.
  intros Hd Hin. unfold prop. do 2 f_equal.
  assert (base.filter (λ f, f.1 = k) fs = [(k, x)]) as ->; [|done].
  induction fs as [|g fs IH]; [by apply elem_of_nil in Hin|]. rewrite filter_cons. cbn in Hd.
  apply NoDup_cons in Hd as [Hg Hd]. apply elem_of_cons in Hin as [<-|Hin]; cbn in *.
  - rewrite decide_True by done. f_equal. clear IH Hd. induction fs as [|h fs IH]; [done|].
    rewrite filter_cons, decide_False; [apply IH; set_solver|]. intros E. apply Hg. rewrite <- E. left.
  - rewrite decide_False; [by apply IH|]. intros E. apply Hg. rewrite E. by apply (list_elem_of_fmap_2 fst _ (k, x)).
Qed.

Lemma prop_set_field fs k x : NoDup fs.*1 → prop (JObj (set_field fs (k, x))) k = Ok (Some x).
Proof. intros Hd. apply prop_field; [by apply set_field_nodup|]. apply set_field_elem; [done|by left]. Qed.

Lemma set_field_keeps fs f k x : NoDup fs.*1 → f.1 ≠ k → (k, x) ∈ fs → (k, x) ∈ set_field fs f.
Proof. intros Hd Hk Hin. apply set_field_elem; [done|]. right. by split. Qed.

(** Natural numbers survive as numbers. *)
Lemma number_ok_show n : 0 ≤ n → number_ok (show n).
Proof.
  intros Hn rest Hr. destruct (show_digits n Hn) as (Hne & Hd & _).
  assert (Forall (λ c, is_digit c = true) (show n) ∧ (show n = [48] ∨ head (show n) ≠ Some 48)) as [_ Hh].
  { split; [done|]. destruct (Z.eq_dec n 0) as [->|]; [by left|right]. apply show_head. lia. }
  revert Hne Hd Hh. generalize (show n). intros s Hne Hd Hh. unfold json_number.
  assert (match s ++ rest with c :: r => if c =? 45 then ([c], r) else ([], s ++ rest) | [] => ([], s ++ rest) end = ([], s ++ rest)) as ->.
  { destruct s as [|c s]; [done|]. inversion Hd as [|? ? Hc _]; subst. unfold is_digit in Hc. cbn [app].
    by destruct (Z.eqb_spec c 45); [lia|]. }
  assert (digits1 (s ++ rest) = Some (s, rest)) as ->.
  { unfold digits1. rewrite span_app; [by destruct s|done|]. destruct rest as [|c r]; [done|].
    by destruct Hr as [->|[->| ->]]. }
  destruct s as [|c s]; [done|]. cbn [mbind option_bind]. rewrite bool_decide_eq_false_2 by (intros [H1 H2]; by destruct Hh).
  destruct rest as [|d r]; [cbn; by rewrite !app_nil_r|]. cbn [delim] in Hr.
  destruct Hr as [->|[->| ->]]; cbn; by rewrite !app_nil_r.
Qed.
Lemma jnum_ok n : 0 ≤ n → json_ok (jnum n).
Proof.
  intros Hn. apply ok_num; [by apply number_ok_show|]. destruct (show_digits n Hn) as (_ & Hd & _).
  apply well_formed_ascii. eapply Forall_impl; [exact Hd|]. intros c Hc. unfold is_digit in Hc. lia.
Qed.
