(* ===== verification/WormDBApi.v ===== *)
(** * The typed wrappers of [WormDB] ([apps/bun/src/lib/wormdb.ts])

    Each wrapper sends one frame and interprets one raw response: a [call] is
    the frame, or the error its encoder throws, and the interpretation of the
    reply.  [perform] runs it against a transport.  [EventQueue] is the
    buffer behind [events]. *)
From S2P Require Import Prelude Utf8 TypedArray JsText Command Protocol Wire Base64 Json.

Record call (A : Type) := Call { frame : res bytes; reply : Z * bytes → res A }.
Arguments Call {A}.
Arguments frame {A}.
Arguments reply {A}.

(** The wrapper against [requestRaw]: what the transport answers a frame. *)
Definition perform {A} (requestRaw : bytes → res (Z * bytes)) (w : call A) : res A :=
  f ← frame w;
  raw ← requestRaw f;
  reply w raw.

(** [request]: the reply is decoded first. *)
Definition decoded {A} (f : WormResponse → res A) (raw : Z * bytes) : res A :=
  resp ← decodeResponse raw.1 raw.2;
  f resp.

Definition command {A} (c : ParsedCommand) (f : WormResponse → res A) : call A :=
  Call (encodeCommandFrame c) (decoded f).

Definition unexpected {A} (what : jsstr) (resp : WormResponse) : res A :=
  Throw (WormServerError (js "unexpected " ++ what ++ js "response: " ++ type_of resp)).

(** ** Response helpers *)

Definition expectOk (resp : WormResponse) : res () :=
  match resp with
  | error m => Throw (WormServerError m)
  | ok => Ok ()
  | _ => unexpected [] resp
  end.

Definition expectValue (resp : WormResponse) : res jsstr :=
  match resp with
  | error m => Throw (WormServerError m)
  | bulk v => Ok v
  | _ => unexpected [] resp
  end.

(** ** Key-value and administration *)

Definition sendCommand (parsed : ParsedCommand) : call WormResponse := command parsed Ok.

Definition send {UD : UnicodeData} (text : jsstr) : call WormResponse :=
  match parseCommand text with
  | Ok parsed => sendCommand parsed
  | Throw e => Call (Throw e) (decoded Ok)
  end.

Definition get (key : jsstr) : call (option jsstr) :=
  command (GET key) (λ resp,
    match resp with
    | error m => Throw (WormServerError m)
    | null => Ok None
    | bulk v => Ok (Some v)
    | _ => unexpected (js "GET ") resp
    end).

Definition getBytes (key : jsstr) : call (option bytes) :=
  Call (encodeCommandFrame (GET key)) (λ raw,
    decoded (λ resp,
      match resp with
      | error m => Throw (WormServerError m)
      | null => Ok None
      | bulk _ => Ok (Some (slice raw.2 0 (len raw.2)))
      | _ => unexpected (js "GET ") resp
      end) raw).

Definition set (key value : jsstr) (worm : option bool) : call () :=
  command (SET key value (default false worm)) expectOk.
Definition del (key : jsstr) : call () := command (DEL key) expectOk.
Definition pub (channel message : jsstr) : call () := command (PUB channel message) expectOk.
Definition status : call jsstr := command STATUS expectValue.
Definition clusterStatus : call jsstr := command CLUSTER_STATUS expectValue.
Definition clusterPeers : call jsstr := command CLUSTER_PEERS expectValue.
Definition save : call () := Call encodeSave (decoded expectOk).

Definition exec (procedure : jsstr) (args : list arg) : call jsstr :=
  command (EXEC procedure args) (λ resp,
    match resp with
    | error m => Throw (WormServerError m)
    | bulk v => Ok v
    | ok => Ok []
    | _ => unexpected (js "EXEC ") resp
    end).

(** ** Vectors *)

(** [now] stands for [BigInt(Date.now())]. *)
Definition vinsert (now : Z) (key : jsstr) (vec : bytes) (worm : option bool)
    (namespace : option jsstr) (metric : option Metric) (timestamp : option Z)
    (async : option bool) : call () :=
  command (VINSERT key vec (default true worm) (default (js "vec:") namespace)
    (default cosine metric) (default now timestamp) (default false async)) expectOk.

Definition vbulkinsert (now : Z) (items : list (jsstr * bytes * option Z)) (worm : option bool)
    (namespace : option jsstr) (metric : option Metric) (async : option bool) : call () :=
  command (VBULKINSERT (default (js "vec:") namespace) (default cosine metric)
    (default false worm) (default false async)
    ((λ '(key, vec, timestamp), BulkItem key vec (default now timestamp)) <$> items)) expectOk.

Definition vdelete (key namespace : jsstr) : call () :=
  Call (encodeVdelete key namespace) (decoded expectOk).

(** The positional options of [vsearch], as the strings [String] makes of
    them. *)
Record VsearchOptions := Vsearch {
  vs_namespace : option jsstr; vs_metric : option Metric; vs_decay : option jsstr;
  vs_mode : option jsstr; vs_decayTauHours : option jsstr }.

Definition vsearch_defaults : list jsstr :=
  [js "vec:"; js "cosine"; js "0"; js "auto"; js "168"].

Definition vsearch_values (opts : VsearchOptions) : list (option jsstr) :=
  [vs_namespace opts; metric_name <$> vs_metric opts; vs_decay opts; vs_mode opts;
   vs_decayTauHours opts].

(** [for (...) if (values[i] != null) count = i + 1] *)
Fixpoint last_given (i count : nat) (values : list (option jsstr)) : nat :=
  match values with
  | [] => count
  | Some _ :: r => last_given (S i) (S i) r
  | None :: r => last_given (S i) count r
  end.

Definition vsearch_args (queryKey : jsstr) (topK : Z) (opts : VsearchOptions) : list jsstr :=
  let values := vsearch_values opts in
  let count := last_given 0 0 values in
  [queryKey; show topK] ++
  take count ((λ '(v, d), default d v) <$> zip values vsearch_defaults).

(** ** Authentication *)

(** [decodeBase64]: the byte string [atob] returns, byte by byte. *)
Definition decodeBase64 (b64 : jsstr) : res bytes :=
  bin ← atob b64;
  mret (foldl (λ out i, put_byte out (Z.of_nat i) (default 0 (bin !! i)))
    (new_u8 (len bin)) (seq 0 (length bin))).

Inductive token := TokenBytes (b : bytes) | TokenText (s : jsstr).

Definition auth_token (t : token) : res bytes :=
  match t with TokenBytes b => Ok b | TokenText s => decodeBase64 s end.

Definition auth (t : token) : call () :=
  Call (b ← auth_token t; encodeAuth b) (decoded (λ resp,
    match resp with error m => Throw (WormServerError m) | _ => Ok () end)).

(** ** Procedures that answer JSON *)

Section Json.

Definition execJson (procedure : jsstr) (args : list arg) : call json :=
  let w := exec procedure args in
  Call (frame w) (λ raw,
    text ← reply w raw;
    match JSON_parse text with
    | Some v => Ok v
    | None => Throw (WormServerError
        (procedure ++ js ": expected JSON result, got: " ++ slice text 0 128))
    end).

(** A property of the result, as the wrapper returns it. *)
Definition project (name : jsstr) (w : call json) : call (option json) :=
  Call (frame w) (λ raw, v ← reply w raw; prop v name).

Definition strs (l : list jsstr) : list arg := ArgStr <$> l.

Definition vsearch (queryKey : jsstr) (topK : Z) (opts : VsearchOptions) : call json :=
  execJson (js "vsearch") (strs (vsearch_args queryKey topK opts)).

Inductive mint_mode := read | write | readwrite.
Definition mint_mode_name (m : mint_mode) : jsstr :=
  match m with read => js "read" | write => js "write" | readwrite => js "readwrite" end.

Definition mint_args (namespace : jsstr) (ttlS : option jsstr) (subject : option jsstr)
    (mode : option mint_mode) : res (list jsstr) :=
  let args := [namespace] in
  let args := match ttlS with Some t => args ++ [t] | None => args end in
  args ← match subject, ttlS with
         | Some _, None =>
             Throw (Error (js "authMintScoped: subject requires ttlS (positional args)"))
         | Some s, Some _ => Ok (args ++ [s])
         | None, _ => Ok args
         end;
  match mode, subject with
  | Some _, None => Throw (Error (js "authMintScoped: mode requires subject (positional args)"))
  | Some m, Some _ => Ok (args ++ [mint_mode_name m])
  | None, _ => Ok args
  end.

Definition authMintScoped (namespace : jsstr) (ttlS subject : option jsstr)
    (mode : option mint_mode) : call (option json) :=
  match mint_args namespace ttlS subject mode with
  | Throw e => Call (Throw e) (λ _, Throw e)
  | Ok args => project (js "token") (execJson (js "auth_mint_scoped") (strs args))
  end.

(** ** Append log *)

Definition opt_arg (key : jsstr) (v : option jsstr) : list jsstr :=
  match v with Some x => [key ++ x] | None => [] end.

Definition append (logId : jsstr) (payload : arg) (tsMs : option jsstr)
    (attachmentHashesHex : option (list jsstr)) : call json :=
  execJson (js "append_log_append")
    ([ArgStr logId; payload] ++ strs (opt_arg (js "ts=") tsMs) ++
     strs (default [] attachmentHashesHex)).

Definition verify (logId : jsstr) : call json :=
  execJson (js "append_log_verify") (strs [logId]).

Definition mmrProof (logId : jsstr) (seq : Z) : call json :=
  execJson (js "append_log_mmr_proof") (strs [logId; show seq]).

Definition mmrVerify (recordHashHex rootHex proofHex : jsstr) : call (option json) :=
  project (js "valid")
    (execJson (js "append_log_mmr_verify") (strs [recordHashHex; rootHex; proofHex])).

Record CheckpointOptions := Checkpoint {
  cp_fromSeq : Z; cp_toSeq : Z; cp_creatorPubkeyHex : jsstr;
  cp_skHex : option jsstr; cp_sigHex : option jsstr; cp_createdAtMs : option jsstr;
  cp_ingestedAtMs : option jsstr; cp_prevHex : option jsstr; cp_extHex : option jsstr }.

Definition checkpoint_args (logId : jsstr) (o : CheckpointOptions) : res (list jsstr) :=
  match cp_skHex o, cp_sigHex o with
  | None, None => Throw (Error (js "appendLog.checkpoint: one of skHex or sigHex is required"))
  | sk, sig =>
      Ok ([logId; show (cp_fromSeq o); show (cp_toSeq o); cp_creatorPubkeyHex o] ++
          match sk with
          | Some k => [js "sk=" ++ k]
          | None => [js "sig=" ++ default (js "undefined") sig]
          end ++
          opt_arg (js "created_at_ms=") (cp_createdAtMs o) ++
          opt_arg (js "ingested_at_ms=") (cp_ingestedAtMs o) ++
          opt_arg (js "prev=") (cp_prevHex o) ++ opt_arg (js "ext=") (cp_extHex o))
  end.

Definition checkpoint (logId : jsstr) (o : CheckpointOptions) : call json :=
  match checkpoint_args logId o with
  | Throw e => Call (Throw e) (λ _, Throw e)
  | Ok args => execJson (js "append_log_checkpoint") (strs args)
  end.

Definition proofBundle (logId : jsstr) (fromSeq toSeq : Z) (checkpointHashHex : jsstr) : call json :=
  execJson (js "append_log_proof_bundle")
    (strs [logId; show fromSeq; show toSeq; checkpointHashHex]).

Definition proofVerify (logId : jsstr) (seq : Z) (recordHashHex checkpointHashHex proofHex : jsstr)
    : call (option json) :=
  project (js "valid") (execJson (js "append_log_proof_verify")
    (strs [logId; show seq; recordHashHex; checkpointHashHex; proofHex])).

Record WitnessOptions := Witness {
  wi_witnessPubkeyHex : option jsstr; wi_skHex : option jsstr; wi_sigHex : option jsstr;
  wi_observedAtMs : option jsstr; wi_extHex : option jsstr }.

Definition witness_args (logId checkpointHashHex : jsstr) (o : WitnessOptions) : list jsstr :=
  [logId; checkpointHashHex] ++
  match wi_witnessPubkeyHex o with Some k => [k] | None => [] end ++
  match wi_skHex o with
  | Some k => [js "sk=" ++ k]
  | None => opt_arg (js "sig=") (wi_sigHex o)
  end ++
  opt_arg (js "observed_at_ms=") (wi_observedAtMs o) ++ opt_arg (js "ext=") (wi_extHex o).

Definition witness (logId checkpointHashHex : jsstr) (o : WitnessOptions) : call json :=
  execJson (js "append_log_witness") (strs (witness_args logId checkpointHashHex o)).

Definition witnessRequest (logId checkpointHashHex : jsstr) : call (option json) :=
  project (js "requested")
    (execJson (js "append_log_witness_request") (strs [logId; checkpointHashHex])).

Definition witnessImport (logId checkpointHashHex canonicalWitnessHex : jsstr) : call json :=
  execJson (js "append_log_witness_import") (strs [logId; checkpointHashHex; canonicalWitnessHex]).

Definition witnessVerify (logId checkpointHashHex witnessPubkeyHex : jsstr) : call (option json) :=
  project (js "valid")
    (execJson (js "append_log_witness_verify") (strs [logId; checkpointHashHex; witnessPubkeyHex])).
End Json.
