(* ===== verification/WormDBApiTheorems.v ===== *)
(** * The typed wrappers say what they mean

    The arguments the wrappers build, read back by the procedures they call
    ([ServerArgs]: the option parsing of [src/procedures/vsearch.zig],
    [auth_mint_scoped.zig] and [append_log.zig]), the results they return for
    each response, and base64. *)
From S2P Require Import Prelude Utf8 TypedArray JsText Command Protocol Wire Base64 Json WormDBApi.

Module Api.

(** ** How the procedures read their arguments *)

(** [vsearch.execute]: positional, each with a default. *)
Definition server_vsearch (args : list jsstr) : option (jsstr * jsstr * list jsstr) :=
  query ← args !! 0%nat;
  top_k ← args !! 1%nat;
  Some (query, top_k,
    [default (js "vec:") (args !! 2%nat); default (js "cosine") (args !! 3%nat);
     default (js "0") (args !! 4%nat); default (js "auto") (args !! 5%nat);
     default (js "168") (args !! 6%nat)]).

(** [auth_mint_scoped.execute]: positional and optional. *)
Definition server_mint (args : list jsstr) : option (jsstr * list (option jsstr)) :=
  ns ← args !! 0%nat;
  Some (ns, [args !! 1%nat; args !! 2%nat; args !! 3%nat]).

(** The tagged options of [append_log.zig]: the first prefix that matches
    names the option, an argument that matches none is an error, a repeated
    option takes its last value. *)
Fixpoint tag_of (tags : list jsstr) (a : jsstr) : option (nat * jsstr) :=
  match tags with
  | [] => None
  | t :: tags =>
      if startsWith a t then Some (0%nat, drop (length t) a)
      else '(i, v) ← tag_of tags a; Some (S i, v)
  end.

Fixpoint server_tagged (tags : list jsstr) (found : list (option jsstr)) (args : list jsstr)
    : option (list (option jsstr)) :=
  match args with
  | [] => Some found
  | a :: args => '(i, v) ← tag_of tags a; server_tagged tags (<[i := Some v]> found) args
  end.

Definition checkpoint_tags : list jsstr :=
  [js "created_at_ms="; js "ingested_at_ms="; js "prev="; js "sig="; js "sk="; js "ext="].

(** The positional arguments, then created, ingested, prev, sig, sk, ext;
    exactly one of sig and sk is required. *)
Definition server_checkpoint (args : list jsstr) : option (list jsstr * list (option jsstr)) :=
  match args with
  | log_id :: from_seq :: to_seq :: creator :: options =>
      found ← server_tagged checkpoint_tags (replicate 6 None) options;
      match found !! 3%nat, found !! 4%nat with
      | Some (Some _), Some None | Some None, Some (Some _) =>
          Some ([log_id; from_seq; to_seq; creator], found)
      | _, _ => None
      end
  | _ => None
  end.

Definition witness_tags : list jsstr :=
  [js "observed_at_ms="; js "sig="; js "sk="; js "ext="].

Definition is_witness_option (a : jsstr) : bool := existsb (startsWith a) witness_tags.

Definition server_witness (args : list jsstr)
    : option (jsstr * jsstr * option jsstr * list (option jsstr)) :=
  match args with
  | log_id :: hash :: rest =>
      let '(identity, options) :=
        match rest with
        | a :: r => if is_witness_option a then (None, rest) else (Some a, r)
        | [] => (None, [])
        end in
      found ← server_tagged witness_tags (replicate 4 None) options;
      Some (log_id, hash, identity, found)
  | _ => None
  end.

(** ** Options reach the server *)

(** The arguments [vsearch] sends are read by the server as the options
    the caller gave, the skipped ones as the server's own defaults. *)
Theorem vsearch_options_reach_server queryKey topK opts :
  server_vsearch (vsearch_args queryKey topK opts) =
  Some (queryKey, show topK,
    [default (js "vec:") (vs_namespace opts);
     default (js "cosine") (metric_name <$> vs_metric opts);
     default (js "0") (vs_decay opts); default (js "auto") (vs_mode opts);
     default (js "168") (vs_decayTauHours opts)]).
Proof. by destruct opts as [[] [] [] [] []]. Qed.

(** [authMintScoped] refuses exactly the option combinations its
    positional arguments cannot express, and otherwise the server reads the
    options the caller gave. *)
Theorem mint_options_reach_server namespace ttlS subject mode :
  match mint_args namespace ttlS subject mode with
  | Throw _ => (is_Some subject ∧ ttlS = None) ∨ (is_Some mode ∧ subject = None)
  | Ok args => server_mint args =
      Some (namespace, [ttlS; subject; mint_mode_name <$> mode])
  end.
Proof.
  destruct ttlS, subject, mode; try done; cbn; eauto.
Qed.

(** [appendLog.checkpoint] demands a key or a signature, and otherwise
    the server reads exactly the options the caller gave, the key winning
    over a signature when both are given. *)
Theorem checkpoint_options_reach_server logId o :
  match checkpoint_args logId o with
  | Throw _ => cp_skHex o = None ∧ cp_sigHex o = None
  | Ok args => server_checkpoint args =
      Some ([logId; show (cp_fromSeq o); show (cp_toSeq o); cp_creatorPubkeyHex o],
        [cp_createdAtMs o; cp_ingestedAtMs o; cp_prevHex o;
         (if cp_skHex o then None else cp_sigHex o); cp_skHex o; cp_extHex o])
  end.
Proof.
  destruct o as [from to creator sk sig created ingested prev ext]. unfold checkpoint_args.
  cbn [cp_fromSeq cp_toSeq cp_creatorPubkeyHex cp_skHex cp_sigHex cp_createdAtMs
    cp_ingestedAtMs cp_prevHex cp_extHex].
  generalize (show from), (show to). intros f t.
  destruct sk, sig, created, ingested, prev, ext; by try split.
Qed.

(** The server reads exactly the witness options the caller gave, as long
    as the public key does not look like an option. *)
Theorem witness_options_reach_server logId hash o :
  (∀ k, wi_witnessPubkeyHex o = Some k → is_witness_option k = false) →
  server_witness (witness_args logId hash o) =
  Some (logId, hash, wi_witnessPubkeyHex o,
    [wi_observedAtMs o; (if wi_skHex o then None else wi_sigHex o); wi_skHex o; wi_extHex o]).
Proof.
  intros H. destruct o as [[k|] sk sig obs ext].
  - specialize (H k eq_refl). unfold witness_args, server_witness.
    cbn [wi_witnessPubkeyHex app]. rewrite H. by destruct sk, sig, obs, ext.
  - by destruct sk, sig, obs, ext.
Qed.

(** ** Base64 tokens *)

(** Copying a byte string into a typed array. *)
Lemma copy_bytes b :
  Forall is_byte b →
  foldl (λ out i, put_byte out (Z.of_nat i) (default 0 (b !! i))) (new_u8 (len b))
    (seq 0 (length b)) = b.
Proof.
  intros Hb. rewrite filling_start.
  assert (∀ n, (n ≤ length b)%nat →
    foldl (λ out i, put_byte out (Z.of_nat i) (default 0 (b !! i))) (filling (len b) [])
      (seq 0 n) = filling (len b) (take n b)) as H.
  { induction n as [|n IH]; intros Hn; [done|].
    rewrite seq_S, foldl_app, IH by lia. cbn [foldl Nat.add].
    destruct (lookup_lt_is_Some_2 b n) as [x Hx]; [lia|].
    rewrite put_byte_filling by (rewrite len_take; unfold len; lia).
    rewrite Hx, (take_S_r _ _ x Hx). cbn [default]. do 3 f_equal.
    apply Z.mod_small. eapply Forall_lookup in Hx; [|exact Hb]. exact Hx. }
  rewrite H by done. rewrite take_ge by done. by apply filling_done.
Qed.

(** [decodeBase64] inverts the standard encoding of every byte string,
    so a token in the base64 form the server mints authenticates as its raw
    bytes. *)
Theorem decodeBase64_encode b :
  Forall is_byte b →
  decodeBase64 (b64_encode b) = Ok b ∧
  frame (auth (TokenText (b64_encode b))) = frame (auth (TokenBytes b)).
Proof.
  intros Hb. assert (decodeBase64 (b64_encode b) = Ok b) as E.
  { unfold decodeBase64, atob. rewrite b64_trim_encode by done.
    rewrite mapM_digits by by apply b64_digits_range. cbn [mbind option_bind].
    rewrite b64_groups_digits by done. cbn [mbind res_bind]. by rewrite copy_bytes. }
  split; [done|]. unfold auth. cbn [frame auth_token]. by rewrite E.
Qed.

Lemma decodeBase64_encode_witness : decodeBase64 (js "AQL/") = Ok [1; 2; 255].
Proof. apply (decodeBase64_encode [1; 2; 255]). repeat constructor; lia. Defined.

Lemma witness_options_reach_server_witness :
  server_witness (witness_args (js "log") (js "00") (Witness (Some (js "ab")) (Some (js "cd")) None None None))
  = Some (js "log", js "00", Some (js "ab"), [None; None; Some (js "cd"); None]).
Proof.
  apply (witness_options_reach_server (js "log") (js "00")
    (Witness (Some (js "ab")) (Some (js "cd")) None None None)).
  intros k [= <-]. reflexivity.
Defined.
End Api.
