(* ===== verification/Events.v ===== *)
(** * The iterator of [WormDB.events] ([apps/bun/src/lib/wormdb.ts])

    The bounded buffer between event delivery and the consumer: the local
    variables of [events], with one function per closure.  Calls of [next]
    and the promises they return are numbered. *)
From S2P Require Import Prelude JsText.

Section Events.
Context {E : Type}.

Record iterator := Iterator {
  limit : Z;
  queue : list E;
  droppedCount : Z;
  wake : option nat;
  finished : bool;
  woken : list nat;
  results : gmap nat (option E);
}.

(** [limit = Math.max(1, opts.queueLimit ?? 1024)] *)
Definition events (queueLimit : option Z) : iterator :=
  Iterator (Z.max 1 (default 1024 queueLimit)) [] 0 None false [] ∅.

(** [wake?.()]: the call of [next] that waits is scheduled. *)
Definition call_wake (it : iterator) : iterator :=
  Iterator (limit it) (queue it) (droppedCount it) (wake it) (finished it)
    (woken it ++ match wake it with Some id => [id] | None => [] end) (results it).

Definition handler (evt : E) (it : iterator) : iterator :=
  let q := queue it ++ [evt] in
  let '(q, d) := if limit it <? len q then (tail q, droppedCount it + 1)
                 else (q, droppedCount it) in
  call_wake (Iterator (limit it) q d (wake it) (finished it) (woken it) (results it)).

(** One round of the loop of [next], for call [id]; [closed] is whether the
    client is closed.  A result [None] is the end of the iteration. *)
Definition next (closed : bool) (id : nat) (it : iterator) : iterator :=
  match queue it with
  | evt :: q =>
      Iterator (limit it) q (droppedCount it) (wake it) (finished it) (woken it)
        (<[id := Some evt]> (results it))
  | [] =>
      if finished it || closed
      then Iterator (limit it) [] (droppedCount it) (wake it) (finished it) (woken it)
             (<[id := None]> (results it))
      else Iterator (limit it) [] (droppedCount it) (Some id) (finished it) (woken it) (results it)
  end.

(** A woken call goes round again. *)
Definition resume (closed : bool) (it : iterator) : iterator :=
  match woken it with
  | [] => it
  | id :: rest =>
      next closed id (Iterator (limit it) (queue it) (droppedCount it) None (finished it) rest
                        (results it))
  end.

(** [finish], up to the removal of the handler. *)
Definition finish (it : iterator) : iterator :=
  if finished it then it
  else call_wake (Iterator (limit it) (queue it) (droppedCount it) (wake it) true (woken it)
                    (results it)).

(** ** One consumer

    Events arrive and the consumer asks for the next one when there is one
    buffered. *)
Inductive op := Push (evt : E) | Take (id : nat).

(** The state, and the events handed to the consumer so far. *)
Definition op_step (st : iterator * list E) (o : op) : iterator * list E :=
  let '(it, got) := st in
  match o with
  | Push evt => (handler evt it, got)
  | Take id => (next false id it, got ++ take 1 (queue it))
  end.

Definition op_run (os : list op) (it : iterator) : iterator * list E := foldl op_step (it, []) os.

Definition pushed (os : list op) : list E := omap (λ o, match o with Push e => Some e | _ => None end) os.

Record buffered (it0 it : iterator) (got sent : list E) : Prop := Buffered {
  bf_limit : limit it = limit it0 ∧ 1 ≤ limit it;
  bf_bound : len (queue it) ≤ limit it;
  bf_count : len sent = len got + droppedCount it + len (queue it);
  bf_dropped : 0 ≤ droppedCount it;
  bf_order : got ++ queue it `sublist_of` sent;
}.

Lemma push_queue evt it :
  let q := queue it ++ [evt] in
  let q' := queue (handler evt it) in
  (limit it < len q ∧ q' = tail q ∧ droppedCount (handler evt it) = droppedCount it + 1) ∨
  (len q ≤ limit it ∧ q' = q ∧ droppedCount (handler evt it) = droppedCount it).
Proof.
  cbv zeta. unfold handler. case_ztest; [left|right]; done.
Qed.

Lemma op_buffered it0 it got sent o :
  buffered it0 it got sent →
  let '(it', got') := op_step (it, got) o in
  buffered it0 it' got' (sent ++ pushed [o]).
Proof.
  intros [[Hl1 Hl2] Hb Hc Hd Ho]. destruct o as [evt|id]; cbn.
  - assert (got ++ queue it ++ [evt] `sublist_of` sent ++ [evt]) as Hs.
    { rewrite app_assoc. by apply sublist_app. }
    assert (limit (handler evt it) = limit it) as Hl by (unfold handler; by case_ztest).
    assert (len (queue it ++ [evt]) = len (queue it) + 1) as Hq by len_tac.
    destruct (push_queue evt it) as [(H1 & H2 & H3)|(H1 & H2 & H3)];
      (split; rewrite ?H2, ?H3, ?Hl; [done|..]); rewrite ?len_app; change (len [evt]) with 1.
    + destruct (queue it ++ [evt]) as [|x r]; cbn [tail]; [unfold len in *; cbn in *; lia|].
      rewrite len_cons in Hq. lia.
    + destruct (queue it ++ [evt]) as [|x r]; cbn [tail]; [unfold len in *; cbn in *; lia|].
      rewrite len_cons in Hq. lia.
    + lia.
    + etrans; [|exact Hs]. apply sublist_app; [done|].
      destruct (queue it ++ [evt]); cbn; [done|by constructor].
    + lia.
    + change (len [evt]) with 1. lia.
    + done.
    + done.
  - rewrite app_nil_r. unfold next. destruct (queue it) as [|e q] eqn:Eq; cbn.
    + rewrite app_nil_r. destruct (finished it || false); split; cbn; rewrite ?Eq in *; try done;
        by rewrite app_nil_r in *.
    + split; cbn; rewrite ?len_app, ?len_cons in *; try done; try len_tac.
      by rewrite <- app_assoc.
Qed.

(** C36: the event buffer: it never holds more than its limit; every event is
    either handed over, dropped or still buffered; [dropped] counts the
    dropped ones; and what is handed over comes in order. *)
Theorem events_bounded_in_order queueLimit os :
  let '(it, got) := op_run os (events queueLimit) in
  len (queue it) ≤ Z.max 1 (default 1024 queueLimit) ∧
  len (pushed os) = len got + droppedCount it + len (queue it) ∧
  got ++ queue it `sublist_of` pushed os ∧
  (droppedCount it = 0 → got ++ queue it = pushed os).
Proof.
  assert (∀ it got sent, buffered (events queueLimit) it got sent →
    let '(it', got') := foldl op_step (it, got) os in
    buffered (events queueLimit) it' got' (sent ++ pushed os)) as H.
  { induction os as [|o os IH]; intros it got sent Hb; cbn [foldl].
    - by rewrite app_nil_r.
    - pose proof (op_buffered _ _ _ _ o Hb) as Ho. destruct (op_step (it, got) o) as [it1 got1].
      specialize (IH it1 got1 (sent ++ pushed [o]) Ho).
      destruct (foldl op_step (it1, got1) os). rewrite <- app_assoc in IH.
      unfold pushed in *. by rewrite <- omap_app in IH. }
  specialize (H (events queueLimit) [] []). unfold op_run.
  destruct (foldl op_step _ os) as [it got]. destruct H as [[Hl1 Hl2] Hb Hc Hd Ho].
  { split; cbn -[Z.max]; try done; [split; [done|lia]|]. change (len []) with 0. lia. }
  cbn [app] in *. split_and!; [by rewrite Hl1 in Hb|done|done|].
  intros E0. apply sublist_all; [done|]. rewrite length_app. unfold len in *. lia.
Qed.
End Events.
