(* ===== verification/BrowserWire.v ===== *)
(** * The browser's binary protocol ([apps/browser/src/wire.ts])

    One WebSocket message is one frame, so there is no frame reader; the
    encoders mirror those of the Bun client without its payload limit.  The
    theorems state the agreement of the two protocol modules. *)
From S2P Require Import Prelude Utf8 TypedArray JsText Command Protocol Wire.

Inductive CMD :=
| CMD_GET | CMD_SET | CMD_DEL | CMD_STATUS | CMD_CLUSTER_STATUS | CMD_SUB | CMD_UNSUB
| CMD_PUB | CMD_EXEC | CMD_CLUSTER_PEERS | CMD_SAVE | CMD_AUTH.

Definition cmd_code (c : CMD) : Z :=
  match c with
  | CMD_GET => 0x01 | CMD_SET => 0x02 | CMD_DEL => 0x03 | CMD_STATUS => 0x04
  | CMD_CLUSTER_STATUS => 0x05 | CMD_SUB => 0x06 | CMD_UNSUB => 0x07 | CMD_PUB => 0x08
  | CMD_EXEC => 0x09 | CMD_CLUSTER_PEERS => 0x0A | CMD_SAVE => 0x0B | CMD_AUTH => 0x0C
  end.

Definition RESP_OK : Z := 0x00.
Definition RESP_VALUE : Z := 0x01.
Definition RESP_NULL : Z := 0x02.
Definition RESP_ERR : Z := 0x03.
Definition RESP_EVENT : Z := 0x04.

Inductive BrowserResponse :=
| b_ok
| b_error (message : jsstr)
| b_null
| b_value (data : jsstr)
| b_event (channel message : jsstr).

#[export] Instance BrowserResponse_eq_dec : EqDecision BrowserResponse.
Proof. solve_decision. Defined.

(** [resp.type] *)
Definition b_type (r : BrowserResponse) : jsstr :=
  match r with
  | b_ok => js "ok" | b_error _ => js "error" | b_null => js "null"
  | b_value _ => js "value" | b_event _ _ => js "event"
  end.

(** ** Encoding *)

Definition u8 (s : jsstr) : bytes := text_encode s.
Definition str (b : bytes) : jsstr := text_decode b.
Definition writeU32BE (target : bytes) (offset value : Z) : res bytes := setUint32 target offset value.
Definition readU32BE (source : bytes) (offset : Z) : res Z := getUint32 source offset.

Definition frame (code : CMD) (payload : bytes) : res bytes :=
  let out := new_u8 (5 + len payload) in
  let out := put_byte out 0 (cmd_code code) in
  out ← writeU32BE out 1 (len payload);
  set_at out 5 payload.

Definition lenPrefixedBytes (data : bytes) : res bytes :=
  let out := new_u8 (4 + len data) in
  out ← writeU32BE out 0 (len data);
  set_at out 4 data.

Definition lenPrefixed (s : jsstr) : res bytes :=
  let data := u8 s in
  let out := new_u8 (4 + len data) in
  out ← writeU32BE out 0 (len data);
  set_at out 4 data.

Definition encodeGet (key : jsstr) : res bytes := p ← lenPrefixed key; frame CMD_GET p.
Definition encodeDel (key : jsstr) : res bytes := p ← lenPrefixed key; frame CMD_DEL p.
Definition encodeStatus : res bytes := frame CMD_STATUS (new_u8 0).
Definition encodeSub (channel : jsstr) : res bytes := p ← lenPrefixed channel; frame CMD_SUB p.
Definition encodeUnsub (channel : jsstr) : res bytes := p ← lenPrefixed channel; frame CMD_UNSUB p.

Definition encodeSet (key value : jsstr) (worm : bool) : res bytes :=
  let keyBuf := u8 key in
  let valBuf := u8 value in
  let payload := new_u8 (1 + 4 + len keyBuf + 4 + len valBuf) in
  let payload := put_byte payload 0 (if worm then 0x01 else 0x00) in
  let off := 1 in
  payload ← writeU32BE payload off (len keyBuf);
  let off := off + 4 in
  payload ← set_at payload off keyBuf;
  let off := off + len keyBuf in
  payload ← writeU32BE payload off (len valBuf);
  let off := off + 4 in
  payload ← set_at payload off valBuf;
  frame CMD_SET payload.

Definition encodePub (channel message : jsstr) : res bytes :=
  let chBuf := u8 channel in
  let msgBuf := u8 message in
  let payload := new_u8 (4 + len chBuf + 4 + len msgBuf) in
  let off := 0 in
  payload ← writeU32BE payload off (len chBuf);
  let off := off + 4 in
  payload ← set_at payload off chBuf;
  let off := off + len chBuf in
  payload ← writeU32BE payload off (len msgBuf);
  let off := off + 4 in
  payload ← set_at payload off msgBuf;
  frame CMD_PUB payload.

(** [for (const a of argBufs)] *)
Fixpoint exec_args (payload : bytes) (off : Z) (argBufs : list bytes) : res bytes :=
  match argBufs with
  | [] => Ok payload
  | a :: rest =>
      payload ← writeU32BE payload off (len a);
      let off := off + 4 in
      payload ← set_at payload off a;
      exec_args payload (off + len a) rest
  end.

Definition encodeExec (procedure : jsstr) (args : list jsstr) : res bytes :=
  let procBuf := u8 procedure in
  let argBufs := u8 <$> args in
  let size := fold_left (λ size a, size + (4 + len a)) argBufs (4 + len procBuf + 4) in
  let payload := new_u8 size in
  let off := 0 in
  payload ← writeU32BE payload off (len procBuf);
  let off := off + 4 in
  payload ← set_at payload off procBuf;
  let off := off + len procBuf in
  payload ← writeU32BE payload off (len argBufs);
  let off := off + 4 in
  payload ← exec_args payload off argBufs;
  frame CMD_EXEC payload.

Definition encodeAuth (token : bytes) : res bytes := p ← lenPrefixedBytes token; frame CMD_AUTH p.

(** ** Decoding *)

(** [code.toString(16)] of a byte *)
Definition hex_char (d : Z) : Z := if d <? 10 then 48 + d else 87 + d.
Definition show_hex (c : Z) : jsstr :=
  if c <? 16 then [hex_char c] else [hex_char (c / 16); hex_char (c mod 16)].

Definition b_decode_event (payload : bytes) : res BrowserResponse :=
  let malformed := b_error (js "malformed event") in
  if len payload <? 8 then Ok malformed else
  chLen ← readU32BE payload 0;
  let chStart := 4 in
  let chEnd := chStart + chLen in
  if len payload <? chEnd + 4 then Ok malformed else
  msgLen ← readU32BE payload chEnd;
  let msgStart := chEnd + 4 in
  let msgEnd := msgStart + msgLen in
  if len payload <? msgEnd then Ok malformed
  else Ok (b_event (str (slice payload chStart chEnd)) (str (slice payload msgStart msgEnd))).

Definition b_decodeResponse (data : bytes) : res BrowserResponse :=
  if len data <? 5 then Ok (b_error (js "frame too short")) else
  let code := byte_at data 0 in
  payloadLen ← readU32BE data 1;
  let payload := slice data 5 (5 + payloadLen) in
  if code =? RESP_OK then Ok b_ok
  else if code =? RESP_VALUE then Ok (b_value (str payload))
  else if code =? RESP_NULL then Ok b_null
  else if code =? RESP_ERR then Ok (b_error (str payload))
  else if code =? RESP_EVENT then b_decode_event payload
  else Ok (b_error (js "unknown response code: 0x" ++ show_hex code)).

(** ** Agreement with the Bun client *)

(** The commands the browser client has, with their encoders. *)
Inductive BrowserCommand :=
| BGet (key : jsstr) | BSet (key value : jsstr) (worm : bool) | BDel (key : jsstr) | BStatus
| BSub (channel : jsstr) | BUnsub (channel : jsstr) | BPub (channel message : jsstr)
| BExec (procedure : jsstr) (args : list jsstr).

Definition b_encode (c : BrowserCommand) : res bytes :=
  match c with
  | BGet k => encodeGet k
  | BSet k v worm => encodeSet k v worm
  | BDel k => encodeDel k
  | BStatus => encodeStatus
  | BSub ch => encodeSub ch
  | BUnsub ch => encodeUnsub ch
  | BPub ch m => encodePub ch m
  | BExec p args => encodeExec p args
  end.

(** The same command in the Bun client's type. *)
Definition bun_command (c : BrowserCommand) : ParsedCommand :=
  match c with
  | BGet k => GET k | BSet k v worm => SET k v worm | BDel k => DEL k | BStatus => STATUS
  | BSub ch => SUB ch None | BUnsub ch => UNSUB ch | BPub ch m => PUB ch m
  | BExec p args => EXEC p (ArgStr <$> args)
  end.

Definition bun_response (r : WormResponse) : BrowserResponse :=
  match r with
  | ok => b_ok | error m => b_error m | null => b_null | bulk v => b_value v
  | event ch m => b_event ch m
  end.

Lemma frame_eq c p : frame c p = Ok (frame_of (cmd_code c) p).
Proof.
  unfold frame, writeU32BE. note_len. fill.
  rewrite filling_done by len_tac. rewrite <- app_assoc. unfold frame_of. cbn [app].
  by destruct c.
Qed.

Lemma lenPrefixedBytes_eq d : lenPrefixedBytes d = Ok (lp d).
Proof. unfold lenPrefixedBytes, writeU32BE. note_len. fill. by rewrite filling_done by len_tac. Qed.

Lemma lenPrefixed_eq s : lenPrefixed s = Ok (lp (u8 s)).
Proof. apply lenPrefixedBytes_eq. Qed.

Lemma encodePub_eq ch m :
  encodePub ch m = Ok (frame_of 0x08 (lp (u8 ch) ++ lp (u8 m))).
Proof.
  unfold encodePub, writeU32BE. cbv zeta. note_len. fill.
  rewrite frame_eq, filling_done by len_tac. unfold lp. by rewrite <- !app_assoc.
Qed.

Lemma encodeSet_eq k v w :
  encodeSet k v w = Ok (frame_of 0x02 ((if w then 1 else 0) :: lp (u8 k) ++ lp (u8 v))).
Proof.
  unfold encodeSet, writeU32BE. cbv zeta. note_len. fill.
  rewrite frame_eq, filling_done by len_tac. unfold lp. rewrite <- !app_assoc. by destruct w.
Qed.

Lemma exec_args_eq n pre off args :
  off = len pre → len pre + len (args ≫= lp) ≤ n →
  exec_args (filling n pre) off args = Ok (filling n (pre ++ (args ≫= lp))).
Proof.
  revert pre off. induction args as [|a args IH]; intros pre off -> Hn; cbn [exec_args].
  - by rewrite app_nil_r.
  - rewrite bind_cons, len_app, len_lp in Hn. note_len. unfold writeU32BE. fill.
    rewrite IH by len_tac. rewrite bind_cons. unfold lp at 3. by rewrite <- !app_assoc.
Qed.

Lemma encodeExec_eq p args :
  encodeExec p args =
  Ok (frame_of 0x09 (lp (u8 p) ++ be_bytes 4 (len args) ++ ((u8 <$> args) ≫= lp))).
Proof.
  unfold encodeExec, writeU32BE. cbv zeta.
  change (fold_left _ _ _) with (sum_sizes (λ a, 4 + len a) (u8 <$> args) (4 + len (u8 p) + 4)).
  rewrite exec_size. note_len. fill. rewrite exec_args_eq by len_tac. cbn [mbind res_bind].
  rewrite frame_eq, filling_done by len_tac. rewrite len_fmap. unfold lp at 2.
  by rewrite <- !app_assoc.
Qed.

(** C37: the two clients speak the same protocol: the frame the browser sends
    for a command is the one the Bun client sends, except that the browser
    does not refuse a payload above the limit. *)
Theorem browser_encodes_as_bun c :
  b_encode c = Ok (frame_of (command_code (payload_of (bun_command c)).1)
                            (payload_of (bun_command c)).2) ∧
  encodeCommandFrame (bun_command c) =
    if MAX_PAYLOAD <? len (payload_of (bun_command c)).2
    then Throw (PayloadTooLargeError (len (payload_of (bun_command c)).2))
    else b_encode c.
Proof.
  assert (b_encode c = Ok (frame_of (command_code (payload_of (bun_command c)).1)
    (payload_of (bun_command c)).2)) as E.
  { destruct c; cbn [b_encode bun_command payload_of fst snd];
      unfold encodeGet, encodeDel, encodeStatus, encodeSub, encodeUnsub;
      rewrite ?lenPrefixed_eq; cbn [mbind res_bind]; rewrite ?frame_eq; try done.
    - apply encodeSet_eq.
    - by rewrite app_nil_r.
    - apply encodePub_eq.
    - rewrite encodeExec_eq, len_fmap. do 5 f_equal. 
      induction args as [|a args IH]; [done|].
      rewrite fmap_cons, !bind_cons, IH. done. }
  split; [done|]. by rewrite layout, E.
Qed.

(** A frame the server sends is decoded alike by the two clients, up to
    the names of the types and the texts of the errors they make up. *)
Theorem browser_decodes_as_bun c p :
  is_byte c → Forall is_byte p → len p < 2 ^ 32 →
  ∃ r b, decodeResponse c p = Ok r ∧ b_decodeResponse (frame_of c p) = Ok b ∧
    (bun_response r = b ∨
     (r = error (js "Malformed event response") ∧ b = b_error (js "malformed event")) ∨
     (REvent < c ∧ r = error (js "Unknown response code: " ++ show c) ∧
      b = b_error (js "unknown response code: 0x" ++ show_hex c))).
Proof.
  intros Hc Hp Hl. unfold b_decodeResponse, frame_of, readU32BE.
  rewrite len_cons, len_app, len_be_bytes. note_len. case_ztest; [lia|].
  assert (getUint32 (c :: be_bytes 4 (len p) ++ p) 1 = Ok (len p)) as ->.
  { apply (getUint32_at [c]); try done; lia. }
  cbn [mbind res_bind byte_at lookup list_lookup default].
  assert (slice (c :: be_bytes 4 (len p) ++ p) 5 (5 + len p) = p) as ->.
  { change (c :: be_bytes 4 (len p) ++ p) with ((c :: be_bytes 4 (len p)) ++ p).
    apply slice_tail; len_tac. }
  unfold decodeResponse, ROk, RValue, RNull, RErr, RESP_OK, RESP_VALUE, RESP_NULL, RESP_ERR.
  change (id c) with c.
  do 4 (case_ztest; [eexists _, _; split_and!; [reflexivity..|by left]|]).
  unfold REvent, RESP_EVENT. destruct (Z.eqb_spec c 4).
  2: { eexists _, _; split_and!; [done..|]. right; right. unfold is_byte in Hc. split_and!; [lia|done..]. }
  unfold decode_event, b_decode_event, readUint32BE, readU32BE, mret, res_ret.
  assert (∃ r b : _, Ok (error (js "Malformed event response")) = Ok r ∧
    Ok (b_error (js "malformed event")) = Ok b ∧
    (bun_response r = b ∨ (r = error (js "Malformed event response") ∧
      b = b_error (js "malformed event")) ∨ (4 < c ∧ r = error (js "Unknown response code: " ++ show c) ∧
      b = b_error (js "unknown response code: 0x" ++ show_hex c)))) as Hm.
  { eexists _, _. split_and!; [done..|]. right; left. done. }
  case_ztest; [exact Hm|].
  destruct (getUint32_ok p 0) as (v & -> & Hv & _); [done|lia|lia|]. cbn [mbind res_bind].
  replace (4 + v + 4) with ((4 + v) + 4) by lia. case_ztest; [exact Hm|].
  destruct (getUint32_ok p (4 + v)) as (w & -> & Hw & _); [done|lia|lia|]. cbn [mbind res_bind].
  case_ztest; [exact Hm|]. eexists _, _; split_and!; [done..|by left].
Qed.

Lemma browser_decodes_as_bun_witness :
  ∃ r b, decodeResponse 1 [104; 105] = Ok r ∧ b_decodeResponse (frame_of 1 [104; 105]) = Ok b ∧
    (bun_response r = b ∨
     (r = error (js "Malformed event response") ∧ b = b_error (js "malformed event")) ∨
     (REvent < 1 ∧ r = error (js "Unknown response code: " ++ show 1) ∧
      b = b_error (js "unknown response code: 0x" ++ show_hex 1))).
Proof. apply (browser_decodes_as_bun 1 [104; 105]); [done| |done]. repeat constructor; lia. Defined.

(** The browser's decoder does not check that the payload is complete. *)
Lemma truncated_frame_accepted :
  b_decodeResponse (take 7 (frame_of RESP_VALUE [104; 101; 108; 108; 111])) = Ok (b_value (js "he")).
Proof. reflexivity. Qed.

(** Decoding bytes never throws. *)
Lemma b_decodeResponse_ok d : Forall is_byte d → ∃ r, b_decodeResponse d = Ok r.
Proof.
  intros Hd. unfold b_decodeResponse, readU32BE. case_ztest; [eauto|].
  destruct (getUint32_ok d 1) as (v & -> & Hv & _); [done|lia|lia|]. cbn [mbind res_bind].
  do 4 (case_ztest; [by eauto|]). case_ztest; [|by eauto].
  assert (Forall is_byte (slice d 5 (5 + v))) as Hp by by apply Forall_slice.
  unfold b_decode_event, readU32BE. case_ztest; [eauto|].
  destruct (getUint32_ok (slice d 5 (5 + v)) 0) as (w & -> & Hw & _); [done|lia|lia|].
  cbn [mbind res_bind]. case_ztest; [eauto|].
  destruct (getUint32_ok (slice d 5 (5 + v)) (4 + w)) as (x & -> & _); [done|lia|lia|].
  cbn [mbind res_bind]. repeat (case_ztest; [by eauto|]). by eauto.
Qed.
