(* ===== verification/BrowserClient.v ===== *)
(** * The browser client ([apps/browser/src/client.ts])

    [WormDB] over WebSockets as a state machine: connecting (probing several
    nodes for the fastest), authenticating and resubscribing when a socket
    opens, matching responses to requests, routing events, timing out,
    reconnecting round-robin.  Each entry point is one [event].

    The promises of requests are those of [reqs]; the promises of [connect]
    calls have identifiers of their own ([connects]).  Every socket ever
    created keeps its callbacks, so late callbacks of an abandoned socket are
    in the model.  Reconnection timers are runtime objects: the client keeps
    a handle to the last one only. *)
From Stdlib Require Import QArith Qminmax.
From S2P Require Import Prelude Utf8 TypedArray JsText Wire Pool BrowserWire.
#[local] Open Scope Z_scope.

Module Browser.

(** ** Data *)

Inductive State := disconnected | connecting | connected.

#[export] Instance State_eq_dec : EqDecision State.
Proof. solve_decision. Defined.

(** The options after the defaults of the constructor.  [options.url] is a
    non-empty list here: a single string is a list of one. *)
Record options := Options {
  urls : list jsstr;
  timeoutMs : Z;
  autoReconnect : bool;
  maxReconnectDelayMs : Z;
  tokenProvider : bool;
}.

Definition make_options (urls : list jsstr) (timeout : option Z) (auto : option bool)
    (max_delay : option Z) (provider : bool) : options :=
  Options urls (default 5000 timeout) (default true auto) (default 30000 max_delay) provider.

Inductive outcome := Resolved (r : BrowserResponse) | Rejected (e : exn).

#[export] Instance outcome_eq_dec : EqDecision outcome.
Proof. solve_decision. Defined.

(** A [WebSocket] the client created: its address, the promise of
    [connectToUrl] it settles ([None]: nobody awaits it), whether [onclose]
    is still attached, and whether the client called [close] on it. *)
Record websocket := WebSocket {
  ws_url : jsstr;
  ws_promise : option nat;
  ws_onclose : bool;
  ws_closed : option Z;
}.

(** What an [onopen] callback is suspended on. *)
Inductive opening := AwaitToken | AwaitAuth (id : nat).

(** The fields of [WormDB] ([reqs] holds [pendingQueue]), then the runtime:
    sockets, reconnection timers, suspended callbacks and calls, promises of
    [connect], the frames sent on each socket, handler invocations. *)
Record client := Client {
  ws : option nat;
  activeUrl : jsstr;
  reqs : pool () outcome;
  eventHandlers : list (jsstr * list nat);
  globalEventHandler : option nat;
  reconnectAttempt : Z;
  reconnectTimer : option nat;
  closed : bool;
  state : State;
  connectResolvers : list nat;
  sockets : list websocket;
  armed : gmap nat Z;
  next_timer : nat;
  openings : gmap nat opening;
  probing : list nat;
  connects : gmap nat (option exn);
  next_connect : nat;
  sent : list (nat * bytes);
  delivered : list (nat * (jsstr * jsstr));
}.

Definition set_ws v c := Client v (activeUrl c) (reqs c) (eventHandlers c) (globalEventHandler
  c) (reconnectAttempt c) (reconnectTimer c) (closed c) (state c) (connectResolvers c) (sockets
  c) (armed c) (next_timer c) (openings c) (probing c) (connects c) (next_connect c) (sent c)
  (delivered c).
Definition set_activeUrl v c := Client (ws c) v (reqs c) (eventHandlers c) (globalEventHandler
  c) (reconnectAttempt c) (reconnectTimer c) (closed c) (state c) (connectResolvers c) (sockets
  c) (armed c) (next_timer c) (openings c) (probing c) (connects c) (next_connect c) (sent c)
  (delivered c).
Definition set_reqs v c := Client (ws c) (activeUrl c) v (eventHandlers c) (globalEventHandler
  c) (reconnectAttempt c) (reconnectTimer c) (closed c) (state c) (connectResolvers c) (sockets
  c) (armed c) (next_timer c) (openings c) (probing c) (connects c) (next_connect c) (sent c)
  (delivered c).
Definition set_eventHandlers v c := Client (ws c) (activeUrl c) (reqs c) v (globalEventHandler
  c) (reconnectAttempt c) (reconnectTimer c) (closed c) (state c) (connectResolvers c) (sockets
  c) (armed c) (next_timer c) (openings c) (probing c) (connects c) (next_connect c) (sent c)
  (delivered c).
Definition set_globalEventHandler v c := Client (ws c) (activeUrl c) (reqs c) (eventHandlers c)
  v (reconnectAttempt c) (reconnectTimer c) (closed c) (state c) (connectResolvers c) (sockets
  c) (armed c) (next_timer c) (openings c) (probing c) (connects c) (next_connect c) (sent c)
  (delivered c).
Definition set_reconnectAttempt v c := Client (ws c) (activeUrl c) (reqs c) (eventHandlers c)
  (globalEventHandler c) v (reconnectTimer c) (closed c) (state c) (connectResolvers c) (sockets
  c) (armed c) (next_timer c) (openings c) (probing c) (connects c) (next_connect c) (sent c)
  (delivered c).
Definition set_reconnectTimer v c := Client (ws c) (activeUrl c) (reqs c) (eventHandlers c)
  (globalEventHandler c) (reconnectAttempt c) v (closed c) (state c) (connectResolvers c)
  (sockets c) (armed c) (next_timer c) (openings c) (probing c) (connects c) (next_connect c)
  (sent c) (delivered c).
Definition set_closed v c := Client (ws c) (activeUrl c) (reqs c) (eventHandlers c)
  (globalEventHandler c) (reconnectAttempt c) (reconnectTimer c) v (state c) (connectResolvers
  c) (sockets c) (armed c) (next_timer c) (openings c) (probing c) (connects c) (next_connect c)
  (sent c) (delivered c).
Definition set_state v c := Client (ws c) (activeUrl c) (reqs c) (eventHandlers c)
  (globalEventHandler c) (reconnectAttempt c) (reconnectTimer c) (closed c) v (connectResolvers
  c) (sockets c) (armed c) (next_timer c) (openings c) (probing c) (connects c) (next_connect c)
  (sent c) (delivered c).
Definition set_connectResolvers v c := Client (ws c) (activeUrl c) (reqs c) (eventHandlers c)
  (globalEventHandler c) (reconnectAttempt c) (reconnectTimer c) (closed c) (state c) v (sockets
  c) (armed c) (next_timer c) (openings c) (probing c) (connects c) (next_connect c) (sent c)
  (delivered c).
Definition set_sockets v c := Client (ws c) (activeUrl c) (reqs c) (eventHandlers c)
  (globalEventHandler c) (reconnectAttempt c) (reconnectTimer c) (closed c) (state c)
  (connectResolvers c) v (armed c) (next_timer c) (openings c) (probing c) (connects c)
  (next_connect c) (sent c) (delivered c).
Definition set_armed v c := Client (ws c) (activeUrl c) (reqs c) (eventHandlers c)
  (globalEventHandler c) (reconnectAttempt c) (reconnectTimer c) (closed c) (state c)
  (connectResolvers c) (sockets c) v (next_timer c) (openings c) (probing c) (connects c)
  (next_connect c) (sent c) (delivered c).
Definition set_next_timer v c := Client (ws c) (activeUrl c) (reqs c) (eventHandlers c)
  (globalEventHandler c) (reconnectAttempt c) (reconnectTimer c) (closed c) (state c)
  (connectResolvers c) (sockets c) (armed c) v (openings c) (probing c) (connects c)
  (next_connect c) (sent c) (delivered c).
Definition set_openings v c := Client (ws c) (activeUrl c) (reqs c) (eventHandlers c)
  (globalEventHandler c) (reconnectAttempt c) (reconnectTimer c) (closed c) (state c)
  (connectResolvers c) (sockets c) (armed c) (next_timer c) v (probing c) (connects c)
  (next_connect c) (sent c) (delivered c).
Definition set_probing v c := Client (ws c) (activeUrl c) (reqs c) (eventHandlers c)
  (globalEventHandler c) (reconnectAttempt c) (reconnectTimer c) (closed c) (state c)
  (connectResolvers c) (sockets c) (armed c) (next_timer c) (openings c) v (connects c)
  (next_connect c) (sent c) (delivered c).
Definition set_connects v c := Client (ws c) (activeUrl c) (reqs c) (eventHandlers c)
  (globalEventHandler c) (reconnectAttempt c) (reconnectTimer c) (closed c) (state c)
  (connectResolvers c) (sockets c) (armed c) (next_timer c) (openings c) (probing c) v
  (next_connect c) (sent c) (delivered c).
Definition set_next_connect v c := Client (ws c) (activeUrl c) (reqs c) (eventHandlers c)
  (globalEventHandler c) (reconnectAttempt c) (reconnectTimer c) (closed c) (state c)
  (connectResolvers c) (sockets c) (armed c) (next_timer c) (openings c) (probing c) (connects
  c) v (sent c) (delivered c).
Definition set_sent v c := Client (ws c) (activeUrl c) (reqs c) (eventHandlers c)
  (globalEventHandler c) (reconnectAttempt c) (reconnectTimer c) (closed c) (state c)
  (connectResolvers c) (sockets c) (armed c) (next_timer c) (openings c) (probing c) (connects
  c) (next_connect c) v (delivered c).
Definition set_delivered v c := Client (ws c) (activeUrl c) (reqs c) (eventHandlers c)
  (globalEventHandler c) (reconnectAttempt c) (reconnectTimer c) (closed c) (state c)
  (connectResolvers c) (sockets c) (armed c) (next_timer c) (openings c) (probing c) (connects
  c) (next_connect c) (sent c) v.

Definition new_client : client :=
  Client None [] pool0 [] None 0 None false disconnected [] [] ∅ 0 ∅ [] ∅ 0 [] [].

Definition with_reqs (f : pool () outcome → pool () outcome) (c : client) : client :=
  set_reqs (f (reqs c)) c.

(** The first of [resolve]/[reject] settles the promise of a [connect]. *)
Definition settle_connect (r : option exn) (id : nat) (c : client) : client :=
  match connects c !! id with
  | Some _ => c
  | None => set_connects (<[id := r]> (connects c)) c
  end.

Definition settle_socket (r : option exn) (n : nat) (c : client) : client :=
  match sockets c !! n with
  | Some (WebSocket _ (Some id) _ _) => settle_connect r id c
  | _ => c
  end.

(** [for (const r of this.connectResolvers) ...; this.connectResolvers = []] *)
Definition settle_resolvers (r : option exn) (c : client) : client :=
  set_connectResolvers [] (foldl (λ c id, settle_connect r id c) c (connectResolvers c)).

(** ** One probe *)

(** [probeLatency(url)]: when it started, whether its timer is armed, the
    promise, and the arguments of the calls of [close] on its socket. *)
Record probe := Probe {
  p_url : jsstr;
  p_start : Q;
  p_timer : bool;
  p_result : option (res Q);
  p_closes : list (option Z);
}.

Definition probeLatency (url : jsstr) (now : Q) : probe := Probe url now true None [].

Definition probe_settle (r : res Q) (p : probe) : probe :=
  Probe (p_url p) (p_start p) (p_timer p)
    (match p_result p with Some r0 => Some r0 | None => Some r end) (p_closes p).
Definition probe_clear (p : probe) : probe :=
  Probe (p_url p) (p_start p) false (p_result p) (p_closes p).
Definition probe_close (code : option Z) (p : probe) : probe :=
  Probe (p_url p) (p_start p) (p_timer p) (p_result p) (p_closes p ++ [code]).

Inductive probe_event := ProbeTimeout | ProbeOpen (now : Q) | ProbeError.

Definition probe_step (p : probe) (e : probe_event) : probe :=
  match e with
  | ProbeTimeout =>
      if p_timer p
      then probe_settle (Throw (Error (js "probe timeout"))) (probe_close None (probe_clear p))
      else p
  | ProbeOpen now =>
      let latency := Qminus now (p_start p) in
      probe_settle (Ok latency) (probe_close (Some 1000) (probe_clear p))
  | ProbeError =>
      probe_settle (Throw (Error (js "probe failed: " ++ p_url p))) (probe_clear p)
  end.

Section Client.
Context (cfg : options).

(** ** Requests *)

Definition rejectAll (err : exn) (c : client) : client := with_reqs (reject_all (Rejected err)) c.

Definition not_connected : exn := WormDBError (js "not connected").
Definition timed_out : exn :=
  WormDBError (js "request timed out after " ++ show (timeoutMs cfg) ++ js "ms").

(** [request(frame)]; its promise is [next_id (reqs c)]. *)
Definition request (frame : bytes) (c : client) : client :=
  let id := next_id (reqs c) in
  let c := with_reqs fresh c in
  match ws c with
  | Some n =>
      if bool_decide (state c = connected)
      then let c := with_reqs (enqueue id ()) c in set_sent (sent c ++ [(n, frame)]) c
      else with_reqs (settle id (Rejected not_connected)) c
  | None => with_reqs (settle id (Rejected not_connected)) c
  end.

(** A call whose encoder throws makes no request. *)
Definition request_frame (frame : res bytes) (c : client) : client :=
  match frame with Ok f => request f c | Throw _ => c end.

Definition on_timeout (id : nat) (c : client) : client :=
  with_reqs (expire id (Rejected timed_out)) c.

(** ** Reconnection *)

Definition backoff (attempt : Z) : Z := Z.min (1000 * 2 ^ attempt) (maxReconnectDelayMs cfg).

Definition scheduleReconnect (c : client) : client :=
  if closed c then c else
  let delay := backoff (reconnectAttempt c) in
  let c := set_reconnectAttempt (reconnectAttempt c + 1) c in
  let t := next_timer c in
  let c := set_armed (<[t := delay]> (armed c)) (set_next_timer (S t) c) in
  set_reconnectTimer (Some t) c.

Definition cancelReconnect (c : client) : client :=
  match reconnectTimer c with
  | Some t => set_reconnectTimer None (set_armed (delete t (armed c)) c)
  | None => c
  end.

(** [connectToUrl(url)], whose promise is [p]. *)
Definition connectToUrl (url : jsstr) (p : option nat) (c : client) : client :=
  let c := set_activeUrl url c in
  set_sockets (sockets c ++ [WebSocket url p true None]) c.

(** The address tried by a reconnection: round-robin. *)
Definition reconnect_url (c : client) : jsstr :=
  default [] (urls cfg !! Z.to_nat (reconnectAttempt c `mod` len (urls cfg))).

Definition on_reconnect_timer (t : nat) (c : client) : client :=
  match armed c !! t with
  | None => c
  | Some _ =>
      let c := set_armed (delete t (armed c)) c in
      let c := set_reconnectTimer None c in
      let c := set_state connecting c in
      connectToUrl (reconnect_url c) None c
  end.

(** ** Probing *)

(** [probeFastest]'s choice among the settled probes: [None] is a rejected
    probe, [bestLatency = Infinity] is [None]. *)
Fixpoint fastest (us : list jsstr) (results : list (option Q)) (bestUrl : jsstr)
    (bestLatency : option Q) : jsstr :=
  match us, results with
  | u :: us, Some v :: results =>
      if match bestLatency with None => true | Some b => negb (Qle_bool b v) end
      then fastest us results u (Some v) else fastest us results bestUrl bestLatency
  | _ :: us, None :: results => fastest us results bestUrl bestLatency
  | _, _ => bestUrl
  end.

Definition probeFastest (results : list (option Q)) : jsstr :=
  fastest (urls cfg) results (default [] (head (urls cfg))) None.

(** ** connect *)

(** [connect()], whose promise is [next_connect c]. *)
Definition connect (c : client) : client :=
  let id := next_connect c in
  let c := set_next_connect (S id) c in
  if bool_decide (state c = connected) then settle_connect None id c else
  let c := set_closed false c in
  if bool_decide (state c = connecting) then
    set_connectResolvers (connectResolvers c ++ [id]) c
  else
    let c := set_state connecting c in
    match urls cfg with
    | [url] => connectToUrl url (Some id) c
    | _ => set_probing (probing c ++ [id]) c
    end.

(** The probes of the call [id] have all settled. *)
Definition on_probed (id : nat) (results : list (option Q)) (c : client) : client :=
  if decide (id ∈ probing c) then
    let c := set_probing (base.filter (λ x, x ≠ id) (probing c)) c in
    connectToUrl (probeFastest results) (Some id) c
  else c.

Definition close_socket (code : Z) (n : nat) (c : client) : client :=
  set_sockets (alter (λ s, WebSocket (ws_url s) (ws_promise s) (ws_onclose s) (Some code)) n
                     (sockets c)) c.

Definition detach_onclose (n : nat) (c : client) : client :=
  set_sockets (alter (λ s, WebSocket (ws_url s) (ws_promise s) false (ws_closed s)) n
                     (sockets c)) c.

Definition close (c : client) : client :=
  let c := set_closed true c in
  let c := cancelReconnect c in
  let c := rejectAll (Error (js "client closed")) c in
  let c := match ws c with
           | Some n => set_ws None (close_socket 1000 n (detach_onclose n c))
           | None => c
           end in
  set_activeUrl [] (set_state disconnected c).

(** ** Socket callbacks *)

(** The end of [onopen]: resubscribe, then release the waiting calls. *)
Definition finish_open (n : nat) (c : client) : client :=
  let c := foldl (λ c ch, request_frame (encodeSub ch) c) c (eventHandlers c).*1 in
  let c := settle_socket None n c in
  settle_resolvers None c.

(** The [catch] of [onopen]. *)
Definition fail_open (n : nat) (err : exn) (c : client) : client :=
  let c := close_socket 4001 n c in
  let c := settle_socket (Some err) n c in
  settle_resolvers (Some err) c.

Definition on_open (n : nat) (c : client) : client :=
  let c := set_state connected c in
  let c := set_reconnectAttempt 0 c in
  let c := set_ws (Some n) c in
  if tokenProvider cfg then set_openings (<[n := AwaitToken]> (openings c)) c
  else finish_open n c.

(** The token provider's promise settles; [auth] then awaits its response. *)
Definition on_token (n : nat) (token : res bytes) (c : client) : client :=
  match openings c !! n with
  | Some AwaitToken =>
      let c := set_openings (delete n (openings c)) c in
      match (token ← token; encodeAuth token) with
      | Throw err => fail_open n err c
      | Ok f =>
          let id := next_id (reqs c) in
          set_openings (<[n := AwaitAuth id]> (openings c)) (request f c)
      end
  | _ => c
  end.

(** What [auth] makes of its response. *)
Definition auth_result (o : outcome) : option exn :=
  match o with
  | Resolved b_ok => None
  | Resolved (b_error m) => Some (WormDBError (js "auth failed: " ++ m))
  | Resolved r => Some (WormDBError (js "unexpected auth response: " ++ b_type r))
  | Rejected err => Some err
  end.

(** The response to the [AUTH] of [onopen] arrived, or its request failed. *)
Definition on_auth (n : nat) (c : client) : client :=
  match openings c !! n with
  | Some (AwaitAuth id) =>
      match settled (reqs c) !! id with
      | Some o =>
          let c := set_openings (delete n (openings c)) c in
          match auth_result o with
          | None => finish_open n c
          | Some err => fail_open n err c
          end
      | None => c
      end
  | _ => c
  end.

(** [this.eventHandlers.get(channel)] *)
Definition handlers_of (channel : jsstr) (c : client) : option (list nat) :=
  match list_find (λ p, p.1 = channel) (eventHandlers c) with
  | Some (_, (_, hs)) => Some hs
  | None => None
  end.

Definition recipients (channel : jsstr) (c : client) : list nat :=
  default [] (handlers_of channel c) ++ option_list (globalEventHandler c).

Definition on_response (resp : BrowserResponse) (c : client) : client :=
  match resp with
  | b_event channel message =>
      set_delivered (delivered c ++ ((λ h, (h, (channel, message))) <$> recipients channel c)) c
  | _ => with_reqs (answer (Resolved resp)) c
  end.

Definition on_message (data : bytes) (c : client) : client :=
  match b_decodeResponse data with Ok resp => on_response resp c | Throw _ => c end.

Definition on_close (n : nat) (c : client) : client :=
  match sockets c !! n with
  | Some (WebSocket url _ true _) =>
      let wasConnecting := bool_decide (state c = connecting) in
      let c := set_ws None c in
      let c := set_state disconnected c in
      let c := rejectAll (Error (js "connection closed")) c in
      let err := Error (js "failed to connect to " ++ url) in
      let c := if wasConnecting
               then settle_resolvers (Some err) (settle_socket (Some err) n c) else c in
      if negb (closed c) && autoReconnect cfg then scheduleReconnect c else c
  | _ => c
  end.

(** ** Subscriptions *)

Definition set_handlers (channel : jsstr) (hs : list nat) (c : client) : client :=
  set_eventHandlers ((λ p, if decide (p.1 = channel) then (p.1, hs) else p) <$> eventHandlers c) c.

Definition subscribe (channel : jsstr) (handler : nat) (c : client) : client :=
  let c := match handlers_of channel c with
           | None => set_eventHandlers (eventHandlers c ++ [(channel, [])]) c
           | Some _ => c
           end in
  let hs := default [] (handlers_of channel c) in
  let c := set_handlers channel (if decide (handler ∈ hs) then hs else hs ++ [handler]) c in
  request_frame (encodeSub channel) c.

Definition unsubscribe (channel : jsstr) (handler : nat) (c : client) : client :=
  match handlers_of channel c with
  | None => c
  | Some hs =>
      let hs := base.filter (λ x, x ≠ handler) hs in
      let c := set_handlers channel hs c in
      match hs with
      | [] =>
          let c := set_eventHandlers (base.filter (λ p, p.1 ≠ channel) (eventHandlers c)) c in
          request_frame (encodeUnsub channel) c
      | _ => c
      end
  end.

Definition onEvent (handler : nat) (c : client) : client := set_globalEventHandler (Some handler) c.

(** ** Events *)

Inductive event :=
| CallConnect
| CallRequest (frame : res bytes)
| CallSubscribe (channel : jsstr) (handler : nat)
| CallUnsubscribe (channel : jsstr) (handler : nat)
| CallOnEvent (handler : nat)
| CallClose
| Probed (id : nat) (results : list (option Q))
| Opened (n : nat)
| Token (n : nat) (token : res bytes)
| AuthSettled (n : nat)
| Message (n : nat) (data : bytes)
| SocketClosed (n : nat)
| TimerFires (id : nat)
| ReconnectTimerFires (t : nat).

Definition step (c : client) (e : event) : client :=
  match e with
  | CallConnect => connect c
  | CallRequest frame => request_frame frame c
  | CallSubscribe channel handler => subscribe channel handler c
  | CallUnsubscribe channel handler => unsubscribe channel handler c
  | CallOnEvent handler => onEvent handler c
  | CallClose => close c
  | Probed id results => on_probed id results c
  | Opened n => on_open n c
  | Token n token => on_token n token c
  | AuthSettled n => on_auth n c
  | Message _ data => on_message data c
  | SocketClosed n => on_close n c
  | TimerFires id => on_timeout id c
  | ReconnectTimerFires t => on_reconnect_timer t c
  end.

Definition run (es : list event) (c : client) : client := foldl step c es.
End Client.

(** ** What the typed calls make of a response *)

Definition unexpected (what : jsstr) (r : BrowserResponse) : exn :=
  WormDBError (what ++ b_type r).

Definition get_result (r : BrowserResponse) : res (option jsstr) :=
  match r with
  | b_value data => Ok (Some data)
  | b_null => Ok None
  | b_error message => Throw (WormDBError message)
  | _ => Throw (unexpected (js "unexpected response: ") r)
  end.

(** [set] and [del] *)
Definition ok_result (r : BrowserResponse) : res () :=
  match r with
  | b_ok => Ok ()
  | b_error message => Throw (WormDBError message)
  | _ => Throw (unexpected (js "unexpected response: ") r)
  end.

Definition status_result (r : BrowserResponse) : res jsstr :=
  match r with
  | b_value data => Ok data
  | b_error message => Throw (WormDBError message)
  | _ => Throw (unexpected (js "unexpected response: ") r)
  end.

(** [publish], [subscribe] and [unsubscribe] *)
Definition publish_result (r : BrowserResponse) : res () :=
  match r with b_error message => Throw (WormDBError message) | _ => Ok () end.
End Browser.
