(* ===== verification/BrowserClientTheorems.v ===== *)
(** * The browser client's promises

    The invariant of every reachable state, the pairing of responses with
    requests, what teardown settles, what a new socket sends, the choice of a
    node and the round-robin of reconnections; then the executions on which a
    timed-out request displaces the responses that follow it. *)
From Stdlib Require Import QArith.
From S2P Require Import Prelude Utf8 TypedArray JsText Command Wire Pool BrowserWire BrowserClient.
#[local] Open Scope Z_scope.

Module Browsing.
Import Browser.

(** ** The invariant *)

(** Requests are accounted for; a connected client has its socket, and only a
    client with a socket has pending requests; every channel of the map has
    handlers, each once; a closed client holds no reconnection timer. *)
Record wf (c : client) : Prop := Wf {
  wf_reqs : accounts [] (reqs c);
  wf_ws : state c = connected → is_Some (ws c);
  wf_pending : pendingQueue (reqs c) ≠ [] → is_Some (ws c);
  wf_channels : NoDup (eventHandlers c).*1;
  wf_handlers : Forall (λ p, p.2 ≠ [] ∧ NoDup p.2) (eventHandlers c);
  wf_timer : is_Some (reconnectTimer c) → closed c = false;
}.

Lemma new_client_wf : wf new_client.
Proof. split; try done. constructor. Qed.

(** The fields the promises of [connect] live in are not in the invariant. *)
Lemma wf_frame c x r s : wf c → wf (set_connects x (set_connectResolvers r (set_sockets s c))).
Proof. by intros [? ? ? ? ? ?]. Qed.

Lemma settle_connect_frame r id c :
  settle_connect r id c = set_connects (connects (settle_connect r id c)) c.
Proof. unfold settle_connect. destruct (connects c !! id); by destruct c. Qed.

Lemma settle_socket_frame r n c :
  settle_socket r n c = set_connects (connects (settle_socket r n c)) c.
Proof.
  unfold settle_socket. destruct (sockets c !! n) as [[? [id|] ? ?]|]; try by destruct c.
  apply settle_connect_frame.
Qed.

Lemma settle_connects_frame r ids c :
  foldl (λ c id, settle_connect r id c) c ids =
  set_connects (connects (foldl (λ c id, settle_connect r id c) c ids)) c.
Proof.
  revert c. induction ids as [|id ids IH]; intros c; cbn [foldl]; [by destruct c|].
  rewrite IH at 1. by rewrite (settle_connect_frame r id c) at 2.
Qed.

Lemma settle_resolvers_frame r c :
  settle_resolvers r c =
  set_connects (connects (settle_resolvers r c)) (set_connectResolvers [] c).
Proof. unfold settle_resolvers. by rewrite settle_connects_frame at 1. Qed.

Lemma settle_socket_wf r n c : wf c → wf (settle_socket r n c).
Proof. rewrite settle_socket_frame. by intros [? ? ? ? ? ?]. Qed.

Lemma settle_resolvers_wf r c : wf c → wf (settle_resolvers r c).
Proof. rewrite settle_resolvers_frame. by intros [? ? ? ? ? ?]. Qed.

Lemma settle_connect_wf r id c : wf c → wf (settle_connect r id c).
Proof. rewrite settle_connect_frame. by intros [? ? ? ? ? ?]. Qed.

#[local] Hint Resolve settle_socket_wf settle_resolvers_wf settle_connect_wf : wormdb.

(** *** Requests *)

Lemma request_wf frame c : wf c → wf (request frame c).
Proof.
  intros [Ha Hw Hp Hc Hh Ht]. unfold request. cbn [ws with_reqs set_reqs state].
  assert (accounts [next_id (reqs c)] (fresh (reqs c))) as Hf by by apply (accounts_fresh []).
  destruct (ws c) as [n|] eqn:E; [destruct (bool_decide _)|].
  - split; cbn; rewrite ?E; try done. by apply accounts_enqueue.
  - split; cbn; rewrite ?E; try done. by apply accounts_settle.
  - split; cbn; rewrite ?E; try done; [by apply accounts_settle|].
    by rewrite (proj1 (settle_keeps _ _ _)).
Qed.

Lemma request_frame_wf frame c : wf c → wf (request_frame frame c).
Proof. destruct frame; [apply request_wf|done]. Qed.

Lemma settle_reqs_wf f c :
  (∀ p, accounts [] p → accounts [] (f p)) →
  (pendingQueue (reqs c) = [] → pendingQueue (f (reqs c)) = []) →
  wf c → wf (with_reqs f c).
Proof.
  intros Hf Hq [? ? Hp ? ? ?]. split; cbn; try done; [by apply Hf|].
  intros Hn. apply Hp. intros E. by apply Hn, Hq.
Qed.

Lemma answer_wf o c : wf c → wf (with_reqs (answer o) c).
Proof.
  apply settle_reqs_wf; [by apply accounts_answer|]. intros E. by rewrite answer_queue, E.
Qed.

Lemma expire_wf id o c : wf c → wf (with_reqs (expire id o) c).
Proof.
  intros Hw. apply settle_reqs_wf; [by apply accounts_expire| |done]. intros E.
  unfold expire. destruct (timers _ !! id); [|done]. rewrite E. cbn.
  by rewrite (proj1 (settle_keeps _ _ _)).
Qed.

Lemma rejectAll_wf err c : wf c → wf (rejectAll err c).
Proof. apply settle_reqs_wf; [by apply accounts_reject_all|]. intros _. apply reject_all_queue. Qed.

(** *** Connections *)

Lemma resubscribe_wf chs c : wf c → wf (foldl (λ c ch, request_frame (encodeSub ch) c) c chs).
Proof.
  revert c. induction chs as [|ch chs IH]; intros c Hw; cbn [foldl]; [done|].
  by apply IH, request_frame_wf.
Qed.

Lemma finish_open_wf n c : wf c → wf (finish_open n c).
Proof. intros Hw. by apply settle_resolvers_wf, settle_socket_wf, resubscribe_wf. Qed.

Lemma close_socket_wf code n c : wf c → wf (close_socket code n c).
Proof. by intros [? ? ? ? ? ?]. Qed.

Lemma fail_open_wf n err c : wf c → wf (fail_open n err c).
Proof. intros Hw. by apply settle_resolvers_wf, settle_socket_wf, close_socket_wf. Qed.

Section Step.
Context (cfg : options).

Lemma on_open_wf n c : wf c → wf (on_open cfg n c).
Proof.
  intros [? ? ? ? ? ?]. unfold on_open. destruct (tokenProvider cfg).
  - by split.
  - apply finish_open_wf. by split.
Qed.

Lemma on_token_wf n token c : wf c → wf (on_token n token c).
Proof.
  intros Hw. unfold on_token. destruct (openings c !! n) as [[]|]; try done.
  destruct (_ ← token; _) as [f|err].
  - destruct (request_wf f (set_openings (delete n (openings c)) c)); [by destruct Hw|by split].
  - apply fail_open_wf. by destruct Hw.
Qed.

Lemma on_auth_wf n c : wf c → wf (on_auth n c).
Proof.
  intros Hw. unfold on_auth. destruct (openings c !! n) as [[|id]|]; try done.
  destruct (settled (reqs c) !! id) as [o|]; [|done].
  destruct (auth_result o); [apply fail_open_wf|apply finish_open_wf]; by destruct Hw.
Qed.

Lemma on_message_wf d c : wf c → wf (on_message d c).
Proof.
  intros Hw. unfold on_message, on_response.
  destruct (b_decodeResponse d) as [[]|]; try done; try by apply answer_wf. by destruct Hw.
Qed.

Lemma scheduleReconnect_wf c : wf c → wf (scheduleReconnect cfg c).
Proof. intros [? ? ? ? ? ?]. unfold scheduleReconnect. destruct (closed c) eqn:E; split; rewrite ?E; done. Qed.

(** A client that gave its socket up and rejected what was pending. *)
Lemma down_wf err c : wf c → wf (rejectAll err (set_state disconnected (set_ws None c))).
Proof.
  intros [Ha ? ? ? ? ?]. split; try done; cbn.
  - by apply accounts_reject_all.
  - by rewrite reject_all_queue.
Qed.

Lemma on_close_wf n c : wf c → wf (on_close cfg n c).
Proof.
  intros Hw. unfold on_close. destruct (sockets c !! n) as [[url p [] code]|]; try done.
  cbv zeta. match goal with |- wf (if _ then scheduleReconnect _ ?c' else _) => assert (wf c') as H end.
  { pose proof (down_wf (Error (js "connection closed")) c Hw).
    destruct (bool_decide _); [|done]. by apply settle_resolvers_wf, settle_socket_wf. }
  destruct (_ && _); [by apply scheduleReconnect_wf|done].
Qed.

Lemma b_close_wf c : wf c → wf (close c).
Proof.
  intros [Ha ? ? ? ? ?]. unfold close, cancelReconnect. cbn [reconnectTimer set_closed].
  destruct (reconnectTimer c) eqn:Et; cbn; destruct (ws c) eqn:E; split; cbn; rewrite ?Et, ?E; try done;
    try (by apply accounts_reject_all); try (by rewrite reject_all_queue); by intros [].
Qed.

Lemma connect_wf c : wf c → wf (connect cfg c).
Proof.
  intros Hw. unfold connect. cbn [state set_next_connect].
  destruct (bool_decide_reflect (state c = connected)).
  { apply settle_connect_wf. by destruct Hw. }
  assert (wf (set_closed false (set_next_connect (S (next_connect c)) c))) as [? ? ? ? ? ?].
  { destruct Hw. by split. }
  case_bool_decide; [by split|]. cbn in *.
  destruct (urls cfg) as [|? []]; by split.
Qed.

Lemma on_reconnect_timer_wf t c : wf c → wf (on_reconnect_timer cfg t c).
Proof.
  intros [? ? ? ? ? ?]. unfold on_reconnect_timer. destruct (armed c !! t); [|by split].
  split; cbn; try done.
Qed.

Lemma on_probed_wf id results c : wf c → wf (on_probed cfg id results c).
Proof. intros [? ? ? ? ? ?]. unfold on_probed. destruct (decide _); by split. Qed.

(** *** Subscriptions *)

Definition channels_ok (m : list (jsstr * list nat)) : Prop :=
  NoDup m.*1 ∧ Forall (λ p, p.2 ≠ [] ∧ NoDup p.2) m.

Lemma set_eventHandlers_wf m c : channels_ok m → wf c → wf (set_eventHandlers m c).
Proof. intros [? ?] [? ? ? ? ? ?]. by split. Qed.

Lemma set_handlers_channels ch hs m :
  ((λ p : jsstr * list nat, if decide (p.1 = ch) then (p.1, hs) else p) <$> m).*1 = m.*1.
Proof.
  rewrite <- list_fmap_compose. apply list_fmap_ext. intros ? [k v] _. cbn. by case_decide.
Qed.

Lemma delete_channel_keys ch (m : list (jsstr * list nat)) :
  (base.filter (λ p, p.1 ≠ ch) m).*1 = base.filter (λ x, x ≠ ch) m.*1.
Proof.
  induction m as [|[k v] m IH]; [done|]. rewrite fmap_cons, !filter_cons. cbn.
  case_decide; rewrite ?fmap_cons, IH; done.
Qed.

Lemma handlers_of_Some ch hs c :
  handlers_of ch c = Some hs → (ch, hs) ∈ eventHandlers c.
Proof.
  unfold handlers_of. destruct (list_find _ _) as [[i [k v]]|] eqn:F; [|done].
  intros [= ->]. apply list_find_Some in F as (F & E & _). cbn in E. subst k.
  by apply list_elem_of_lookup_2 in F.
Qed.

Lemma handlers_of_None ch c : handlers_of ch c = None → ch ∉ (eventHandlers c).*1.
Proof.
  unfold handlers_of. destruct (list_find _ _) as [[i [k v]]|] eqn:F; [done|]. intros _.
  apply list_find_None in F. rewrite Forall_forall in F.
  intros (p & -> & Hp)%list_elem_of_fmap. by apply (F p).
Qed.

Lemma b_subscribe_wf ch h c : wf c → wf (subscribe ch h c).
Proof.
  intros Hw. unfold subscribe. apply request_frame_wf. unfold set_handlers.
  set (c1 := match handlers_of ch c with None => _ | Some _ => c end).
  set (hs := default [] (handlers_of ch c1)).
  match goal with |- wf (set_eventHandlers ?m c1) => assert (channels_ok m) as Hm;
    [|replace (set_eventHandlers m c1) with (set_eventHandlers m c)
        by (subst c1; by destruct (handlers_of ch c)); by apply set_eventHandlers_wf] end.
  assert (NoDup (eventHandlers c1).*1 ∧ NoDup hs ∧
    Forall (λ p, p.1 ≠ ch → p.2 ≠ [] ∧ NoDup p.2) (eventHandlers c1)) as (H1 & H2 & H3).
  { destruct Hw as [_ _ _ Hc Hh _]. subst hs c1. destruct (handlers_of ch c) as [hs|] eqn:E.
    - rewrite E. split_and!; [done| |by eapply Forall_impl].
      apply handlers_of_Some in E. cbn. rewrite Forall_forall in Hh. by apply (Hh (ch, hs)).
    - pose proof (handlers_of_None _ _ E). cbn. rewrite fmap_app. split_and!.
      + apply NoDup_app. split_and!; [done| |apply NoDup_singleton].
        intros x Hx ->%list_elem_of_singleton. done.
      + destruct (handlers_of ch (set_eventHandlers _ c)) as [hs|] eqn:E'; [|constructor].
        apply handlers_of_Some in E'. cbn in E'. apply elem_of_app in E' as [E'|E'%list_elem_of_singleton].
        * destruct H. apply list_elem_of_fmap. by exists (ch, hs).
        * simplify_eq. constructor.
      + apply Forall_app. split; [by eapply Forall_impl|]. repeat constructor; cbn; done. }
  split; [by rewrite set_handlers_channels|].
  apply Forall_fmap. eapply Forall_impl; [exact H3|]. intros [k v] Hp. cbn in *.
  destruct (decide (k = ch)); cbn; [|by apply Hp]. case_decide as Hin.
  - split; [|done]. by intros Hnil; rewrite Hnil in Hin; apply elem_of_nil in Hin.
  - split; [by destruct hs|]. apply NoDup_app. split_and!; [done| |apply NoDup_singleton].
    by intros x Hx ->%list_elem_of_singleton.
Qed.

Lemma b_unsubscribe_wf ch h c : wf c → wf (unsubscribe ch h c).
Proof.
  intros Hw. unfold unsubscribe. destruct (handlers_of ch c) as [hs|] eqn:E; [|done].
  apply handlers_of_Some in E. pose proof (wf_handlers _ Hw) as Hh.
  rewrite Forall_forall in Hh. destruct (Hh _ E) as [_ Hn]. cbn in Hn.
  assert (∀ hs', hs' ≠ [] → NoDup hs' → wf (set_handlers ch hs' c)) as Hs.
  { intros hs' H1 H2. apply set_eventHandlers_wf; [|done].
    split; [rewrite set_handlers_channels; apply Hw|]. apply Forall_fmap.
    eapply Forall_impl; [apply Hw|]. intros [k v] Hp. cbn. by case_decide. }
  apply (NoDup_filter (λ x, x ≠ h)) in Hn.
  destruct (base.filter (λ x, x ≠ h) hs) as [|h' hs'] eqn:F; [|by apply Hs].
  apply request_frame_wf. unfold set_handlers. cbn [eventHandlers set_eventHandlers].
  match goal with |- wf (set_eventHandlers ?m (set_eventHandlers _ c)) =>
    change (wf (set_eventHandlers m c)) end.
  apply set_eventHandlers_wf; [|done]. split.
  - rewrite delete_channel_keys, set_handlers_channels. apply NoDup_filter, Hw.
  - apply Forall_forall. intros p [Hp (q & -> & Hq)%list_elem_of_fmap]%list_elem_of_filter.
    case_decide as Hk; [done|]. by apply Hh.
Qed.

Lemma b_step_wf c e : wf c → wf (step cfg c e).
Proof.
  intros Hw. destruct e; cbn [step]; try (by destruct Hw);
    eauto using connect_wf, request_frame_wf, b_subscribe_wf, b_unsubscribe_wf, b_close_wf, on_probed_wf,
      on_open_wf, on_token_wf, on_auth_wf, on_message_wf, on_close_wf, expire_wf, on_reconnect_timer_wf.
Qed.

Lemma b_run_wf es c : wf c → wf (run cfg es c).
Proof.
  unfold run. revert c. induction es as [|e es IH]; intros c Hw; cbn [foldl]; [done|].
  by apply IH, b_step_wf.
Qed.

(** On the browser client no request is lost and none is settled twice:
    after any sequence of calls, socket callbacks, timers and closes, every
    promise handed out is pending or settled, exactly once, the armed timers
    are those of the pending requests, and nothing is pending on a client
    without a socket. *)
Theorem b_requests_conserved es :
  let c := run cfg es new_client in
  pendingQueue (reqs c) ++ elements (dom (settled (reqs c))) ≡ₚ seq 0 (next_id (reqs c)) ∧
  dom (timers (reqs c)) = list_to_set (pendingQueue (reqs c)) ∧
  (state c = connected → is_Some (ws c)) ∧
  (ws c = None → pendingQueue (reqs c) = [] ∧ timers (reqs c) = ∅).
Proof.
  destruct (b_run_wf es new_client new_client_wf) as [[Hp Ht] Hw Hn _ _ _]. split_and!; try done.
  intros E. assert (pendingQueue (reqs (run cfg es new_client)) = []) as E'.
  { destruct (pendingQueue _); [done|]. rewrite E in Hn. by destruct Hn. }
  rewrite E' in Ht. split; [done|]. by apply dom_empty_inv_L.
Qed.

(** ** Responses settle requests in order *)

Definition is_response (r : BrowserResponse) : Prop :=
  match r with b_event _ _ => False | _ => True end.

#[export] Instance is_response_dec r : Decision (is_response r).
Proof. destruct r; apply _. Defined.

(** The responses a message brings that find a request pending. *)
Definition brought (d : bytes) (c : client) : list BrowserResponse :=
  match b_decodeResponse d with
  | Ok r => if bool_decide (pendingQueue (reqs c) = []) then [] else base.filter is_response [r]
  | Throw _ => []
  end.

(** Traffic on one connection: requests (of any call, the changes of handlers
    of [subscribe] and [unsubscribe] included), messages whatever they hold,
    and timeouts of pending requests, in any interleaving.  [rs] are the
    requests made, [ts] those that timed out and [os] the responses that
    found a request pending. *)
Inductive traffic (c0 : client) :
  list (nat * bytes) → list nat → list BrowserResponse → client → Prop :=
| traffic_start : traffic c0 [] [] [] c0
| traffic_handlers m rs ts os c :
    traffic c0 rs ts os c → traffic c0 rs ts os (set_eventHandlers m c)
| traffic_request f rs ts os c :
    traffic c0 rs ts os c → traffic c0 (rs ++ [(next_id (reqs c), f)]) ts os (request f c)
| traffic_message d rs ts os c :
    traffic c0 rs ts os c → traffic c0 rs ts (os ++ brought d c) (on_message d c)
| traffic_timeout id rs ts os c :
    traffic c0 rs ts os c → id ∈ pendingQueue (reqs c) →
    traffic c0 rs (ts ++ [id]) os (on_timeout cfg id c).

Record traffic_inv (n : nat) (c0 : client) (rs : list (nat * bytes)) (ts : list nat)
    (os : list BrowserResponse) (c : client) : Prop := TrafficInv {
  ti_reqs : accounts [] (reqs c);
  ti_ws : ws c = Some n;
  ti_state : state c = connected;
  ti_sent : sent c = sent c0 ++ ((λ r, (n, r.2)) <$> rs);
  ti_queue : ∃ answered,
    base.filter (λ id, id ∉ ts) rs.*1 = answered ++ pendingQueue (reqs c) ∧
    Forall2 (λ id r, settled (reqs c) !! id = Some (Resolved r)) answered os;
  ti_expired : Forall (λ id, settled (reqs c) !! id = Some (Rejected (timed_out cfg))) ts;
}.

Lemma request_connected f n c :
  ws c = Some n → state c = connected →
  request f c = set_sent (sent c ++ [(n, f)])
                  (with_reqs (λ p, enqueue (next_id p) () (fresh p)) c).
Proof. intros E1 E2. unfold request. cbn. rewrite E1, E2, bool_decide_eq_true_2 by done. done. Qed.

Lemma traffic_request_inv n c0 rs ts os c f :
  traffic_inv n c0 rs ts os c →
  traffic_inv n c0 (rs ++ [(next_id (reqs c), f)]) ts os (request f c).
Proof.
  intros [Ha Hw Hs Hse (an & Hq & Han) Ht]. rewrite (request_connected f n) by done. split; cbn; try done.
  - by apply accounts_enqueue, (accounts_fresh []).
  - rewrite Hse, fmap_app, <- app_assoc. done.
  - exists an. split; [|done].
    rewrite fmap_app, filter_app, Hq. change ([(next_id (reqs c), f)].*1) with [next_id (reqs c)].
    rewrite filter_cons_True, filter_nil, <- app_assoc; [done|].
    intros Hin. rewrite Forall_forall in Ht. specialize (Ht _ Hin).
    destruct (accounts_facts _ _ Ha) as (_ & _ & _ & Hf). apply Hf.
    unfold settled_ids. rewrite !elem_of_app, elem_of_elements, elem_of_dom, Ht. right. right. by eexists.
Qed.

Lemma traffic_response_inv n c0 rs ts os c r :
  traffic_inv n c0 rs ts os c → pendingQueue (reqs c) ≠ [] →
  traffic_inv n c0 rs ts (os ++ [r]) (with_reqs (answer (Resolved r)) c).
Proof.
  intros [Ha Hw Hs Hse (an & Hq & Han) Ht] Hp.
  destruct (pendingQueue (reqs c)) as [|id q] eqn:E; [done|]. split; cbn; try done.
  - by apply accounts_answer.
  - exists (an ++ [id]). split.
    + by rewrite answer_queue, E, <- app_assoc.
    + apply Forall2_app.
      * eapply Forall2_impl; [exact Han|]. intros ? ? Hx. by apply answer_stable.
      * constructor; [|done]. unfold answer. rewrite E. apply settle_new. cbn.
        destruct (accounts_facts _ _ Ha) as (_ & Hf & _). apply Hf. rewrite E. left.
  - eapply Forall_impl; [exact Ht|]. intros ? Hx. by apply answer_stable.
Qed.

Lemma traffic_message_inv n c0 rs ts os c d :
  traffic_inv n c0 rs ts os c → traffic_inv n c0 rs ts (os ++ brought d c) (on_message d c).
Proof.
  intros H. unfold on_message, brought.
  destruct (b_decodeResponse d) as [r|]; [|by rewrite app_nil_r].
  assert (is_response r → on_response r c = with_reqs (answer (Resolved r)) c) as Hr by by destruct r.
  case_bool_decide as E.
  - rewrite app_nil_r. destruct (decide (is_response r)) as [D|D].
    + rewrite Hr by done. assert (answer (Resolved r) (reqs c) = reqs c) as Ea
        by (unfold answer; by rewrite E).
      destruct H. split; cbn; rewrite ?Ea; done.
    + destruct r; try done. by destruct H.
  - destruct (decide (is_response r)) as [D|D].
    + rewrite filter_cons_True, filter_nil, Hr by done. by apply traffic_response_inv.
    + rewrite filter_cons_False, filter_nil, app_nil_r by done. destruct r; try done. by destruct H.
Qed.

Lemma traffic_timeout_inv n c0 rs ts os c id :
  traffic_inv n c0 rs ts os c → id ∈ pendingQueue (reqs c) →
  traffic_inv n c0 rs (ts ++ [id]) os (on_timeout cfg id c).
Proof.
  intros [Ha Hw Hs Hse (an & Hq & Han) Ht] Hid. destruct (accounts_facts _ _ Ha) as (Hn & Hf & _).
  destruct (expire_split [] id (Rejected (timed_out cfg)) (reqs c) Ha) as (q1 & q2 & E & Hin & Hx).
  { apply elem_of_dom. destruct Ha as [_ ->]. by apply elem_of_list_to_set. }
  assert (∀ i o, settled (reqs c) !! i = Some o →
    settled (expire id (Rejected (timed_out cfg)) (reqs c)) !! i = Some o) as Hst.
  { intros i o Hi. rewrite Hx. by apply settle_stable. }
  split; cbn; try done.
  - by apply accounts_expire.
  - exists an. split.
    2: { eapply Forall2_impl; [exact Han|]. intros ? ? Hy. by apply Hst. }
    assert (base.filter (λ i, i ∉ ts ++ [id]) rs.*1 =
            base.filter (λ i, i ≠ id) (base.filter (λ i, i ∉ ts) rs.*1)) as ->.
    { rewrite list_filter_filter. apply list_filter_iff. intros x.
      rewrite elem_of_app, list_elem_of_singleton. tauto. }
    rewrite Hq, E, !filter_app, filter_cons_False by tauto.
    rewrite E in Hn. apply NoDup_app in Hn as (_ & _ & [H2 _]%NoDup_cons).
    rewrite Hx, (proj1 (settle_keeps _ _ _)). cbn.
    rewrite !filter_all; [done|..]; apply Forall_forall.
    + by intros x Hx' ->.
    + by intros x Hx' ->.
    + intros x Hx' ->. apply list_elem_of_lookup in Hx' as [i Hi].
      destruct (Forall2_lookup_l _ _ _ _ _ Han Hi) as (r & _ & Hr). by rewrite Hf in Hr.
  - apply Forall_app. split; [eapply Forall_impl; [exact Ht|]; intros ? Hy; by apply Hst|].
    constructor; [|done]. rewrite Hx. apply settle_new. by apply Hf.
Qed.

Lemma traffic_holds n c0 rs ts os c :
  accounts [] (reqs c0) → ws c0 = Some n → state c0 = connected → pendingQueue (reqs c0) = [] →
  traffic c0 rs ts os c → traffic_inv n c0 rs ts os c.
Proof.
  intros Ha Hw Hs Hp. induction 1 as [|m rs ts os c _ IH|f rs ts os c _ IH|d rs ts os c _ IH|id rs ts os c _ IH Hid].
  - split; try done; cbn; [by rewrite app_nil_r|]. exists []. by rewrite Hp.
  - by destruct IH.
  - by apply traffic_request_inv.
  - by apply traffic_message_inv.
  - by apply traffic_timeout_inv.
Qed.

(** A prefix that passes a filter is a prefix of what passes. *)
Lemma filter_lookup_prefix {A} (P : A → Prop) `{!∀ x, Decision (P x)} (l : list A) i x :
  l !! i = Some x → Forall P (take (S i) l) → base.filter P l !! i = Some x.
Proof.
  revert i. induction l as [|y l IH]; intros i Hi Hf; [done|].
  cbn [take] in Hf. apply Forall_cons in Hf as [Hy Hf]. rewrite filter_cons_True by done.
  destruct i as [|i]; [done|]. cbn in Hi |- *. by apply IH.
Qed.

(** C9: on a connection with nothing pending, whatever the interleaving of
    requests, responses, events, undecodable messages and timeouts: the
    socket is sent the requests in order; the responses settle, in order, the
    requests that do not time out, those still pending being the last ones;
    and a request that times out is rejected.  So the [i]-th response settles
    the [i]-th request as long as no request up to that one times out: after
    a timeout, responses are displaced ([b_late_response_misroutes]). *)
Theorem b_responses_in_order es n rs ts os c :
  let c0 := run cfg es new_client in
  ws c0 = Some n → state c0 = connected → pendingQueue (reqs c0) = [] →
  traffic c0 rs ts os c →
  sent c = sent c0 ++ ((λ r, (n, r.2)) <$> rs) ∧
  (∃ answered,
     base.filter (λ id, id ∉ ts) rs.*1 = answered ++ pendingQueue (reqs c) ∧
     Forall2 (λ id r, settled (reqs c) !! id = Some (Resolved r)) answered os) ∧
  (∀ id, id ∈ ts → settled (reqs c) !! id = Some (Rejected (timed_out cfg))) ∧
  (∀ i id r, rs.*1 !! i = Some id → os !! i = Some r →
     (∀ id', id' ∈ take (S i) rs.*1 → id' ∉ ts) →
     settled (reqs c) !! id = Some (Resolved r)).
Proof.
  intros c0 Hw Hs Hp Ht.
  destruct (traffic_holds n c0 rs ts os c) as [_ _ _ Hse (an & Hq & Han) Hx];
    [apply (b_run_wf es), new_client_wf|done..|].
  split_and!; [done|by exists an|by apply Forall_forall|].
  intros i id r Hi Hr Hall. destruct (Forall2_lookup_r _ _ _ _ _ Han Hr) as (id' & Hi' & Hset).
  apply Forall_forall in Hall. pose proof (filter_lookup_prefix _ _ _ _ Hi Hall) as Hl.
  rewrite Hq, lookup_app_l in Hl by (by eapply lookup_lt_Some). congruence.
Qed.

(** ** Teardown *)

Lemma settle_connect_settles r id c : is_Some (connects (settle_connect r id c) !! id).
Proof.
  unfold settle_connect. destruct (connects c !! id) eqn:E; [by eexists|].
  cbn. by rewrite lookup_insert_eq.
Qed.

Lemma settle_connect_keeps r id c id' :
  is_Some (connects c !! id') → is_Some (connects (settle_connect r id c) !! id').
Proof.
  intros H. unfold settle_connect. destruct (connects c !! id) eqn:E; [done|]. cbn.
  destruct (decide (id = id')) as [->|]; [by rewrite E in H; destruct H|].
  by rewrite lookup_insert_ne.
Qed.

Lemma settle_resolvers_settles r c id :
  id ∈ connectResolvers c ∨ is_Some (connects c !! id) →
  is_Some (connects (settle_resolvers r c) !! id).
Proof.
  unfold settle_resolvers. cbn [connects set_connectResolvers]. generalize (connectResolvers c).
  intros ids. revert c. induction ids as [|i ids IH]; intros c H; cbn [foldl].
  { destruct H as [H|H]; [by apply elem_of_nil in H|done]. }
  apply IH. destruct H as [[->|H]%elem_of_cons|H]; [right; apply settle_connect_settles|by left|].
  right. by apply settle_connect_keeps.
Qed.

Definition reset_reason (e : event) : option exn :=
  match e with
  | SocketClosed _ => Some (Error (js "connection closed"))
  | CallClose => Some (Error (js "client closed"))
  | _ => None
  end.

(** The socket event is of a socket whose [onclose] is still attached. *)
Definition attached (e : event) (c : client) : Prop :=
  match e with
  | SocketClosed n => ∃ s, sockets c !! n = Some s ∧ ws_onclose s = true
  | _ => True
  end.

Lemma scheduleReconnect_frame c :
  let c' := scheduleReconnect cfg c in
  reqs c' = reqs c ∧ ws c' = ws c ∧ state c' = state c ∧ connects c' = connects c ∧
  closed c' = closed c ∧ sockets c' = sockets c ∧ connectResolvers c' = connectResolvers c.
Proof. unfold scheduleReconnect. by destruct (closed c) eqn:E; cbn; rewrite ?E. Qed.

Lemma on_close_reqs n url p code c :
  sockets c !! n = Some (WebSocket url p true code) →
  let c' := on_close cfg n c in
  reqs c' = reject_all (Rejected (Error (js "connection closed"))) (reqs c) ∧
  ws c' = None ∧ state c' = disconnected.
Proof.
  intros E. unfold on_close. rewrite E. cbv zeta. case_bool_decide.
  all: destruct (_ && _).
  all: try (pose proof (scheduleReconnect_frame) as F; cbv zeta in F).
  all: rewrite ?(proj1 (F _)), ?(proj1 (proj2 (F _))), ?(proj1 (proj2 (proj2 (F _)))).
  all: try (rewrite settle_resolvers_frame, settle_socket_frame; done). all: done.
Qed.

Lemma close_reqs c :
  reqs (close c) = reject_all (Rejected (Error (js "client closed"))) (reqs c) ∧
  ws (close c) = None ∧ state (close c) = disconnected.
Proof.
  unfold close, cancelReconnect. cbn [reconnectTimer set_closed].
  destruct (reconnectTimer c); cbn; destruct (ws c) eqn:E; cbn; rewrite ?E; done.
Qed.

(** A closed connection and [close()] reject every pending request with
    the reason, disarm every timer and leave the client without a socket. *)
Theorem b_teardown_rejects es e err :
  reset_reason e = Some err →
  let c := run cfg es new_client in
  attached e c →
  let c' := step cfg c e in
  pendingQueue (reqs c') = [] ∧ timers (reqs c') = ∅ ∧ ws c' = None ∧ state c' = disconnected ∧
  ∀ id, id ∈ pendingQueue (reqs c) → settled (reqs c') !! id = Some (Rejected err).
Proof.
  intros He c Hat c'. unfold c'; clear c'. pose proof (wf_reqs _ (b_run_wf es _ new_client_wf)) as Ha. fold c in Ha.
  assert (reqs (step cfg c e) = reject_all (Rejected err) (reqs c) ∧
          ws (step cfg c e) = None ∧ state (step cfg c e) = disconnected) as (-> & -> & ->).
  { destruct e; cbn in He; simplify_eq; cbn [step].
    - apply close_reqs.
    - destruct Hat as ([url p oc code] & Hs & Ho). cbn in Ho. subst. by eapply on_close_reqs. }
  split_and!; try done; [apply reject_all_queue|by eapply reject_all_timers|].
  intros id Hid. by eapply reject_all_lookup.
Qed.

(** When a connection attempt fails, every [connect()] waiting for it is
    settled, and a reconnection is scheduled unless the client was closed. *)
Theorem b_failed_attempt n s c :
  sockets c !! n = Some s → ws_onclose s = true → state c = connecting →
  let c' := on_close cfg n c in
  connectResolvers c' = [] ∧
  (∀ id, id ∈ connectResolvers c ∨ ws_promise s = Some id → is_Some (connects c' !! id)) ∧
  (closed c = false → autoReconnect cfg = true →
     reconnectTimer c' = Some (next_timer c) ∧
     armed c' !! next_timer c = Some (Z.min (1000 * 2 ^ reconnectAttempt c) (maxReconnectDelayMs cfg)) ∧
     reconnectAttempt c' = reconnectAttempt c + 1).
Proof.
  destruct s as [url p oc code]. cbn. intros E -> Hst. unfold on_close. rewrite E. cbv zeta.
  rewrite bool_decide_eq_true_2 by done.
  set (err := Error _). set (c0 := rejectAll _ _).
  set (c1 := settle_resolvers (Some err) (settle_socket (Some err) n c0)).
  assert (c1 = set_connects (connects c1) (set_connectResolvers [] c0)) as Hc1.
  { unfold c1. rewrite settle_resolvers_frame, settle_socket_frame. done. }
  assert (∀ id, id ∈ connectResolvers c ∨ p = Some id → is_Some (connects c1 !! id)) as Hid.
  { intros id H. apply settle_resolvers_settles. rewrite settle_socket_frame. cbn.
    destruct H as [H| ->]; [by left|right]. unfold settle_socket. cbn. rewrite E.
    apply settle_connect_settles. }
  assert (closed c1 = closed c) as Hcl by by rewrite Hc1.
  assert (reconnectAttempt c1 = reconnectAttempt c) as Hat by by rewrite Hc1.
  assert (next_timer c1 = next_timer c) as Hnt by by rewrite Hc1.
  assert (connectResolvers c1 = []) as Hr by by rewrite Hc1.
  rewrite Hcl. clearbody c1. destruct (negb (closed c) && autoReconnect cfg) eqn:Hb.
  - apply andb_prop in Hb as [Hb ->]. apply negb_true_iff in Hb. rewrite Hb in Hcl.
    unfold scheduleReconnect. rewrite Hcl. cbn. rewrite Hat, Hnt, lookup_insert_eq. done.
  - split_and!; [done..|]. intros Hc Ha. by rewrite Hc, Ha in Hb.
Qed.

(** ** Reconnecting *)

(** An outage: the reconnection timer fires and the new socket fails. *)
Definition outage (c : client) : client :=
  match reconnectTimer c with
  | Some t => run cfg [ReconnectTimerFires t; SocketClosed (length (sockets c))] c
  | None => c
  end.

(** Waiting for attempt number [a]. *)
Definition retrying (a : Z) (c : client) : Prop :=
  reconnectAttempt c = a ∧ closed c = false ∧
  ∃ t d, reconnectTimer c = Some t ∧ armed c !! t = Some d ∧ d ≤ maxReconnectDelayMs cfg.

Definition node (a : Z) : jsstr := default [] (urls cfg !! Z.to_nat (a `mod` len (urls cfg))).

Lemma outage_retries a c :
  autoReconnect cfg = true → retrying a c →
  retrying (a + 1) (outage c) ∧
  sockets (outage c) = sockets c ++ [WebSocket (node a) None true None] ∧
  state (outage c) = disconnected.
Proof.
  intros Hauto (Ha & Hcl & t & d & Ht & Harm & _). unfold outage. rewrite Ht.
  unfold run. cbn [foldl step]. unfold on_reconnect_timer. rewrite Harm.
  set (c1 := connectToUrl _ _ _).
  assert (sockets c1 = sockets c ++ [WebSocket (node a) None true None]) as Hs.
  { unfold c1. cbn. unfold reconnect_url, node. cbn. by rewrite Ha. }
  assert (sockets c1 !! length (sockets c) = Some (WebSocket (node a) None true None)) as Hl.
  { by rewrite Hs, list_lookup_middle. }
  destruct (b_failed_attempt (length (sockets c)) _ c1 Hl eq_refl eq_refl) as (_ & _ & Hn).
  destruct (Hn Hcl Hauto) as (H1 & H2 & H3).
  destruct (on_close_reqs _ _ _ _ c1 Hl) as (_ & _ & Hst). split_and!; [| |done].
  - split_and!; [by rewrite H3; change (reconnectAttempt c1) with (reconnectAttempt c); rewrite Ha| |].
    + unfold on_close. rewrite Hl. cbv zeta. rewrite bool_decide_eq_true_2 by done.
      rewrite settle_resolvers_frame, settle_socket_frame. cbn. rewrite Hcl, Hauto.
      unfold scheduleReconnect. cbn. by rewrite Hcl.
    + eexists _, _. split_and!; [done..|]. lia.
  - rewrite <- Hs. unfold on_close. rewrite Hl. cbv zeta. rewrite bool_decide_eq_true_2 by done.
    rewrite settle_resolvers_frame, settle_socket_frame. cbn. rewrite Hcl, Hauto.
    unfold scheduleReconnect. cbn. by rewrite Hcl.
Qed.

Lemma outages_dial k a c :
  autoReconnect cfg = true → retrying a c →
  retrying (a + Z.of_nat k) (Nat.iter k outage c) ∧
  sockets (Nat.iter k outage c) =
    sockets c ++ ((λ i, WebSocket (node (a + Z.of_nat i)) None true None) <$> seq 0 k).
Proof.
  intros Hauto Hr. induction k as [|k (IH1 & IH2)]; cbn [Nat.iter nat_rect].
  - by rewrite Z.add_0_r, app_nil_r.
  - destruct (outage_retries _ _ Hauto IH1) as (H1 & H2 & _).
    replace (a + Z.of_nat (S k)) with (a + Z.of_nat k + 1) by lia. split; [done|].
    change (nat_rect _ _ _ k) with (Nat.iter k outage c).
    rewrite H2, IH2, seq_S, fmap_app, <- app_assoc. done.
Qed.

(** [n] consecutive attempts visit [n] distinct indices. *)
Lemma residues_perm (a : Z) (n : nat) :
  (λ i, Z.to_nat ((a + Z.of_nat i) `mod` Z.of_nat n)) <$> seq 0 n ≡ₚ seq 0 n.
Proof.
  apply submseteq_length_Permutation; [|by rewrite length_fmap].
  apply NoDup_submseteq.
  - apply NoDup_fmap_2_strong; [|apply NoDup_seq]. intros i j Hi Hj E.
    apply elem_of_seq in Hi, Hj.
    pose proof (Z.mod_pos_bound (a + Z.of_nat i) (Z.of_nat n) ltac:(lia)).
    pose proof (Z.mod_pos_bound (a + Z.of_nat j) (Z.of_nat n) ltac:(lia)).
    assert ((a + Z.of_nat i) `mod` Z.of_nat n = (a + Z.of_nat j) `mod` Z.of_nat n) as E' by lia.
    rewrite !Z.mod_eq in E' by lia. revert E'.
    generalize ((a + Z.of_nat i) `div` Z.of_nat n), ((a + Z.of_nat j) `div` Z.of_nat n).
    intros q r E'. assert (q - r = 0) by nia. nia.
  - intros x (i & -> & Hi)%list_elem_of_fmap. apply elem_of_seq in Hi. apply elem_of_seq.
    pose proof (Z.mod_pos_bound (a + Z.of_nat i) (Z.of_nat n)). lia.
Qed.

Lemma nodes_perm a :
  (λ i, node (a + Z.of_nat i)) <$> seq 0 (length (urls cfg)) ≡ₚ urls cfg.
Proof.
  assert (∀ us : list jsstr, (λ i, default [] (us !! i)) <$> seq 0 (length us) = us) as H.
  { intros us. induction us as [|u us IH]; [done|]. cbn [length seq fmap list_fmap].
    f_equal. rewrite <- fmap_S_seq, <- list_fmap_compose. exact IH. }
  rewrite <- (H (urls cfg)) at 2. rewrite <- (residues_perm a (length (urls cfg))) at 2.
  by rewrite <- list_fmap_compose.
Qed.

(** C38: reconnection never gives up and is fair: over as many consecutive
    failures as there are nodes it dials every node exactly once, and after
    them a next attempt is armed within the maximal delay. *)
Theorem b_outages_visit_all_nodes a c :
  autoReconnect cfg = true → retrying a c →
  let c' := Nat.iter (length (urls cfg)) outage c in
  ws_url <$> drop (length (sockets c)) (sockets c') ≡ₚ urls cfg ∧
  retrying (a + len (urls cfg)) c'.
Proof.
  intros Hauto Hr c'. destruct (outages_dial (length (urls cfg)) a c Hauto Hr) as [H1 H2].
  split; [|done]. unfold c'. rewrite H2, drop_app_length, <- list_fmap_compose. apply nodes_perm.
Qed.

(** ** Probing *)

Definition faster (v : Q) (l : option Q) : Prop :=
  match l with None => True | Some b => (v < b)%Q end.

(** The accumulator loses only to the first strictly faster probe. *)
Lemma fastest_spec us rs b l :
  length us = length rs →
  (fastest us rs b l = b ∧ ∀ j w, rs !! j = Some (Some w) → ¬ faster w l) ∨
  ∃ i v, us !! i = Some (fastest us rs b l) ∧ rs !! i = Some (Some v) ∧ faster v l ∧
    ∀ j w, rs !! j = Some (Some w) → (v <= w)%Q ∧ ((j < i)%nat → (v < w)%Q).
Proof.
  revert rs b l. induction us as [|u us IH]; intros [|r rs] b l Hlen; try done; [by left|].
  injection Hlen as Hlen. destruct r as [v0|]; cbn [fastest].
  2: { destruct (IH rs b l Hlen) as [[H1 H2]|(i & v & H1 & H2 & H3 & H4)].
       - left. split; [done|]. intros [|j] w Hj; [done|]. by eapply H2.
       - right. exists (S i), v. split_and!; try done. intros [|j] w Hj; [done|].
         destruct (H4 j w Hj). split; [done|]. intros. by apply H0; lia. }
  assert ((if match l with None => true | Some b => negb (Qle_bool b v0) end then faster v0 l
           else ¬ faster v0 l)) as Hl.
  { destruct l as [b0|]; cbn; [|done]. pose proof (Qle_bool_iff b0 v0) as E.
    destruct (Qle_bool b0 v0); cbn; [apply Qle_not_lt; tauto|].
    apply Qnot_le_lt. intros Hle. by apply E in Hle. }
  destruct (match l with None => true | Some b => negb (Qle_bool b v0) end).
  - right. destruct (IH rs u (Some v0) Hlen) as [[H1 H2]|(i & v & H1 & H2 & H3 & H4)].
    + exists 0%nat, v0. split_and!; [by rewrite H1|done..|]. intros [|j] w Hj.
      * injection Hj as <-. split; [apply Qle_refl|lia].
      * split; [|lia]. by apply Qnot_lt_le, (H2 j).
    + cbn in H3. exists (S i), v. split_and!; try done.
      * destruct l; cbn in *; [by eapply Qlt_trans|done].
      * intros [|j] w Hj; [injection Hj as <-; split; [by apply Qlt_le_weak|done]|].
        destruct (H4 j w Hj). split; [done|]. intros. by apply H0; lia.
  - destruct l as [b0|]; [|done]. cbn in Hl. apply Qnot_lt_le in Hl.
    destruct (IH rs b (Some b0) Hlen) as [[H1 H2]|(i & v & H1 & H2 & H3 & H4)].
    + left. split; [done|]. intros [|j] w Hj; [|by eapply H2]. injection Hj as <-.
      by apply Qle_not_lt.
    + right. cbn in H3. exists (S i), v. split_and!; try done.
      intros [|j] w Hj; [injection Hj as <-|].
      * assert (v < v0)%Q by by eapply Qlt_le_trans. split; [by apply Qlt_le_weak|done].
      * destruct (H4 j w Hj). split; [done|]. intros. by apply H0; lia.
Qed.

(** The node chosen by probing is one of the nodes; it is the first of
    those that answered with the least latency, and the first node when none
    answered. *)
Theorem probeFastest_best results :
  length (urls cfg) = length results → urls cfg ≠ [] →
  ((∀ v, Some v ∉ results) ∧ head (urls cfg) = Some (probeFastest cfg results)) ∨
  ∃ i v, urls cfg !! i = Some (probeFastest cfg results) ∧ results !! i = Some (Some v) ∧
    ∀ j w, results !! j = Some (Some w) → (v <= w)%Q ∧ ((j < i)%nat → (v < w)%Q).
Proof.
  intros Hlen Hne. unfold probeFastest.
  destruct (fastest_spec (urls cfg) results (default [] (head (urls cfg))) None Hlen)
    as [[H1 H2]|(i & v & H1 & H2 & _ & H4)]; [left|right; by exists i, v].
  split.
  - intros v [j Hj]%list_elem_of_lookup. by apply (H2 j v Hj).
  - rewrite H1. by destruct (urls cfg).
Qed.

(** A probe settles with its first event, whatever follows. *)
Lemma probe_settles_once url now e es :
  p_result (foldl probe_step (probeLatency url now) (e :: es)) =
  p_result (probe_step (probeLatency url now) e).
Proof.
  cbn [foldl]. assert (is_Some (p_result (probe_step (probeLatency url now) e))) as [r H].
  { destruct e; cbn; by eexists. }
  rewrite H. revert H. generalize (probe_step (probeLatency url now) e). clear.
  induction es as [|e es IH]; intros p H; cbn [foldl]; [done|]. apply IH.
  destruct e; cbn; [destruct (p_timer p); cbn|..]; by rewrite ?H.
Qed.

(** ** A socket opens *)

Definition sub_frame (ch : jsstr) : bytes := frame_of 0x06 (lp (u8 ch)).
Definition auth_frame (token : bytes) : bytes := frame_of 0x0C (lp token).

Lemma resubscribe_sent n chs c :
  ws c = Some n → state c = connected →
  let c' := foldl (λ c ch, request_frame (encodeSub ch) c) c chs in
  ws c' = Some n ∧ state c' = connected ∧
  sent c' = sent c ++ ((λ ch, (n, sub_frame ch)) <$> chs).
Proof.
  revert c. induction chs as [|ch chs IH]; intros c Hw Hs; cbn [foldl].
  { by rewrite app_nil_r. }
  assert (encodeSub ch = Ok (sub_frame ch)) as E.
  { unfold encodeSub. rewrite lenPrefixed_eq. cbn [mbind res_bind]. apply frame_eq. }
  rewrite E. cbn [request_frame]. rewrite (request_connected _ n) by done.
  match goal with |- context [foldl _ ?c1 chs] => destruct (IH c1) as (H1 & H2 & H3) end; [done..|].
  split_and!; [done..|]. rewrite H3. cbn. by rewrite <- app_assoc.
Qed.

Lemma finish_open_sent n c :
  ws c = Some n → state c = connected →
  let c' := finish_open n c in
  ws c' = Some n ∧ state c' = connected ∧ connectResolvers c' = [] ∧
  sent c' = sent c ++ ((λ ch, (n, sub_frame ch)) <$> (eventHandlers c).*1).
Proof.
  intros Hw Hs. unfold finish_open.
  destruct (resubscribe_sent n (eventHandlers c).*1 c Hw Hs) as (H1 & H2 & H3).
  rewrite settle_resolvers_frame, settle_socket_frame. done.
Qed.

(** The token is sent, its response accepted, and [onopen] goes on. *)
Lemma authenticated n token d c :
  openings c !! n = Some AwaitToken → ws c = Some n → state c = connected →
  pendingQueue (reqs c) = [] → accounts [] (reqs c) → b_decodeResponse d = Ok b_ok →
  ∃ c2, on_auth n (on_message d (on_token n (Ok token) c)) = finish_open n c2 ∧
    ws c2 = Some n ∧ state c2 = connected ∧ sent c2 = sent c ++ [(n, auth_frame token)] ∧
    eventHandlers c2 = eventHandlers c.
Proof.
  intros Ho Hw Hs Hq Ha Hd. set (id := next_id (reqs c)).
  assert (on_token n (Ok token) c =
    set_openings (<[n := AwaitAuth id]> (delete n (openings c)))
      (set_sent (sent c ++ [(n, auth_frame token)])
        (with_reqs (λ p, enqueue (next_id p) () (fresh p))
          (set_openings (delete n (openings c)) c)))) as ->.
  { unfold on_token. rewrite Ho. cbn [mbind res_bind]. unfold encodeAuth.
    rewrite lenPrefixedBytes_eq. cbn [mbind res_bind]. rewrite frame_eq.
    by rewrite (request_connected _ n). }
  unfold on_message. rewrite Hd. cbn [on_response]. unfold on_auth.
  cbn [openings with_reqs set_reqs set_openings]. rewrite lookup_insert_eq.
  cbn [reqs set_openings with_reqs set_reqs set_sent].
  assert (settled (answer (Resolved b_ok) (enqueue id () (fresh (reqs c)))) !! id
          = Some (Resolved b_ok)) as E.
  { unfold answer. cbn [pendingQueue enqueue fresh]. rewrite Hq. cbn [app].
    apply settle_new. cbn. apply not_elem_of_dom. intros Hin.
    destruct (accounts_facts _ _ Ha) as (_ & _ & _ & Hn). apply Hn.
    unfold settled_ids. rewrite !elem_of_app. right. right. by apply elem_of_elements. }
  unfold id in *. rewrite E. cbn [auth_result]. by eexists.
Qed.

(** The callbacks of an opening, with a token provider or without. *)
Definition opening_events (n : nat) (token d : bytes) : list event :=
  if tokenProvider cfg then [Opened n; Token n (Ok token); Message n d; AuthSettled n]
  else [Opened n].

(** A socket that opens is sent the token first, when there is a
    provider, then, once it was accepted, one [SUB] for every subscribed
    channel in order; the client is connected and nobody waits any longer. *)
Theorem b_open_replays es n token d :
  let c := run cfg es new_client in
  ws c = None → b_decodeResponse d = Ok b_ok →
  let c' := run cfg (opening_events n token d) c in
  ws c' = Some n ∧ state c' = connected ∧ connectResolvers c' = [] ∧
  sent c' = sent c ++ (if tokenProvider cfg then [(n, auth_frame token)] else []) ++
              ((λ ch, (n, sub_frame ch)) <$> (eventHandlers c).*1).
Proof.
  intros c Hw Hd c'. unfold c', opening_events; clear c'.
  destruct (b_run_wf es _ new_client_wf) as [Ha _ Hp _ _ _]. fold c in Ha, Hp.
  assert (pendingQueue (reqs c) = []) as Hq.
  { destruct (pendingQueue (reqs c)); [done|]. rewrite Hw in Hp. by destruct Hp. }
  clearbody c. destruct (tokenProvider cfg) eqn:Hprov.
  2: { unfold run. cbn [foldl step]. unfold on_open. rewrite Hprov.
       by apply (finish_open_sent n (set_ws (Some n) (set_reconnectAttempt 0 (set_state connected c)))). }
  unfold run. cbn [foldl step]. unfold on_open. rewrite Hprov.
  set (c1 := set_openings _ _).
  destruct (authenticated n token d c1) as (c2 & -> & H1 & H2 & H3 & H4);
    [apply lookup_insert_eq|done..|].
  destruct (finish_open_sent n c2 H1 H2) as (? & ? & ? & H5).
  split_and!; [done..|]. rewrite H5, H3, H4, <- app_assoc. done.
Qed.

(** ** What a timeout does to the others *)

(** A request that times out leaves the connection up and only takes its
    own entry out of the queue, so the response the server sends it later
    settles the next request instead. *)
Theorem b_late_response_misroutes es a b q n d r :
  let c := run cfg es new_client in
  pendingQueue (reqs c) = a :: b :: q → b_decodeResponse d = Ok r → is_response r →
  let c' := run cfg [TimerFires a; Message n d] c in
  ws c' = ws c ∧ pendingQueue (reqs c') = q ∧
  settled (reqs c') !! a = Some (Rejected (timed_out cfg)) ∧
  settled (reqs c') !! b = Some (Resolved r).
Proof.
  intros c Hq Hd Hr c'. unfold c'; clear c'.
  pose proof (wf_reqs _ (b_run_wf es _ new_client_wf)) as Ha. fold c in Ha. clearbody c.
  destruct (accounts_facts _ _ Ha) as (Hn & Hf & _). rewrite Hq in Hn.
  apply NoDup_cons in Hn as [Hab _]. rewrite elem_of_cons in Hab.
  destruct (expire_split [] a (Rejected (timed_out cfg)) (reqs c) Ha) as (q1 & q2 & E & Hin & Hx).
  { apply elem_of_dom. destruct Ha as [_ ->]. rewrite Hq. set_solver. }
  assert (q1 = [] ∧ q2 = b :: q) as [-> ->].
  { rewrite Hq in E. destruct q1 as [|x q1]; injection E; [by intros <-|].
    intros _ <-. destruct Hin. left. }
  unfold run. cbn [foldl step]. unfold on_message. rewrite Hd.
  assert (on_response r (on_timeout cfg a c) =
          with_reqs (answer (Resolved r)) (on_timeout cfg a c)) as -> by by destruct r.
  unfold on_timeout. cbn [reqs with_reqs set_reqs ws]. rewrite Hx.
  set (p := settle a _ _). assert (pendingQueue p = b :: q) as Hp.
  { unfold p. by rewrite (proj1 (settle_keeps _ _ _)). }
  assert (settled p !! a = Some (Rejected (timed_out cfg))) as Hpa.
  { apply settle_new. cbn. apply Hf. rewrite Hq. left. }
  split_and!; [done| | |].
  - by rewrite answer_queue, Hp.
  - by apply answer_stable.
  - unfold answer. rewrite Hp. apply settle_new. cbn. unfold p.
    rewrite settle_other by (intros ->; apply Hab; by left). cbn. apply Hf. rewrite Hq. right. left.
Qed.
End Step.

(** ** Concrete runs *)

Definition cfg1 : options := make_options [js "ws://a"] None None None false.
Definition cfg3 : options := make_options [js "ws://a"; js "ws://b"; js "ws://c"] None None None true.
Definition get (k : string) : event := CallRequest (encodeGet (js k)).
Definition value (v : string) : bytes := frame_of RESP_VALUE (u8 (js v)).

Definition request_bytes (k : string) : bytes := frame_of 0x01 (lp (u8 (js k))).

(** A connected client, and one with two requests in flight. *)
Definition dial : list event := [CallConnect; Opened 0].
Definition two_gets : list event := dial ++ [get "a"; get "b"].

(** The first of three requests times out: the two responses settle the
    other two, and the next request is still answered by the next response. *)
Lemma b_responses_in_order_witness :
  let c0 := run cfg1 dial new_client in
  let c1 := request (request_bytes "c") (request (request_bytes "b") (request (request_bytes "a") c0)) in
  let c := on_message (value "y") (on_timeout cfg1 1 (on_message (value "x") c1)) in
  settled (reqs c) !! 0%nat = Some (Resolved (b_value (js "x"))) ∧
  settled (reqs c) !! 1%nat = Some (Rejected (timed_out cfg1)) ∧
  settled (reqs c) !! 2%nat = Some (Resolved (b_value (js "y"))).
Proof.
  intros c0 c1 c.
  pose proof (traffic_request cfg1 c0 (request_bytes "c") _ _ _ _
    (traffic_request cfg1 c0 (request_bytes "b") _ _ _ _
    (traffic_request cfg1 c0 (request_bytes "a") _ _ _ _ (traffic_start cfg1 c0)))) as H1.
  pose proof (traffic_message cfg1 c0 (value "x") _ _ _ _ H1) as H2.
  pose proof (traffic_timeout cfg1 c0 1 _ _ _ _ H2) as H3.
  pose proof (traffic_message cfg1 c0 (value "y") _ _ _ _ (H3 ltac:(vm_compute; left))) as H4.
  destruct (b_responses_in_order cfg1 dial 0%nat _ _ _ _ eq_refl eq_refl eq_refl H4) as (_ & _ & Ht & H).
  split; [|split; [|vm_compute; reflexivity]].
  - apply (H 0%nat); [vm_compute; reflexivity..|]. intros id Hid. vm_compute in Hid.
    apply list_elem_of_singleton in Hid as ->. vm_compute. intros Hin.
    by apply list_elem_of_singleton in Hin.
  - apply Ht. left.
Defined.

Lemma b_teardown_rejects_witness :
  settled (reqs (step cfg1 (run cfg1 two_gets new_client) (SocketClosed 0))) !! 1%nat =
  Some (Rejected (Error (js "connection closed"))).
Proof.
  destruct (b_teardown_rejects cfg1 two_gets (SocketClosed 0) _ eq_refl) as (_ & _ & _ & _ & H).
  - exists (WebSocket (js "ws://a") (Some 0%nat) true None). by vm_compute.
  - apply (H 1%nat). vm_compute. right. left.
Defined.

Lemma b_failed_attempt_witness :
  let c := run cfg1 [CallConnect; CallConnect] new_client in
  let c' := on_close cfg1 0 c in
  reconnectTimer c' = Some (next_timer c) ∧
  is_Some (connects c' !! 0%nat) ∧ is_Some (connects c' !! 1%nat).
Proof.
  intros c c'. destruct (b_failed_attempt cfg1 0 (WebSocket (js "ws://a") (Some 0%nat) true None)
    (run cfg1 [CallConnect; CallConnect] new_client)) as (_ & H1 & H2); [by vm_compute..|].
  destruct H2 as (H2 & _); [by vm_compute..|].
  split_and!; [exact H2|apply H1; by right|apply H1; left; vm_compute; left].
Defined.

Lemma b_outages_visit_all_nodes_witness :
  let c := run cfg3 [CallConnect; Probed 0 [None; None; None]; SocketClosed 0] new_client in
  ws_url <$> drop 1 (sockets (Nat.iter 3 (outage cfg3) c)) ≡ₚ urls cfg3.
Proof.
  intros c. apply (b_outages_visit_all_nodes cfg3 1 c eq_refl).
  split_and!; [by vm_compute..|]. exists 0%nat, 1000. split_and!; by vm_compute.
Defined.

Lemma probeFastest_best_witness :
  ∃ i v, urls cfg3 !! i = Some (probeFastest cfg3 [Some 3%Q; Some 2%Q; None]) ∧
    [Some 3%Q; Some 2%Q; None] !! i = Some (Some v) ∧ (v <= 2)%Q.
Proof.
  destruct (probeFastest_best cfg3 [Some 3%Q; Some 2%Q; None]) as [[H _]|(i & v & H1 & H2 & H3)];
    [done..| |].
  - destruct (H 3%Q). left.
  - exists i, v. split_and!; [exact H1|exact H2|]. by apply (H3 1%nat).
Defined.

Lemma b_open_replays_witness :
  let c := run cfg3 [CallConnect; Probed 0 [None; Some 5%Q; None]] new_client in
  sent (run cfg3 (opening_events cfg3 0 [1; 2] (frame_of RESP_OK [])) c) = [(0%nat, auth_frame [1; 2])].
Proof.
  intros c. destruct (b_open_replays cfg3 [CallConnect; Probed 0 [None; Some 5%Q; None]] 0%nat [1; 2]
    (frame_of RESP_OK []) eq_refl eq_refl) as (_ & _ & _ & H). exact H.
Defined.

Lemma b_late_response_misroutes_witness :
  settled (reqs (run cfg1 [TimerFires 0; Message 0 (value "x")] (run cfg1 two_gets new_client)))
    !! 1%nat =
  Some (Resolved (b_value (js "x"))).
Proof.
  destruct (b_late_response_misroutes cfg1 two_gets 0 1 [] 0 (value "x") (b_value (js "x")))
    as (_ & _ & _ & H); [by vm_compute|reflexivity|exact I|exact H].
Defined.

(** [close()] while the first connection attempt is in progress does not stop
    it: the socket still opens a connection for the closed client ... *)
Lemma b_close_undone :
  let c := run cfg1 [CallConnect; CallClose; Opened 0] new_client in
  closed c = true ∧ state c = connected ∧ ws c = Some 0%nat.
Proof. by vm_compute. Qed.

(** ... or, when it fails, [connect()] never settles. *)
Lemma b_connect_left_hanging :
  let c := run cfg1 [CallConnect; CallClose; SocketClosed 0] new_client in
  connects c = ∅ ∧ armed c = ∅ ∧ probing c = [] ∧ state c = disconnected.
Proof. by vm_compute. Qed.

(** [connect()] does not cancel a scheduled reconnection, which then takes a
    connected client back to connecting and abandons its socket. *)
Lemma b_reconnect_displaces_connection :
  let c := run cfg1 (dial ++ [SocketClosed 0; CallConnect; Opened 1; ReconnectTimerFires 0]) new_client in
  ws c = Some 1%nat ∧ state c = connecting ∧ length (sockets c) = 3%nat.
Proof. by vm_compute. Qed.

(** Two failures overlap: [close()] cancels the last timer only, and the
    other one reconnects the closed client. *)
Lemma b_close_leaves_timer :
  let c := run cfg1 (dial ++ [SocketClosed 0; CallConnect; SocketClosed 1; CallClose]) new_client in
  closed c = true ∧ is_Some (armed c !! 0%nat) ∧
  state (run cfg1 [ReconnectTimerFires 0; Opened 2] c) = connected.
Proof. vm_compute. split_and!; try done. by eexists. Qed.

(** The server pushes every event whose channel has the subscribed channel as
    a prefix; the browser client hands it to exact subscribers only. *)
Lemma b_prefix_subscriber_missed :
  let c := run cfg1 (dial ++ [CallSubscribe (js "vec:") 7]) new_client in
  recipients (js "vec:ns") c = [] ∧ recipients (js "vec:") c = [7%nat].
Proof. by vm_compute. Qed.
End Browsing.
