(* ===== verification/Prog.v ===== *)
(** * Request programs

    The asynchronous code that talks to the server with text commands
    ([client.send(text)]), as a program that alternates local computation
    with its effects: a command and its response (or the rejection of the
    call), a draw of [Math.random()], a reading of the clock.  [exec] runs one
    program against a server; [prun] runs several with their commands
    interleaved by a schedule, one command at a time, as the event loop and
    the server do. *)
From Stdlib Require Import QArith.
From S2P Require Import Prelude JsText Command Protocol.
#[local] Open Scope Z_scope.

Inductive prog (A : Type) : Type :=
| Ret (a : A)
| Raise (e : exn)
| Send (text : jsstr) (k : res WormResponse → prog A)
| Random (k : Q → prog A)
| Now (k : Z → prog A).
Arguments Ret {A}.
Arguments Raise {A}.
Arguments Send {A}.
Arguments Random {A}.
Arguments Now {A}.

#[export] Instance prog_ret : MRet prog := @Ret.
#[export] Instance prog_bind : MBind prog :=
  fix bind {A B} (f : A → prog B) (p : prog A) : prog B :=
    match p with
    | Ret a => f a
    | Raise e => Raise e
    | Send t k => Send t (λ r, @bind A B f (k r))
    | Random k => Random (λ q, @bind A B f (k q))
    | Now k => Now (λ z, @bind A B f (k z))
    end.

(** [await client.send(text)] *)
Definition send (text : jsstr) : prog WormResponse :=
  Send text (λ r, match r with Ok x => Ret x | Throw e => Raise e end).
Definition random : prog Q := Random Ret.
Definition clock : prog Z := Now Ret.

(** [try { p } catch (err) { h(err) }] *)
Fixpoint catch {A} (p : prog A) (h : exn → prog A) : prog A :=
  match p with
  | Ret a => Ret a
  | Raise e => h e
  | Send t k => Send t (λ r, catch (k r) h)
  | Random k => Random (λ q, catch (k q) h)
  | Now k => Now (λ z, catch (k z) h)
  end.

Definition of_res {A} (r : res A) : prog A :=
  match r with Ok a => Ret a | Throw e => Raise e end.

(** ** Running *)

(** What a run draws on: the successive random numbers in [0, 1) and clock
    readings. *)
Record draws := Draws { rnd : nat → Q; rnd_pos : nat; time : nat → Z; time_pos : nat }.
Definition next_rnd (d : draws) : Q * draws :=
  (rnd d (rnd_pos d), Draws (rnd d) (S (rnd_pos d)) (time d) (time_pos d)).
Definition next_time (d : draws) : Z * draws :=
  (time d (time_pos d), Draws (rnd d) (rnd_pos d) (time d) (S (time_pos d))).

Section Run.
Context {S : Type} (serve : jsstr → S → S * res WormResponse).

Fixpoint exec {A} (p : prog A) (d : draws) (s : S) : res A * draws * S :=
  match p with
  | Ret a => (Ok a, d, s)
  | Raise e => (Throw e, d, s)
  | Send t k => let '(s, r) := serve t s in exec (k r) d s
  | Random k => let '(q, d) := next_rnd d in exec (k q) d s
  | Now k => let '(z, d) := next_time d in exec (k z) d s
  end.

(** The state alone. *)
Definition final {A} (p : prog A) (d : draws) (s : S) : S := (exec p d s).2.
Definition result {A} (p : prog A) (d : draws) (s : S) : res A := (exec p d s).1.1.

Lemma exec_bind {A B} (f : A → prog B) (p : prog A) d s :
  exec (p ≫= f) d s =
  let '(r, d, s) := exec p d s in
  match r with Ok a => exec (f a) d s | Throw e => (Throw e, d, s) end.
Proof.
  revert d s. induction p as [a|e|t k IH|k IH|k IH]; intros d s; cbn.
  - done.
  - done.
  - destruct (serve t s) as [s' r]. apply IH.
  - apply IH.
  - apply IH.
Qed.

Lemma exec_catch {A} (p : prog A) h d s :
  exec (catch p h) d s =
  let '(r, d, s) := exec p d s in
  match r with Ok a => (Ok a, d, s) | Throw e => exec (h e) d s end.
Proof.
  revert d s. induction p as [a|e|t k IH|k IH|k IH]; intros d s; cbn.
  - done.
  - by destruct (exec (h e) d s) as [[[] ?] ?].
  - destruct (serve t s) as [s' r]. apply IH.
  - apply IH.
  - apply IH.
Qed.

Lemma exec_send t d s :
  exec (send t) d s = let '(s', r) := serve t s in (r, d, s').
Proof. unfold send. cbn. destruct (serve t s) as [s' []]; done. Qed.

Lemma exec_of_res {A} (r : res A) d s : exec (of_res r) d s = (r, d, s).
Proof. by destruct r. Qed.

(** *** Interleaving *)

(** One command of a program (with the local computation before it). *)
Fixpoint advance {A} (p : prog A) (d : draws) (s : S) : prog A * draws * S :=
  match p with
  | Ret a => (Ret a, d, s)
  | Raise e => (Raise e, d, s)
  | Send t k => let '(s, r) := serve t s in (k r, d, s)
  | Random k => let '(q, d) := next_rnd d in advance (k q) d s
  | Now k => let '(z, d) := next_time d in advance (k z) d s
  end.

(** The schedule names the program that makes the next command. *)
Fixpoint prun {A} (schedule : list nat) (ps : list (prog A)) (d : draws) (s : S)
    : list (prog A) * draws * S :=
  match schedule with
  | [] => (ps, d, s)
  | i :: schedule =>
      match ps !! i with
      | None => prun schedule ps d s
      | Some p => let '(p, d, s) := advance p d s in prun schedule (<[i := p]> ps) d s
      end
  end.

(** What every command preserves, every run preserves. *)
Lemma exec_invariant {A} (I : S → Prop) (p : prog A) d s :
  (∀ t s, I s → I (serve t s).1) → I s → I (final p d s).
Proof.
  intros H. unfold final. revert d s. induction p as [a|e|t k IH|k IH|k IH]; intros d s Hs; cbn; try done.
  - pose proof (H t s Hs) as H'. destruct (serve t s) as [s' r]. by apply IH.
  - by apply IH.
  - by apply IH.
Qed.
End Run.

(** ** Which commands a program makes *)

Inductive sends {A} (P : jsstr → Prop) : prog A → Prop :=
| sends_ret a : sends P (Ret a)
| sends_raise e : sends P (Raise e)
| sends_send t k : P t → (∀ r, sends P (k r)) → sends P (Send t k)
| sends_random k : (∀ q, (0 <= q)%Q → (q < 1)%Q → sends P (k q)) → sends P (Random k)
| sends_now k : (∀ z, sends P (k z)) → sends P (Now k).

(** Draws of [Math.random()] lie in [0, 1). *)
Definition draws_ok (d : draws) : Prop := ∀ n, (0 <= rnd d n)%Q ∧ (rnd d n < 1)%Q.

Section Sends.
Context {S : Type} (serve : jsstr → S → S * res WormResponse).
Context {A : Type} (P : jsstr → Prop) (I : S → Prop).
Context (HP : ∀ t s, P t → I s → I (serve t s).1).

Lemma advance_preserves (p : prog A) d s p' d' s' :
  sends P p → draws_ok d → I s → advance serve p d s = (p', d', s') →
  sends P p' ∧ draws_ok d' ∧ I s'.
Proof.
  intros Hp. revert d. induction Hp as [a|e|t k Ht Hk _|k Hk IH|k Hk IH]; intros d Hd Hs E; cbn in E.
  - by injection E as <- <- <-; split_and!; [constructor|..].
  - by injection E as <- <- <-; split_and!; [constructor|..].
  - pose proof (HP t s Ht Hs) as H. destruct (serve t s) as [s1 r]. by injection E as <- <- <-.
  - destruct (Hd (rnd_pos d)). by apply IH in E.
  - by apply IH in E.
Qed.

(** Whatever the schedule, an invariant of the commands the programs make is
    an invariant of the run. *)
Lemma prun_preserves schedule (ps : list (prog A)) d s ps' d' s' :
  Forall (sends P) ps → draws_ok d → I s →
  prun serve schedule ps d s = (ps', d', s') → I s'.
Proof.
  revert ps d s. induction schedule as [|i schedule IH]; intros ps d s Hps Hd Hs E; cbn in E.
  { by injection E as <- <- <-. }
  destruct (ps !! i) as [p|] eqn:Ep; [|by eapply IH].
  destruct (advance serve p d s) as [[p1 d1] s1] eqn:E1.
  destruct (advance_preserves p d s p1 d1 s1) as (H1 & H2 & H3); try done.
  { rewrite Forall_forall in Hps. by apply Hps, (list_elem_of_lookup_2 _ i). }
  eapply (IH (<[i := p1]> ps) d1 s1); try done. by apply Forall_insert.
Qed.
End Sends.

Lemma sends_bind {A B} P (p : prog A) (f : A → prog B) :
  sends P p → (∀ a, sends P (f a)) → sends P (p ≫= f).
Proof. intros Hp Hf. induction Hp; cbn; [done|constructor..]; auto. Qed.

(** ** What programs send and return

    [safe p]: [p] sends texts of [P] only and, when each is answered by a
    response of [R], returns a value of [Q]. *)

Inductive safe {A} (P : jsstr → Prop) (R : jsstr → res WormResponse → Prop) (Q : A → Prop) : prog A → Prop :=
| safe_ret a : Q a → safe P R Q (Ret a)
| safe_send t k : P t → (∀ r, R t r → safe P R Q (k r)) → safe P R Q (Send t k)
| safe_random k : (∀ q, (0 <= q)%Q → (q < 1)%Q → safe P R Q (k q)) → safe P R Q (Random k)
| safe_now k : (∀ z, safe P R Q (k z)) → safe P R Q (Now k).

Section Safe.
Context {S : Type} (serve : jsstr → S → S * res WormResponse).
Context {A : Type} (P : jsstr → Prop) (R : jsstr → res WormResponse → Prop) (Q : A → Prop) (I : S → Prop).
Context (HP : ∀ t s, P t → I s → I (serve t s).1 ∧ R t (serve t s).2).

Lemma advance_safe (p : prog A) d s p' d' s' :
  safe P R Q p → draws_ok d → I s → advance serve p d s = (p', d', s') → safe P R Q p' ∧ draws_ok d' ∧ I s'.
Proof.
  intros Hp. revert d. induction Hp as [a Ha|t k Ht Hk _|k Hk IH|k Hk IH]; intros d Hd Hs E; cbn in E.
  - by injection E as <- <- <-; split_and!; [constructor|..].
  - destruct (HP t s Ht Hs) as [H1 H2]. destruct (serve t s) as [s1 r]. injection E as <- <- <-. split_and!; auto.
  - destruct (Hd (rnd_pos d)). by apply IH in E.
  - by apply IH in E.
Qed.

Lemma prun_safe schedule (ps : list (prog A)) d s ps' d' s' :
  Forall (safe P R Q) ps → draws_ok d → I s → prun serve schedule ps d s = (ps', d', s') →
  Forall (safe P R Q) ps' ∧ draws_ok d' ∧ I s' ∧ length ps' = length ps.
Proof.
  revert ps d s. induction schedule as [|i schedule IH]; intros ps d s Hps Hd Hs E; cbn in E.
  { by injection E as <- <- <-. }
  destruct (ps !! i) as [p|] eqn:Ep; [|by eapply IH].
  destruct (advance serve p d s) as [[p1 d1] s1] eqn:E1.
  destruct (advance_safe p d s p1 d1 s1) as (H1 & H2 & H3); try done.
  { rewrite Forall_forall in Hps. by apply Hps, (list_elem_of_lookup_2 _ i). }
  eapply IH in E; [|by apply Forall_insert|done|done]. by rewrite length_insert in E.
Qed.
End Safe.

Lemma safe_bind {A B} P R (Q : A → Prop) (Q' : B → Prop) (p : prog A) (f : A → prog B) :
  safe P R Q p → (∀ a, Q a → safe P R Q' (f a)) → safe P R Q' (p ≫= f).
Proof. intros Hp Hf. induction Hp; cbn; [by apply Hf|constructor..]; auto. Qed.

(** ** Programs that end

    [within n p]: [p] ends after at most [n] commands, and draws only to
    make another one. *)
Inductive within {A} : nat → prog A → Prop :=
| within_ret n a : within n (Ret a)
| within_raise n e : within n (Raise e)
| within_send n t k : (∀ r, within n (k r)) → within (S n) (Send t k)
| within_random n k : (∀ q, within (S n) (k q)) → within (S n) (Random k)
| within_now n k : (∀ z, within (S n) (k z)) → within (S n) (Now k).

Lemma within_mono {A} n m (p : prog A) : within n p → (n ≤ m)%nat → within m p.
Proof.
  intros H. revert m. induction H as [n a|n e|n t k _ IH|n k _ IH|n k _ IH]; intros m Hm; [constructor|constructor|..];
    (destruct m as [|m]; [lia|]); constructor; intros; apply IH; lia.
Qed.

(** The times a schedule names program [i] *)
Definition turns (i : nat) (schedule : list nat) : nat := length (base.filter (λ j, j = i) schedule).

Definition ended {A} (p : prog A) : Prop := match p with Ret _ | Raise _ => True | _ => False end.

Section Within.
Context {S : Type} (serve : jsstr → S → S * res WormResponse) {A : Type}.

Lemma advance_within n (p : prog A) d s : within n p → within (pred n) (advance serve p d s).1.1.
Proof.
  intros H. revert d. induction H as [n a|n e|n t k Hk _|n k _ IH|n k _ IH]; intros d; cbn [advance].
  - constructor.
  - constructor.
  - destruct (serve t s). apply Hk.
  - apply IH.
  - apply IH.
Qed.

(** Programs that are given enough turns end. *)
Lemma prun_ends (size : nat → nat) schedule (ps : list (prog A)) d s ps' d' s' :
  (∀ i p, ps !! i = Some p → within (size i) p) → (∀ i, (i < length ps)%nat → (size i ≤ turns i schedule)%nat) →
  prun serve schedule ps d s = (ps', d', s') → Forall ended ps'.
Proof.
  revert size ps d s. induction schedule as [|i schedule IH]; intros size ps d s Hw Ht E; cbn in E.
  { injection E as <- <- <-. apply Forall_lookup. intros i p Hp. specialize (Hw i p Hp).
    assert (size i = 0)%nat as E0 by (apply lookup_lt_Some, Ht in Hp; unfold turns in Hp; cbn in Hp; lia).
    rewrite E0 in Hw. by inversion Hw. }
  assert (∀ j, turns j (i :: schedule) = (if decide (i = j) then 1 else 0) + turns j schedule)%nat as Hc.
  { intros j. unfold turns. rewrite filter_cons. by destruct (decide (i = j)). }
  destruct (ps !! i) as [p|] eqn:Ep.
  - pose proof (advance_within (size i) p d s (Hw i p Ep)) as Ha.
    destruct (advance serve p d s) as [[p1 d1] s1]. cbn in Ha.
    eapply (IH (λ j, if decide (i = j) then pred (size i) else size j)); [..|exact E].
    + intros j q Hq. case_decide as Hj; [subst j|].
      * rewrite list_lookup_insert_eq in Hq by by eapply lookup_lt_Some. by injection Hq as <-.
      * rewrite list_lookup_insert_ne in Hq by done. by apply Hw.
    + intros j Hj. rewrite length_insert in Hj. specialize (Ht j Hj). rewrite Hc in Ht. case_decide; subst; lia.
  - eapply IH; [exact Hw| |exact E]. intros j Hj. specialize (Ht j Hj). rewrite Hc in Ht.
    case_decide; [subst|lia]. apply lookup_ge_None in Ep. lia.
Qed.
End Within.

Lemma within_bind {A B} n m (p : prog A) (f : A → prog B) :
  within n p → (∀ a, within m (f a)) → within (n + m) (p ≫= f).
Proof.
  intros Hp Hf. induction Hp as [n a|n e|n t k _ IH|n k _ IH|n k _ IH]; cbn; try (constructor; intros; by apply IH).
  eapply within_mono; [apply Hf|lia].
Qed.

(** Running moves along the draws and does not change them. *)
Lemma advance_rnd {S A} (serve : jsstr → S → S * res WormResponse) (p : prog A) d s : rnd (advance serve p d s).1.2 = rnd d.
Proof.
  revert d. induction p as [a|e|t k IH|k IH|k IH]; intros d; cbn [advance]; [done|done| | |].
  - by destruct (serve t s).
  - exact (IH _ (next_rnd d).2).
  - exact (IH _ (next_time d).2).
Qed.

Lemma prun_draws {S A} (serve : jsstr → S → S * res WormResponse) schedule (ps : list (prog A)) d s ps' d' s' :
  draws_ok d → prun serve schedule ps d s = (ps', d', s') → draws_ok d'.
Proof.
  revert ps d s. induction schedule as [|i schedule IH]; intros ps d s Hd E; cbn in E; [by injection E as <- <- <-|].
  destruct (ps !! i) as [p|]; [|by eapply IH]. pose proof (advance_rnd serve p d s) as Ha.
  destruct (advance serve p d s) as [[p1 d1] s1]. eapply IH; [|exact E]. intros n. cbn in Ha. rewrite Ha. apply Hd.
Qed.

(** Programs that only draw *)
Inductive drawing {A} : prog A → Prop :=
| drawing_ret a : drawing (Ret a)
| drawing_random k : (∀ q, drawing (k q)) → drawing (Random k).

Lemma drawing_bind {A B} (p : prog A) (f : A → prog B) : drawing p → (∀ a, drawing (f a)) → drawing (p ≫= f).
Proof. intros Hp Hf. induction Hp as [a|k _ IH]; cbn; [apply Hf|]. constructor. exact IH. Qed.
Lemma within_drawing {A B} n (p : prog A) (f : A → prog B) :
  drawing p → (∀ a, within (S n) (f a)) → within (S n) (p ≫= f).
Proof. intros Hp Hf. induction Hp as [a|k _ IH]; cbn; [apply Hf|]. constructor. exact IH. Qed.
