(* ===== verification/KvServer.v ===== *)
(** * The key-value server the programs talk to

    What the server answers to the text commands of the benchmark, the
    notepad and the explorer: the store and its write-once keys
    ([src/storage/store.zig], [src/server/executor.zig]) and the [transfer]
    procedure ([src/procedures/transfer.zig]).  Values are the texts the
    clients exchange.  Commands without effect on the store, and the other
    procedures, are the parameter [Others]. *)
From S2P Require Import Prelude Utf8 JsText Number Command Wire Protocol Prog.

Record entry := Entry { value : jsstr; worm : bool }.
Notation kv := (gmap jsstr entry).

#[export] Instance entry_eq_dec : EqDecision entry.
Proof. solve_decision. Defined.

Definition get (s : kv) (k : jsstr) : option jsstr := value <$> s !! k.
Definition is_worm (s : kv) (k : jsstr) : bool := default false (worm <$> s !! k).

(** [Store.set], and the [set] of procedures, which ignores its error. *)
Definition put (s : kv) (k v : jsstr) (w : bool) : option kv :=
  if is_worm s k then None else Some (<[k := Entry v w]> s).
Definition set_unsafe (k v : jsstr) (s : kv) : kv := default s (put s k v false).

Definition worm_violation : WormResponse := error (js "WORM violation: key is immutable").

(** [std.fmt.parseInt(T, text, 10)], where [T] has the integers from [lo] to
    below [hi]: a sign or none, then digits with underscores between them *)
Definition parse_int (lo hi : Z) (s : jsstr) : option Z :=
  let '(neg, r) := strip_sign s in
  if bool_decide (head r = None ∨ head r = Some 95 ∨ last r = Some 95) then None else
  let ds := base.filter (λ c, c ≠ 95) r in
  if forallb is_digit ds then
    let n := if neg : bool then - dec ds else dec ds in
    if (lo <=? n) && (n <? hi) then Some n else None
  else None.
Definition parse_i64 : jsstr → option Z := parse_int (- 2 ^ 63) (2 ^ 63).

(** An [i64] that overflows, as in a build that does not check; one that does
    stops the server. *)
Definition to_i64 (z : Z) : Z := (z + 2 ^ 63) mod 2 ^ 64 - 2 ^ 63.

Definition get_int (s : kv) (k : jsstr) : option Z := v ← get s k; parse_i64 v.

(** The [transfer] procedure; its shard locks make it atomic. *)
Definition transfer (args : list jsstr) (s : kv) : kv * WormResponse :=
  match args with
  | from :: to :: rest =>
      match (a ← head rest; parse_i64 a) with
      | None => (s, error (js "invalid amount"))
      | Some amount =>
          if amount <=? 0 then (s, error (js "amount must be positive")) else
          match get_int s from with
          | None => (s, error (js "from account not found"))
          | Some from_bal =>
              match get_int s to with
              | None => (s, error (js "to account not found"))
              | Some to_bal =>
                  if from_bal <? amount then (s, error (js "insufficient_funds"))
                  else (set_unsafe to (show (to_i64 (to_bal + amount)))
                          (set_unsafe from (show (from_bal - amount)) s), ok)
              end
          end
      end
  | _ => (s, error (js "transfer requires 3 args: <from> <to> <amount>"))
  end.

Class Others := {
  answer_other : ParsedCommand → kv → WormResponse;
  exec_other : jsstr → list arg → kv → kv * WormResponse;
}.

Definition arg_text (a : arg) : option jsstr :=
  match a with ArgStr t => Some t | ArgBytes _ => None end.

Section Server.
Context {UD : UnicodeData} {O : Others}.

Definition execute (c : ParsedCommand) (s : kv) : kv * WormResponse :=
  match c with
  | GET k => (s, match get s k with Some v => bulk v | None => null end)
  | SET k v w => match put s k v w with Some s' => (s', ok) | None => (s, worm_violation) end
  | DEL k => if is_worm s k then (s, worm_violation) else (delete k s, ok)
  | PUB _ _ => (s, ok)
  | EXEC p args =>
      if bool_decide (p = js "transfer") then transfer (omap arg_text args) s
      else exec_other p args s
  | c => (s, answer_other c s)
  end.

(** A text command from the client's parser to the server's answer: a text
    that does not parse rejects the call. *)
Definition serve (text : jsstr) (s : kv) : kv * res WormResponse :=
  match parseCommand text with
  | Throw e => (s, Throw e)
  | Ok c => let '(s, r) := execute c s in (s, Ok r)
  end.
End Server.

(** ** Facts *)

Lemma parse_int_digits lo hi s : s ≠ [] → Forall (λ c, is_digit c = true) s → lo ≤ dec s < hi → parse_int lo hi s = Some (dec s).
Proof.
  intros Hne Hd Hv. unfold parse_int. rewrite strip_sign_digits by done.
  assert (Forall (λ c, c ≠ 95) s) as Hu by (eapply Forall_impl; [exact Hd|]; by intros c Hc ->).
  rewrite bool_decide_eq_false_2.
  2: { rewrite Forall_forall in Hu. intros [H|[H|H]].
       - by destruct s.
       - destruct s as [|c s]; [done|]. injection H as ->. by apply (Hu 95); [left|].
       - by apply (Hu 95); [apply last_Some_elem_of in H|]. }
  rewrite filter_all by done. rewrite (proj2 (List.forallb_forall _ _)).
  2: { intros c Hc%list_elem_of_In. rewrite Forall_forall in Hd. by apply Hd. }
  destruct (Z.leb_spec lo (dec s)); [|lia]. by destruct (Z.ltb_spec (dec s) hi); [|lia].
Qed.

Lemma parse_int_show lo hi n : lo ≤ n < hi → 0 ≤ n → parse_int lo hi (show n) = Some n.
Proof.
  intros Hn H0. destruct (show_digits n H0) as (Hne & Hd & Hv). rewrite parse_int_digits; [by rewrite Hv|done..|by rewrite Hv].
Qed.

Lemma parse_i64_show n : 0 ≤ n < 2 ^ 63 → parse_i64 (show n) = Some n.
Proof. intros Hn. apply parse_int_show; lia. Qed.

Lemma to_i64_small z : - 2 ^ 63 ≤ z < 2 ^ 63 → to_i64 z = z.
Proof. intros Hz. unfold to_i64. rewrite Z.mod_small; lia. Qed.

(** Underscores between digits are passed over; at the ends they are refused. *)
Lemma parse_underscores : parse_i64 (js "-1_000") = Some (-1000) ∧ parse_i64 (js "_1") = None ∧ parse_i64 (js "1_") = None ∧ parse_i64 (js "+") = None.
Proof. repeat split. Qed.

Lemma show_word n : 0 ≤ n → word (show n).
Proof.
  intros Hn. destruct (show_digits n Hn) as (Hne & Hd & _). split; [done|].
  eapply Forall_impl; [exact Hd|apply digit_not_space].
Qed.

(** ** Text commands and what the server answers *)

Definition get_text (k : jsstr) : jsstr := js "GET " ++ k.
Definition set_text (k v : jsstr) : jsstr := js "SET " ++ k ++ js " " ++ v.
Definition del_text (k : jsstr) : jsstr := js "DEL " ++ k.
Definition pub_text (channel message : jsstr) : jsstr := js "PUB " ++ channel ++ js " " ++ message.

Section Text.
Context {UD : UnicodeData} {O : Others}.

(** The keys every text command can carry. *)
Definition account (k : jsstr) : Prop := word k ∧ says_worm k = false.

Definition upper1 (c : Z) : Z := if (97 <=? c) && (c <=? 122) then c - 32 else c.

Lemma toUpperCase_cons c s : 0 ≤ c < 128 → toUpperCase (c :: s) = upper1 c :: toUpperCase s.
Proof.
  intros Hc. unfold toUpperCase.
  assert (iterate (c :: s) = c :: iterate s) as ->.
  { cbn [iterate]. destruct s as [|d s]; [done|].
    assert (is_high c = false) as ->; [|done]. unfold is_high. destruct (Z.leb_spec 0xD800 c); [lia|done]. }
  rewrite bind_cons. unfold units. rewrite bind_app. unfold upper_cp at 1.
  rewrite (proj2 (Z.ltb_lt c 128)) by lia. fold (upper1 c). cbn [mbind list_bind app].
  unfold units_of_cp at 1. rewrite (proj2 (Z.ltb_lt (upper1 c) 0x10000)); [done|].
  unfold upper1. case_match; lia.
Qed.

(** Texts that cannot be read as the flag of a write-once [SET]. *)
Lemma says_worm_first c s : 0 ≤ c < 128 → upper1 c ≠ 87 → says_worm (c :: s) = false.
Proof.
  intros Hc H. unfold says_worm. apply bool_decide_eq_false_2. rewrite toUpperCase_cons by done.
  intros [= E _]. done.
Qed.
Lemma says_worm_second c d s : 0 ≤ c < 128 → 0 ≤ d < 128 → upper1 d ≠ 79 →
  says_worm (c :: d :: s) = false.
Proof.
  intros Hc Hd H. unfold says_worm. apply bool_decide_eq_false_2. rewrite !toUpperCase_cons by done.
  intros [= _ E _]. done.
Qed.

Lemma show_not_worm n : 0 ≤ n → says_worm (show n) = false.
Proof.
  intros Hn. destruct (show_digits n Hn) as (Hne & Hd & _).
  destruct (show n) as [|c s]; [done|]. inversion Hd as [|? ? Hc _]; subst. unfold is_digit in Hc.
  apply andb_true_iff in Hc as [H1%Z.leb_le H2%Z.leb_le].
  apply says_worm_first; [lia|]. unfold upper1. destruct (Z.leb_spec 97 c); [lia|]. cbn. lia.
Qed.

Lemma get_text_sentence k : get_text k = sentence [js "GET"; k].
Proof. done. Qed.
Lemma set_text_sentence k v : set_text k v = sentence [js "SET"; k; v].
Proof. done. Qed.
Lemma serve_get_text s k : word k →
  serve (get_text k) s = (s, Ok match get s k with Some v => bulk v | None => null end).
Proof.
  intros Hk. unfold serve. rewrite get_text_sentence, (parse_render (GET k)); [done|done|by words|done].
Qed.

Lemma serve_del_text s k : word k →
  serve (del_text k) s = let '(s', r) := execute (DEL k) s in (s', Ok r).
Proof.
  intros Hk. unfold serve. change (del_text k) with (sentence [js "DEL"; k]).
  rewrite (parse_render (DEL k)); [done|done|by words|done].
Qed.

Lemma serve_put s k v : account k → word v → says_worm v = false → is_worm s k = false →
  serve (set_text k v) s = (<[k := Entry v false]> s, Ok ok).
Proof.
  intros [Hk Hw] Hv Hvw Hs. unfold serve.
  rewrite set_text_sentence, (parse_render (SET k v false)); [|done|by words|done].
  cbn [execute]. unfold put. by rewrite Hs.
Qed.

(** A write-once [SET], and a [SET] of a write-once key. *)
Lemma serve_put_worm s k v : word k → word v →
  serve (set_text k v ++ js " WORM") s =
  if is_worm s k then (s, Ok worm_violation) else (<[k := Entry v true]> s, Ok ok).
Proof.
  intros Hk Hv. unfold serve.
  assert (set_text k v ++ js " WORM" = sentence [js "SET"; k; v; js "WORM"]) as ->.
  { unfold set_text, sentence. cbn [join]. by rewrite <- !app_assoc. }
  rewrite (parse_render (SET k v true)); [|done|cbn [app]; by words|done].
  cbn [execute]. unfold put. by destruct (is_worm s k).
Qed.

Lemma serve_put_refused s k v : account k → word v → says_worm v = false → is_worm s k = true →
  serve (set_text k v) s = (s, Ok worm_violation).
Proof.
  intros [Hk Hw] Hv Hvw Hs. unfold serve.
  rewrite set_text_sentence, (parse_render (SET k v false)); [|done|by words|done].
  cbn [execute]. unfold put. by rewrite Hs.
Qed.

(** Publishing does not touch the store, whatever spaces the message holds. *)
Lemma serve_pub_text s ch m c : word ch → is_space c = false →
  serve (pub_text ch (m ++ [c])) s = (s, Ok ok).
Proof.
  intros Hch Hc. unfold serve, parseCommand.
  assert (trim (pub_text ch (m ++ [c])) = pub_text ch (m ++ [c])) as ->.
  { unfold trim, pub_text. rewrite trimStart_word by by repeat constructor.
    rewrite !app_assoc. by apply trimEnd_word. }
  assert (∃ w ws, split_space (pub_text ch (m ++ [c])) = js "PUB" :: ch :: w :: ws) as (w & ws & ->).
  { unfold split_space, pub_text. change (js "PUB " ++ ?r) with (js "PUB" ++ 32 :: r).
    rewrite (split_space_word false []); [|by repeat constructor|done]. cbn [split_space_from].
    change (is_space 32) with true. cbv iota. destruct Hch as [Hne Hns].
    rewrite (split_space_word true []) by done. cbn [app split_space_from]. change (js " ") with [32].
    cbn [app split_space_from]. change (is_space 32) with true. cbv iota.
    assert (∀ t sep cur, split_space_from sep cur t ≠ []) as Hs.
    { induction t as [|x t IH]; intros sep cur; cbn; [done|]. destruct (is_space x), sep; done || apply IH. }
    destruct (split_space_from true [] (m ++ [c])) as [|w ws] eqn:E; [by apply Hs in E|]. eauto. }
  reflexivity.
Qed.
End Text.

(** ** Instances for concrete runs

    The identity above ASCII, and a server without other procedures. *)
Definition ascii_only : UnicodeData := Build_UnicodeData (λ c, [c]) (λ c, [c]).
Definition no_others : Others :=
  Build_Others (λ _ _, ok) (λ _ _ s, (s, error (js "unknown procedure"))).

(** ** Write-once keys stay *)

Section Sealed.
Context {UD : UnicodeData} {O : Others}.

Definition sealed (k v : jsstr) (s : kv) : Prop := s !! k = Some (Entry v true).

(** What the procedures that are not modelled promise: they write through
    [Store.set], like the others. *)
Definition others_keep_worm : Prop :=
  ∀ p args s k v, sealed k v s → sealed k v (exec_other p args s).1.

Lemma set_unsafe_sealed k v k' v' s : sealed k v s → sealed k v (set_unsafe k' v' s).
Proof.
  intros Hs. unfold set_unsafe, put, sealed. destruct (is_worm s k') eqn:E; [done|]. cbn.
  rewrite lookup_insert_ne; [done|]. intros ->. unfold is_worm in E. by rewrite Hs in E.
Qed.

Lemma transfer_sealed k v args s : sealed k v s → sealed k v (transfer args s).1.
Proof.
  intros Hs. unfold transfer. repeat case_match; try done. by repeat apply set_unsafe_sealed.
Qed.

Lemma serve_sealed k v text s : others_keep_worm → sealed k v s → sealed k v (serve text s).1.
Proof.
  intros Ho Hs. unfold serve. destruct (parseCommand text) as [c|e]; [|done].
  destruct c as [k'|k'| | | | | |k' v' w| |p args| |]; cbn [execute]; try done.
  - destruct (is_worm s k') eqn:E; [done|]. unfold sealed. cbn. rewrite lookup_delete_ne; [done|].
    intros ->. unfold is_worm in E. by rewrite Hs in E.
  - unfold put. destruct (is_worm s k') eqn:E; [done|]. unfold sealed. cbn. rewrite lookup_insert_ne; [done|].
    intros ->. unfold is_worm in E. by rewrite Hs in E.
  - case_bool_decide.
    + destruct (transfer _ s) as [s' r] eqn:Et. cbn. change s' with (s', r).1. rewrite <- Et. by apply transfer_sealed.
    + destruct (exec_other p args s) as [s' r] eqn:Et. cbn. change s' with (s', r).1. rewrite <- Et. by apply Ho.
Qed.

Lemma final_sealed {A} k v (p : prog A) d s : others_keep_worm → sealed k v s → sealed k v (final serve p d s).
Proof. intros Ho. apply exec_invariant. intros. by apply serve_sealed. Qed.

Lemma advance_sealed {A} k v (p : prog A) d s p' d' s' :
  others_keep_worm → sealed k v s → advance serve p d s = (p', d', s') → sealed k v s'.
Proof.
  intros Ho Hs. revert d s Hs. induction p as [a|e|t kk IH|kk IH|kk IH]; intros d s Hs E; cbn in E.
  - by injection E as <- <- <-.
  - by injection E as <- <- <-.
  - pose proof (serve_sealed k v t s Ho Hs) as H'. destruct (serve t s) as [s1 r]. by injection E as <- <- <-.
  - by eapply IH.
  - by eapply IH.
Qed.

Lemma prun_sealed {A} k v schedule (ps : list (prog A)) d s ps' d' s' :
  others_keep_worm → sealed k v s → prun serve schedule ps d s = (ps', d', s') → sealed k v s'.
Proof.
  intros Ho. revert ps d s. induction schedule as [|i schedule IH]; intros ps d s Hs E; cbn in E.
  { by injection E as <- <- <-. }
  destruct (ps !! i) as [p|]; [|by eapply IH].
  destruct (advance serve p d s) as [[p1 d1] s1] eqn:E1. eapply IH; [|exact E]. by eapply advance_sealed.
Qed.
End Sealed.

Lemma no_others_keep_worm : @others_keep_worm no_others.
Proof. by intros ?????. Qed.
