(* ===== verification/ClientCli.v ===== *)
(** * The command-line client ([apps/bun/src/bin/client.ts])

    Its arguments, the text command it builds from them, the diagnostic of a
    connection that fails and what it prints for a response. *)
From Stdlib Require Import QArith.
From S2P Require Import Prelude Utf8 JsText Number Command Protocol KvServer.
#[local] Open Scope Z_scope.

Definition DEFAULT_HOST : jsstr := js "127.0.0.1".
Definition DEFAULT_PORT : Q := inject_Z 6389.

Record ParsedArgs := Args { host : jsstr; port : Q; commandParts : list jsstr }.

(** The loop over [argv]: [argv[++i]] past the end is [undefined]. *)
Fixpoint parse_from (argv : list jsstr) (a : ParsedArgs) : res ParsedArgs :=
  match argv with
  | [] => Ok a
  | token :: rest =>
      if bool_decide (token = js "--host") then
        match rest with
        | [] => Ok a
        | h :: rest => parse_from rest (Args h (port a) (commandParts a))
        end
      else if bool_decide (token = js "--port") then
        match rest with
        | [] => Throw (Error (js "--port must be a number"))
        | p :: rest =>
            match Number p with
            | Fin q => parse_from rest (Args (host a) q (commandParts a))
            | _ => Throw (Error (js "--port must be a number"))
            end
        end
      else parse_from rest (Args (host a) (port a) (commandParts a ++ [token]))
  end.
Definition parseArgs (argv : list jsstr) : res ParsedArgs :=
  parse_from argv (Args DEFAULT_HOST DEFAULT_PORT []).

(** [err.code] and [err.message]; [port_text] is the port as [String] prints it. *)
Definition formatConnectionDiagnostic (code message : option jsstr) (err host port_text : jsstr) : jsstr :=
  let base := js "Unable to reach WormDB at " ++ host ++ js ":" ++ port_text ++ js "." in
  let named_ c := bool_decide (code = Some c) in
  let code_text := default [] code in
  if named_ (js "ECONNREFUSED") then
    base ++ js " Connection refused. Start WormDB (default port 6389) or check --host/--port."
  else if named_ (js "ENOTFOUND") || named_ (js "EAI_AGAIN") then
    base ++ js " Host resolution failed (" ++ code_text ++ js "). Verify --host and DNS/network configuration."
  else if named_ (js "ETIMEDOUT") then
    base ++ js " Connection timed out. Verify firewall/routing and that WormDB is listening on " ++
      host ++ js ":" ++ port_text ++ js "."
  else if named_ (js "EHOSTUNREACH") || named_ (js "ENETUNREACH") then
    base ++ js " Network is unreachable (" ++ code_text ++
      js "). Verify local networking and target host reachability."
  else base ++ js " " ++ default err message.

(** A part that is missing or empty is falsy. *)
Definition part (parts : list jsstr) (i : nat) : option jsstr :=
  match parts !! i with Some ((_ :: _) as p) => Some p | _ => None end.

Section Command.
Context {UD : UnicodeData}.

Definition buildCommand (parts : list jsstr) : res jsstr :=
  match parts with
  | [] => Throw (Error (js "Missing command. Example: STATUS or GET mykey"))
  | p0 :: _ =>
      let verb := toLowerCase p0 in
      let named_ s := bool_decide (verb = s) in
      let rest := join (js " ") parts in
      if named_ (js "status") then Ok (js "STATUS")
      else if named_ (js "cluster-status") then Ok (js "CLUSTER STATUS")
      else
        match part parts 1, part parts 2 with
        | Some a, b =>
            if named_ (js "get") then Ok (js "GET " ++ a)
            else if named_ (js "set") then
              match b with
              | Some b =>
                  let worm := if bool_decide (js "--worm" ∈ parts) then js " WORM" else [] in
                  Ok (js "SET " ++ a ++ js " " ++ b ++ worm)
              | None => Ok rest
              end
            else if named_ (js "del") then Ok (js "DEL " ++ a)
            else if named_ (js "pub") then
              if 3 <=? len parts then Ok (js "PUB " ++ a ++ js " " ++ join (js " ") (drop 2 parts))
              else Ok rest
            else Ok rest
        | None, _ => Ok rest
        end
  end.
End Command.

(** What [main] prints, and whether it exits with status 1. *)
Definition report (response : WormResponse) : jsstr * bool :=
  match response with
  | error m => (js "ERR: " ++ m, true)
  | ok => (js "OK", false)
  | null => (js "(null)", false)
  | bulk v => (v, false)
  | event ch m => (js "[" ++ ch ++ js "] " ++ m, false)
  end.

(** ** Properties *)

Section Properties.
Context {UD : UnicodeData}.

(** From the words of a command line to the command sent. *)
Definition cli (parts : list jsstr) : res ParsedCommand := text ← buildCommand parts; parseCommand text.

Lemma part_word p i w : p !! i = Some w → word w → part p i = Some w.
Proof. unfold part. intros -> [Hne _]. by destruct w. Qed.

Lemma build_get k : word k → buildCommand [js "get"; k] = Ok (sentence [js "GET"; k]).
Proof. intros [Hk _]. destruct k as [|c k]; [done|]. reflexivity. Qed.
Lemma build_del k : word k → buildCommand [js "del"; k] = Ok (sentence [js "DEL"; k]).
Proof. intros [Hk _]. destruct k as [|c k]; [done|]. reflexivity. Qed.
Lemma build_exec p ws : word p → ws ≠ [] →
  buildCommand (js "exec" :: p :: ws) = Ok (sentence (js "exec" :: p :: ws)).
Proof.
  intros [Hp _] Hne. destruct p as [|c p]; [done|]. destruct ws as [|w ws]; [done|]. reflexivity.
Qed.
Lemma build_pub ch ws : word ch → ws ≠ [] →
  buildCommand (js "pub" :: ch :: ws) = Ok (sentence (js "PUB" :: ch :: ws)).
Proof.
  intros [Hc _] Hne. destruct ch as [|c ch]; [done|]. destruct ws as [|w ws]; [done|].
  transitivity (if 3 <=? len (js "pub" :: (c :: ch) :: w :: ws)
                then Ok (sentence (js "PUB" :: (c :: ch) :: w :: ws))
                else Ok (join (js " ") (js "pub" :: (c :: ch) :: w :: ws))); [reflexivity|].
  by rewrite (proj2 (Z.leb_le _ _)) by len_tac.
Qed.
Lemma build_set k v extra : word k → word v →
  buildCommand (js "set" :: k :: v :: extra) =
  Ok (sentence ([js "SET"; k; v] ++
        if bool_decide (js "--worm" ∈ js "set" :: k :: v :: extra) then [js "WORM"] else [])).
Proof.
  intros [Hk _] [Hv _]. destruct k as [|c k]; [done|]. destruct v as [|d v]; [done|].
  set (b := bool_decide _). transitivity (Ok (js "SET " ++ (c :: k) ++ js " " ++ (d :: v) ++
    if b then js " WORM" else [])); [reflexivity|]. destruct b; [done|]. by rewrite app_nil_r.
Qed.

(** The command line means the command it names: [get], [set] with or
    without [--worm], [del], [pub] with a message of several words, [status]
    and [cluster-status], whose parts are words; any other verb is sent as it
    was typed, [exec] for instance. *)
Theorem cli_means k v ch ws :
  Forall word (k :: v :: ch :: ws) → ws ≠ [] → says_worm k = false → says_worm v = false →
  k ≠ js "--worm" → v ≠ js "--worm" →
  cli [js "get"; k] = Ok (GET k) ∧
  cli [js "set"; k; v] = Ok (SET k v false) ∧
  cli [js "set"; k; v; js "--worm"] = Ok (SET k v true) ∧
  cli [js "del"; k] = Ok (DEL k) ∧
  cli (js "pub" :: ch :: ws) = Ok (PUB ch (sentence ws)) ∧
  cli [js "status"] = Ok STATUS ∧ cli [js "cluster-status"] = Ok CLUSTER_STATUS ∧
  cli (js "exec" :: ch :: ws) = Ok (EXEC ch (ArgStr <$> ws)).
Proof.
  rewrite !Forall_cons. intros (Hk & Hv & Hch & Hws) Hne Wk Wv Nk Nv. unfold cli.
  assert (word (js "PUB") ∧ word (js "exec")) as [Hpub Hexec] by (split; words).
  split_and!.
  - rewrite build_get by done. cbn [mbind res_bind]. apply (parse_render (GET k)); [done|words|done].
  - rewrite build_set by done. rewrite bool_decide_eq_false_2.
    + apply (parse_render (SET k v false)); [done|cbn [app]; words|done].
    + rewrite !elem_of_cons, elem_of_nil. intros [H|[H|[H|[]]]]; [discriminate|congruence|congruence].
  - rewrite build_set by done. rewrite bool_decide_eq_true_2 by set_solver.
    apply (parse_render (SET k v true)); [done|cbn [app]; words|done].
  - rewrite build_del by done. apply (parse_render (DEL k)); [done|words|done].
  - rewrite build_pub by done. cbn [mbind res_bind]. rewrite parse_words; [|done|by constructor].
    destruct ws as [|w ws]; [done|]. reflexivity.
  - reflexivity.
  - reflexivity.
  - rewrite build_exec by done. cbn [mbind res_bind]. rewrite parse_words; [|done|by constructor].
    reflexivity.
Qed.
End Properties.

(** ** Concrete runs *)

Section Examples.
#[local] Existing Instance ascii_only.

Lemma cli_means_witness :
  cli [js "set"; js "a"; js "b"; js "--worm"] = Ok (SET (js "a") (js "b") true) ∧
  cli [js "pub"; js "c"; js "hello"; js "world"] = Ok (PUB (js "c") (js "hello world")).
Proof.
  destruct (cli_means (js "a") (js "b") (js "c") [js "hello"; js "world"])
    as (_ & _ & H1 & _ & H2 & _); [words|done|by vm_compute..|done|done|]. by split.
Defined.

(** A value of several words, quoted in the shell, is cut after the first. *)
Lemma cli_value_truncated : cli [js "set"; js "a"; js "hello world"] = Ok (SET (js "a") (js "hello") false).
Proof. by vm_compute. Qed.

(** ... and a value whose second word is WORM makes the key immutable. *)
Lemma cli_value_makes_worm : cli [js "set"; js "a"; js "the worm"] = Ok (SET (js "a") (js "the") true).
Proof. by vm_compute. Qed.
End Examples.
