(* ===== verification/Mem.v ===== *)
(** * The agent-memory client ([examples/agent-memory/client/mem.ts])

    [MemClient]: each method is one [EXEC] command and what it makes of the
    response, as a [call] of [WormDBApi]; the theorems read the arguments back
    as [src/procedures/memory.zig] does.  Numeric options are given as the
    strings [String] makes of them. *)
From S2P Require Import Prelude Utf8 TypedArray JsText Command Protocol Wire Json WormDBApi.

(** ** Responses *)

Definition unwrapValue (resp : WormResponse) (proc : jsstr) : res jsstr :=
  match resp with
  | error m => Throw (MemError proc m)
  | null => Throw (MemError proc (js "unexpected NULL response"))
  | bulk v => Ok v
  | ok => Ok []
  | event _ _ => Throw (MemError proc (js "unexpected response type: " ++ type_of resp))
  end.

(** Anything but an error passes. *)
Definition unwrapOk (resp : WormResponse) (proc : jsstr) : res () :=
  match resp with
  | ok => Ok ()
  | error m => Throw (MemError proc m)
  | _ => Ok ()
  end.

Definition parse_json (text : jsstr) : res json :=
  match JSON_parse text with Some v => Ok v | None => Throw SyntaxError end.

(** [sendCommand({ kind: "EXEC", ... })] and its two readings *)
Definition exec_ok (proc : jsstr) (args : list arg) : call () :=
  command (EXEC proc args) (λ resp, unwrapOk resp proc).
Definition exec_json (proc : jsstr) (args : list arg) : call json :=
  command (EXEC proc args) (λ resp, text ← unwrapValue resp proc; parse_json text).

Definition capabilities : call json := exec_json (js "mem_capabilities") [].

Definition init_args (ns embedderId : jsstr) (metric : option Metric) (vectorOnly : option bool)
    : list jsstr :=
  [ns; embedderId; metric_name (default cosine metric)] ++
  match vectorOnly with
  | Some b => [if b then js "vector_only=true" else js "vector_only=false"]
  | None => []
  end.
Definition init (ns embedderId : jsstr) (metric : option Metric) (vectorOnly : option bool) : call () :=
  exec_ok (js "mem_init") (ArgStr <$> init_args ns embedderId metric vectorOnly).

Record AddOptions := Add { ao_meta : option json; ao_worm : option bool; ao_embedderId : option jsstr }.

(** The tail of [add] and [addVectorOnly]: placeholders hold the places
    before the last option given. *)
Definition add_tail (o : AddOptions) : list jsstr :=
  match ao_meta o with
  | Some meta => [stringify meta]
  | None => if bool_decide (is_Some (ao_worm o)) || bool_decide (is_Some (ao_embedderId o))
            then [[]] else []
  end ++
  match ao_worm o with
  | Some w => [if w then js "1" else js "0"]
  | None => if bool_decide (is_Some (ao_embedderId o)) then [js "1"] else []
  end ++
  match ao_embedderId o with Some e => [e] | None => [] end.

Definition add_args (ns docId text : jsstr) (embedding : bytes) (o : AddOptions) : list arg :=
  [ArgStr ns; ArgStr docId; ArgStr text; ArgBytes embedding] ++ (ArgStr <$> add_tail o).
Definition add (ns docId text : jsstr) (embedding : bytes) (o : AddOptions) : call () :=
  exec_ok (js "mem_add") (add_args ns docId text embedding o).

Definition addVectorOnly_args (ns docId : jsstr) (embedding : bytes) (o : AddOptions) : list arg :=
  [ArgStr ns; ArgStr docId; ArgBytes embedding] ++ (ArgStr <$> add_tail o).
Definition addVectorOnly (ns docId : jsstr) (embedding : bytes) (o : AddOptions) : call () :=
  exec_ok (js "mem_add") (addVectorOnly_args ns docId embedding o).

Record BulkAddRow := Row { row_id : jsstr; row_embedding : bytes; row_meta : option json }.

Definition row_args (row : BulkAddRow) : list arg :=
  [ArgStr (row_id row); ArgBytes (row_embedding row);
   ArgStr (match row_meta row with None => [] | Some m => stringify m end)].
Definition bulk_args (ns : jsstr) (rows : list BulkAddRow) : list arg :=
  [ArgStr ns; ArgStr (show (len rows))] ++ (rows ≫= row_args).
Definition bulkAdd (ns : jsstr) (rows : list BulkAddRow) : call () :=
  exec_ok (js "mem_bulk_add") (bulk_args ns rows).

Definition get (ns docId : jsstr) : call json := exec_json (js "mem_get") (ArgStr <$> [ns; docId]).

Record QueryOptions := Query {
  qo_lambda : option jsstr; qo_minScore : option jsstr; qo_snippetChars : option jsstr;
  qo_filter : option jsstr }.

(** [/^filter=/i] *)
Definition is_filter (s : jsstr) : bool :=
  match s with
  | f :: i :: l :: t :: e :: r :: eq :: _ =>
      is_ci 102 f && is_ci 105 i && is_ci 108 l && is_ci 116 t && is_ci 101 e && is_ci 114 r && (eq =? 61)
  | _ => false
  end.

Definition query_tail (o : QueryOptions) : list jsstr :=
  let lambdaSet := bool_decide (is_Some (qo_lambda o)) in
  let minSet := bool_decide (is_Some (qo_minScore o)) in
  let snipSet := bool_decide (is_Some (qo_snippetChars o)) in
  let filterSet := match qo_filter o with Some f => bool_decide (trim f ≠ []) | None => false end in
  (if lambdaSet || minSet || snipSet || filterSet then [default (js "0") (qo_lambda o)] else []) ++
  (if minSet || snipSet || filterSet then [default [] (qo_minScore o)] else []) ++
  (if snipSet || filterSet then [default [] (qo_snippetChars o)] else []) ++
  (if filterSet then
     let filter := trim (default [] (qo_filter o)) in
     [if is_filter filter then filter else js "filter=" ++ filter]
   else []).

Definition query_args (ns : jsstr) (embedding : bytes) (k : Z) (o : QueryOptions) : list arg :=
  [ArgStr ns; ArgBytes embedding; ArgStr (show k)] ++ (ArgStr <$> query_tail o).
Definition query (ns : jsstr) (embedding : bytes) (k : Z) (o : QueryOptions) : call json :=
  exec_json (js "mem_query") (query_args ns embedding k o).

Definition stats (ns : jsstr) : call json := exec_json (js "mem_stats") [ArgStr ns].
Definition drop (ns : jsstr) : call json := exec_json (js "mem_drop") [ArgStr ns].
(** ** How the procedures read their arguments *)

Definition text_arg (args : list arg) (n : nat) : option jsstr :=
  match args !! n with Some (ArgStr s) => Some s | _ => None end.
Definition bytes_arg (args : list arg) (n : nat) : option bytes :=
  match args !! n with Some (ArgBytes b) => Some b | _ => None end.

(** A number that does not parse counts as not given; the empty text does not. *)
Definition nonempty (s : jsstr) : option jsstr := match s with [] => None | _ => Some s end.

Record server_query := SrvQuery {
  sq_ns : jsstr; sq_embedding : bytes; sq_k : jsstr; sq_decay : jsstr;
  sq_min_score : option jsstr; sq_snippet : option jsstr; sq_filter : option jsstr }.

Definition mem_query (args : list arg) : option server_query :=
  ns ← text_arg args 0;
  embedding ← bytes_arg args 1;
  k ← text_arg args 2;
  Some (SrvQuery ns embedding k (default (js "0") (text_arg args 3))
    (text_arg args 4 ≫= nonempty) (text_arg args 5 ≫= nonempty)
    (raw ← text_arg args 6; if is_filter raw then Some (list.drop 7 raw) else None)).

Record server_add := SrvAdd {
  sa_ns : jsstr; sa_id : jsstr; sa_text : jsstr; sa_embedding : bytes; sa_meta : jsstr;
  sa_worm : bool; sa_embedder : option jsstr }.

Definition mem_add (vector_only : bool) (args : list arg) : option server_add :=
  ns ← text_arg args 0;
  doc_id ← text_arg args 1;
  text ← (if vector_only then Some [] else text_arg args 2);
  let base := if vector_only then 2%nat else 3%nat in
  embedding ← bytes_arg args base;
  Some (SrvAdd ns doc_id text embedding (default [] (text_arg args (base + 1)))
    (match text_arg args (base + 2) with Some w => negb (bool_decide (w = js "0")) | None => true end)
    (text_arg args (base + 3))).

Fixpoint read_rows (n : nat) (args : list arg) : option (list (jsstr * bytes * jsstr)) :=
  match n, args with
  | O, [] => Some []
  | S n, ArgStr id :: ArgBytes e :: ArgStr m :: args => r ← read_rows n args; Some ((id, e, m) :: r)
  | _, _ => None
  end.
Definition mem_bulk_add (count : jsstr → option Z) (args : list arg)
    : option (jsstr * list (jsstr * bytes * jsstr)) :=
  match args with
  | ArgStr ns :: ArgStr c :: rest => n ← count c; rows ← read_rows (Z.to_nat n) rest; Some (ns, rows)
  | _ => None
  end.

(** ** Properties *)

(** The filter expression the caller means. *)
Definition filter_meant (o : QueryOptions) : option jsstr :=
  f ← qo_filter o;
  match trim f with
  | [] => None
  | f => Some (if is_filter f then list.drop 7 f else f)
  end.

(** Whatever subset of its options a caller of [query] sets, the server
    reads those, and its own defaults for the others; a filter is read
    without surrounding space, with or without its prefix. *)
Theorem query_options_reach_server ns embedding k o :
  mem_query (query_args ns embedding k o) =
  Some (SrvQuery ns embedding (show k) (default (js "0") (qo_lambda o))
    (qo_minScore o ≫= nonempty) (qo_snippetChars o ≫= nonempty) (filter_meant o)).
Proof.
  unfold query_args, query_tail, filter_meant. destruct o as [l m s f]. cbn [qo_lambda qo_minScore qo_snippetChars qo_filter].
  assert (∀ f, is_filter (js "filter=" ++ f) = true) as Hp by done.
  assert (∀ f, list.drop 7 (js "filter=" ++ f) = f) as Hd by done.
  destruct f as [f|].
  - cbn [default from_option id mbind option_bind]. destruct (trim f) as [|c f'] eqn:Ef.
    + rewrite (bool_decide_eq_false_2 ([] ≠ [])) by (intros H; by apply H). by destruct l, m, s.
    + rewrite (bool_decide_eq_true_2 (c :: f' ≠ [])) by done. rewrite !orb_true_r. unfold mem_query, text_arg.
      cbn [app fmap list_fmap lookup list_lookup bytes_arg mbind option_bind].
      destruct (is_filter (c :: f')) eqn:Ei; [rewrite Ei|rewrite Hp, Hd]; by destruct l, m, s.
  - by destruct l, m, s.
Qed.

(** The optional arguments of [add] and [addVectorOnly] are read by the
    server as the caller gave them, whichever are left out; a document is
    write-once unless the caller says otherwise. *)
Theorem add_options_reach_server ns docId text embedding o :
  let meta := match ao_meta o with Some m => stringify m | None => [] end in
  let worm := default true (ao_worm o) in
  mem_add false (add_args ns docId text embedding o) =
    Some (SrvAdd ns docId text embedding meta worm (ao_embedderId o)) ∧
  mem_add true (addVectorOnly_args ns docId embedding o) =
    Some (SrvAdd ns docId [] embedding meta worm (ao_embedderId o)).
Proof. destruct o as [[m|] [[]|] [e|]]; split; reflexivity. Qed.

Lemma read_rows_args rows :
  read_rows (length rows) (rows ≫= row_args) =
  Some ((λ r, (row_id r, row_embedding r, match row_meta r with None => [] | Some m => stringify m end)) <$> rows).
Proof. induction rows as [|r rows IH]; [done|]. cbn -[row_args]. unfold row_args at 1. cbn. by rewrite IH. Qed.

(** The server reads the rows of [bulkAdd] as the caller gave them. *)
Lemma bulkAdd_rows_reach_server count ns rows :
  (∀ n, 0 ≤ n → count (show n) = Some n) →
  mem_bulk_add count (bulk_args ns rows) =
  Some (ns, (λ r, (row_id r, row_embedding r,
                   match row_meta r with None => [] | Some m => stringify m end)) <$> rows).
Proof.
  intros Hc. unfold bulk_args. cbn [app mem_bulk_add]. rewrite Hc by apply len_nonneg.
  cbn [mbind option_bind]. unfold len. rewrite Nat2Z.id, read_rows_args. done.
Qed.

(** A procedure that answers a value where [ok] was expected is taken for a success. *)
Lemma unwrapOk_accepts resp proc : (∀ m, resp ≠ error m) → unwrapOk resp proc = Ok ().
Proof. destruct resp; try done. intros H. by edestruct H. Qed.
