(* ===== verification/EventFeed.v ===== *)
(** * The event feed of the web servers

    [setupEventSubscription] and [broadcast] of [apps/bun/src/bin/notepad.ts]
    and [explorer.ts]: one shared connection subscribed to a channel, whose
    JSON events are sent to every browser.  The two servers differ in the
    channel only. *)
From S2P Require Import Prelude Utf8 TypedArray JsText Command Protocol Wire Json.

(** [timers]: how many [setTimeout(setupEventSubscription, 3000)] are armed;
    [clients]: the set of browser sockets, in insertion order. *)
Record feed := Feed {
  eventSocket : option Z;
  eventConnecting : bool;
  eventInbound : bytes;
  timers : nat;
  clients : list Z;
}.

Inductive action :=
| Dial
| Write (socket : Z) (data : bytes)
| Relay (client : Z) (text : jsstr).

#[export] Instance action_eq_dec : EqDecision action.
Proof. solve_decision. Defined.

Section Feed.
(** The channel, and whether [ws.send] goes through rather than throws. *)
Context (channel : jsstr) (sendable : Z → bool).

(** [broadcast]: a client whose [send] throws is dropped. *)
Definition broadcast (cs : list Z) (msg : json) : list Z * list action :=
  let payload := stringify msg in
  (base.filter (λ c, sendable c = true) cs,
   (λ c, Relay c payload) <$> base.filter (λ c, sendable c = true) cs).

Definition setupEventSubscription (f : feed) : feed * list action :=
  if bool_decide (is_Some (eventSocket f)) || eventConnecting f then (f, [])
  else (Feed (eventSocket f) true (eventInbound f) (timers f) (clients f), [Dial]).

Definition on_open (s : Z) (f : feed) : feed * list action :=
  (Feed (Some s) false [] (timers f) (clients f),
   [Write s WIRE_MAGIC] ++
   match encodeCommandFrame (SUB channel None) with Ok frame => [Write s frame] | Throw _ => [] end).

(** One frame: an event of the channel whose message is JSON is broadcast. *)
Definition message_of (frame : Z * bytes) : option json :=
  if isEventCode frame.1 then
    match decodeResponse frame.1 frame.2 with
    | Ok (event ch m) => if bool_decide (ch = channel) then JSON_parse m else None
    | _ => None
    end
  else None.

Fixpoint relay (frames : list (Z * bytes)) (cs : list Z) : list Z * list action :=
  match frames with
  | [] => (cs, [])
  | frame :: frames =>
      match message_of frame with
      | Some msg =>
          let '(cs, a) := broadcast cs msg in
          let '(cs, b) := relay frames cs in (cs, a ++ b)
      | None => relay frames cs
      end
  end.

Definition on_data (s : Z) (chunk : SocketData) (f : feed) : feed * list action :=
  if bool_decide (eventSocket f = Some s) then
    match receive (eventInbound f) (toBytes chunk) with
    | Ok (frames, rest) =>
        let '(cs, a) := relay frames (clients f) in
        (Feed (eventSocket f) (eventConnecting f) rest (timers f) cs, a)
    | Throw _ => (f, [])
    end
  else (f, []).

Definition on_close (s : Z) (f : feed) : feed :=
  if bool_decide (eventSocket f = Some s)
  then Feed None (eventConnecting f) (eventInbound f) (S (timers f)) (clients f) else f.

Definition on_error (s : Z) (f : feed) : feed :=
  if bool_decide (eventSocket f = Some s)
  then Feed None false (eventInbound f) (S (timers f)) (clients f) else f.

Definition on_connect_failed (f : feed) : feed :=
  Feed None false (eventInbound f) (S (timers f)) (clients f).

Inductive feed_event :=
| Setup
| Opened (s : Z)
| Data (s : Z) (chunk : SocketData)
| Closed (s : Z)
| Failed (s : Z)
| ConnectFailed
| TimerFired
| ClientOpened (c : Z)
| ClientClosed (c : Z).

Definition with_clients (f : feed) (cs : list Z) : feed :=
  Feed (eventSocket f) (eventConnecting f) (eventInbound f) (timers f) cs.

(** A dialled connection opens or fails once; a timer fires when armed. *)
Definition step (e : feed_event) (f : feed) : feed * list action :=
  match e with
  | Setup => setupEventSubscription f
  | Opened s => if eventConnecting f then on_open s f else (f, [])
  | Data s chunk => on_data s chunk f
  | Closed s => (on_close s f, [])
  | Failed s => (on_error s f, [])
  | ConnectFailed => if eventConnecting f then (on_connect_failed f, []) else (f, [])
  | TimerFired =>
      match timers f with
      | O => (f, [])
      | S n => setupEventSubscription
                 (Feed (eventSocket f) (eventConnecting f) (eventInbound f) n (clients f))
      end
  | ClientOpened c => (with_clients f (if bool_decide (c ∈ clients f) then clients f else clients f ++ [c]), [])
  | ClientClosed c => (with_clients f (base.filter (λ x, x ≠ c) (clients f)), [])
  end.

Fixpoint run (es : list feed_event) (f : feed) : feed * list action :=
  match es with
  | [] => (f, [])
  | e :: es => let '(f, a) := step e f in let '(f, b) := run es f in (f, a ++ b)
  end.
End Feed.

Definition new_feed : feed := Feed None false [] 0 [].

(** ** The feed neither stops nor doubles *)

Section Facts.
Context (channel : jsstr) (sendable : Z → bool).

(** How many of a live connection, an attempt and armed timers there are. *)
Definition alive (f : feed) : nat :=
  (if eventSocket f then 1 else 0) + (if eventConnecting f then 1 else 0) + timers f.

Lemma setup_alive f : (alive f = 0 ∨ timers f = 0 ∧ alive f = 1)%nat →
  alive (setupEventSubscription f).1 = 1%nat.
Proof.
  unfold setupEventSubscription, alive. destruct f as [[s|] [] i t c]; cbn; lia.
Qed.

Lemma step_alive e f : e ≠ Setup → alive f = 1%nat → alive (step channel sendable e f).1 = 1%nat.
Proof.
  intros He Hf. destruct e as [|s|s chunk|s|s| | |c|c]; cbn [step]; try done.
  - unfold on_open, alive in *. destruct f as [[x|] [] i t c]; cbn in *; lia.
  - unfold on_data. case_bool_decide; [|done]. destruct (receive _ _) as [[fr rest]|]; [|done].
    by destruct (relay _ _ _ _).
  - unfold on_close. case_bool_decide as Hs; [|done]. unfold alive in *. rewrite Hs in Hf. cbn in *.
    destruct (eventConnecting f); lia.
  - unfold on_error. case_bool_decide as Hs; [|done]. unfold alive in *. rewrite Hs in Hf. cbn in *.
    destruct (eventConnecting f); lia.
  - destruct (eventConnecting f) eqn:Ec; [|done]. unfold alive, on_connect_failed in *. rewrite Ec in Hf.
    cbn in *. destruct (eventSocket f); lia.
  - destruct (timers f) eqn:Et; [done|]. unfold alive, setupEventSubscription in *. rewrite Et in Hf. cbn.
    destruct f as [[x|] [] i t c]; cbn in *; lia.
Qed.

(** Once set up, the feed always has exactly one of a live connection,
    an attempt in progress and an armed timer, whatever opens, fails or
    closes: it never stops trying and never subscribes twice. *)
Theorem feed_alive es f a :
  Forall (λ e, e ≠ Setup) es → run channel sendable (Setup :: es) new_feed = (f, a) → alive f = 1%nat.
Proof.
  intros He E. cbn [run] in E. destruct (step channel sendable Setup new_feed) as [f0 a0] eqn:E0.
  assert (alive f0 = 1%nat) as H0 by (cbn in E0; injection E0 as <- <-; done).
  destruct (run channel sendable es f0) as [f1 a1] eqn:E1. injection E as <- _.
  clear E0. revert f0 a1 H0 E1. induction He as [|e es He _ IH]; intros f0 a1 H0 E1; cbn [run] in E1.
  { by injection E1 as <- _. }
  pose proof (step_alive e f0 He H0) as H1. destruct (step _ _ e f0) as [f2 a2].
  destruct (run _ _ es f2) as [f3 a3] eqn:E2. injection E1 as <- _. by eapply IH.
Qed.

(** ** Events are relayed in order *)

Definition relayed_to (c : Z) (acts : list action) : list jsstr :=
  omap (λ a, match a with Relay c' t => if decide (c' = c) then Some t else None | _ => None end) acts.

Lemma relayed_app c a b : relayed_to c (a ++ b) = relayed_to c a ++ relayed_to c b.
Proof. apply omap_app. Qed.

Context (Hsend : ∀ c, sendable c = true).

Lemma broadcast_all cs msg :
  broadcast sendable cs msg = (cs, (λ c, Relay c (stringify msg)) <$> cs).
Proof. unfold broadcast. by rewrite filter_all by (apply Forall_forall; auto). Qed.

Lemma relayed_broadcast c cs t : NoDup cs → c ∈ cs → relayed_to c ((λ x, Relay x t) <$> cs) = [t].
Proof.
  unfold relayed_to. induction 1 as [|x cs Hx Hd IH]; [by intros ?%elem_of_nil|].
  intros [->|Hc]%elem_of_cons; cbn.
  - rewrite decide_True by done. f_equal. clear IH Hd. induction cs as [|y cs IH]; [done|]. cbn.
    rewrite decide_False by (intros ->; apply Hx; left). apply IH. intros H. apply Hx. by right.
  - rewrite decide_False by (intros ->; done). by apply IH.
Qed.

Lemma relay_messages c frames cs : NoDup cs → c ∈ cs →
  ∃ a, relay channel sendable frames cs = (cs, a) ∧
    relayed_to c a = stringify <$> omap (message_of channel) frames.
Proof.
  intros Hd Hc. induction frames as [|fr frames (a & E & Ha)]; [by exists []|].
  cbn [relay omap list_omap].
  destruct (message_of channel fr) as [msg|]; [|by exists a].
  rewrite broadcast_all, E. eexists. split; [done|]. by rewrite relayed_app, relayed_broadcast, Ha.
Qed.

(** The bytes of the events a server pushes. *)
Definition event_frame (e : jsstr * jsstr) : Z * bytes :=
  (REvent, lp (encodeUtf8 e.1) ++ lp (encodeUtf8 e.2)).
Definition event_ok (e : jsstr * jsstr) : Prop :=
  Forall is_unit e.1 ∧ Forall is_unit e.2 ∧ normalize e.1 = e.1 ∧ normalize e.2 = e.2 ∧
  len (encodeUtf8 e.1) + len (encodeUtf8 e.2) < 2 ^ 32 - 8.

Lemma message_of_event e : event_ok e →
  message_of channel (event_frame e) = if bool_decide (e.1 = channel) then JSON_parse e.2 else None.
Proof.
  intros (H1 & H2 & N1 & N2 & Hl). unfold message_of, event_frame. cbn [fst snd].
  change (isEventCode REvent) with true. cbv iota.
  change (decodeResponse REvent ?p) with (decode_event p). note_len.
  rewrite decode_event_lp by lia. unfold decodeUtf8, encodeUtf8.
  by rewrite !text_decode_encode, N1, N2.
Qed.

Lemma event_frame_ok e : event_ok e → frame_ok (event_frame e).
Proof.
  intros (H1 & H2 & _ & _ & Hl). unfold event_frame, frame_ok. cbn [fst snd]. split_and!.
  - by vm_compute.
  - apply Forall_app. split; (apply Forall_app; split; [apply be_bytes_byte|by apply text_encode_bytes]).
  - len_tac.
Qed.

Lemma run_data s c chunks : ∀ f fs rest,
  eventSocket f = Some s → NoDup (clients f) → c ∈ clients f →
  receive_chunks (eventInbound f) chunks = Ok (fs, rest) →
  relayed_to c (run channel sendable ((λ b, Data s (DataBuffer b)) <$> chunks) f).2
  = stringify <$> omap (message_of channel) fs.
Proof.
  induction chunks as [|b chunks IH]; intros f fs rest Hs Hd Hc E; cbn [receive_chunks] in E.
  { by injection E as <- <-. }
  rewrite fmap_cons. cbn [run step]. unfold on_data. rewrite bool_decide_eq_true_2 by done.
  cbn [toBytes]. destruct (receive (eventInbound f) b) as [[fr r]|] eqn:Er; [|done].
  cbn [mbind res_bind] in E. destruct (receive_chunks r chunks) as [[fs' r']|] eqn:Ec; [|done].
  injection E as <- <-. destruct (relay_messages c fr (clients f) Hd Hc) as (a & -> & Ha).
  set (f' := Feed _ _ _ _ _). specialize (IH f' fs' r' Hs Hd Hc Ec).
  destruct (run _ _ _ f') as [f2 a2]. cbn [snd] in *. by rewrite relayed_app, Ha, IH, omap_app, fmap_app.
Qed.

(** However the stream of events is cut into chunks, each connected
    browser is sent the JSON events of the channel, each once, in the order
    the server pushed them. *)
Theorem feed_relays s c f events chunks :
  eventSocket f = Some s → eventInbound f = [] → NoDup (clients f) → c ∈ clients f →
  Forall event_ok events → concat chunks = (event_frame <$> events) ≫= frame_bytes →
  relayed_to c (run channel sendable ((λ b, Data s (DataBuffer b)) <$> chunks) f).2 =
  stringify <$> omap (λ e, if bool_decide (e.1 = channel) then JSON_parse e.2 else None) events.
Proof.
  intros Hs Hi Hd Hc He Hchunks.
  assert (Forall frame_ok (event_frame <$> events)) as Hf.
  { apply Forall_fmap. eapply Forall_impl; [exact He|]. apply event_frame_ok. }
  assert (Forall is_byte (concat chunks)) as Hb.
  { rewrite Hchunks. apply Forall_bind. eapply Forall_impl; [exact Hf|]. apply frame_bytes_byte. }
  assert (Forall (Forall is_byte) chunks) as Hbs.
  { clear -Hb. induction chunks as [|b chunks IH]; [constructor|]. cbn in Hb. apply Forall_app in Hb as [? ?].
    constructor; auto. }
  rewrite (run_data s c chunks f (event_frame <$> events) []); [|done..|].
  - f_equal. clear -He. induction He as [|e events He _ IH]; [done|].
    rewrite fmap_cons. cbn [omap list_omap]. rewrite message_of_event by done. by destruct (if bool_decide _ then _ else _); rewrite IH.
  - rewrite Hi, receive_chunks_from by (done || constructor). cbn [app]. f_equal.
    rewrite Hchunks, <- (app_nil_r (_ ≫= _)). by apply read_all_frames.
Qed.
End Facts.

(** ** Concrete runs *)

Definition news : jsstr := js "notes".
Definition opened : feed := Feed (Some 1) false [] 0 [7; 8].

Lemma feed_alive_witness :
  ∃ f a, run news (λ _, true) [Setup; ConnectFailed; TimerFired; Opened 1; Closed 1; Failed 1] new_feed = (f, a) ∧
    timers f = 1%nat ∧ alive f = 1%nat.
Proof.
  destruct (run _ _ _ _) as [f a] eqn:E. exists f, a. split_and!; [done| |].
  - vm_compute in E. by injection E as <- _.
  - eapply (feed_alive news (λ _, true)); [|exact E]. by repeat constructor.
Defined.

Lemma feed_relays_witness :
  let stream := (event_frame <$> [(news, js "[1]"); (js "x", js "[2]"); (news, js "no"); (news, js "{}")]) ≫= frame_bytes in
  relayed_to 8 (run news (λ _, true) ((λ b, Data 1 (DataBuffer b)) <$> [take 9 stream; drop 9 stream]) opened).2
  = [js "[1]"; js "{}"].
Proof.
  intros stream.
  transitivity (stringify <$> omap (λ e : jsstr * jsstr, if bool_decide (e.1 = news) then JSON_parse e.2 else None)
    [(news, js "[1]"); (js "x", js "[2]"); (news, js "no"); (news, js "{}")]); [|by vm_compute].
  apply (feed_relays news (λ _, true) (λ _, eq_refl)); try done.
  - apply (bool_decide_unpack (NoDup _)). by vm_compute.
  - by apply elem_of_cons; right; left.
  - repeat constructor; cbn; lia || done.
Defined.
