(* ===== verification/WebApp.v ===== *)
(** * What the web servers of the demos share

    [apps/bun/src/bin/notepad.ts] and [explorer.ts]: HTTP requests and
    responses, JSON documents stored as base64 text, the reading of loosely
    typed values, and the list both keep under an index key.  The texts of the
    runtime's own errors are a parameter ([ErrorTexts]). *)
From Stdlib Require Import QArith.
From S2P Require Import Prelude Utf8 JsText Number Command Wire Protocol Base64 Json Prog KvServer.
#[local] Open Scope Z_scope.

Inductive content := Empty | Text (t : jsstr) | Json (v : json) | File (name : jsstr).
Record response := Response { status : Z; content_of : content }.

(** [body]: what [req.json()] gives; [None] when it rejects. *)
Record request := Request { method : jsstr; pathname : jsstr; body : option json }.

Definition req_json (r : request) : res json :=
  match body r with Some v => Ok v | None => Throw SyntaxError end.

Class ErrorTexts := { err_message : exn → jsstr; err_string : exn → jsstr }.

(** [err.message?.includes("WORM")] *)
Definition says_WORM {E : ErrorTexts} (e : exn) : bool := includes (err_message e) (js "WORM").

(** ** Documents *)

(** [Buffer.from(JSON.stringify(v)).toString("base64")] *)
Definition to_base64 (v : json) : jsstr := b64_encode (text_encode (stringify v)).

(** [buffer.toString("utf-8")], which keeps a byte order mark *)
Definition buffer_text (b : bytes) : jsstr := units (dec_run dec0 b).

(** [JSON.parse(Buffer.from(s, "base64").toString("utf-8"))] *)
Definition parse_document (s : jsstr) : res json :=
  match JSON_parse (buffer_text (buffer_from_base64 s)) with
  | Some v => Ok v
  | None => Throw SyntaxError
  end.

(** [res.type === "bulk" && res.value] *)
Definition bulk_value (r : WormResponse) : option jsstr :=
  match r with bulk ((_ :: _) as v) => Some v | _ => None end.

(** ** Loosely typed values *)

Definition truthy (v : option json) : bool :=
  match v with
  | None | Some JNull => false
  | Some (JBool b) => b
  | Some (JNum t) => match Number t with Fin q => negb (Qeq_bool q 0) | NaN => false | _ => true end
  | Some (JStr s) => bool_decide (s ≠ [])
  | Some _ => true
  end.

(** [a ?? b] *)
Definition coalesce (a b : option json) : option json :=
  match a with None | Some JNull => b | _ => a end.

(** [{ ...first, ...v }] of an object literal; strings spread as their units. *)
Definition spread (first : list (jsstr * json)) (v : json) : list (jsstr * json) :=
  set_fields first
    match v with
    | JObj fs => fs
    | JArr l => imap (λ i x, (show (Z.of_nat i), x)) l
    | JStr s => imap (λ i c, (show (Z.of_nat i), JStr [c])) s
    | _ => []
    end.

Definition delete_field (fields : list (jsstr * json)) (k : jsstr) : list (jsstr * json) :=
  base.filter (λ f, f.1 ≠ k) fields.

(** [v.k = x] on a parsed object; [undefined] is not printed.  Assigning to a
    primitive throws (a parsed array is treated alike). *)
Definition assign (v : json) (k : jsstr) (x : option json) : res json :=
  match v with
  | JObj fs => Ok (JObj match x with Some x => set_field fs (k, x) | None => delete_field fs k end)
  | _ => Throw TypeError
  end.

(** ** The index: a JSON array of objects *)

Definition unshift (index x : json) : res json :=
  match index with JArr l => Ok (JArr (x :: l)) | _ => Throw TypeError end.

(** [(e) => e.field === x] *)
Definition field_is (field x : jsstr) (e : json) : res bool :=
  v ← prop e field;
  Ok match v with Some (JStr s) => bool_decide (s = x) | _ => false end.

(** [index.find(...)], as the position of the element *)
Fixpoint find_in (i : nat) (field x : jsstr) (l : list json) : res (option (nat * json)) :=
  match l with
  | [] => Ok None
  | e :: l => b ← field_is field x e; if b : bool then Ok (Some (i, e)) else find_in (S i) field x l
  end.
Definition index_find (index : json) (field x : jsstr) : res (option (nat * json)) :=
  match index with JArr l => find_in 0 field x l | _ => Throw TypeError end.

(** [index.filter((e) => e.field !== x)] *)
Fixpoint filter_out (field x : jsstr) (l : list json) : res (list json) :=
  match l with
  | [] => Ok []
  | e :: l => b ← field_is field x e; r ← filter_out field x l; Ok (if b : bool then r else e :: r)
  end.
Definition index_filter (index : json) (field x : jsstr) : res json :=
  match index with JArr l => JArr <$> filter_out field x l | _ => Throw TypeError end.

(** The element found is shared with the array: assigning to it changes the
    array. *)
Definition index_update (index : json) (i : nat) (e : json) : json :=
  match index with JArr l => JArr (<[i := e]> l) | _ => index end.

(** [getIndex]: whatever goes wrong with the stored text gives an empty list. *)
Definition get_index (key : jsstr) : prog json :=
  r ← send (get_text key);
  Ret match bulk_value r with
      | Some v => match parse_document v with Ok index => index | Throw _ => JArr [] end
      | None => JArr []
      end.

(** [saveIndex] *)
Definition save_index (key : jsstr) (index : json) : prog () :=
  _ ← send (set_text key (to_base64 index)); Ret tt.

(** [pushStatus]: what is broadcast. *)
Definition pushStatus : prog (option json) :=
  catch
    (r ← send (js "STATUS");
     Ret match bulk_value r with
         | Some v => Some (JObj [(js "type", JStr (js "status")); (js "response", JObj [(js "value", JStr v)])])
         | None => None
         end)
    (λ _, Ret None).

(** ** Paths: [/^\/api\/<collection>\/([^/]+)$/] and the same with [\/lock] *)

Definition strip_prefix (p s : jsstr) : option jsstr :=
  if startsWith s p then Some (drop (length p) s) else None.

Definition no_slash (s : jsstr) : bool := forallb (λ c, negb (c =? 47)) s.

Definition match_item (prefix path : jsstr) : option jsstr :=
  id ← strip_prefix prefix path;
  if bool_decide (id ≠ []) && no_slash id then Some id else None.

Definition match_lock (prefix path : jsstr) : option jsstr :=
  r ← strip_prefix prefix path;
  let '(id, rest) := span (λ c, negb (c =? 47)) r in
  if bool_decide (id ≠ []) && bool_decide (rest = js "/lock") then Some id else None.

(** ** Facts *)

Lemma parse_document_base64 v : json_ok v → parse_document (to_base64 v) = Ok v.
Proof.
  intros Hv. unfold parse_document, to_base64.
  pose proof (stringify_well_formed v Hv) as Hwf.
  rewrite buffer_from_encode by by apply text_encode_bytes, well_formed_units.
  unfold buffer_text, text_encode.
  rewrite dec_run_encode by by apply code_points_scalar, well_formed_units.
  rewrite units_code_points by done. by rewrite parse_stringify.
Qed.

Lemma to_base64_range v : json_ok v → Forall (λ c, 43 ≤ c < 123) (to_base64 v).
Proof.
  intros Hv. by apply b64_encode_no_space, text_encode_bytes, well_formed_units, stringify_well_formed.
Qed.

(** What an array or an object is stored as can be the value of a [SET]. *)
Section Storable.
Context {UD : UnicodeData}.

Definition storable (t : jsstr) : Prop := word t ∧ says_worm t = false.

Definition container (v : json) : Prop := match v with JArr _ | JObj _ => True | _ => False end.

Lemma b64_char_high d : 48 ≤ d < 64 → 0 ≤ b64_char d < 128 ∧ upper1 (b64_char d) ≠ 79.
Proof.
  intros H. unfold b64_char, upper1. repeat case_ztest; cbn [andb]; try lia; repeat case_ztest; cbn [andb]; lia.
Qed.

Lemma b64_encode_head x bs : is_byte x → Forall is_byte bs →
  ∃ d r, b64_encode (x :: bs) = b64_char (x / 4) :: b64_char (x mod 4 * 16 + d / 16) :: r ∧ is_byte d.
Proof.
  intros Hx Hbs. destruct bs as [|y [|z bs]].
  - exists 0, [61; 61]. split; [|done]. cbn. by rewrite Z.add_0_r.
  - inversion Hbs; subst. by exists y, [b64_char (y mod 16 * 4); 61].
  - inversion Hbs; subst. by eexists y, _.
Qed.

Lemma to_base64_storable v : json_ok v → container v → storable (to_base64 v).
Proof.
  intros Hv Hc. pose proof (to_base64_range v Hv) as Hr.
  assert (∃ c r, stringify v = c :: r ∧ (c = 91 ∨ c = 123)) as (c & r & E & Hcs).
  { destruct v; try done; eexists _, _; (split; [reflexivity|auto]). }
  assert (∃ bs, text_encode (stringify v) = c :: bs) as [bs Ebs].
  { rewrite E. unfold text_encode.
    assert (code_points (c :: r) = c :: code_points r) as ->.
    { cbn [code_points]. by destruct Hcs as [-> | ->]. }
    rewrite bind_cons. destruct Hcs as [-> | ->]; eexists; reflexivity. }
  assert (Forall is_byte (c :: bs)) as Hb.
  { rewrite <- Ebs. by apply text_encode_bytes, well_formed_units, stringify_well_formed. }
  apply Forall_cons in Hb as [Hcb Hbs].
  destruct (b64_encode_head c bs Hcb Hbs) as (d & s & Es & Hd). unfold to_base64 in *. rewrite Ebs, Es in *.
  split.
  - split; [done|]. eapply Forall_impl; [exact Hr|]. intros x Hx. cbn in Hx. unfold is_space.
    repeat (case_ztest; try lia; cbn [andb orb]); done.
  - destruct Hcs as [-> | ->].
    + assert (48 ≤ 91 mod 4 * 16 + d / 16 < 64) as Hh by (unfold is_byte in Hd; zdivmod).
      destruct (b64_char_high _ Hh). by apply says_worm_second.
    + apply says_worm_first; done.
Qed.
End Storable.

(** ** The index on the server *)

Section Index.
Context {UD : UnicodeData} {O : Others} (key : jsstr) (Hkey : account key).

Definition stored_index (s : kv) : json :=
  match get s key with
  | Some ((_ :: _) as v) => match parse_document v with Ok index => index | Throw _ => JArr [] end
  | _ => JArr []
  end.

Lemma exec_get_index d s : exec serve (get_index key) d s = (Ok (stored_index s), d, s).
Proof.
  destruct Hkey as [Hk _]. unfold get_index. rewrite exec_bind, exec_send, serve_get_text by done.
  cbn. unfold stored_index. destruct (get s key) as [[|c v]|]; done.
Qed.

Lemma exec_save_index index d s : json_ok index → container index → is_worm s key = false →
  exec serve (save_index key index) d s = (Ok tt, d, <[key := Entry (to_base64 index) false]> s).
Proof.
  intros Hj Hc Hs. destruct (to_base64_storable index Hj Hc). unfold save_index.
  rewrite exec_bind, exec_send, serve_put by done. done.
Qed.

Lemma stored_index_saved index s : json_ok index → container index → get s key = Some (to_base64 index) →
  stored_index s = index.
Proof.
  intros Hj Hc Hs. destruct (to_base64_storable index Hj Hc) as [[Hne _] _].
  unfold stored_index. rewrite Hs. destruct (to_base64 index) eqn:E; [done|]. rewrite <- E.
  by rewrite parse_document_base64.
Qed.
End Index.

(** An instance for concrete runs: the text of errors the code makes. *)
Definition plain_errors : ErrorTexts :=
  Build_ErrorTexts (λ e, match e with Error m => m | _ => [] end)
    (λ e, match e with Error m => js "Error: " ++ m | _ => js "Error" end).
