(* ===== verification/Notepad.v ===== *)
(** * The notepad server ([apps/bun/src/bin/notepad.ts])

    Every HTTP handler as the program of the commands it sends: a note is a
    JSON document under [note:<id>], and the list of notes a JSON array under
    [notes:index].  [now] is the text of [new Date().toISOString()] and
    [newId] the result of [generateULID()] when the request is served. *)
From Stdlib Require Import QArith.
From S2P Require Import Prelude Utf8 JsText Number Command Wire Protocol Base64 Json Prog KvServer WebApp.
#[local] Open Scope Z_scope.

Definition index_key : jsstr := js "notes:index".
Definition note_key (id : jsstr) : jsstr := js "note:" ++ id.

Definition getIndex : prog json := get_index index_key.
Definition saveIndex (index : json) : prog () := save_index index_key index.

Definition text_response (status : Z) (t : string) : prog response := Ret (Response status (Text (js t))).

(** [{ id, ...note }] *)
Definition with_id (id : jsstr) (note : json) : json := JObj (spread [(js "id", JStr id)] note).

Section Handlers.
Context {E : ErrorTexts}.

Definition list_notes : prog response := index ← getIndex; Ret (Response 200 (Json index)).

Definition new_note (now : jsstr) : list (jsstr * json) :=
  [(js "title", JStr (js "Untitled Note")); (js "body", JStr []); (js "author", JStr (js "Guest"));
   (js "updatedAt", JStr now); (js "locked", JBool false)].

Definition index_entry (id title now : jsstr) : json :=
  JObj [(js "id", JStr id); (js "title", JStr title); (js "updatedAt", JStr now); (js "locked", JBool false)].

Definition create_note (newId now : jsstr) : prog response :=
  let note := JObj (new_note now) in
  _ ← send (set_text (note_key newId) (to_base64 note));
  index ← getIndex;
  index ← of_res (unshift index (index_entry newId (js "Untitled Note") now));
  _ ← saveIndex index;
  Ret (Response 201 (Json (with_id newId note))).

Definition get_note (id : jsstr) : prog response :=
  r ← send (get_text (note_key id));
  match bulk_value r with
  | Some v =>
      match parse_document v with
      | Ok data => Ret (Response 200 (Json (with_id id data)))
      | Throw _ => text_response 500 "Invalid note format"
      end
  | None => text_response 404 "Not found"
  end.

(** [item.title = note.title; item.updatedAt = ...; item.locked = ...] of the
    entry found, and the index saved *)
Definition touch_index (id : jsstr) (changes : list (jsstr * option json)) : prog () :=
  index ← getIndex;
  found ← of_res (index_find index (js "id") id);
  match found with
  | Some (i, item) =>
      item ← of_res (foldl (λ r c, item ← r; assign item c.1 c.2) (Ok item) changes);
      saveIndex (index_update index i item)
  | None => Ret tt
  end.

Definition update_body (id now : jsstr) (req : request) : prog response :=
  body ← of_res (req_json req);
  r ← send (get_text (note_key id));
  note ← match bulk_value r with
         | Some v => of_res (parse_document v)
         | None => Ret (JObj [])
         end;
  locked ← of_res (prop note (js "locked"));
  if truthy locked then text_response 403 "Note is locked" else
  let field k := of_res (given ← prop body k; old ← prop note k; Ok (coalesce given old)) in
  title ← field (js "title");
  text ← field (js "body");
  author ← field (js "author");
  note ← of_res (assign note (js "title") title);
  note ← of_res (assign note (js "body") text);
  note ← of_res (assign note (js "author") author);
  note ← of_res (assign note (js "updatedAt") (Some (JStr now)));
  _ ← send (set_text (note_key id) (to_base64 note));
  _ ← touch_index id
        [(js "title", title); (js "updatedAt", Some (JStr now)); (js "locked", Some (JBool false))];
  Ret (Response 200 (Json (with_id id note))).

Definition update_note (id now : jsstr) (req : request) : prog response :=
  catch (update_body id now req) (λ e,
    if says_WORM e then text_response 403 "Note is WORM-locked" else text_response 400 "Bad request").

Definition deleted_event (id : jsstr) : json :=
  JObj [(js "type", JStr (js "note:deleted")); (js "id", JStr id)].

Definition delete_note (id : jsstr) : prog response :=
  catch
    (_ ← send (del_text (note_key id));
     index ← getIndex;
     newIndex ← of_res (index_filter index (js "id") id);
     _ ← saveIndex newIndex;
     _ ← send (pub_text (js "notes") (stringify (deleted_event id)));
     Ret (Response 204 Empty))
    (λ e, if says_WORM e then text_response 403 "Cannot delete WORM-locked note"
          else Ret (Response 500 (Text (err_string e)))).

Definition locked_event (id : jsstr) (author : option json) : json :=
  JObj ([(js "type", JStr (js "note:locked")); (js "id", JStr id)] ++
        match author with Some a => [(js "author", a)] | None => [] end).

Definition lock_note (id now : jsstr) : prog response :=
  catch
    (r ← send (get_text (note_key id));
     match bulk_value r with
     | None => text_response 404 "Not found"
     | Some v =>
         note ← of_res (parse_document v);
         note ← of_res (assign note (js "locked") (Some (JBool true)));
         note ← of_res (assign note (js "updatedAt") (Some (JStr now)));
         _ ← send (set_text (note_key id) (to_base64 note) ++ js " WORM");
         _ ← touch_index id [(js "locked", Some (JBool true)); (js "updatedAt", Some (JStr now))];
         author ← of_res (prop note (js "author"));
         _ ← send (pub_text (js "notes") (stringify (locked_event id author)));
         Ret (Response 200 (Json (with_id id note)))
     end)
    (λ e, Ret (Response 500 (Text (err_string e)))).

Definition save_snapshot : prog response :=
  _ ← send (js "SAVE"); Ret (Response 200 (Json (JObj [(js "ok", JBool true)]))).

(** [fetch], the upgrade of [/ws] apart. *)
Definition fetch (newId now : jsstr) (req : request) : prog response :=
  let meth m := bool_decide (method req = m) in
  let at_ p := bool_decide (pathname req = p) in
  if meth (js "GET") && at_ (js "/") then Ret (Response 200 (File (js "index.html")))
  else if meth (js "GET") && at_ (js "/styles.css") then Ret (Response 200 (File (js "styles.css")))
  else if meth (js "GET") && at_ (js "/app.js") then Ret (Response 200 (File (js "app.js")))
  else if at_ (js "/api/notes") && meth (js "GET") then list_notes
  else if at_ (js "/api/notes") && meth (js "POST") then create_note newId now
  else
    let other :=
      match match_lock (js "/api/notes/") (pathname req) with
      | Some id => if meth (js "POST") then Some (lock_note id now) else None
      | None => None
      end in
    let handler :=
      match match_item (js "/api/notes/") (pathname req) with
      | Some id =>
          if meth (js "GET") then Some (get_note id)
          else if meth (js "PUT") then Some (update_note id now req)
          else if meth (js "DELETE") then Some (delete_note id)
          else other
      | None => other
      end in
    match handler with
    | Some h => h
    | None => if at_ (js "/api/save") && meth (js "POST") then save_snapshot else text_response 404 "Not found"
    end.
End Handlers.

(** ** The handlers on the server *)

Section Facts.
Context {E : ErrorTexts} {UD : UnicodeData} {O : Others}.

Lemma note_key_account id : no_space id → account (note_key id).
Proof.
  intros Hid. split; [split; [done|]|by apply says_worm_first].
  unfold note_key. apply Forall_app. split; [by repeat constructor|done].
Qed.

Lemma index_key_account : account index_key.
Proof. split; [by apply word_keyword|by apply says_worm_first]. Qed.

Lemma index_note_key id : index_key ≠ note_key id.
Proof. done. Qed.

(** The list of notes the server holds, which it can still change. *)
Definition notes_are (l : list json) (s : kv) : Prop :=
  stored_index index_key s = JArr l ∧ json_ok (JArr l) ∧ is_worm s index_key = false.

Definition note_is (id : jsstr) (note : json) (s : kv) : Prop :=
  get s (note_key id) = Some (to_base64 note) ∧ json_ok note ∧ container note.

Lemma new_note_ok now : Forall is_unit now → json_ok (JObj (new_note now)).
Proof.
  intros Hn. constructor; [apply (bool_decide_unpack (NoDup _)); by vm_compute|].
  repeat (apply Forall_cons; split); try done; (split; [by repeat constructor|]); by repeat constructor.
Qed.

Lemma index_entry_ok id title now : Forall is_unit id → Forall is_unit title → Forall is_unit now →
  json_ok (index_entry id title now).
Proof.
  intros Hi Ht Hn. constructor; [apply (bool_decide_unpack (NoDup _)); by vm_compute|].
  repeat (apply Forall_cons; split); try done; (split; [by repeat constructor|]); by constructor.
Qed.

Lemma json_ok_cons x l : json_ok x → json_ok (JArr l) → json_ok (JArr (x :: l)).
Proof. intros Hx Hl. inversion Hl; subst. constructor. by constructor. Qed.

Lemma exec_get_note id note d s : no_space id → note_is id note s →
  exec serve (get_note id) d s = (Ok (Response 200 (Json (with_id id note))), d, s).
Proof.
  intros Hid (Hn & Hj & Hc). destruct (note_key_account id Hid) as [Hk _].
  unfold get_note. rewrite exec_bind, exec_send, serve_get_text by done. rewrite Hn.
  destruct (to_base64_storable note Hj Hc) as [[Hne _] _].
  assert (bulk_value (bulk (to_base64 note)) = Some (to_base64 note)) as -> by by destruct (to_base64 note).
  by rewrite parse_document_base64.
Qed.

(** A note that is created can be read back and heads the list of notes:
    the answer of the creation, that of reading the note and the first entry
    of the list agree, and the rest of the list is what it was. *)
Theorem created_note_is_there newId now l d s :
  no_space newId → Forall is_unit newId → Forall is_unit now →
  is_worm s (note_key newId) = false → notes_are l s →
  ∃ s', let note := JObj (new_note now) in
    exec serve (create_note newId now) d s = (Ok (Response 201 (Json (with_id newId note))), d, s') ∧
    exec serve (get_note newId) d s' = (Ok (Response 200 (Json (with_id newId note))), d, s') ∧
    exec serve list_notes d s' =
      (Ok (Response 200 (Json (JArr (index_entry newId (js "Untitled Note") now :: l)))), d, s') ∧
    notes_are (index_entry newId (js "Untitled Note") now :: l) s'.
Proof.
  intros Hid Hidu Hnow Hw (Hl & Hlj & Hlw). pose proof (note_key_account newId Hid) as Hk.
  pose proof index_key_account as Hik. pose proof (new_note_ok now Hnow) as Hnj.
  destruct (to_base64_storable (JObj (new_note now)) Hnj I) as [Hst1 Hst2].
  set (entry := index_entry newId (js "Untitled Note") now).
  assert (json_ok (JArr (entry :: l))) as Hej.
  { apply json_ok_cons; [|done]. apply index_entry_ok; [done|by repeat constructor|done]. }
  set (s1 := <[note_key newId := Entry (to_base64 (JObj (new_note now))) false]> s).
  set (s2 := <[index_key := Entry (to_base64 (JArr (entry :: l))) false]> s1).
  assert (notes_are (entry :: l) s2) as Hn2.
  { split_and!; [|done|by unfold is_worm, s2; rewrite lookup_insert_eq].
    apply stored_index_saved; [done|done|]. unfold get, s2. by rewrite lookup_insert_eq. }
  assert (note_is newId (JObj (new_note now)) s2) as Hnote.
  { split_and!; [|done|done]. unfold get, s2, s1.
    rewrite lookup_insert_ne by apply index_note_key. by rewrite lookup_insert_eq. }
  exists s2. cbv zeta. split_and!; [|by apply exec_get_note| |done].
  - unfold create_note. rewrite exec_bind, exec_send, serve_put by done. fold s1.
    unfold getIndex, saveIndex. rewrite exec_bind, exec_get_index by done.
    assert (stored_index index_key s1 = JArr l) as ->.
    { rewrite <- Hl. unfold stored_index, get, s1. by rewrite lookup_insert_ne. }
    rewrite exec_bind, exec_of_res. cbn [unshift]. fold entry.
    rewrite exec_bind, exec_save_index; [done|done|done|done|].
    unfold is_worm, s1. by rewrite lookup_insert_ne.
  - unfold list_notes, getIndex. rewrite exec_bind, exec_get_index by done. by destruct Hn2 as [-> _].
Qed.

(** The document [lock] writes. *)
Definition locked_fields (fs : list (jsstr * json)) (now : jsstr) : list (jsstr * json) :=
  set_field (set_field fs (js "locked", JBool true)) (js "updatedAt", JStr now).

Lemma locked_fields_ok fs now : json_ok (JObj fs) → Forall is_unit now →
  json_ok (JObj (locked_fields fs now)).
Proof.
  intros Hj Hn. unfold locked_fields. apply set_field_ok; [|by repeat constructor|by constructor].
  apply set_field_ok; [done|by repeat constructor|constructor].
Qed.

Lemma locked_fields_keep fs now k x : json_ok (JObj fs) →
  k ≠ js "locked" → k ≠ js "updatedAt" → (k, x) ∈ fs → (k, x) ∈ locked_fields fs now.
Proof.
  inversion 1 as [| | | | |? Hd _]; subst. intros H1 H2 Hin. apply set_field_keeps; [by apply set_field_nodup|by intros <-|].
  apply set_field_keeps; [done|by intros <-|done].
Qed.

Lemma locked_fields_locked fs now : json_ok (JObj fs) →
  prop (JObj (locked_fields fs now)) (js "locked") = Ok (Some (JBool true)).
Proof.
  inversion 1 as [| | | | |? Hd _]; subst. apply prop_field; [by repeat apply set_field_nodup|].
  apply set_field_keeps; [by apply set_field_nodup|done|]. apply set_field_elem; [done|by left].
Qed.

(** Locking seals the document under the note's key, whatever happens to the
    list of notes and to the event afterwards. *)
Lemma lock_note_seals id now fs d s :
  others_keep_worm → no_space id → Forall is_unit now → note_is id (JObj fs) s →
  is_worm s (note_key id) = false →
  sealed (note_key id) (to_base64 (JObj (locked_fields fs now))) (final serve (lock_note id now) d s).
Proof.
  intros Ho Hid Hnow (Hn & Hj & Hc) Hw. destruct (note_key_account id Hid) as [Hk _].
  pose proof (locked_fields_ok fs now Hj Hnow) as Hlj.
  destruct (to_base64_storable _ Hlj I) as [Hst _].
  destruct (to_base64_storable (JObj fs) Hj I) as [[Hne _] _].
  unfold final, lock_note. rewrite exec_catch, exec_bind, exec_send, serve_get_text by done. rewrite Hn.
  assert (bulk_value (bulk (to_base64 (JObj fs))) = Some (to_base64 (JObj fs))) as -> by by destruct (to_base64 (JObj fs)).
  rewrite exec_bind, exec_of_res, parse_document_base64 by done.
  rewrite exec_bind, exec_of_res. cbn [assign]. rewrite exec_bind, exec_of_res. cbn [assign].
  fold (locked_fields fs now). rewrite exec_bind, exec_send, serve_put_worm by done. rewrite Hw.
  set (s1 := <[note_key id := _]> s).
  assert (sealed (note_key id) (to_base64 (JObj (locked_fields fs now))) s1) as Hs1 by apply lookup_insert_eq.
  match goal with |- context [exec serve ?p d s1] => pose proof (final_sealed _ _ p d s1 Ho Hs1) as H end.
  unfold final in H. destruct (exec serve _ d s1) as [[[r|e] d2] s2]; exact H.
Qed.

Lemma update_locked id now req fs v d s :
  no_space id → json_ok (JObj fs) → prop (JObj fs) (js "locked") = Ok (Some (JBool true)) →
  get s (note_key id) = Some (to_base64 (JObj fs)) → body req = Some v →
  exec serve (update_note id now req) d s = (Ok (Response 403 (Text (js "Note is locked"))), d, s).
Proof.
  intros Hid Hj Hl Hn Hb. destruct (note_key_account id Hid) as [Hk _].
  destruct (to_base64_storable (JObj fs) Hj I) as [[Hne _] _].
  unfold update_note, update_body, req_json. rewrite exec_catch, exec_bind, exec_of_res, Hb.
  rewrite exec_bind, exec_send, serve_get_text by done. rewrite Hn.
  assert (bulk_value (bulk (to_base64 (JObj fs))) = Some (to_base64 (JObj fs))) as -> by by destruct (to_base64 (JObj fs)).
  rewrite exec_bind, exec_of_res, parse_document_base64 by done.
  by rewrite exec_bind, exec_of_res, Hl.
Qed.

(** C11: once a note is locked its document never changes: whatever requests
    are served afterwards and however their commands interleave, reading the
    note gives the document it was locked with, which is the note as it was
    but for the lock and its time, and every update of it is refused with
    403, leaving the store as it is. *)
Theorem locked_note_is_final id now fs d s requests schedule d1 ps' d' s' :
  others_keep_worm → no_space id → Forall is_unit now → note_is id (JObj fs) s →
  is_worm s (note_key id) = false →
  prun serve schedule ((λ r : jsstr * jsstr * request, fetch r.1.1 r.1.2 r.2) <$> requests) d1
    (final serve (lock_note id now) d s) = (ps', d', s') →
  ∃ fs', (∀ k x, k ≠ js "locked" → k ≠ js "updatedAt" → (k, x) ∈ fs → (k, x) ∈ fs') ∧
    prop (JObj fs') (js "locked") = Ok (Some (JBool true)) ∧
    (∀ d, exec serve (get_note id) d s' = (Ok (Response 200 (Json (with_id id (JObj fs')))), d, s')) ∧
    (∀ d now' req v, body req = Some v →
      exec serve (update_note id now' req) d s' = (Ok (Response 403 (Text (js "Note is locked"))), d, s')).
Proof.
  intros Ho Hid Hnow Hn Hw Hrun. pose proof (lock_note_seals id now fs d s Ho Hid Hnow Hn Hw) as Hs.
  destruct Hn as (_ & Hj & _). pose proof (prun_sealed _ _ _ _ _ _ _ _ _ Ho Hs Hrun) as Hs'.
  pose proof (locked_fields_ok fs now Hj Hnow) as Hlj. pose proof (locked_fields_locked fs now Hj) as Hl.
  assert (get s' (note_key id) = Some (to_base64 (JObj (locked_fields fs now)))) as Hg
    by (unfold get; by rewrite Hs').
  exists (locked_fields fs now). split_and!; [|done|..].
  - intros k x H1 H2 Hin. by apply locked_fields_keep.
  - intros d2. by apply exec_get_note.
  - intros d2 now' req v Hb. by eapply update_locked.
Qed.
End Facts.

(** ** Concrete runs *)

Section Examples.
#[local] Existing Instance ascii_only.
#[local] Existing Instance no_others.
#[local] Existing Instance plain_errors.

Definition quiet : draws := Draws (λ _, 0%Q) 0 (λ _, 0) 0.
Definition noon : jsstr := js "2026-01-01T12:00:00.000Z".
Definition one_note : kv := final serve (create_note (js "A1") noon) quiet ∅.

Lemma empty_notes : notes_are [] ∅.
Proof. split_and!; [done|by constructor|done]. Qed.

Lemma created_note_is_there_witness :
  ∃ s, exec serve (create_note (js "A1") noon) quiet ∅ =
      (Ok (Response 201 (Json (with_id (js "A1") (JObj (new_note noon))))), quiet, s) ∧
    exec serve list_notes quiet s =
      (Ok (Response 200 (Json (JArr [index_entry (js "A1") (js "Untitled Note") noon]))), quiet, s).
Proof.
  destruct (created_note_is_there (js "A1") noon [] quiet ∅) as (s & H1 & _ & H2 & _);
    [by repeat constructor|by repeat constructor|by repeat constructor|done|by apply empty_notes|].
  exists s. split; [exact H1|exact H2].
Defined.

Lemma one_note_is : note_is (js "A1") (JObj (new_note noon)) one_note.
Proof.
  split_and!; [by vm_compute| |done]. apply new_note_ok. by repeat constructor.
Qed.

Definition put_request : request :=
  Request (js "PUT") (js "/api/notes/A1") (Some (JObj [(js "title", JStr (js "x"))])).

Lemma locked_note_is_final_witness :
  ∃ ps d s, prun serve [0; 0; 0]%nat ((λ r : jsstr * jsstr * request, fetch r.1.1 r.1.2 r.2) <$>
      [([], noon, put_request)]) quiet (final serve (lock_note (js "A1") noon) quiet one_note) = (ps, d, s) ∧
    ∀ d, exec serve (update_note (js "A1") noon put_request) d s =
      (Ok (Response 403 (Text (js "Note is locked"))), d, s).
Proof.
  destruct (prun _ _ _ _ _) as [[ps d] s] eqn:Er. exists ps, d, s. split; [done|].
  destruct (locked_note_is_final (js "A1") noon (new_note noon) quiet one_note
    [([], noon, put_request)] [0; 0; 0]%nat quiet ps d s) as (fs & _ & _ & _ & H);
    [exact no_others_keep_worm|by repeat constructor|by repeat constructor|exact one_note_is
    |by vm_compute|exact Er|].
  intros d'. by eapply H.
Defined.

(** Deleting a locked note answers 204 and takes the note off the list, while
    the note is still there. *)
Lemma locked_note_delete_reported_done :
  let s := final serve (delete_note (js "A1")) quiet (final serve (lock_note (js "A1") noon) quiet one_note) in
  result serve (delete_note (js "A1")) quiet (final serve (lock_note (js "A1") noon) quiet one_note)
    = Ok (Response 204 Empty) ∧
  stored_index index_key s = JArr [] ∧ is_worm s (note_key (js "A1")) = true.
Proof. by vm_compute. Qed.

(** Two notes created at the same time: the second writer of the list drops
    the first note from it. *)
Lemma concurrent_creations_lose_one :
  match prun serve [0; 1; 0; 1; 0; 1]%nat [create_note (js "A1") noon; create_note (js "A2") noon] quiet ∅ with
  | (_, _, s) => stored_index index_key s = JArr [index_entry (js "A2") (js "Untitled Note") noon] ∧
                 is_Some (get s (note_key (js "A1")))
  end.
Proof. vm_compute. split; [done|by eexists]. Qed.

(** The text parser knows no SAVE: the snapshot request always fails. *)
Lemma snapshot_unsupported d s :
  exec serve save_snapshot d s = (Throw (Error (js "Unsupported command: SAVE")), d, s).
Proof. reflexivity. Qed.
End Examples.
