(* ===== verification/Explorer.v ===== *)
(** * The key-value explorer ([apps/bun/src/bin/explorer.ts])

    Its HTTP handlers as programs, its parsers of the server's texts, and the
    procedures they call ([src/procedures/kv_put.zig], [kv_get.zig],
    [kv_stats.zig]).  [Buffer.from] of a value that is not a string is a
    parameter. *)
From Stdlib Require Import QArith Qround.
From S2P Require Import Prelude Utf8 JsText Number Command Wire Protocol Base64 Json EventFeed Prog KvServer WebApp.
#[local] Open Scope Z_scope.

(** ** Parsers *)

(** One line: [const [key, ...rest] = line.split("=")] *)
Definition parse_line (kv : gmap jsstr jsstr) (line : jsstr) : gmap jsstr jsstr :=
  match split_on 61 line with
  | ((_ :: _) as key) :: ((_ :: _) as rest) => <[trim key := trim (join (js "=") rest)]> kv
  | _ => kv
  end.
Definition parseKV (text : jsstr) : gmap jsstr jsstr := foldl parse_line ∅ (split_on 10 text).

(** [kv.name || "0"] *)
Definition or_zero (v : option jsstr) : jsstr := match v with Some ((_ :: _) as s) => s | _ => js "0" end.

(** A number as [Response.json] prints it; what is not finite becomes [null]. *)
Definition json_number_of (x : num) : json :=
  match as_integer x with Some z => jnum z | None => JNull end.
Definition count_of (kv : gmap jsstr jsstr) (name : string) : json :=
  json_number_of (parseInt (or_zero (kv !! js name))).

Definition parseMeta (raw : jsstr) : json :=
  let kv := parseKV raw in
  JObj [(js "created", JStr (or_zero (kv !! js "created"))); (js "updated", JStr (or_zero (kv !! js "updated")));
        (js "writes", count_of kv "writes"); (js "reads", count_of kv "reads")].

(** [decodeURIComponent]: a run of escapes must be the UTF-8 encoding of a
    scalar value. *)
Definition escaped (s : jsstr) : option (Z * jsstr) :=
  match s with
  | p :: a :: b :: r => if p =? 37 then a ← hex_value a; b ← hex_value b; Some (a * 16 + b, r) else None
  | _ => None
  end.

Fixpoint continuation (n : nat) (cp : Z) (s : jsstr) : option (Z * jsstr) :=
  match n with
  | O => Some (cp, s)
  | S n => '(b, r) ← escaped s; if (128 <=? b) && (b <? 192) then continuation n (cp * 64 + (b - 128)) r else None
  end.

Definition escaped_cp (s : jsstr) : option (Z * jsstr) :=
  '(b, r) ← escaped s;
  if b <? 128 then Some (b, r)
  else if (192 <=? b) && (b <? 224) then '(c, r) ← continuation 1 (b - 192) r; if 128 <=? c then Some (c, r) else None
  else if (224 <=? b) && (b <? 240) then
    '(c, r) ← continuation 2 (b - 224) r;
    if (2048 <=? c) && negb ((0xD800 <=? c) && (c <=? 0xDFFF)) then Some (c, r) else None
  else if (240 <=? b) && (b <? 248) then
    '(c, r) ← continuation 3 (b - 240) r; if (0x10000 <=? c) && (c <? 0x110000) then Some (c, r) else None
  else None.

Fixpoint decode_uri (n : nat) (s : jsstr) : option jsstr :=
  match n, s with
  | _, [] => Some []
  | O, _ => None
  | S n, c :: r =>
      if c =? 37 then '(cp, r) ← escaped_cp s; t ← decode_uri n r; Some (units_of_cp cp ++ t)
      else t ← decode_uri n r; Some (c :: t)
  end.
Definition decodeURIComponent (s : jsstr) : res jsstr :=
  match decode_uri (length s) s with Some t => Ok t | None => Throw (Error (js "URI malformed")) end.

(** ** Handlers *)

Class Buffers := { buffer_of_other : json → res bytes }.

Definition index_key : jsstr := js "kv:index".
Definition meta_key (key : jsstr) : jsstr := js "meta:" ++ key.
Definition getIndex : prog json := get_index index_key.
Definition saveIndex (index : json) : prog () := save_index index_key index.

Definition put_text (key valueB64 : jsstr) : jsstr := js "EXEC kv_put " ++ key ++ js " " ++ valueB64.
Definition read_text (key : jsstr) : jsstr := js "EXEC kv_get " ++ key.
Definition kv_event (kind : string) (key : jsstr) : json :=
  JObj [(js "type", JStr (js kind)); (js "key", JStr key)].
Definition publish (kind : string) (key : jsstr) : prog () :=
  _ ← send (pub_text (js "kv_events") (stringify (kv_event kind key))); Ret tt.

Definition reply (status : Z) (t : jsstr) : prog response := Ret (Response status (Text t)).

Section Handlers.
Context {E : ErrorTexts} {B : Buffers}.

(** [Buffer.from(value)] of [body.value ?? ""] *)
Definition value_of (body : json) : res (json * bytes) :=
  v ← prop body (js "value");
  match coalesce v (Some (JStr [])) with
  | Some (JStr s) => Ok (JStr s, text_encode s)
  | Some v => b ← buffer_of_other v; Ok (v, b)
  | None => Ok (JStr [], [])
  end.

(** [body.key?.trim()] *)
Definition key_of (body : json) : res (option jsstr) :=
  v ← prop body (js "key");
  match v with
  | None | Some JNull => Ok None
  | Some (JStr s) => Ok (Some (trim s))
  | Some _ => Throw TypeError
  end.

(** [err.message || text] *)
Definition message_or (e : exn) (t : string) : jsstr :=
  match err_message e with [] => js t | m => m end.

Definition read_meta (key : jsstr) : prog json :=
  r ← send (get_text (meta_key key));
  Ret match bulk_value r with Some v => parseMeta v | None => JNull end.

Definition list_keys : prog response := index ← getIndex; Ret (Response 200 (Json index)).

Definition add_to_index (key : jsstr) : prog () :=
  index ← getIndex;
  found ← of_res (index_find index (js "key") key);
  match found with
  | Some _ => Ret tt
  | None =>
      index ← of_res (unshift index (JObj [(js "key", JStr key); (js "locked", JBool false)]));
      saveIndex index
  end.

Definition create_key (req : request) : prog response :=
  catch
    (body ← of_res (req_json req);
     k ← of_res (key_of body);
     match k with
     | None | Some [] => reply 400 (js "Missing key")
     | Some key =>
         '(value, b) ← of_res (value_of body);
         r ← send (put_text key (b64_encode b));
         match r with
         | error m => reply 400 m
         | _ =>
             _ ← add_to_index key;
             _ ← publish "kv:updated" key;
             meta ← read_meta key;
             Ret (Response 201 (Json (JObj [(js "key", JStr key); (js "value", value); (js "meta", meta)])))
         end
     end)
    (λ e, reply 400 (message_or e "Bad request")).

(** [entry?.locked] of the entry of a key *)
Definition locked_entry (index : json) (key : jsstr) : res (option json) :=
  found ← index_find index (js "key") key;
  match found with Some (_, e) => prop e (js "locked") | None => Ok None end.

Definition read_key (key : jsstr) : prog response :=
  catch
    (r ← send (read_text key);
     match r with
     | error m => reply 404 m
     | _ =>
         let value := match bulk_value r with
                      | Some v => buffer_text (buffer_from_base64 v) | None => [] end in
         index ← getIndex;
         locked ← of_res (locked_entry index key);
         meta ← read_meta key;
         Ret (Response 200 (Json (JObj
           [(js "key", JStr key); (js "value", JStr value);
            (js "locked", default (JBool false) (coalesce locked None)); (js "meta", meta)])))
     end)
    (λ e, reply 500 (message_or e "Error")).

Definition update_key (key : jsstr) (req : request) : prog response :=
  catch
    (body ← of_res (req_json req);
     v ← of_res (prop body (js "value"));
     index ← getIndex;
     locked ← of_res (locked_entry index key);
     if truthy locked then reply 403 (js "Key is WORM-locked") else
     '(value, b) ← of_res (value_of body);
     r ← send (put_text key (b64_encode b));
     match r with
     | error m => reply 400 m
     | _ =>
         _ ← publish "kv:updated" key;
         meta ← read_meta key;
         Ret (Response 200 (Json (JObj [(js "key", JStr key); (js "value", value); (js "meta", meta)])))
     end)
    (λ e, if says_WORM e then reply 403 (js "WORM-locked") else reply 400 (message_or e "Error")).

Definition delete_key (key : jsstr) : prog response :=
  catch
    (index ← getIndex;
     locked ← of_res (locked_entry index key);
     if truthy locked then reply 403 (js "Cannot delete WORM-locked key") else
     _ ← send (del_text key);
     _ ← send (del_text (meta_key key));
     newIndex ← of_res (index_filter index (js "key") key);
     _ ← saveIndex newIndex;
     _ ← publish "kv:deleted" key;
     Ret (Response 204 Empty))
    (λ e, if says_WORM e then reply 403 (js "Cannot delete WORM-locked key")
          else reply 500 (message_or e "Error")).

Definition lock_key (key : jsstr) : prog response :=
  catch
    (r ← send (read_text key);
     match r with
     | error m => reply 404 m
     | _ =>
         let rawValue := match r with bulk v => v | _ => [] end in
         _ ← send (set_text key rawValue ++ js " WORM");
         index ← getIndex;
         found ← of_res (index_find index (js "key") key);
         _ ← match found with
             | Some (i, e) =>
                 e ← of_res (assign e (js "locked") (Some (JBool true)));
                 saveIndex (index_update index i e)
             | None => Ret tt
             end;
         _ ← publish "kv:locked" key;
         Ret (Response 200 (Json (JObj [(js "key", JStr key); (js "locked", JBool true)])))
     end)
    (λ e, reply 500 (message_or e "Error")).

Definition stats_of (v : jsstr) : json :=
  let kv := parseKV v in JObj [(js "reads", count_of kv "reads"); (js "writes", count_of kv "writes")].
Definition no_stats : json := JObj [(js "reads", jnum 0); (js "writes", jnum 0)].

Definition stats : prog response :=
  catch
    (r ← send (js "EXEC kv_stats");
     Ret (Response 200 (Json match bulk_value r with Some v => stats_of v | None => no_stats end)))
    (λ _, Ret (Response 200 (Json no_stats))).

(** [fetch], the upgrade of [/ws] apart. *)
Definition fetch (req : request) : prog response :=
  let meth m := bool_decide (method req = m) in
  let at_ p := bool_decide (pathname req = p) in
  if meth (js "GET") && at_ (js "/") then Ret (Response 200 (File (js "index.html")))
  else if meth (js "GET") && at_ (js "/styles.css") then Ret (Response 200 (File (js "styles.css")))
  else if meth (js "GET") && at_ (js "/app.js") then Ret (Response 200 (File (js "app.js")))
  else if at_ (js "/api/keys") && meth (js "GET") then list_keys
  else if at_ (js "/api/keys") && meth (js "POST") then create_key req
  else
    let rest :=
      match match_lock (js "/api/keys/") (pathname req) with
      | Some k => if meth (js "POST") then key ← of_res (decodeURIComponent k); lock_key key
                  else if at_ (js "/api/stats") && meth (js "GET") then stats else reply 404 (js "Not found")
      | None => if at_ (js "/api/stats") && meth (js "GET") then stats else reply 404 (js "Not found")
      end in
    match match_item (js "/api/keys/") (pathname req) with
    | Some k =>
        key ← of_res (decodeURIComponent k);
        if meth (js "GET") then read_key key
        else if meth (js "PUT") then update_key key req
        else if meth (js "DELETE") then delete_key key
        else rest
    | None => rest
    end.
End Handlers.

(** The connection that relays the events of the explorer's channel to the
    browsers is the one of the notepad. *)
Definition setupEventSubscription (sendable : Z → bool) : feed_event → feed → feed * list action :=
  step (js "kv_events") sendable.

(** [pushStats]: what is broadcast. *)
Definition pushStats : prog (option json) :=
  catch
    (r ← send (js "EXEC kv_stats");
     Ret match bulk_value r with
         | Some v =>
             let kv := parseKV v in
             Some (JObj [(js "type", JStr (js "stats")); (js "reads", count_of kv "reads");
                         (js "writes", count_of kv "writes")])
         | None => None
         end)
    (λ _, Ret None).

(** ** The procedures *)

(** [std.fmt.parseInt(u64, text, 10)] *)
Definition parse_u64 : jsstr → option Z := parse_int 0 (2 ^ 64).

(** The value of a line [name=...] of a metadata text, the last one. *)
Definition line_value (parse : jsstr → option Z) (name : string) (raw : jsstr) : option Z :=
  foldl (λ acc line,
    match strip_prefix (js name) line with
    | Some t => match parse t with Some n => Some n | None => acc end
    | None => acc
    end) None (split_on 10 raw).

(** The key of the metadata, cut to the buffer it is copied to. *)
Definition meta_key_stable (key : jsstr) : jsstr := take 512 (meta_key key).

Definition meta_text (created updated writes reads : Z) : jsstr :=
  js "created=" ++ show created ++ js (String "010" "updated=") ++ show updated ++
  js (String "010" "writes=") ++ show writes ++ js (String "010" "reads=") ++ show reads.

Definition bump (counter : jsstr) (s : kv) : kv :=
  set_unsafe counter (show (default 0 (get_int s counter) + 1)) s.

Definition kv_put (now : Z) (args : list jsstr) (s : kv) : kv * WormResponse :=
  match args with
  | key :: val :: _ =>
      let s := set_unsafe key val s in
      let s := bump (js "stats:writes") s in
      let raw := default [] (get s (meta_key_stable key)) in
      let write_count := match line_value parse_i64 "writes=" raw with Some n => n + 1 | None => 1 end in
      let created_at := default now (line_value parse_u64 "created=" raw) in
      (set_unsafe (meta_key_stable key) (meta_text created_at now write_count 0) s, ok)
  | _ => (s, error (js "kv_put requires 2 args: <key> <value>"))
  end.

Definition kv_get (now : Z) (args : list jsstr) (s : kv) : kv * WormResponse :=
  match args with
  | key :: _ =>
      match get s key with
      | None => (s, error (js "key_not_found"))
      | Some val =>
          let s := bump (js "stats:reads") s in
          let raw := default [] (get s (meta_key_stable key)) in
          let read_count := match line_value parse_i64 "reads=" raw with Some n => n + 1 | None => 1 end in
          let created_at := default now (line_value parse_u64 "created=" raw) in
          let write_count := default 0 (line_value parse_i64 "writes=" raw) in
          (set_unsafe (meta_key_stable key) (meta_text created_at now write_count read_count) s, bulk val)
      end
  | [] => (s, error (js "kv_get requires 1 arg: <key>"))
  end.

Definition kv_stats (s : kv) : WormResponse :=
  bulk (js "reads=" ++ show (default 0 (get_int s (js "stats:reads"))) ++
        js (String "010" "writes=") ++ show (default 0 (get_int s (js "stats:writes")))).

(** A server with these procedures, its clock at [now]. *)
Definition kv_others (now : Z) : Others :=
  Build_Others (λ _ _, ok) (λ p args s,
    let args := omap arg_text args in
    if bool_decide (p = js "kv_put") then kv_put now args s
    else if bool_decide (p = js "kv_get") then kv_get now args s
    else if bool_decide (p = js "kv_stats") then (s, kv_stats s)
    else (s, error (js "unknown procedure"))).

(** ** The parser of the counters *)

Section Counters.
Lemma show_no_char n d : 0 ≤ n → is_digit d = false → d ∉ show n.
Proof.
  intros Hn Hd Hin. destruct (show_digits n Hn) as (_ & Hs & _).
  rewrite Forall_forall in Hs. by rewrite (Hs d Hin) in Hd.
Qed.

(** A line [name=n] *)
Lemma parse_line_show kv name n : word name → 61 ∉ name → 0 ≤ n →
  parse_line kv (name ++ js "=" ++ show n) = <[name := show n]> kv.
Proof.
  intros Hw Hn Hz. unfold parse_line, split_on. change (js "=" ++ show n) with (61 :: show n).
  rewrite split_on_part, split_on_last by (done || by apply show_no_char).
  assert (trim name = name) as Et by (apply (trim_join [name]); [done|by constructor]).
  destruct (show_digits n Hz) as (Hne & Hd & _).
  cbn [app]. destruct name as [|c name]; [by destruct Hw|]. cbn [join]. rewrite Et.
  by rewrite trim_digits.
Qed.

(** The number a [count_of] prints *)
Lemma count_of_show kv name n : 0 ≤ n ≤ 2 ^ 53 → kv !! js name = Some (show n) →
  count_of kv name = jnum n.
Proof.
  intros Hn Hk. unfold count_of. rewrite Hk. destruct (show_digits n) as (Hne & _); [lia|].
  assert (or_zero (Some (show n)) = show n) as -> by by destruct (show n).
  rewrite parseInt_show by done. unfold json_number_of, as_integer. rewrite Qfloor_Z.
  by rewrite (proj2 (Qeq_bool_iff _ _)).
Qed.

Lemma or_zero_show n : 0 ≤ n → or_zero (Some (show n)) = show n.
Proof. intros Hn. destruct (show_digits n Hn) as (Hne & _). by destruct (show n). Qed.

Lemma line_no_break name n : 10 ∉ name → 0 ≤ n → 10 ∉ name ++ js "=" ++ show n.
Proof.
  intros Hn Hz. rewrite !elem_of_app. change (js "=") with [61]. rewrite list_elem_of_singleton.
  intros [?|[?|H]]; [done|done|]. by apply (show_no_char n 10) in H.
Qed.

Lemma parse_lines_cons kv name n t : word name → 61 ∉ name → 10 ∉ name → 0 ≤ n →
  foldl parse_line kv (split_on_from 10 [] ((name ++ js "=" ++ show n) ++ 10 :: t)) =
  foldl parse_line (<[name := show n]> kv) (split_on_from 10 [] t).
Proof.
  intros Hw H1 H2 Hn. rewrite split_on_part by by apply line_no_break.
  cbn [foldl]. f_equal. by apply parse_line_show.
Qed.
Lemma parse_lines_last kv name n : word name → 61 ∉ name → 10 ∉ name → 0 ≤ n →
  foldl parse_line kv (split_on_from 10 [] (name ++ js "=" ++ show n)) = <[name := show n]> kv.
Proof.
  intros Hw H1 H2 Hn. rewrite split_on_last by by apply line_no_break.
  cbn [foldl]. by apply parse_line_show.
Qed.

Ltac plain_name := first
  [apply word_keyword; reflexivity | apply (bool_decide_unpack _); by vm_compute | assumption].

Lemma parseKV_meta c u w r : 0 ≤ c → 0 ≤ u → 0 ≤ w → 0 ≤ r →
  parseKV (meta_text c u w r) =
  <[js "reads" := show r]> (<[js "writes" := show w]> (<[js "updated" := show u]> (<[js "created" := show c]> ∅))).
Proof.
  intros Hc Hu Hw Hr.
  assert (meta_text c u w r = (js "created" ++ js "=" ++ show c) ++ 10 ::
    ((js "updated" ++ js "=" ++ show u) ++ 10 :: ((js "writes" ++ js "=" ++ show w) ++ 10 ::
    (js "reads" ++ js "=" ++ show r)))) as -> by by rewrite <- !app_assoc.
  unfold parseKV, split_on. rewrite !parse_lines_cons, parse_lines_last by plain_name. done.
Qed.

(** The metadata the server writes is read back. *)
Lemma parseMeta_text c u w r : 0 ≤ c → 0 ≤ u → 0 ≤ w ≤ 2 ^ 53 → 0 ≤ r ≤ 2 ^ 53 →
  parseMeta (meta_text c u w r) =
  JObj [(js "created", JStr (show c)); (js "updated", JStr (show u)); (js "writes", jnum w); (js "reads", jnum r)].
Proof.
  intros Hc Hu Hw Hr. unfold parseMeta. rewrite parseKV_meta by lia.
  rewrite (count_of_show _ "writes" w), (count_of_show _ "reads" r); [|done|apply lookup_insert_eq|done|].
  2: { rewrite lookup_insert_ne by done. apply lookup_insert_eq. }
  do 2 rewrite (lookup_insert_ne _ _ (js "updated")) by done.
  do 3 rewrite (lookup_insert_ne _ _ (js "created")) by done.
  by rewrite !lookup_insert_eq, !or_zero_show.
Qed.
End Counters.

(** ** The handlers on the server *)

Section Facts.
Context {E : ErrorTexts} {B : Buffers} {UD : UnicodeData} (now : Z) (Hnow : 0 ≤ now < 2 ^ 63).
#[local] Instance with_procedures : Others := kv_others now.

(** The keys the explorer can store: a word that is none of the server's own
    keys and whose metadata key fits its buffer. *)
Definition plain_key (key : jsstr) : Prop :=
  word key ∧ Forall is_unit key ∧ (length key ≤ 507)%nat ∧
  key ∉ [index_key; js "stats:writes"; js "stats:reads"].

Lemma kv_index_account : account index_key.
Proof. split; [by apply word_keyword|by apply says_worm_first]. Qed.

Lemma meta_key_fits key : plain_key key → meta_key_stable key = meta_key key.
Proof.
  intros (_ & _ & Hl & _). apply take_ge. unfold meta_key. rewrite length_app. cbn. lia.
Qed.
Lemma meta_key_word key : word key → word (meta_key key).
Proof.
  intros [_ Hn]. split; [done|]. unfold meta_key. apply Forall_app. split; [by repeat constructor|done].
Qed.
Lemma key_meta_key key : key ≠ meta_key key.
Proof. intros H%(f_equal length). unfold meta_key in H. rewrite length_app in H. cbn in H. lia. Qed.

Lemma set_unsafe_other k v s k' : k ≠ k' → set_unsafe k v s !! k' = s !! k'.
Proof. intros Hk. unfold set_unsafe, put. case_match; [done|]. cbn. by apply lookup_insert_ne. Qed.
Lemma set_unsafe_at k v s : is_worm s k = false → set_unsafe k v s !! k = Some (Entry v false).
Proof. intros Hk. unfold set_unsafe, put. rewrite Hk. cbn. apply lookup_insert_eq. Qed.

(** What the metadata lines hold. *)
Lemma meta_lines c u w r : 0 ≤ c → 0 ≤ u → 0 ≤ w → 0 ≤ r →
  split_on 10 (meta_text c u w r) =
  [js "created=" ++ show c; js "updated=" ++ show u; js "writes=" ++ show w; js "reads=" ++ show r].
Proof.
  intros Hc Hu Hw Hr.
  assert (meta_text c u w r = (js "created" ++ js "=" ++ show c) ++ 10 ::
    ((js "updated" ++ js "=" ++ show u) ++ 10 :: ((js "writes" ++ js "=" ++ show w) ++ 10 ::
    (js "reads" ++ js "=" ++ show r)))) as -> by by rewrite <- !app_assoc.
  unfold split_on. rewrite !split_on_part, split_on_last
    by (apply line_no_break; [apply (bool_decide_unpack _); by vm_compute|done]). done.
Qed.

Lemma parse_u64_show n : 0 ≤ n < 2 ^ 64 → parse_u64 (show n) = Some n.
Proof. intros Hn. apply parse_int_show; lia. Qed.

Lemma strip_name name t : strip_prefix (js name) (js name ++ t) = Some t.
Proof. unfold strip_prefix. by rewrite startsWith_app, drop_app_length. Qed.

(** The server reads its own metadata back. *)
Lemma line_values c u w r : 0 ≤ c < 2 ^ 64 → 0 ≤ u → 0 ≤ w < 2 ^ 63 → 0 ≤ r < 2 ^ 63 →
  let raw := meta_text c u w r in
  line_value parse_u64 "created=" raw = Some c ∧ line_value parse_i64 "writes=" raw = Some w ∧
  line_value parse_i64 "reads=" raw = Some r.
Proof.
  intros Hc Hu Hw Hr raw. unfold line_value, raw. rewrite !meta_lines by lia. cbn [foldl].
  assert (∀ n m t, startsWith (js m ++ t) (js n) = false → strip_prefix (js n) (js m ++ t) = None) as Hno
    by (intros n m t H; unfold strip_prefix; by rewrite H).
  rewrite !strip_name, !Hno by reflexivity.
  by rewrite parse_u64_show, !parse_i64_show.
Qed.

Lemma get_set_unsafe k v s : is_worm s k = false → get (set_unsafe k v s) k = Some v.
Proof. intros Hk. unfold get. by rewrite set_unsafe_at. Qed.

Lemma get_ext s s' k : s !! k = s' !! k → get s k = get s' k ∧ is_worm s k = is_worm s' k.
Proof. unfold get, is_worm. by intros ->. Qed.

(** [kv_put] of a key that is not sealed and has no metadata yet *)
Lemma kv_put_new key v s : plain_key key → is_worm s key = false → get s (meta_key key) = None →
  ∃ s', kv_put now [key; v] s = (s', ok) ∧
    s' !! key = Some (Entry v false) ∧
    s' !! meta_key key = Some (Entry (meta_text now now 1 0) false) ∧
    s' !! index_key = s !! index_key.
Proof.
  intros Hk Hw Hm. assert (Hk' := Hk). destruct Hk' as (_ & _ & _ & Hres).
  rewrite !not_elem_of_cons in Hres. destruct Hres as (Hi & Hsw & _ & _).
  assert (s !! meta_key key = None) as Hm0 by (unfold get in Hm; by destruct (s !! meta_key key)).
  unfold kv_put, bump. rewrite meta_key_fits by done. pose proof (key_meta_key key) as Hkm.
  set (s1 := set_unsafe (js "stats:writes") _ (set_unsafe key v s)).
  assert (s1 !! meta_key key = None) as Hm1 by (unfold s1; by rewrite !set_unsafe_other).
  assert (get s1 (meta_key key) = None) as -> by (unfold get; by rewrite Hm1).
  eexists. split; [reflexivity|]. split_and!.
  - rewrite set_unsafe_other by done. unfold s1. rewrite set_unsafe_other by done. by apply set_unsafe_at.
  - apply set_unsafe_at. unfold is_worm. by rewrite Hm1.
  - rewrite set_unsafe_other by done. unfold s1. by rewrite !set_unsafe_other.
Qed.

(** [kv_get] of a key with metadata *)
Lemma kv_get_found key v c u w r s : plain_key key →
  0 ≤ c < 2 ^ 64 → 0 ≤ u → 0 ≤ w < 2 ^ 63 → 0 ≤ r < 2 ^ 63 - 1 →
  get s key = Some v → s !! meta_key key = Some (Entry (meta_text c u w r) false) →
  ∃ s', kv_get now [key] s = (s', bulk v) ∧ s' !! key = s !! key ∧
    s' !! meta_key key = Some (Entry (meta_text c now w (r + 1)) false) ∧
    s' !! index_key = s !! index_key.
Proof.
  intros Hk Hc Hu Hw Hr Hg Hm. assert (Hk' := Hk). destruct Hk' as (_ & _ & _ & Hres).
  rewrite !not_elem_of_cons in Hres. destruct Hres as (Hi & _ & Hsr & _).
  unfold kv_get, bump. rewrite meta_key_fits, Hg by done. pose proof (key_meta_key key) as Hkm.
  set (s1 := set_unsafe (js "stats:reads") _ s).
  assert (s1 !! meta_key key = Some (Entry (meta_text c u w r) false)) as Hm1
    by (unfold s1; by rewrite set_unsafe_other).
  assert (get s1 (meta_key key) = Some (meta_text c u w r)) as -> by (unfold get; by rewrite Hm1).
  cbn [from_option id]. destruct (line_values c u w r) as (E1 & E2 & E3); [done|done|done|lia|].
  rewrite E1, E2, E3. cbn [from_option id].
  eexists. split; [reflexivity|]. split_and!.
  - rewrite set_unsafe_other by done. unfold s1. by rewrite set_unsafe_other.
  - apply set_unsafe_at. unfold is_worm. by rewrite Hm1.
  - rewrite set_unsafe_other by done. unfold s1. by rewrite set_unsafe_other.
Qed.

Lemma serve_put_text key v s : word key → word v →
  serve (put_text key v) s = let '(s', r) := kv_put now [key; v] s in (s', Ok r).
Proof.
  intros Hk Hv. unfold serve.
  assert (put_text key v = sentence [js "EXEC"; js "kv_put"; key; v]) as -> by done.
  rewrite (parse_render (EXEC (js "kv_put") (ArgStr <$> [key; v]))); [|done|by words|done]. done.
Qed.
Lemma serve_read_text key s : word key →
  serve (read_text key) s = let '(s', r) := kv_get now [key] s in (s', Ok r).
Proof.
  intros Hk. unfold serve.
  assert (read_text key = sentence [js "EXEC"; js "kv_get"; key]) as -> by done.
  rewrite (parse_render (EXEC (js "kv_get") (ArgStr <$> [key]))); [|done|by words|done]. done.
Qed.

Lemma publish_silent kind key d s : exec serve (publish kind key) d s = (Ok tt, d, s).
Proof.
  unfold publish, kv_event. rewrite exec_bind, exec_send. cbn [stringify fmap list_fmap]. rewrite !app_assoc.
  change (js "}") with [125].
  by rewrite serve_pub_text by (done || by apply word_keyword).
Qed.

Lemma exec_read_meta key c u w r d s : word key → 0 ≤ c → 0 ≤ u → 0 ≤ w ≤ 2 ^ 53 → 0 ≤ r ≤ 2 ^ 53 →
  s !! meta_key key = Some (Entry (meta_text c u w r) false) →
  exec serve (read_meta key) d s = (Ok (JObj [(js "created", JStr (show c)); (js "updated", JStr (show u));
     (js "writes", jnum w); (js "reads", jnum r)]), d, s).
Proof.
  intros Hk Hc Hu Hw Hr Hm. unfold read_meta. rewrite exec_bind, exec_send.
  rewrite serve_get_text by by apply meta_key_word. unfold get. rewrite Hm. cbn [fmap option_fmap option_map value].
  assert (bulk_value (bulk (meta_text c u w r)) = Some (meta_text c u w r)) as -> by done.
  by rewrite parseMeta_text.
Qed.

(** A text as the base64 word it travels and is stored as *)
Lemma value_storable v : v ≠ [] → Forall is_unit v → word (b64_encode (text_encode v)).
Proof.
  intros Hne Hv. pose proof (text_encode_bytes v Hv) as Hb. pose proof (b64_encode_no_space _ Hb) as Hr.
  split; [|eapply Forall_impl; [exact Hr|]; intros x Hx; cbn in Hx; unfold is_space;
    repeat (case_ztest; try lia; cbn [andb orb]); done].
  assert (text_encode v ≠ []) as Ht by by apply text_encode_ne.
  destruct (text_encode v) as [|x [|y [|z bs]]]; done.
Qed.

Lemma value_read_back v : well_formed v = true →
  buffer_text (buffer_from_base64 (b64_encode (text_encode v))) = v.
Proof.
  intros Hv. pose proof (well_formed_units v Hv) as Hu. rewrite buffer_from_encode by by apply text_encode_bytes.
  unfold buffer_text, text_encode. rewrite dec_run_encode by by apply code_points_scalar.
  by apply units_code_points.
Qed.

Definition key_entry (key : jsstr) : json := JObj [(js "key", JStr key); (js "locked", JBool false)].
Definition meta_of (writes reads : Z) : json :=
  JObj [(js "created", JStr (show now)); (js "updated", JStr (show now)); (js "writes", jnum writes);
        (js "reads", jnum reads)].

(** The list of keys the server holds, which it can still change. *)
Definition keys_are (l : list json) (s : kv) : Prop :=
  stored_index index_key s = JArr l ∧ json_ok (JArr l) ∧ is_worm s index_key = false.

Lemma keys_are_ext l s s' : s' !! index_key = s !! index_key → keys_are l s → keys_are l s'.
Proof.
  intros Hi. destruct (get_ext s' s index_key Hi) as [Hg Hw].
  unfold keys_are, stored_index. by rewrite Hg, Hw.
Qed.

Lemma key_of_word key v : word key →
  key_of (JObj [(js "key", JStr key); (js "value", v)]) = Ok (Some key).
Proof.
  intros Hk. unfold key_of.
  assert (prop (JObj [(js "key", JStr key); (js "value", v)]) (js "key") = Ok (Some (JStr key))) as -> by done.
  cbn [mbind res_bind]. do 2 f_equal. apply (trim_join [key]); [done|by constructor].
Qed.

Lemma exec_add_to_index key l d s : plain_key key → keys_are l s → find_in 0 (js "key") key l = Ok None →
  ∃ s', exec serve (add_to_index key) d s = (Ok tt, d, s') ∧ keys_are (key_entry key :: l) s' ∧
    (∀ k, k ≠ index_key → s' !! k = s !! k).
Proof.
  intros (_ & Hku & _) (Hl & Hlj & Hlw) Hf. unfold add_to_index, getIndex, saveIndex.
  assert (json_ok (JArr (key_entry key :: l))) as Hj.
  { inversion Hlj; subst. constructor. constructor; [|done].
    constructor; [apply (bool_decide_unpack (NoDup _)); by vm_compute|].
    repeat (apply Forall_cons; split); try done; (split; [by repeat constructor|]); by constructor. }
  rewrite exec_bind, (exec_get_index _ kv_index_account), Hl, exec_bind, exec_of_res. cbn [index_find].
  rewrite Hf, exec_bind, exec_of_res. cbn [unshift]. fold (key_entry key).
  rewrite (exec_save_index _ kv_index_account) by done.
  eexists. split; [reflexivity|]. split; [split_and!; [|done|by unfold is_worm; rewrite lookup_insert_eq]|].
  - apply stored_index_saved; [done|done|]. unfold get. by rewrite lookup_insert_eq.
  - intros k Hk. by apply lookup_insert_ne.
Qed.

(** C14: a key created through the API is there: the creation answers with the
    value and fresh metadata, the key heads the list of keys, and reading it
    gives the value back, unlocked, with the one read counted.  The value
    travels and is stored as base64, the counters are kept by the server's
    procedures and read back from their text. *)
Theorem created_key_reads_back key v req l d s :
  plain_key key → well_formed v = true → v ≠ [] →
  body req = Some (JObj [(js "key", JStr key); (js "value", JStr v)]) →
  is_worm s key = false → get s (meta_key key) = None →
  keys_are l s → find_in 0 (js "key") key l = Ok None →
  ∃ s' s'',
    exec serve (create_key req) d s = (Ok (Response 201 (Json (JObj
      [(js "key", JStr key); (js "value", JStr v); (js "meta", meta_of 1 0)]))), d, s') ∧
    exec serve list_keys d s' = (Ok (Response 200 (Json (JArr (key_entry key :: l)))), d, s') ∧
    exec serve (read_key key) d s' = (Ok (Response 200 (Json (JObj
      [(js "key", JStr key); (js "value", JStr v); (js "locked", JBool false); (js "meta", meta_of 1 1)]))), d, s'') ∧
    keys_are (key_entry key :: l) s''.
Proof.
  intros Hk Hv Hne Hb Hw Hm Hl Hf. assert (Hk' := Hk). destruct Hk' as (Hkw & Hku & _ & Hres).
  rewrite !not_elem_of_cons in Hres. destruct Hres as (Hi & _).
  pose proof (well_formed_units v Hv) as Hvu. pose proof (value_storable v Hne Hvu) as Hvw.
  destruct (kv_put_new key (b64_encode (text_encode v)) s Hk Hw Hm) as (s1 & E1 & H1k & H1m & H1i).
  destruct (exec_add_to_index key l d s1 Hk (keys_are_ext _ _ _ H1i Hl) Hf) as (s2 & E2 & H2 & H2o).
  rewrite <- H2o in H1k, H1m by done.
  destruct (kv_get_found key (b64_encode (text_encode v)) now now 1 0 s2) as (s3 & E3 & H3k & H3m & H3i);
    [done|lia..|by unfold get; rewrite H1k|done|].
  exists s2, s3. split_and!; [|by unfold list_keys; rewrite exec_bind, (exec_get_index _ kv_index_account), (proj1 H2)
    | |by eapply keys_are_ext].
  - unfold create_key, req_json. rewrite Hb, exec_catch, exec_bind, exec_of_res, exec_bind, exec_of_res.
    rewrite key_of_word by done. destruct key as [|c key]; [by destruct Hkw|].
    rewrite exec_bind, exec_of_res. change (value_of _) with (Ok (JStr v, text_encode v)).
    cbv iota beta. rewrite exec_bind, exec_send, serve_put_text, E1 by done. cbv iota beta.
    rewrite exec_bind, E2, exec_bind, publish_silent, exec_bind.
    by rewrite (exec_read_meta _ now now 1 0) by (done || lia).
  - unfold read_key. rewrite exec_catch, exec_bind, exec_send, serve_read_text, E3 by done. cbv zeta iota beta.
    assert (bulk_value (bulk (b64_encode (text_encode v))) = Some (b64_encode (text_encode v))) as ->
      by by destruct (b64_encode (text_encode v)); [destruct Hvw|].
    rewrite exec_bind. unfold getIndex. rewrite (exec_get_index _ kv_index_account).
    rewrite (proj1 (keys_are_ext _ _ _ H3i H2)), exec_bind, exec_of_res.
    assert (locked_entry (JArr (key_entry key :: l)) key = Ok (Some (JBool false))) as ->.
    { unfold locked_entry. cbn [index_find find_in].
      assert (field_is (js "key") key (key_entry key) = Ok true) as ->; [|done].
      unfold field_is, key_entry. change (prop _ _) with (Ok (Some (JStr key))). cbn. by rewrite bool_decide_eq_true_2. }
    rewrite exec_bind, (exec_read_meta key now now 1 1) by (done || lia). by rewrite value_read_back.
Qed.
Lemma procedures_keep_worm : others_keep_worm.
Proof.
  intros p args s k v Hs. unfold exec_other, with_procedures, kv_others, kv_put, kv_get, bump.
  repeat case_bool_decide; repeat case_match; try done; simplify_eq/=; by repeat apply set_unsafe_sealed.
Qed.

Lemma kv_get_keeps key v s : plain_key key → get s key = Some v →
  ∃ s', kv_get now [key] s = (s', bulk v) ∧ s' !! key = s !! key.
Proof.
  intros Hk Hg. assert (Hk' := Hk). destruct Hk' as (_ & _ & _ & Hres).
  rewrite !not_elem_of_cons in Hres. destruct Hres as (_ & _ & Hsr & _).
  pose proof (key_meta_key key) as Hkm. unfold kv_get, bump. rewrite meta_key_fits, Hg by done.
  eexists. split; [reflexivity|]. by rewrite !set_unsafe_other.
Qed.

Lemma lock_key_seals key v d s : plain_key key → word v → get s key = Some v → is_worm s key = false →
  sealed key v (final serve (lock_key key) d s).
Proof.
  intros Hk Hv Hg Hw. assert (word key) as Hkw by apply Hk.
  destruct (kv_get_keeps key v s Hk Hg) as (s1 & E1 & H1).
  unfold final, lock_key. rewrite exec_catch, exec_bind, exec_send, serve_read_text, E1 by done. cbv iota beta zeta.
  rewrite exec_bind, exec_send, serve_put_worm by done. rewrite (proj2 (get_ext s1 s key H1)), Hw.
  set (s2 := <[key := _]> s1). assert (sealed key v s2) as Hs2 by apply lookup_insert_eq.
  match goal with |- context [exec serve ?p d s2] =>
    pose proof (final_sealed _ _ p d s2 procedures_keep_worm Hs2) as H end.
  unfold final in H. destruct (exec serve _ d s2) as [[[r|e] d2] s3]; exact H.
Qed.

(** A locked key keeps its value for good: whatever requests are served
    afterwards, however their commands interleave, the store holds the value
    the key was locked with, as a write-once entry. *)
Theorem locked_key_is_final key v d s requests schedule d1 ps' d' s' :
  plain_key key → word v → get s key = Some v → is_worm s key = false →
  prun serve schedule (fetch <$> requests) d1 (final serve (lock_key key) d s) = (ps', d', s') →
  s' !! key = Some (Entry v true).
Proof.
  intros Hk Hv Hg Hw Hrun.
  by apply (prun_sealed key v _ _ _ _ _ _ _ procedures_keep_worm (lock_key_seals key v d s Hk Hv Hg Hw) Hrun).
Qed.
End Facts.

(** ** Concrete runs *)

Section Examples.
#[local] Existing Instance ascii_only.
#[local] Existing Instance plain_errors.
#[local] Instance strings_only : Buffers := Build_Buffers (λ _, Throw TypeError).
#[local] Instance procedures : Others := kv_others 1000.

Definition quiet : draws := Draws (λ _, 0%Q) 0 (λ _, 0) 0.
Definition post (key v : jsstr) : request :=
  Request (js "POST") (js "/api/keys") (Some (JObj [(js "key", JStr key); (js "value", JStr v)])).

Lemma created_key_reads_back_witness :
  ∃ s, exec serve (create_key (post (js "k1") (js "hi"))) quiet ∅ = (Ok (Response 201 (Json (JObj
      [(js "key", JStr (js "k1")); (js "value", JStr (js "hi")); (js "meta", meta_of 1000 1 0)]))), quiet, s) ∧
    exec serve list_keys quiet s = (Ok (Response 200 (Json (JArr [key_entry (js "k1")]))), quiet, s).
Proof.
  destruct (created_key_reads_back 1000 ltac:(lia) (js "k1") (js "hi") (post (js "k1") (js "hi")) [] quiet ∅)
    as (s & s' & H1 & H2 & _); [..|by exists s].
  - split_and!; [apply (bool_decide_unpack _); by vm_compute|by repeat constructor|apply (bool_decide_unpack _); by vm_compute..].
  - by vm_compute.
  - done.
  - done.
  - done.
  - done.
  - split_and!; [done|by constructor|done].
  - done.
Defined.

(** A key with a space is reported created, but the text command writes the
    rest of it as the value of its first word. *)
Lemma spaced_key_miswritten :
  let s := final serve (create_key (post (js "my key") (js "hi"))) quiet ∅ in
  get s (js "my") = Some (js "key") ∧ get s (js "my key") = None ∧
  status <$> result serve (create_key (post (js "my key") (js "hi"))) quiet ∅ = Ok 201.
Proof. by vm_compute. Qed.

(** The empty value cannot be created: its base64 is no word. *)
Lemma empty_value_refused :
  result serve (create_key (post (js "k1") [])) quiet ∅ =
  Ok (Response 400 (Text (js "kv_put requires 2 args: <key> <value>"))).
Proof. by vm_compute. Qed.

(** Creating a key again after it was locked answers 201 with the new value,
    which is not stored: the procedure ignores the refusal of the store. *)
Lemma locked_key_recreated :
  let s := final serve (lock_key (js "k1")) quiet (final serve (create_key (post (js "k1") (js "hi"))) quiet ∅) in
  is_worm s (js "k1") = true ∧
  status <$> result serve (create_key (post (js "k1") (js "other"))) quiet s = Ok 201 ∧
  get (final serve (create_key (post (js "k1") (js "other"))) quiet s) (js "k1") = Some (js "aGk=").
Proof. by vm_compute. Qed.

Lemma locked_key_is_final_witness :
  ∃ ps d s, prun serve [0; 0; 0; 0; 0; 0]%nat
      (fetch <$> [post (js "k1") (js "other")]) quiet
      (final serve (lock_key (js "k1")) quiet (final serve (create_key (post (js "k1") (js "hi"))) quiet ∅))
    = (ps, d, s) ∧ s !! js "k1" = Some (Entry (js "aGk=") true).
Proof.
  destruct (prun _ _ _ _ _) as [[ps d] s] eqn:Er. exists ps, d, s. split; [done|].
  eapply (locked_key_is_final 1000 (js "k1") (js "aGk=")); [| | | |exact Er].
  - split_and!; [apply (bool_decide_unpack _); by vm_compute|by repeat constructor|apply (bool_decide_unpack _); by vm_compute..].
  - apply (bool_decide_unpack _); by vm_compute.
  - by vm_compute.
  - by vm_compute.
Defined.
End Examples.
