(* ===== verification/Html.v ===== *)
(** * What the pages share ([notepad/app.ts], [explorer/app.ts], [ui/app.ts])

    Escaping of text that is put in HTML, the fallback sanitiser of the
    notepad's preview on a tree of elements, the links of the preview, and
    the delay before a page reconnects.  Parsing and printing HTML is the
    browser's; an attribute occurs once in an element. *)
From S2P Require Import Prelude JsText.
#[local] Open Scope Z_scope.

(** [escapeHTML]: every ampersand, angle bracket and quote is replaced. *)
Definition escape_unit (c : Z) : jsstr :=
  if c =? 38 then js "&amp;"
  else if c =? 60 then js "&lt;"
  else if c =? 62 then js "&gt;"
  else if c =? 39 then js "&#39;"
  else if c =? 34 then js "&quot;"
  else [c].
Definition escapeHTML (s : jsstr) : jsstr := s ≫= escape_unit.

(** How a browser reads the five references back. *)
Definition references : list (jsstr * Z) :=
  [(js "&amp;", 38); (js "&lt;", 60); (js "&gt;", 62); (js "&#39;", 39); (js "&quot;", 34)].
Definition reference_at (s : jsstr) : option (nat * Z) :=
  match base.filter (λ r, startsWith s r.1 = true) references with
  | r :: _ => Some (length r.1, r.2)
  | [] => None
  end.
Fixpoint text_from (skip : nat) (s : jsstr) : jsstr :=
  match s with
  | [] => []
  | c :: s' =>
      match skip with
      | S k => text_from k s'
      | O =>
          match reference_at s with
          | Some (n, d) => d :: text_from (pred n) s'
          | None => c :: text_from O s'
          end
      end
  end.
Definition html_text (s : jsstr) : jsstr := text_from O s.

Definition truncate (s : jsstr) (n : nat) : jsstr :=
  if (n <? length s)%nat then take n s ++ [0x2026] else s.

(** [Math.min(10000, 1000 * Math.max(1, attempts))] *)
Definition reconnect_delay (attempts : Z) : Z := Z.min 10000 (1000 * Z.max 1 attempts).

(** ** The sanitiser *)

Inductive dom :=
| Text (t : jsstr)
| Elem (tag : jsstr) (attrs : list (jsstr * jsstr)) (children : list dom).

Section Sanitize.
Context {UD : UnicodeData}.

Definition active_tags : list jsstr :=
  [js "script"; js "iframe"; js "object"; js "embed"; js "link"; js "meta"].

(** [querySelectorAll("script, iframe, ...").forEach(remove)] *)
Fixpoint remove_active (n : dom) : list dom :=
  match n with
  | Text t => [Text t]
  | Elem tag attrs children =>
      if bool_decide (tag ∈ active_tags) then [] else [Elem tag attrs (children ≫= remove_active)]
  end.

Definition keeps (a : jsstr * jsstr) : bool :=
  let name := toLowerCase a.1 in
  let value := toLowerCase (trim a.2) in
  if startsWith name (js "on") || bool_decide (name = js "srcdoc") then false
  else negb (bool_decide (name = js "href" ∨ name = js "src") &&
             (startsWith value (js "javascript:") || startsWith value (js "data:text/html"))).

Fixpoint clean_attributes (n : dom) : dom :=
  match n with
  | Text t => Text t
  | Elem tag attrs children =>
      Elem tag (base.filter (λ a, keeps a = true) attrs) (clean_attributes <$> children)
  end.

(** [sanitizeHtml] without DOMPurify, on the parsed fragment *)
Definition sanitize (fragment : list dom) : list dom := clean_attributes <$> (fragment ≫= remove_active).

(** [setAttribute] *)
Definition set_attribute (name value : jsstr) (attrs : list (jsstr * jsstr)) : list (jsstr * jsstr) :=
  if bool_decide (name ∈ attrs.*1)
  then (λ a : jsstr * jsstr, if bool_decide (a.1 = name) then (name, value) else a) <$> attrs
  else attrs ++ [(name, value)].

Definition harden_link (attrs : list (jsstr * jsstr)) : list (jsstr * jsstr) :=
  match base.filter (λ a : jsstr * jsstr, a.1 = js "href") attrs with
  | [] => attrs
  | (_, href) :: _ =>
      if startsWith (toLowerCase (trim href)) (js "javascript:")
      then base.filter (λ a : jsstr * jsstr, a.1 ≠ js "href") attrs
      else set_attribute (js "rel") (js "noopener noreferrer") (set_attribute (js "target") (js "_blank") attrs)
  end.

Fixpoint hardenPreviewLinks (n : dom) : dom :=
  match n with
  | Text t => Text t
  | Elem tag attrs children =>
      Elem tag (if bool_decide (tag = js "a") then harden_link attrs else attrs) (hardenPreviewLinks <$> children)
  end.
End Sanitize.

(** ** Facts *)

Lemma escape_unit_markup c : Forall (λ d, d ∉ [60; 62; 39; 34]) (escape_unit c).
Proof.
  unfold escape_unit. repeat (case_ztest; [apply (bool_decide_unpack (Forall _ _)); by vm_compute|]).
  repeat constructor. rewrite !not_elem_of_cons. split_and!; try done. apply not_elem_of_nil.
Qed.

(** Escaped text contains no markup: no angle bracket and no quote. *)
Lemma escape_no_markup s d : d ∈ escapeHTML s → d ∉ [60; 62; 39; 34].
Proof. 
  intros (c & Hd & _)%list_elem_of_bind. revert d Hd. apply Forall_forall, escape_unit_markup.
Qed.

(** A browser reads escaped text back as the text. *)
Lemma escape_reads_back s : html_text (escapeHTML s) = s.
Proof.
  unfold html_text. induction s as [|c s IH]; [done|].
  change (escapeHTML (c :: s)) with (escape_unit c ++ escapeHTML s). unfold escape_unit.
  repeat (case_ztest; [subst; exact (f_equal (cons _) IH)|]).
  cbn [app text_from]. unfold reference_at, references.
  assert (∀ r, head r = Some 38 → startsWith (c :: escapeHTML s) r = false) as Hr.
  { intros [|x r] [= ->]. cbn [startsWith]. by rewrite (proj2 (Z.eqb_neq 38 c)) by congruence. }
  rewrite !filter_cons. cbn [fst]. by rewrite !Hr by done; cbn; f_equal.
Qed.

(** ** What the sanitiser leaves *)

Section SanitizeFacts.
Context {UD : UnicodeData}.

(** Induction on a tree of elements *)
Lemma dom_nested_ind (P : dom → Prop) :
  (∀ t, P (Text t)) → (∀ tag attrs cs, Forall P cs → P (Elem tag attrs cs)) → ∀ n, P n.
Proof.
  intros Ht He. fix go 1. intros [t|tag attrs cs]; [apply Ht|apply He].
  induction cs as [|n cs IH]; constructor; [apply go|exact IH].
Qed.

(** No active element, no handler, no script address, at any depth *)
Inductive harmless : dom → Prop :=
| harmless_text t : harmless (Text t)
| harmless_elem tag attrs cs : tag ∉ active_tags → Forall (λ a, keeps a = true) attrs →
    Forall harmless cs → harmless (Elem tag attrs cs).

Lemma remove_active_clean n : Forall harmless (clean_attributes <$> remove_active n).
Proof.
  induction n as [t|tag attrs cs IH] using dom_nested_ind; cbn [remove_active].
  { repeat constructor. }
  case_bool_decide as Htag; [constructor|]. constructor; [|constructor].
  cbn [clean_attributes]. constructor; [done|apply Forall_forall; intros a; by rewrite list_elem_of_filter; intros []|].
  induction IH as [|n cs Hn _ IHcs]; [constructor|]. cbn [mbind list_bind]. rewrite fmap_app. by apply Forall_app.
Qed.

Lemma sanitize_harmless fragment : Forall harmless (sanitize fragment).
Proof.
  unfold sanitize. induction fragment as [|n f IH]; [constructor|].
  cbn [mbind list_bind]. rewrite fmap_app. apply Forall_app. split; [apply remove_active_clean|done].
Qed.

(** A fragment that is harmless is shown as it is. *)
Lemma sanitize_keeps fragment : Forall harmless fragment → sanitize fragment = fragment.
Proof.
  assert (∀ n, harmless n → remove_active n = [n] ∧ clean_attributes n = n) as H.
  { intros n. induction n as [t|tag attrs cs IH] using dom_nested_ind; [done|].
    inversion 1 as [|? ? ? Htag Ha Hc]; subst. cbn [remove_active clean_attributes].
    rewrite bool_decide_eq_false_2 by done.
    assert (base.filter (λ a, keeps a = true) attrs = attrs) as ->.
    { clear -Ha. induction Ha as [|a l Ha _ IH]; [done|]. rewrite filter_cons_True by done. by rewrite IH. }
    assert (cs ≫= remove_active = cs ∧ clean_attributes <$> cs = cs) as [-> ->]; [|done].
    clear -IH Hc. induction IH as [|n cs Hn _ IHcs]; [done|]. apply Forall_cons in Hc as [Hc Hcs].
    destruct (Hn Hc) as [E1 E2], (IHcs Hcs) as [E3 E4]. rewrite fmap_cons, E2, E4.
    cbn [mbind list_bind]. by rewrite E1, E3. }
  unfold sanitize. induction 1 as [|n f Hn _ IH]; [done|]. destruct (H n Hn) as [E1 E2].
  cbn [mbind list_bind]. rewrite E1. cbn [app]. by rewrite fmap_cons, E2, IH.
Qed.

(** The address of a link that is kept opens apart and has no script scheme. *)
Lemma harden_link_safe attrs href : (js "href", href) ∈ harden_link attrs → NoDup attrs.*1 →
  startsWith (toLowerCase (trim href)) (js "javascript:") = false ∧
  (js "target", js "_blank") ∈ harden_link attrs ∧ (js "rel", js "noopener noreferrer") ∈ harden_link attrs.
Proof.
  assert (∀ name value l, (name, value) ∈ set_attribute name value l) as Hset.
  { intros name value l. unfold set_attribute. case_bool_decide as H.
    - apply list_elem_of_fmap in H as ((m & v) & -> & H). apply list_elem_of_fmap. exists (m, v).
      cbn [fst]. by rewrite bool_decide_eq_true_2.
    - apply elem_of_app. right. by left. }
  assert (∀ name value l a, a.1 ≠ name → a ∈ set_attribute name value l ↔ a ∈ l) as Hother.
  { intros name value l a Hn. unfold set_attribute. case_bool_decide as H.
    - rewrite list_elem_of_fmap. split.
      + intros (x & -> & Hx). by case_bool_decide.
      + intros Ha. exists a. by rewrite bool_decide_eq_false_2.
    - rewrite elem_of_app, list_elem_of_singleton. split; [intros [?| ->]; done|by left]. }
  intros Hin Hd. unfold harden_link in *.
  assert (∀ v, (js "href", v) ∈ attrs → base.filter (λ a : jsstr * jsstr, a.1 = js "href") attrs = [(js "href", v)]) as Hf.
  { intros v Hv. clear Hin. induction attrs as [|[m w] l IH]; [by apply elem_of_nil in Hv|].
    apply NoDup_cons in Hd as [Hm Hd]. rewrite filter_cons. cbn [fst] in *. destruct (decide (m = js "href")) as [->|Hne].
    - apply elem_of_cons in Hv as [[= ->]|Hv]; [|destruct Hm; apply list_elem_of_fmap; by exists (js "href", v)].
      assert (base.filter (λ a : jsstr * jsstr, a.1 = js "href") l = []) as ->; [|done].
      apply elem_of_nil_inv. intros [m' w'] [Em H']%list_elem_of_filter. cbn in Em. subst.
        destruct Hm. apply list_elem_of_fmap. by exists (js "href", w').
    - apply elem_of_cons in Hv as [[= <- _]|Hv]; [done|]. by apply IH. }
  destruct (base.filter (λ a : jsstr * jsstr, a.1 = js "href") attrs) as [|[m w] rest] eqn:E.
  { by specialize (Hf _ Hin). }
  destruct (startsWith (toLowerCase (trim w)) (js "javascript:")) eqn:Ew.
  { by apply list_elem_of_filter in Hin as [[] _]. }
  rewrite Hother in Hin by done. rewrite Hother in Hin by done. pose proof (Hf _ Hin) as [= _ -> _].
  split_and!; [done| |by apply Hset]. rewrite Hother by done. apply Hset.
Qed.

(** The scheme test reads the address as a text, while a browser drops tabs
    and newlines from it first: such an address passes both checks. *)
Definition split_script : list (jsstr * jsstr) := [(js "href", js "java" ++ [9] ++ js "script:alert(1)")].
Lemma split_script_kept :
  sanitize [Elem (js "a") split_script []] = [Elem (js "a") split_script []] ∧
  (js "href", js "java" ++ [9] ++ js "script:alert(1)") ∈ harden_link split_script.
Proof. split; [reflexivity|by left]. Qed.
End SanitizeFacts.
