(* ===== verification/PageLink.v ===== *)
(** * The WebSocket of a page

    [connectWebSocket] of [notepad/app.ts], [explorer/app.ts] and [ui/app.ts],
    which differ in what they do with a message only: a closed socket is
    replaced after a delay that grows with the failures.  Sockets and timers
    are numbered in the order they are made; each socket has the callbacks it
    was given. *)
From S2P Require Import Prelude JsText Html.
#[local] Open Scope Z_scope.

(** [live]: the sockets that are connecting or open, with their state;
    [retries]: the armed [setTimeout(connectWebSocket, delay)]. *)
Record link := Link {
  socket : option nat;
  live : list (nat * bool);
  retries : list (nat * Z);
  reconnectAttempts : Z;
  online : bool;
  made : nat;
}.

Definition new_link : link := Link None [] [] 0 false 0.

Definition connectWebSocket (l : link) : link :=
  Link (Some (made l)) (live l ++ [(made l, false)]) (retries l) (reconnectAttempts l) (online l) (S (made l)).

Definition on_open (s : nat) (l : link) : link :=
  Link (socket l) ((λ x : nat * bool, if bool_decide (x.1 = s) then (s, true) else x) <$> live l) (retries l)
    0 true (made l).

Definition on_close (s : nat) (l : link) : link :=
  let attempts := reconnectAttempts l + 1 in
  let delay := reconnect_delay attempts in
  Link (socket l) (base.filter (λ x : nat * bool, x.1 ≠ s) (live l)) (retries l ++ [(made l, delay)])
    attempts false (S (made l)).

(** The text of the indicator *)
Definition connText (l : link) : jsstr :=
  if online l then js "Connected"
  else js "Reconnecting in " ++ show (- (- reconnect_delay (reconnectAttempts l) / 1000)) ++ js "s...".

Inductive link_event := Opened (s : nat) | Closed (s : nat) | Retry (t : nat).

(** A socket that is connecting may open, one that is live may close, a
    timer that is armed may fire. *)
Definition step (e : link_event) (l : link) : link :=
  match e with
  | Opened s => if bool_decide ((s, false) ∈ live l) then on_open s l else l
  | Closed s => if bool_decide (s ∈ (live l).*1) then on_close s l else l
  | Retry t =>
      if bool_decide (t ∈ (retries l).*1)
      then connectWebSocket (Link (socket l) (live l) (base.filter (λ x : nat * Z, x.1 ≠ t) (retries l))
             (reconnectAttempts l) (online l) (made l))
      else l
  end.

Definition run (es : list link_event) (l : link) : link := foldl (λ l e, step e l) l es.

(** [ws.readyState === WebSocket.OPEN] of the page's socket *)
Definition is_open (l : link) : bool :=
  match socket l with Some s => bool_decide ((s, true) ∈ live l) | None => false end.

(** ** A page is connecting, connected or about to try again, never twice *)

Definition link_ok (l : link) : Prop :=
  0 ≤ reconnectAttempts l ∧
  ((∃ s b, socket l = Some s ∧ live l = [(s, b)] ∧ retries l = [] ∧ online l = b) ∨
   (∃ t, live l = [] ∧ retries l = [(t, reconnect_delay (reconnectAttempts l))] ∧ online l = false ∧
     1 ≤ reconnectAttempts l)).

Lemma link_ok_start : link_ok (connectWebSocket new_link).
Proof. split; [done|]. left. by exists 0%nat, false. Qed.

Lemma link_ok_step e l : link_ok l → link_ok (step e l).
Proof.
  destruct l as [so li re at_ on ma]. unfold link_ok. cbn [socket live retries online reconnectAttempts].
  intros (Hn & [(s & b & -> & -> & -> & ->)|(t & -> & -> & -> & Hat)]); destruct e as [x|x|x];
    cbn [step live retries fmap list_fmap fst];
    try (rewrite bool_decide_eq_false_2 by apply not_elem_of_nil; split; [done|]; naive_solver).
  - case_bool_decide as Hx; (split; [done|]); left; [|by exists s, b].
    apply list_elem_of_singleton in Hx as [= -> <-].
    exists s, true. cbn. by rewrite bool_decide_eq_true_2.
  - case_bool_decide as Hx; (split; [cbn; lia|]); [right|left; by exists s, b]. apply list_elem_of_singleton in Hx as ->.
    exists ma. unfold on_close. cbn [live retries reconnectAttempts online made app].
    split_and!; try done; [|lia]. by rewrite filter_cons_False by (cbn; tauto).
  - case_bool_decide as Hx; (split; [cbn; lia|]); [left|right; by eexists]. apply list_elem_of_singleton in Hx as ->.
    exists ma, false. unfold connectWebSocket. cbn [live retries socket online made app].
    split_and!; try done. by rewrite filter_cons_False by (cbn; tauto).
Qed.

Lemma link_ok_run es : link_ok (run es (connectWebSocket new_link)).
Proof.
  unfold run. generalize link_ok_start. generalize (connectWebSocket new_link). induction es as [|e es IH]; intros l Hl; [done|].
  by apply IH, link_ok_step.
Qed.

(** The delay grows with the failures, from one second to ten. *)
Lemma reconnect_delay_bounds n : 1000 ≤ reconnect_delay n ≤ 10000.
Proof. unfold reconnect_delay. lia. Qed.
