(* ===== verification/PageTimers.v ===== *)
(** * The timers of a page

    [setTimeout] and [clearTimeout] as [notepad/app.ts] and
    [explorer/app.ts] use them: the armed timers with their handles, one of
    them the debounced save, whose handle the page remembers.  Calls that wait
    for an answer are numbered the same way. *)
From S2P Require Import Prelude.
#[local] Open Scope Z_scope.

Section Timers.
Context {T : Type} (save : T).

(** The handles are all different and below the next one, and an armed save
    is the one the page remembers. *)
Definition timers_ok (timers : list (nat * T)) (made : nat) (armed : option nat) : Prop :=
  NoDup timers.*1 ∧ Forall (λ h, h < made)%nat timers.*1 ∧ ∀ h, (h, save) ∈ timers → armed = Some h.

Lemma timers_more timers made made' armed : (made ≤ made')%nat →
  timers_ok timers made armed → timers_ok timers made' armed.
Proof. intros Hm (H1 & H2 & H3). split_and!; [done| |done]. eapply Forall_impl; [exact H2|]. cbn. lia. Qed.

Lemma timers_filter (Q : nat * T → Prop) `{∀ t, Decision (Q t)} timers made armed armed' :
  timers_ok timers made armed → (∀ h, (h, save) ∈ timers → Q (h, save) → armed' = armed) →
  timers_ok (base.filter Q timers) made armed'.
Proof.
  intros (H1 & H2 & H3) Ht.
  assert ((base.filter Q timers).*1 `sublist_of` timers.*1) as Hsub by apply fmap_sublist, sublist_filter.
  split_and!.
  - by eapply sublist_NoDup.
  - apply Forall_forall. intros h Hh. rewrite Forall_forall in H2. apply H2. by eapply sublist_subseteq.
  - intros h [Hn Hh]%list_elem_of_filter. rewrite (Ht h Hh Hn). by apply H3.
Qed.

(** A timer that fires or is cleared is no longer armed. *)
Lemma timers_fired timers made armed h :
  timers_ok timers made armed → timers_ok (base.filter (λ t : nat * T, t.1 ≠ h) timers) made armed.
Proof. intros H. by eapply timers_filter. Qed.

Definition clear (h : option nat) (timers : list (nat * T)) : list (nat * T) :=
  base.filter (λ t : nat * T, Some t.1 ≠ h) timers.

Lemma timers_clear timers made armed armed' :
  timers_ok timers made armed → timers_ok (clear armed timers) made armed'.
Proof. intros H. apply (timers_filter _ _ _ armed); [done|]. intros h Hh Hn. destruct H as (_ & _ & H). by rewrite (H h Hh) in Hn. Qed.

Lemma timers_cleared timers made armed h : timers_ok timers made armed → (h, save) ∉ clear armed timers.
Proof. intros (_ & _ & H) [Hn Hh]%list_elem_of_filter. by rewrite (H h Hh) in Hn. Qed.

Lemma timers_snoc timers made armed armed' t :
  timers_ok timers made armed → (t = save → armed' = Some made ∧ ∀ h, (h, save) ∉ timers) → (t ≠ save → armed' = armed) →
  (t = save ∨ t ≠ save) → timers_ok (timers ++ [(made, t)]) (S made) armed'.
Proof.
  intros (H1 & H2 & H3) Hs Hn Ht. unfold timers_ok. rewrite fmap_app. split_and!.
  - apply NoDup_app. split_and!; [done| |by apply NoDup_singleton].
    intros h Hh ->%list_elem_of_singleton. rewrite Forall_forall in H2. specialize (H2 _ Hh). cbn in H2. lia.
  - apply Forall_app. split; [eapply Forall_impl; [exact H2|]; cbn; lia|]. repeat constructor.
  - intros h [Hh|[= -> ->]%list_elem_of_singleton]%elem_of_app; [|by apply Hs].
    destruct Ht as [Ht|Ht]; [by destruct (Hs Ht) as [_ []%(λ H, H h)]|]. rewrite (Hn Ht). by apply H3.
Qed.

(** The save is armed anew. *)
Lemma timers_rearm timers made armed :
  timers_ok timers made armed → timers_ok (clear armed timers ++ [(made, save)]) (S made) (Some made).
Proof.
  intros H. eapply timers_snoc; [by apply (timers_clear _ _ _ armed)| |done|by left].
  intros _. split; [done|]. intros h. by eapply timers_cleared.
Qed.

(** A timer of another kind is armed. *)
Lemma timers_arm timers made armed t :
  t ≠ save → timers_ok timers made armed → timers_ok (timers ++ [(made, t)]) (S made) armed.
Proof. intros Ht H. eapply timers_snoc; [done|done|done|by right]. Qed.

(** An armed timer is found by its handle. *)
Lemma find_handle h t (l : list (nat * T)) : NoDup l.*1 → (h, t) ∈ l →
  ∃ i, list_find (λ t, t.1 = h) l = Some (i, (h, t)).
Proof.
  intros Hd Hin. destruct (list_find_elem_of (λ t : nat * T, t.1 = h) l (h, t) Hin eq_refl) as [[i [h' t']] E].
  exists i. rewrite E. apply list_find_Some in E as (Hi & Hh & _). cbn in Hh. subst h'.
  apply list_elem_of_lookup in Hin as [j Hj]. assert (i = j) as ->; [|congruence].
  eapply NoDup_lookup; [exact Hd| |]; rewrite list_lookup_fmap; [by rewrite Hi|by rewrite Hj].
Qed.

(** Another timer outlives the one that fires. *)
Lemma others_stay h t k u (l : list (nat * T)) : NoDup l.*1 → (h, t) ∈ l → (k, u) ∈ l → u ≠ t →
  (k, u) ∈ base.filter (λ t : nat * T, t.1 ≠ h) l.
Proof.
  intros Hd Hin Hk Hu. apply list_elem_of_filter. split; [|done]. cbn. intros ->. apply Hu.
  apply list_elem_of_lookup in Hin as [i Hi], Hk as [j Hj]. assert (i = j) as ->; [|congruence].
  eapply NoDup_lookup; [exact Hd| |]; rewrite list_lookup_fmap; [by rewrite Hi|by rewrite Hj].
Qed.

(** At most one save is armed. *)
Lemma one_save `{EqDecision T} timers made armed : timers_ok timers made armed →
  (length (base.filter (λ t : nat * T, t.2 = save) timers) ≤ 1)%nat.
Proof.
  intros (H3 & _ & H5). destruct (base.filter _ timers) as [|[a x] [|[b y] l]] eqn:E; cbn; try lia. exfalso.
  assert ((a, x) ∈ base.filter (λ t : nat * T, t.2 = save) timers ∧
          (b, y) ∈ base.filter (λ t : nat * T, t.2 = save) timers) as [Ha Hb].
  { rewrite E. split; [by left|right; by left]. }
  apply list_elem_of_filter in Ha as [Hx Ha], Hb as [Hy Hb]. cbn in Hx, Hy. subst x y.
  pose proof (H5 a Ha) as Ea. pose proof (H5 b Hb) as Eb. assert (a = b) as -> by congruence.
  assert (sublist ((b, save) :: (b, save) :: l).*1 timers.*1) as Hs.
  { rewrite <- E. apply fmap_sublist, sublist_filter. }
  eapply sublist_NoDup in Hs; [|exact H3]. apply NoDup_cons in Hs as [[] _]. by left.
Qed.
End Timers.
