(* ===== verification/NotepadPage.v ===== *)
(** * The notepad page ([apps/bun/src/notepad/app.ts])

    The page as a state machine: the user's actions, the answers to the
    requests it makes, its timers and the messages of its WebSocket, in any
    order.  An [async] function is cut at its [await]s: the response of a
    [fetch] and its body arrive as two events.  Answers have the type the code
    gives them.  What is drawn is kept as the values given to the elements;
    the texts of sizes and dates are not. *)
From S2P Require Import Prelude JsText Command Protocol Json Prog KvServer WebApp Notepad Html PageLink PageTimers.
From S2P Require Explorer.
#[local] Open Scope Z_scope.

Record NoteMeta := Meta { m_id : jsstr; m_title : jsstr; m_updatedAt : jsstr; m_locked : bool }.
Record Note := Note_ { n_meta : NoteMeta; n_body : jsstr; n_author : jsstr }.

(** ** Requests, timers, elements *)

Inductive api_request :=
| GetNotes | PostNote | GetNote (id : jsstr) | PutNote (id title body author : jsstr)
| PostLock (id : jsstr) | DeleteNote_ (id : jsstr) | PostSave.

Inductive call := LoadNotes | CreateNote | SelectNote | SaveNote | LockNote | DeleteNote | TriggerSnapshot.
Inductive stage := AwaitResponse (c : call) | AwaitBody (c : call).
Inductive timer := SaveTimer | HideSaved.
Inductive confirmation := ConfirmLock | ConfirmDelete.
Inductive body := NotesBody (l : list NoteMeta) | NoteBody (n : Note).

(** What has happened: requests, and notes read by [selectNote] *)
Inductive action := Fetch (h : nat) (r : api_request) | Loaded (n : Note).

#[export] Instance call_eq_dec : EqDecision call.
Proof. solve_decision. Defined.
#[export] Instance stage_eq_dec : EqDecision stage.
Proof. solve_decision. Defined.
#[export] Instance timer_eq_dec : EqDecision timer.
Proof. solve_decision. Defined.

Record row := Row { r_id : jsstr; r_title : jsstr; r_time : jsstr; r_lock : bool; r_active : bool }.
Record editor := Editor { e_active : bool; titleValue : jsstr; titleDisabled : bool; bodyValue : jsstr;
  bodyDisabled : bool; lockDisabled : bool; lockedClass : bool; deleteDisabled : bool; preview : option jsstr }.
Record indicator := Indicator { visible : bool; saving : bool; saved : bool }.
Record dialog := Dialog { d_active : bool; d_title : jsstr; d_callback : option confirmation; d_installed : bool }.

(** [timers] are armed, [inflight] are the calls that wait, [made] numbers
    both; [log] is the history. *)
Record page := Page {
  notes : list NoteMeta; currentNote : option Note; author : jsstr; saveTimeout : option nat; isSaving : bool;
  rows : list row; ed : editor; ind : indicator; dlg : dialog; toasts : list jsstr;
  timers : list (nat * timer); inflight : list (nat * stage); p_made : nat; log : list action; lnk : link }.

Definition set_notes x p := Page x (currentNote p) (author p) (saveTimeout p) (isSaving p) (rows p) (ed p) (ind p) (dlg p) (toasts p) (timers p) (inflight p) (p_made p) (log p) (lnk p).
Definition set_current x p := Page (notes p) x (author p) (saveTimeout p) (isSaving p) (rows p) (ed p) (ind p) (dlg p) (toasts p) (timers p) (inflight p) (p_made p) (log p) (lnk p).
Definition set_author x p := Page (notes p) (currentNote p) x (saveTimeout p) (isSaving p) (rows p) (ed p) (ind p) (dlg p) (toasts p) (timers p) (inflight p) (p_made p) (log p) (lnk p).
Definition set_timers t l n p := Page (notes p) (currentNote p) (author p) t (isSaving p) (rows p) (ed p) (ind p) (dlg p) (toasts p) l (inflight p) n (log p) (lnk p).
Definition set_saving b i p := Page (notes p) (currentNote p) (author p) (saveTimeout p) b (rows p) (ed p) i (dlg p) (toasts p) (timers p) (inflight p) (p_made p) (log p) (lnk p).
Definition set_rows x p := Page (notes p) (currentNote p) (author p) (saveTimeout p) (isSaving p) x (ed p) (ind p) (dlg p) (toasts p) (timers p) (inflight p) (p_made p) (log p) (lnk p).
Definition set_ed x p := Page (notes p) (currentNote p) (author p) (saveTimeout p) (isSaving p) (rows p) x (ind p) (dlg p) (toasts p) (timers p) (inflight p) (p_made p) (log p) (lnk p).
Definition set_dlg x p := Page (notes p) (currentNote p) (author p) (saveTimeout p) (isSaving p) (rows p) (ed p) (ind p) x (toasts p) (timers p) (inflight p) (p_made p) (log p) (lnk p).
Definition add_toast x p := Page (notes p) (currentNote p) (author p) (saveTimeout p) (isSaving p) (rows p) (ed p) (ind p) (dlg p) (toasts p ++ [x]) (timers p) (inflight p) (p_made p) (log p) (lnk p).
Definition set_calls l n g p := Page (notes p) (currentNote p) (author p) (saveTimeout p) (isSaving p) (rows p) (ed p) (ind p) (dlg p) (toasts p) (timers p) l n g (lnk p).
Definition set_link x p := Page (notes p) (currentNote p) (author p) (saveTimeout p) (isSaving p) (rows p) (ed p) (ind p) (dlg p) (toasts p) (timers p) (inflight p) (p_made p) (log p) x.

(** ** Drawing *)

Definition untitled : jsstr := js "Untitled Note".
Definition or_untitled (t : jsstr) : jsstr := if bool_decide (t = []) then untitled else t.

(** [state.currentNote?.id === id] *)
Definition is_current (id : jsstr) (p : page) : bool :=
  match currentNote p with Some n => bool_decide (m_id (n_meta n) = id) | None => false end.

(** One entry of the list; the title as the HTML it is given as *)
Definition row_of (p : page) (n : NoteMeta) : row :=
  Row (m_id n) (escapeHTML (or_untitled (m_title n))) (m_updatedAt n) (m_locked n) (is_current (m_id n) p).
Definition renderNoteList (p : page) : page := set_rows (row_of p <$> notes p) p.

Definition renderPreview (p : page) : page :=
  match currentNote p with
  | None => p
  | Some n =>
      let e := ed p in
      set_ed (Editor (e_active e) (titleValue e) (titleDisabled e) (bodyValue e) (bodyDisabled e)
                (lockDisabled e) (lockedClass e) (deleteDisabled e) (Some (n_body n))) p
  end.

Definition renderEditor (p : page) : page :=
  match currentNote p with
  | None => set_ed (Editor false [] true [] true true false true None) p
  | Some n =>
      let locked := m_locked (n_meta n) in
      renderPreview
        (set_ed (Editor true (m_title (n_meta n)) locked (n_body n) locked locked locked locked (preview (ed p))) p)
  end.

(** The message is put in the toast as HTML. *)
Definition showToast (message : jsstr) (p : page) : page := add_toast message p.

(** [state.notes.find(n => n.id === id)], changed in place *)
Fixpoint update_first (id : jsstr) (f : NoteMeta → NoteMeta) (l : list NoteMeta) : list NoteMeta :=
  match l with
  | [] => []
  | n :: l => if bool_decide (m_id n = id) then f n :: l else n :: update_first id f l
  end.
Definition listed (id : jsstr) (p : page) : bool := bool_decide (id ∈ m_id <$> notes p).
Definition with_title t n := Meta (m_id n) t (m_updatedAt n) (m_locked n).
Definition with_time t n := Meta (m_id n) (m_title n) t (m_locked n).
Definition with_lock n := Meta (m_id n) (m_title n) (m_updatedAt n) true.
Definition lock_current (n : Note) : Note := Note_ (with_lock (n_meta n)) (n_body n) (n_author n).

(** ** Calls and timers *)

(** [fetch(...)] up to its [await] *)
Definition fetch_ (r : api_request) (c : call) (p : page) : page :=
  set_calls (inflight p ++ [(p_made p, AwaitResponse c)]) (S (p_made p)) (log p ++ [Fetch (p_made p) r]) p.

Definition clearTimeout (h : option nat) (p : page) : list (nat * timer) :=
  clear h (timers p).

Definition loadNotes (p : page) : page := fetch_ GetNotes LoadNotes p.
Definition createNote (p : page) : page := fetch_ PostNote CreateNote p.
Definition selectNote (id : jsstr) (p : page) : page := fetch_ (GetNote id) SelectNote p.
Definition triggerSnapshot (p : page) : page := fetch_ PostSave TriggerSnapshot p.

Definition saveCurrentNote (p : page) : page :=
  match currentNote p with
  | None => p
  | Some n =>
      fetch_ (PutNote (m_id (n_meta n)) (m_title (n_meta n)) (n_body n) (author p)) SaveNote (set_saving true (ind p) p)
  end.

Definition handleEditorChange (p : page) : page :=
  match currentNote p with
  | None => p
  | Some n =>
      if m_locked (n_meta n) then p else
      let t := or_untitled (titleValue (ed p)) in
      let id := m_id (n_meta n) in
      let p := set_current (Some (Note_ (with_title t (n_meta n)) (bodyValue (ed p)) (n_author n))) p in
      let p := if listed id p then renderNoteList (set_notes (update_first id (with_title t) (notes p)) p) else p in
      let p := renderPreview p in
      let p := set_saving (isSaving p) (Indicator true true false) p in
      set_timers (Some (p_made p)) (clearTimeout (saveTimeout p) p ++ [(p_made p, SaveTimer)]) (S (p_made p)) p
  end.

(** What the [catch] of a call does *)
Definition failed (c : call) (p : page) : page :=
  match c with
  | LoadNotes => showToast (js "Error loading notes") p
  | CreateNote => showToast (js "Error creating note") p
  | SelectNote => showToast (js "Error loading note") p
  | SaveNote => set_saving false (Indicator (visible (ind p)) false false) (showToast (js "Save failed") p)
  | LockNote => showToast (js "Error locking note") p
  | DeleteNote => showToast (js "Error deleting note. Is it locked?") p
  | TriggerSnapshot => showToast (js "Failed to save snapshot") p
  end.

Definition save_done (p : page) : page :=
  let p := set_saving false (Indicator (visible (ind p)) false true) p in
  set_timers (saveTimeout p) (timers p ++ [(p_made p, HideSaved)]) (S (p_made p)) p.

(** The body of a successful save, [null] when it is no JSON *)
Definition saved_body (b : option body) (p : page) : page :=
  match b with
  | Some (NoteBody n) =>
      if bool_decide (m_updatedAt (n_meta n) = []) || bool_decide (notes p = []) then save_done p
      else match currentNote p with
           | None => failed SaveNote p
           | Some c => save_done (set_notes (update_first (m_id (n_meta c)) (with_time (m_updatedAt (n_meta n))) (notes p)) p)
           end
  | _ => save_done p
  end.

Definition lock_done (p : page) : page :=
  match currentNote p with
  | None => failed LockNote p
  | Some n =>
      let p := set_current (Some (lock_current n)) p in
      let p := set_notes (update_first (m_id (n_meta n)) with_lock (notes p)) p in
      showToast (js "Note locked successfully") (renderEditor (renderNoteList p))
  end.

(** The filter reads [state.currentNote!.id] for each note there is. *)
Definition delete_done (p : page) : page :=
  match currentNote p, notes p with
  | None, _ :: _ => failed DeleteNote p
  | c, l =>
      let kept := match c with Some n => base.filter (λ x, m_id x ≠ m_id (n_meta n)) l | None => [] end in
      showToast (js "Note deleted") (renderEditor (renderNoteList (set_current None (set_notes kept p))))
  end.

Definition settle (h : nat) (p : page) : page :=
  set_calls (base.filter (λ c : nat * stage, c.1 ≠ h) (inflight p)) (p_made p) (log p) p.

(** The response: [None] when the request fails, else [res.ok] *)
Definition responded (h : nat) (c : call) (r : option bool) (p : page) : page :=
  let p := settle h p in
  match r with
  | None | Some false => failed c p
  | Some true =>
      match c with
      | LoadNotes | CreateNote | SelectNote | SaveNote =>
          set_calls (inflight p ++ [(h, AwaitBody c)]) (p_made p) (log p) p
      | LockNote => lock_done p
      | DeleteNote => delete_done p
      | TriggerSnapshot => showToast (js "Snapshot saved to disk") p
      end
  end.

(** [await res.json()]: [None] when the body is no JSON *)
Definition body_read (h : nat) (c : call) (b : option body) (p : page) : page :=
  let p := settle h p in
  match c, b with
  | LoadNotes, Some (NotesBody l) => renderNoteList (set_notes l p)
  | CreateNote, Some (NoteBody n) => selectNote (m_id (n_meta n)) (renderNoteList (set_notes (n_meta n :: notes p) p))
  | SelectNote, Some (NoteBody n) =>
      let p := set_calls (inflight p) (p_made p) (log p ++ [Loaded n]) p in
      renderEditor (renderNoteList (set_current (Some n) p))
  | SaveNote, b => saved_body b p
  | c, _ => failed c p
  end.

(** ** Dialogs *)

Definition showDialog (t : jsstr) (cb : confirmation) (p : page) : page := set_dlg (Dialog true t (Some cb) true) p.
Definition closeDialog (p : page) : page := set_dlg (Dialog false (d_title (dlg p)) None (d_installed (dlg p))) p.

Definition confirmLockNote (p : page) : page :=
  if currentNote p then showDialog (js "Lock Note Permanently") ConfirmLock p else p.
Definition confirmDeleteNote (p : page) : page :=
  if currentNote p then showDialog (js "Delete Note") ConfirmDelete p else p.

(** The callbacks given to [showDialog], up to their [await] *)
Definition confirmed (cb : confirmation) (p : page) : page :=
  match cb, currentNote p with
  | ConfirmLock, Some n => fetch_ (PostLock (m_id (n_meta n))) LockNote p
  | ConfirmDelete, Some n => fetch_ (DeleteNote_ (m_id (n_meta n))) DeleteNote p
  | ConfirmLock, None => failed LockNote p
  | ConfirmDelete, None => failed DeleteNote p
  end.

(** [btnDialogConfirm.onclick] *)
Definition on_confirm (p : page) : page :=
  if d_installed (dlg p) then
    match d_callback (dlg p) with Some cb => confirmed cb (closeDialog p) | None => closeDialog p end
  else p.

(** ** Messages of the server *)

Definition parseKV (text : jsstr) : gmap jsstr jsstr := Explorer.parseKV text.

(** [message] gives the author, which may be missing, the id and the title. *)
Inductive message := Updated (id title author : jsstr) | Deleted (id : jsstr) | Locked (id : jsstr) (author : option jsstr).

Definition text_field (v : json) (k : string) : option jsstr :=
  match prop v (js k) with Ok (Some (JStr s)) => Some s | _ => None end.

(** The events a page acts on; other messages change nothing of the notes. *)
Definition read_message (data : jsstr) : option message :=
  v ← JSON_parse data;
  type ← text_field v "type";
  id ← text_field v "id";
  if bool_decide (type = js "note:updated") then
    title ← text_field v "title"; author ← text_field v "author"; Some (Updated id title author)
  else if bool_decide (type = js "note:deleted") then Some (Deleted id)
  else if bool_decide (type = js "note:locked") then Some (Locked id (text_field v "author"))
  else None.

Definition handleRemoteUpdate (now id title a : jsstr) (p : page) : page :=
  if bool_decide (a = author p) then p else
  let p := set_notes
    (match base.filter (λ n, m_id n = id) (notes p) with
     | n :: _ => Meta id title now (m_locked n) :: base.filter (λ n, m_id n ≠ id) (notes p)
     | [] => Meta id title now false :: notes p
     end) p in
  let p := renderNoteList p in
  if is_current id p then selectNote id (showToast (js "Note updated by " ++ a) p) else p.

Definition handleRemoteDelete (id : jsstr) (p : page) : page :=
  let p := renderNoteList (set_notes (base.filter (λ n, m_id n ≠ id) (notes p)) p) in
  if is_current id p
  then showToast (js "This note was deleted by another user") (renderEditor (set_current None p)) else p.

Definition handleRemoteLock (id : jsstr) (a : option jsstr) (p : page) : page :=
  let p := if listed id p then renderNoteList (set_notes (update_first id with_lock (notes p)) p) else p in
  match currentNote p with
  | Some n =>
      if bool_decide (m_id (n_meta n) = id) then
        let p := renderEditor (set_current (Some (lock_current n)) p) in
        if bool_decide (a = Some (author p)) then p
        else showToast (js "Note locked by " ++ default (js "undefined") a) p
      else p
  | None => p
  end.

Definition on_message (now data : jsstr) (p : page) : page :=
  match read_message data with
  | Some (Updated id title a) => handleRemoteUpdate now id title a p
  | Some (Deleted id) => handleRemoteDelete id p
  | Some (Locked id a) => handleRemoteLock id a p
  | None => p
  end.

(** ** The page *)

Definition promptAuthor (answer : option jsstr) (p : page) : page :=
  match answer with
  | Some name => if bool_decide (trim name = []) then p else set_author (trim name) p
  | None => p
  end.

Inductive event :=
| TitleTyped (v : jsstr) | BodyTyped (v : jsstr) | SaveKey | EscapeKey
| NewClicked | NoteClicked (i : nat) | SnapshotClicked | LockClicked | DeleteClicked
| ConfirmClicked | CancelClicked | AuthorPrompted (answer : option jsstr)
| Responded (h : nat) (r : option bool) | BodyRead (h : nat) (b : option body)
| TimerFired (h : nat)
| LinkEvent (e : link_event) | WsMessage (now data : jsstr).

Definition with_title_value v e := Editor (e_active e) v (titleDisabled e) (bodyValue e) (bodyDisabled e)
  (lockDisabled e) (lockedClass e) (deleteDisabled e) (preview e).
Definition with_body_value v e := Editor (e_active e) (titleValue e) (titleDisabled e) v (bodyDisabled e)
  (lockDisabled e) (lockedClass e) (deleteDisabled e) (preview e).

(** A disabled element takes no input; a response is to a call that waits
    and a timer that fires is armed. *)
Definition step (e : event) (p : page) : page :=
  match e with
  | TitleTyped v => if titleDisabled (ed p) then p else handleEditorChange (set_ed (with_title_value v (ed p)) p)
  | BodyTyped v => if bodyDisabled (ed p) then p else handleEditorChange (set_ed (with_body_value v (ed p)) p)
  | SaveKey => saveCurrentNote (if saveTimeout p then set_timers None (clearTimeout (saveTimeout p) p) (p_made p) p else p)
  | EscapeKey => if d_active (dlg p) then closeDialog p else p
  | NewClicked => createNote p
  | NoteClicked i => match rows p !! i with Some r => selectNote (r_id r) p | None => p end
  | SnapshotClicked => triggerSnapshot p
  | LockClicked => if lockDisabled (ed p) then p else confirmLockNote p
  | DeleteClicked => if deleteDisabled (ed p) then p else confirmDeleteNote p
  | ConfirmClicked => on_confirm p
  | CancelClicked => closeDialog p
  | AuthorPrompted a => promptAuthor a p
  | Responded h r =>
      match list_find (λ c, c.1 = h) (inflight p) with
      | Some (_, (_, AwaitResponse c)) => responded h c r p
      | _ => p
      end
  | BodyRead h b =>
      match list_find (λ c, c.1 = h) (inflight p) with
      | Some (_, (_, AwaitBody c)) => body_read h c b p
      | _ => p
      end
  | TimerFired h =>
      match list_find (λ t, t.1 = h) (timers p) with
      | Some (_, (_, t)) =>
          let p := set_timers (saveTimeout p) (base.filter (λ t : nat * timer, t.1 ≠ h) (timers p)) (p_made p) p in
          match t with
          | SaveTimer => saveCurrentNote p
          | HideSaved => if negb (isSaving p) && saved (ind p) then set_saving false (Indicator false (saving (ind p)) false) p else p
          end
      | None => p
      end
  | LinkEvent e => set_link (PageLink.step e (lnk p)) p
  | WsMessage now data => on_message now data p
  end.

Definition run (es : list event) (p : page) : page := foldl (λ p e, step e p) p es.

(** The page as it is loaded: [author] is the stored name or "Guest". *)
Definition loaded (stored : option jsstr) : page :=
  Page [] None (match stored with Some (_ :: _ as a) => a | _ => js "Guest" end) None false []
    (Editor false [] true [] true true false true None) (Indicator false false false) (Dialog false [] None false) []
    [] [] 1 [] new_link.

Definition init (stored answer : option jsstr) : page :=
  let p := loaded stored in
  let p := if bool_decide (author p = js "Guest") then promptAuthor answer p else p in
  let p := loadNotes p in
  set_link (connectWebSocket (lnk p)) p.

(** ** What holds of the page at all times *)

(** A row as it is drawn, its time apart *)
Definition drawn (r : row) : jsstr * jsstr * bool * bool := (r_id r, r_title r, r_lock r, r_active r).
Definition rows_ok (p : page) : Prop := drawn <$> rows p = drawn ∘ row_of p <$> notes p.

(** The editor shows the current note and can be written in unless it is
    locked; without a note nothing can be pressed. *)
Definition editor_ok (p : page) : Prop :=
  match currentNote p with
  | None => ed p = Editor false [] true [] true true false true None
  | Some n =>
      let l := m_locked (n_meta n) in
      ∃ t, ed p = Editor true t l (n_body n) l l l l (Some (n_body n)) ∧ or_untitled t = or_untitled (m_title (n_meta n))
  end.

(** The timers have their own handles, and an armed save is the one the page
    remembers. *)
Definition timers_ok (p : page) : Prop := PageTimers.timers_ok SaveTimer (timers p) (p_made p) (saveTimeout p).

(** The text of note [id] that was last sent or read *)
Definition note_text (id : jsstr) (acc : option (jsstr * jsstr)) (a : action) : option (jsstr * jsstr) :=
  match a with
  | Fetch _ (PutNote i t b _) => if bool_decide (i = id) then Some (t, b) else acc
  | Loaded n => if bool_decide (m_id (n_meta n) = id) then Some (m_title (n_meta n), n_body n) else acc
  | _ => acc
  end.
Definition last_text (id : jsstr) (l : list action) : option (jsstr * jsstr) := foldl (note_text id) None l.

Definition save_armed (p : page) : Prop := ∃ h, (h, SaveTimer) ∈ timers p.
Definition sent_ok (p : page) : Prop :=
  match currentNote p with
  | None => True
  | Some n => save_armed p ∨ last_text (m_id (n_meta n)) (log p) = Some (m_title (n_meta n), n_body n)
  end.

Definition dialog_ok (p : page) : Prop :=
  match d_callback (dlg p) with Some _ => d_active (dlg p) = true ∧ d_installed (dlg p) = true | None => True end.

Definition rest_ok (p : page) : Prop := editor_ok p ∧ timers_ok p ∧ sent_ok p ∧ dialog_ok p ∧ link_ok (lnk p).
Definition page_ok (p : page) : Prop := rows_ok p ∧ rest_ok p.

Lemma or_untitled_idem t : or_untitled (or_untitled t) = or_untitled t.
Proof. unfold or_untitled. destruct (decide (t = [])) as [->|H]; [done|]. by rewrite !(bool_decide_eq_false_2 _ H). Qed.

Lemma rows_ok_ext p p' : rows p' = rows p → notes p' = notes p →
  (∀ n, n ∈ notes p → is_current (m_id n) p' = is_current (m_id n) p) → rows_ok p → rows_ok p'.
Proof.
  unfold rows_ok. intros -> -> Hc ->. apply list_fmap_ext. intros i n Hn. cbn. unfold drawn, row_of.
  cbn [r_id r_title r_lock r_active]. f_equal. symmetry. apply Hc. by eapply list_elem_of_lookup_2.
Qed.

Lemma rows_ok_render p : rows_ok (renderNoteList p).
Proof. unfold rows_ok, renderNoteList. cbn [rows notes set_rows]. by rewrite <- list_fmap_compose. Qed.

Lemma last_text_snoc id l a : last_text id (l ++ [a]) = note_text id (last_text id l) a.
Proof. unfold last_text. by rewrite foldl_app. Qed.

(** A request that is no save keeps the texts. *)
Definition no_put (r : api_request) : Prop := match r with PutNote _ _ _ _ => False | _ => True end.

Lemma fetch_ok r c p : no_put r → page_ok p → page_ok (fetch_ r c p).
Proof.
  intros Hr (H1 & H2 & H3 & H6 & H7). split; [exact H1|]. split; [exact H2|].
  split; [eapply timers_more; [|exact H3]; cbn; lia|].
  split; [|exact H7]. unfold sent_ok in *. cbn [fetch_ set_calls currentNote log].
  destruct (currentNote p) as [n|]; [|done]. destruct H6 as [H6|H6]; [left; exact H6|right].
  rewrite last_text_snoc. by destruct r.
Qed.

(** Saving with some timers gone *)
Lemma save_after_ok p t l : page_ok p → timers_ok (set_timers t l (p_made p) p) →
  page_ok (saveCurrentNote (set_timers t l (p_made p) p)).
Proof.
  intros (H1 & H2 & _ & H6 & H7) Ht.
  unfold saveCurrentNote. cbn [set_timers currentNote author]. destruct (currentNote p) as [n|] eqn:En.
  - split; [exact H1|]. split; [exact H2|]. split; [eapply timers_more; [|exact Ht]; cbn; lia|].
    split; [|exact H7]. unfold sent_ok. cbn [fetch_ set_calls set_saving set_timers currentNote log]. rewrite En. right.
    rewrite last_text_snoc. cbn. by rewrite bool_decide_eq_true_2.
  - split; [exact H1|]. split; [exact H2|]. split; [exact Ht|]. split; [|exact H7].
    unfold sent_ok. cbn [set_timers currentNote]. by rewrite En.
Qed.
Lemma save_ok p : page_ok p → page_ok (saveCurrentNote p).
Proof. intros H. pose proof H as (_ & _ & H3 & _). by destruct p; apply (save_after_ok _ _ _ H H3). Qed.

(** What draws, tells or counts only *)
Lemma saving_ok b i p : page_ok p → page_ok (set_saving b i p).
Proof. done. Qed.
Lemma toast_ok m p : page_ok p → page_ok (showToast m p).
Proof. done. Qed.
Lemma failed_ok c p : page_ok p → page_ok (failed c p).
Proof. by destruct c. Qed.
Lemma settle_ok h p : page_ok p → page_ok (settle h p).
Proof. done. Qed.
#[local] Hint Resolve saving_ok toast_ok failed_ok settle_ok fetch_ok : page.

Lemma arm_ok t p : t ≠ SaveTimer → page_ok p →
  page_ok (set_timers (saveTimeout p) (timers p ++ [(p_made p, t)]) (S (p_made p)) p).
Proof.
  intros Ht (H1 & H2 & H3 & H6 & H7). split; [exact H1|]. split; [exact H2|]. split; [|split; [|exact H7]].
  - by apply timers_arm.
  - unfold sent_ok, save_armed in *. cbn [set_timers currentNote timers log]. destruct (currentNote p); [|done].
    destruct H6 as [(h & Hh)|H6]; [left; exists h; apply elem_of_app; by left|by right].
Qed.

Lemma save_done_ok p : page_ok p → page_ok (save_done p).
Proof. intros H. unfold save_done. by apply (arm_ok HideSaved (set_saving false _ p)). Qed.

(** A new list, the current note being the same *)
Lemma relist_ok l p : page_ok p → page_ok (renderNoteList (set_notes l p)).
Proof. intros [_ H]. split; [apply rows_ok_render|exact H]. Qed.

(** The time of an entry is drawn later. *)
Lemma time_ok id t p : page_ok p → page_ok (set_notes (update_first id (with_time t) (notes p)) p).
Proof.
  intros [H1 H]. split; [|exact H]. unfold rows_ok in *. cbn [set_notes rows notes]. rewrite H1.
  clear. induction (notes p) as [|n l IH]; [done|]. cbn [update_first]. case_bool_decide; cbn [fmap list_fmap]; [done|].
  by f_equal.
Qed.

Lemma renderEditor_some n p : currentNote p = Some n → renderEditor p =
  set_ed (let l := m_locked (n_meta n) in
    Editor true (m_title (n_meta n)) l (n_body n) l l l l (Some (n_body n))) p.
Proof. intros E. unfold renderEditor, renderPreview. rewrite E. cbn [set_ed currentNote]. by rewrite E. Qed.
Lemma renderEditor_none p : currentNote p = None →
  renderEditor p = set_ed (Editor false [] true [] true true false true None) p.
Proof. intros E. unfold renderEditor. by rewrite E. Qed.

(** The editor is drawn anew with a current note whose text is known. *)
Lemma show_note_ok n p : rows_ok p → timers_ok p → dialog_ok p → link_ok (lnk p) →
  currentNote p = Some n → sent_ok p → page_ok (renderEditor p).
Proof.
  intros H1 H2 H3 H4 E H5. rewrite (renderEditor_some n) by done. split; [exact H1|]. split; [|done].
  unfold editor_ok. cbn [set_ed currentNote ed]. rewrite E. by exists (m_title (n_meta n)).
Qed.

Lemma hide_note_ok p : rows_ok p → timers_ok p → dialog_ok p → link_ok (lnk p) →
  currentNote p = None → page_ok (renderEditor p).
Proof.
  intros H1 H2 H3 H4 E. rewrite renderEditor_none by done. split; [exact H1|]. split; [|split; [done|split; [|done]]].
  - unfold editor_ok. cbn [set_ed currentNote ed]. by rewrite E.
  - unfold sent_ok. cbn [set_ed currentNote]. by rewrite E.
Qed.

(** Typing in the editor of an unlocked note *)
Lemma edit_ok e p n : page_ok p → currentNote p = Some n → m_locked (n_meta n) = false →
  (∃ t b, e = Editor true t false b false false false false (Some (n_body n))) →
  page_ok (handleEditorChange (set_ed e p)).
Proof.
  intros (H1 & H2 & H3 & H6 & H7 & H8) En Hl (t & b & ->).
  unfold handleEditorChange. cbn [set_ed currentNote ed titleValue bodyValue]. rewrite En, Hl.
  set (id := m_id (n_meta n)). set (n' := Note_ (with_title (or_untitled t) (n_meta n)) b (n_author n)).
  set (p1 := set_current (Some n') _).
  set (p2 := if listed id p1 then _ else p1).
  assert (rows_ok p2 ∧ currentNote p2 = Some n' ∧ timers p2 = timers p ∧ p_made p2 = p_made p ∧
    saveTimeout p2 = saveTimeout p ∧ dlg p2 = dlg p ∧ lnk p2 = lnk p ∧
    ed p2 = Editor true t false b false false false false (Some (n_body n))) as (R1 & R2 & R3 & R4 & R5 & R6 & R7 & R8).
  { unfold p2. destruct (listed id p1); split_and!; try done; [apply rows_ok_render|].
    eapply rows_ok_ext; [..|exact H1]; [done|done|]. intros x _. unfold is_current, p1. cbn [set_current currentNote].
    by rewrite En. }
  clearbody p2. clear p1. unfold renderPreview. rewrite R2, R8. cbn [e_active titleValue titleDisabled bodyValue bodyDisabled lockDisabled lockedClass deleteDisabled].
  split; [exact R1|]. split; [|split; [|split; [|split]]].
  - unfold editor_ok. cbn [set_timers set_saving set_ed currentNote ed]. rewrite R2. unfold n'. cbn [n_meta n_body with_title m_locked m_title].
    rewrite Hl. exists t. split; [done|]. by rewrite or_untitled_idem.
  - unfold timers_ok, clearTimeout. cbn [set_timers set_saving set_ed timers p_made saveTimeout]. rewrite R3, R4, R5.
    by apply timers_rearm.
  - unfold sent_ok. cbn [set_timers set_saving set_ed currentNote]. rewrite R2. left. exists (p_made p).
    cbn [set_timers timers set_saving set_ed p_made]. rewrite R4. apply elem_of_app. right. by left.
  - unfold dialog_ok. cbn [set_timers set_saving set_ed dlg]. by rewrite R6.
  - cbn [set_timers set_saving set_ed lnk]. by rewrite R7.
Qed.

Lemma editor_current p : editor_ok p → (titleDisabled (ed p) = false ∨ bodyDisabled (ed p) = false) →
  ∃ n t, currentNote p = Some n ∧ m_locked (n_meta n) = false ∧
    ed p = Editor true t false (n_body n) false false false false (Some (n_body n)).
Proof.
  unfold editor_ok. destruct (currentNote p) as [n|]; [|intros ->; cbn; naive_solver].
  intros (t & -> & _). cbn. intros H. exists n, t. assert (m_locked (n_meta n) = false) as -> by naive_solver. done.
Qed.

Lemma saved_body_ok b p : page_ok p → page_ok (saved_body b p).
Proof.
  intros H. unfold saved_body. destruct b as [[l|n]|]; [by apply save_done_ok| |by apply save_done_ok].
  destruct (_ || _); [by apply save_done_ok|]. destruct (currentNote p); [|by apply failed_ok].
  by apply save_done_ok, time_ok.
Qed.

Lemma lock_done_ok p : page_ok p → page_ok (lock_done p).
Proof.
  intros (H1 & H2 & H3 & H6 & H7 & H8). unfold lock_done. destruct (currentNote p) as [n|] eqn:En; [|by apply failed_ok].
  apply toast_ok. eapply (show_note_ok (lock_current n)); [apply rows_ok_render|exact H3|exact H7|exact H8|done|].
  unfold sent_ok in *. rewrite En in H6. exact H6.
Qed.

Lemma delete_done_ok p : page_ok p → page_ok (delete_done p).
Proof.
  intros (H1 & H2 & H3 & H6 & H7 & H8). unfold delete_done.
  destruct (currentNote p) as [n|], (notes p) as [|x l]; try (by apply failed_ok);
    apply toast_ok, hide_note_ok; try done; apply rows_ok_render.
Qed.

Lemma body_read_ok h c b p : page_ok p → page_ok (body_read h c b p).
Proof.
  intros H. apply (settle_ok h) in H. unfold body_read. cbv zeta. revert H. generalize (settle h p). clear p. intros p H.
  destruct c; try by apply failed_ok.
  - destruct b as [[l|n]|]; [by apply relist_ok|by apply failed_ok..].
  - destruct b as [[l|n]|]; [by apply failed_ok| |by apply failed_ok]. by apply fetch_ok, relist_ok.
  - destruct b as [[l|n]|]; [by apply failed_ok| |by apply failed_ok].
    destruct H as (H1 & H2 & H3 & H6 & H7 & H8).
    eapply (show_note_ok n); [apply rows_ok_render|exact H3|exact H7|exact H8|done|].
    right. change (last_text (m_id (n_meta n)) (log p ++ [Loaded n]) = Some (m_title (n_meta n), n_body n)).
    rewrite last_text_snoc. cbn. by rewrite bool_decide_eq_true_2.
  - by apply saved_body_ok.
Qed.

Lemma responded_ok h c r p : page_ok p → page_ok (responded h c r p).
Proof.
  intros H. apply (settle_ok h) in H. unfold responded. cbv zeta. revert H. generalize (settle h p). clear p. intros p H.
  destruct r as [[]|]; [|by apply failed_ok..].
  destruct c; try exact H; [by apply lock_done_ok|by apply delete_done_ok].
Qed.

Lemma remote_update_ok now id t a p : page_ok p → page_ok (handleRemoteUpdate now id t a p).
Proof.
  intros H. unfold handleRemoteUpdate. case_bool_decide; [done|]. cbv zeta.
  match goal with |- context [set_notes ?l p] => pose proof (relist_ok l p H) as H' end.
  destruct (is_current _ _); [|done]. by apply fetch_ok, toast_ok.
Qed.

Lemma remote_delete_ok id p : page_ok p → page_ok (handleRemoteDelete id p).
Proof.
  intros H. unfold handleRemoteDelete. cbv zeta.
  pose proof (relist_ok (base.filter (λ n, m_id n ≠ id) (notes p)) p H) as H'.
  destruct (is_current _ _) eqn:Ec; [|done]. destruct H' as (H1 & H2 & H3 & H6 & H7 & H8).
  apply toast_ok, hide_note_ok; try done. eapply rows_ok_ext; [..|exact H1]; [done|done|].
  intros n [Hn _]%list_elem_of_filter. unfold is_current in *. cbn [renderNoteList set_rows set_notes set_current currentNote] in *.
  destruct (currentNote p) as [c|]; [|done]. apply bool_decide_eq_true in Ec. symmetry. apply bool_decide_eq_false. congruence.
Qed.

Lemma remote_lock_ok id a p : page_ok p → page_ok (handleRemoteLock id a p).
Proof.
  intros H. unfold handleRemoteLock. set (p1 := if listed id p then _ else p).
  assert (page_ok p1) as H' by (unfold p1; destruct (listed id p); [by apply relist_ok|done]).
  clearbody p1. clear H. destruct (currentNote p1) as [n|] eqn:En; [|done]. case_bool_decide; [|done].
  destruct H' as (H1 & H2 & H3 & H6 & H7 & H8).
  assert (page_ok (renderEditor (set_current (Some (lock_current n)) p1))) as Hp.
  { eapply (show_note_ok (lock_current n)); [|exact H3|exact H7|exact H8|done|].
    - eapply rows_ok_ext; [..|exact H1]; [done|done|]. intros x _. unfold is_current. cbn [set_current currentNote]. by rewrite En.
    - unfold sent_ok in *. rewrite En in H6. exact H6. }
  cbv zeta. case_bool_decide; [done|by apply toast_ok].
Qed.

Lemma close_dialog_ok p : page_ok p → page_ok (closeDialog p).
Proof. intros (H1 & H2 & H3 & H6 & H7 & H8). by split_and!. Qed.
Lemma show_dialog_ok t cb p : page_ok p → page_ok (showDialog t cb p).
Proof. intros (H1 & H2 & H3 & H6 & H7 & H8). by split_and!. Qed.

Lemma confirmed_ok cb p : page_ok p → page_ok (confirmed cb p).
Proof. intros H. unfold confirmed. destruct cb, (currentNote p); by apply fetch_ok || apply failed_ok. Qed.

Lemma timer_ok h p : page_ok p → page_ok (step (TimerFired h) p).
Proof.
  intros H. cbn [step]. destruct (list_find _ (timers p)) as [[i [h' t]]|] eqn:E; [|done].
  apply list_find_Some in E as (Hi & Hh & _). cbn in Hh. subst h'. pose proof H as (H1 & H2 & H3 & H6 & H7 & H8).
  assert (timers_ok (set_timers (saveTimeout p) (base.filter (λ t : nat * timer, t.1 ≠ h) (timers p)) (p_made p) p)) as Ht
    by by apply timers_fired.
  destruct t; cbv zeta; [by apply save_after_ok|].
  assert (page_ok (set_timers (saveTimeout p) (base.filter (λ t : nat * timer, t.1 ≠ h) (timers p)) (p_made p) p)) as Hp.
  { split; [exact H1|split; [exact H2|split; [exact Ht|split; [|done]]]]. unfold sent_ok, save_armed in *. cbn [set_timers currentNote timers log].
    destruct (currentNote p); [|done]. destruct H6 as [(k & Hk)|H6]; [|by right]. left. exists k.
    destruct H3 as (Hd & _). by eapply others_stay; [exact Hd|eapply list_elem_of_lookup_2|exact Hk|]. }
  destruct (_ && _); [by apply saving_ok|done].
Qed.

Lemma page_ok_step e p : page_ok p → page_ok (step e p).
Proof.
  intros H. pose proof H as (H1 & H2 & H3 & H6 & H7 & H8). destruct e; cbn [step].
  - destruct (titleDisabled (ed p)) eqn:Ed; [done|].
    destruct (editor_current p H2 (or_introl Ed)) as (n & t & En & Hl & E). rewrite E. by eapply edit_ok; [..|by eexists _, _].
  - destruct (bodyDisabled (ed p)) eqn:Ed; [done|].
    destruct (editor_current p H2 (or_intror Ed)) as (n & t & En & Hl & E). rewrite E. by eapply edit_ok; [..|by eexists _, _].
  - destruct (saveTimeout p) as [t|] eqn:Et; [|by apply save_ok]. apply save_after_ok; [done|].
    unfold timers_ok, clearTimeout. rewrite <- Et. by apply (timers_clear _ _ _ (saveTimeout p)).
  - destruct (d_active _); [by apply close_dialog_ok|done].
  - by apply fetch_ok.
  - destruct (rows p !! i); [by apply fetch_ok|done].
  - by apply fetch_ok.
  - destruct (lockDisabled _); [done|]. unfold confirmLockNote. destruct (currentNote p); [by apply show_dialog_ok|done].
  - destruct (deleteDisabled _); [done|]. unfold confirmDeleteNote. destruct (currentNote p); [by apply show_dialog_ok|done].
  - unfold on_confirm. destruct (d_installed _); [|done].
    destruct (d_callback _); [by apply confirmed_ok, close_dialog_ok|by apply close_dialog_ok].
  - by apply close_dialog_ok.
  - unfold promptAuthor. destruct answer; [|done]. by case_bool_decide.
  - destruct (list_find _ _) as [[i [h' []]]|]; [by apply responded_ok|done..].
  - destruct (list_find _ _) as [[i [h' []]]|]; [done|by apply body_read_ok|done].
  - by apply timer_ok.
  - do 5 (split; [done|]). by apply link_ok_step.
  - unfold on_message. destruct (read_message data) as [[]|];
      [by apply remote_update_ok|by apply remote_delete_ok|by apply remote_lock_ok|done].
Qed.

Lemma page_ok_init stored answer : page_ok (init stored answer).
Proof.
  assert (∀ a, page_ok (set_link (connectWebSocket (lnk (loadNotes (set_author a (loaded stored)))))
    (loadNotes (set_author a (loaded stored))))) as H.
  { intros a. split; [done|]. split; [done|]. split; [|split; [done|split; [done|apply link_ok_start]]].
    split_and!; [constructor|constructor|]. intros h Hh. by apply elem_of_nil in Hh. }
  unfold init. cbv zeta. case_bool_decide; [|by apply (H (author (loaded stored)))].
  unfold promptAuthor. destruct answer; [|by apply (H (author (loaded stored)))].
  case_bool_decide; [by apply (H (author (loaded stored)))|apply H].
Qed.

Lemma page_ok_run stored answer es : page_ok (run es (init stored answer)).
Proof.
  unfold run. generalize (page_ok_init stored answer). generalize (init stored answer).
  induction es as [|e es IH]; intros p Hp; [done|]. by apply IH, page_ok_step.
Qed.

(** C19: whatever happens on the page, in whatever order, its list shows the
    notes it holds with their titles as text, the editor shows the current
    note and takes input only if the note is not locked, and without a note
    nothing can be written, locked or deleted; at most one save is armed,
    and there is one live WebSocket or one armed attempt at one. *)
Theorem page_consistent stored answer es :
  let p := run es (init stored answer) in
  rows_ok p ∧ editor_ok p ∧ (length (base.filter (λ t : nat * timer, t.2 = SaveTimer) (timers p)) ≤ 1)%nat ∧ link_ok (lnk p).
Proof.
  cbv zeta. generalize (page_ok_run stored answer es). generalize (run es (init stored answer)).
  intros p (H1 & H2 & H3 & _ & _ & H8). split_and!; try done. by eapply one_save.
Qed.

(** C18: an edit of the note on display does not get forgotten: its text is
    the text last sent to the server, or read from it, unless a save is
    armed, and that save sends the text as it is then. *)
Theorem edits_are_sent stored answer es n :
  let p := run es (init stored answer) in
  currentNote p = Some n →
  last_text (m_id (n_meta n)) (log p) = Some (m_title (n_meta n), n_body n) ∨
  ∃ h, (h, SaveTimer) ∈ timers p ∧
    log (step (TimerFired h) p) =
      log p ++ [Fetch (p_made p) (PutNote (m_id (n_meta n)) (m_title (n_meta n)) (n_body n) (author p))].
Proof.
  cbv zeta. generalize (page_ok_run stored answer es). generalize (run es (init stored answer)).
  intros p (_ & _ & (H3 & _) & H6 & _) En. unfold sent_ok in H6. rewrite En in H6. destruct H6 as [(h & Hh)|H6]; [right|by left].
  exists h. split; [done|]. cbn [step]. destruct (find_handle h SaveTimer (timers p) H3 Hh) as [i ->].
  unfold saveCurrentNote. cbn [set_timers currentNote]. by rewrite En.
Qed.

(** Two notes, and a page that shows the first *)
Definition note_a : Note := Note_ (Meta (js "A") (js "First") (js "t0") false) (js "one") (js "Ann").
Definition note_b : Note := Note_ (Meta (js "B") (js "Second") (js "t0") false) (js "two") (js "Ann").
Definition opening : list event :=
  [Responded 1 (Some true); BodyRead 1 (Some (NotesBody [n_meta note_a; n_meta note_b]));
   NoteClicked 0; Responded 2 (Some true); BodyRead 2 (Some (NoteBody note_a))].
Definition opened (es : list event) : page := run (opening ++ es) (init (Some (js "Ann")) None).

Lemma edits_are_sent_witness :
  let p := run (opening ++ [BodyTyped (js "one more")]) (init (Some (js "Ann")) None) in
  let n := Note_ (Meta (js "A") (js "First") (js "t0") false) (js "one more") (js "Ann") in
  currentNote p = Some n ∧
  (last_text (m_id (n_meta n)) (log p) = Some (m_title (n_meta n), n_body n) ∨
   ∃ h, (h, SaveTimer) ∈ timers p ∧
     log (step (TimerFired h) p) =
       log p ++ [Fetch (p_made p) (PutNote (m_id (n_meta n)) (m_title (n_meta n)) (n_body n) (author p))]).
Proof.
  cbv zeta. assert (currentNote (run (opening ++ [BodyTyped (js "one more")]) (init (Some (js "Ann")) None)) =
    Some (Note_ (Meta (js "A") (js "First") (js "t0") false) (js "one more") (js "Ann"))) as H by by vm_compute.
  split; [exact H|]. exact (edits_are_sent (Some (js "Ann")) None _ _ H).
Defined.

(** The save is for the note that is current when the timer fires: an edit
    followed by the choice of another note is never sent. *)
Lemma switching_drops_edit :
  let p := opened [BodyTyped (js "one more"); NoteClicked 1; Responded 4 (Some true); BodyRead 4 (Some (NoteBody note_b));
                   TimerFired 3] in
  timers p = [] ∧ last_text (js "A") (log p) = Some (js "First", js "one") ∧
  last_text (js "B") (log p) = Some (js "Second", js "two").
Proof. by vm_compute. Qed.

(** The answer to a deletion is taken for the note that is current then: the
    other note goes from the list and the deleted one stays. *)
Lemma late_deletion_hides_other :
  let p := opened [DeleteClicked; ConfirmClicked; NoteClicked 1; Responded 4 (Some true); BodyRead 4 (Some (NoteBody note_b));
                   Responded 3 (Some true)] in
  last (log p) = Some (Loaded note_b) ∧ Fetch 3 (DeleteNote_ (js "A")) ∈ log p ∧ m_id <$> notes p = [js "A"].
Proof.
  cbv zeta. split; [by vm_compute|]. split; [|by vm_compute].
  match goal with |- ?x ∈ ?l => let l' := eval vm_compute in l in change (x ∈ l') end. set_solver.
Qed.

(** A confirmation is asked about one note and given for another, when the
    answer of an earlier choice arrives in between. *)
Lemma confirmation_hits_other :
  let p := opened [NoteClicked 1; Responded 3 (Some true); DeleteClicked; BodyRead 3 (Some (NoteBody note_b)); ConfirmClicked] in
  last (log p) = Some (Fetch 4 (DeleteNote_ (js "B"))).
Proof. by vm_compute. Qed.

(** The author of an update is put in the toast as HTML. *)
Lemma toast_injects :
  let bad := js "<img src=x onerror=alert(1)>" in
  ∀ now t p, is_current (js "A") p = true → bad ≠ author p →
    toasts (handleRemoteUpdate now (js "A") t bad p) = toasts p ++ [js "Note updated by " ++ bad].
Proof.
  intros bad now t p Hc Ha. unfold handleRemoteUpdate. rewrite bool_decide_eq_false_2 by done. cbv zeta.
  match goal with |- context [is_current ?i ?q] => assert (is_current i q = true) as -> by exact Hc end. done.
Qed.

(** ** The requests of the page on the notepad server *)

(** [fetch("/api/notes/...", { method, body })] as the server receives it *)
Definition to_request (r : api_request) : request :=
  let item id := js "/api/notes/" ++ id in
  match r with
  | GetNotes => Request (js "GET") (js "/api/notes") None
  | PostNote => Request (js "POST") (js "/api/notes") None
  | GetNote id => Request (js "GET") (item id) None
  | PutNote id t b a =>
      Request (js "PUT") (item id)
        (JSON_parse (stringify (JObj [(js "title", JStr t); (js "body", JStr b); (js "author", JStr a)])))
  | PostLock id => Request (js "POST") (item id ++ js "/lock") None
  | DeleteNote_ id => Request (js "DELETE") (item id) None
  | PostSave => Request (js "POST") (js "/api/save") None
  end.

Section OnServer.
Context {E : ErrorTexts} {UD : UnicodeData} {O : Others}.

(** A path of a note: the identifier is one segment. *)
Definition segment (id : jsstr) : Prop := id ≠ [] ∧ no_slash id = true.

Lemma item_path_ne id t : segment id → len t ≤ 11 → js "/api/notes/" ++ id ≠ t.
Proof.
  intros [Hid _] Ht H. apply (f_equal len) in H. rewrite len_app in H. change (len (js "/api/notes/")) with 11 in H.
  destruct id; [done|]. rewrite len_cons in H. pose proof (len_nonneg id). lia.
Qed.

Lemma match_item_segment id : segment id → match_item (js "/api/notes/") (js "/api/notes/" ++ id) = Some id.
Proof.
  intros [Hid Hs]. unfold match_item. change (strip_prefix (js "/api/notes/") (js "/api/notes/" ++ id)) with (Some id).
  cbn [mbind option_bind]. by rewrite bool_decide_eq_true_2, Hs.
Qed.

(** Reading and saving a note reach the handlers of the note. *)
Lemma route_get newId now id : segment id → fetch newId now (to_request (GetNote id)) = get_note id.
Proof.
  intros Hid. unfold fetch, to_request. cbn [method pathname]. rewrite match_item_segment by done.
  rewrite !(bool_decide_eq_false_2 (js "/api/notes/" ++ id = _)) by by apply item_path_ne.
  reflexivity.
Qed.
Lemma route_put newId now id t b a : segment id →
  fetch newId now (to_request (PutNote id t b a)) = update_note id now (to_request (PutNote id t b a)).
Proof.
  intros Hid. unfold fetch. cbn [to_request method pathname]. rewrite match_item_segment by done.
  rewrite !(bool_decide_eq_false_2 (js "/api/notes/" ++ id = _)) by by apply item_path_ne.
  reflexivity.
Qed.

Lemma find_in_elem i field x l j v : find_in i field x l = Ok (Some (j, v)) → v ∈ l.
Proof.
  revert i. induction l as [|e l IH]; intros i; [done|]. cbn [find_in]. destruct (field_is field x e) as [[]|]; cbn; [|..|done].
  - intros [= _ ->]. by left.
  - intros H%IH. by right.
Qed.

Lemma assign_ok v k x v' : json_ok v → Forall is_unit k → json_ok x → assign v k (Some x) = Ok v' → json_ok v' ∧ container v'.
Proof. intros Hv Hk Hx. destruct v; cbn; try done. intros [= <-]. by split; [apply set_field_ok|]. Qed.

(** The changes to an entry of the list *)
Definition changes_ok (changes : list (jsstr * option json)) : Prop :=
  Forall (λ c, Forall is_unit c.1 ∧ ∃ x, c.2 = Some x ∧ json_ok x) changes.

Lemma assigns_ok changes v v' : json_ok v → changes_ok changes →
  foldl (λ r c, item ← r; assign item c.1 c.2) (Ok v) changes = Ok v' → json_ok v'.
Proof.
  intros Hv Hc. revert v Hv. induction Hc as [|[k o] changes (Hk & x & Hx & Hxo) _ IH]; intros v Hv; cbn.
  { by intros [= <-]. }
  cbn in Hx. subst o. destruct (assign v k (Some x)) as [v1|e] eqn:Ea.
  - destruct (assign_ok v k x v1 Hv Hk Hxo Ea) as [Hv1 _]. by apply IH.
  - clear. induction changes as [|c changes IH]; cbn; [done|exact IH].
Qed.

Lemma exec_touch_index id changes l d s : notes_are l s → changes_ok changes →
  ∃ r s', exec serve (touch_index id changes) d s = (r, d, s') ∧ ∀ k, k ≠ index_key → s' !! k = s !! k.
Proof.
  intros (Hl & Hj & Hw) Hc. unfold touch_index, getIndex. rewrite exec_bind, exec_get_index by apply index_key_account.
  rewrite Hl, exec_bind, exec_of_res.
  destruct (index_find (JArr l) (js "id") id) as [[[i item]|]|e] eqn:Ef; [|by eexists _, _..].
  rewrite exec_bind, exec_of_res.
  destruct (foldl _ (Ok item) changes) as [item'|e] eqn:Ei; [|by eexists _, _].
  assert (json_ok (JArr (<[i := item']> l))) as Hj'.
  { constructor. inversion Hj as [| | | |? Hf|]; subst. apply Forall_insert; [done|].
    eapply assigns_ok; [|exact Hc|exact Ei]. cbn in Ef. apply find_in_elem in Ef. rewrite Forall_forall in Hf. by apply Hf. }
  unfold saveIndex. cbn [index_update]. rewrite exec_save_index; [|apply index_key_account|exact Hj'|done|exact Hw].
  eexists _, _. split; [done|]. intros k Hk. by rewrite lookup_insert_ne.
Qed.

(** The fields of a note after an update *)
Definition updated_fields (fs : list (jsstr * json)) (t b a now : jsstr) : list (jsstr * json) :=
  set_field (set_field (set_field (set_field fs (js "title", JStr t)) (js "body", JStr b))
    (js "author", JStr a)) (js "updatedAt", JStr now).

Lemma updated_fields_ok fs t b a now : json_ok (JObj fs) → Forall is_unit t → Forall is_unit b → Forall is_unit a →
  Forall is_unit now → json_ok (JObj (updated_fields fs t b a now)).
Proof.
  intros. unfold updated_fields. repeat (apply set_field_ok; [|by repeat constructor|by constructor]). done.
Qed.

(** What the page sends is JSON the server parses back. *)
Lemma put_body t b a id : Forall is_unit t → Forall is_unit b → Forall is_unit a →
  to_request (PutNote id t b a) = Request (js "PUT") (js "/api/notes/" ++ id)
    (Some (JObj [(js "title", JStr t); (js "body", JStr b); (js "author", JStr a)])).
Proof.
  intros Ht Hb Ha. cbn [to_request]. rewrite parse_stringify; [done|].
  constructor; [apply (bool_decide_unpack (NoDup _)); by vm_compute|].
  repeat (apply Forall_cons; split; [split; [by repeat constructor|by constructor]|]). constructor.
Qed.

(** Membership of a field that was set before others *)
Ltac set_fields_tac :=
  unfold updated_fields;
  repeat (apply set_field_keeps; [by repeat apply set_field_nodup|by intros [=]|]);
  apply set_field_elem; [by repeat apply set_field_nodup|by left].

Lemma field_given v k x fs : prop v k = Ok (Some (JStr x)) →
  (given ← prop v k; old ← prop (JObj fs) k; Ok (coalesce given old)) = Ok (Some (JStr x)).
Proof. by intros ->. Qed.

(** C20: what the page saves is what is read back: when the server has served
    the page's save of an unlocked note, reading the note gives the title,
    the body and the author the page sent, with its other fields as they
    were. *)
Theorem saved_note_reads_back newId now id t b a fs lk l d s :
  no_space id → segment id → Forall is_unit t → Forall is_unit b → Forall is_unit a → Forall is_unit now →
  note_is id (JObj fs) s → prop (JObj fs) (js "locked") = Ok lk → truthy lk = false →
  is_worm s (note_key id) = false → notes_are l s →
  let s' := final serve (fetch newId now (to_request (PutNote id t b a))) d s in
  ∃ fs', (js "title", JStr t) ∈ fs' ∧ (js "body", JStr b) ∈ fs' ∧ (js "author", JStr a) ∈ fs' ∧
    (∀ f, f ∈ fs → f.1 ∉ [js "title"; js "body"; js "author"; js "updatedAt"] → f ∈ fs') ∧
    ∀ newId' now' d', exec serve (fetch newId' now' (to_request (GetNote id))) d' s' =
      (Ok (Response 200 (Json (with_id id (JObj fs')))), d', s').
Proof.
  intros Hid Hseg Ht Hb Ha Hnow (Hn & Hj & Hc) Hl Htr Hw Hidx. cbv zeta.
  destruct (note_key_account id Hid) as [Hk Hk'] eqn:Eacc. pose proof (updated_fields_ok fs t b a now Hj Ht Hb Ha Hnow) as Hj'.
  destruct (to_base64_storable (JObj fs) Hj I) as [[Hne _] _].
  destruct (to_base64_storable _ Hj' I) as [Hst1 Hst2].
  set (s1 := <[note_key id := Entry (to_base64 (JObj (updated_fields fs t b a now))) false]> s).
  assert (notes_are l s1) as Hidx1.
  { destruct Hidx as (I1 & I2 & I3). split_and!; [|done|].
    - rewrite <- I1. unfold stored_index, get, s1. by rewrite lookup_insert_ne by (symmetry; apply index_note_key).
    - unfold is_worm, s1. by rewrite lookup_insert_ne by (symmetry; apply index_note_key). }
  destruct (exec_touch_index id [(js "title", Some (JStr t)); (js "updatedAt", Some (JStr now)); (js "locked", Some (JBool false))]
    l d s1 Hidx1) as (r & s2 & Hr & Hs2).
  { repeat (apply Forall_cons; split; [split; [by repeat constructor|eexists; split; [done|by constructor]]|]). constructor. }
  assert (final serve (fetch newId now (to_request (PutNote id t b a))) d s = s2) as ->.
  { unfold final. rewrite route_put by done. rewrite put_body by done. unfold update_note, update_body, req_json.
    rewrite exec_catch, exec_bind, exec_of_res. cbn [WebApp.body].
    rewrite exec_bind, exec_send, serve_get_text by done. rewrite Hn.
    assert (bulk_value (bulk (to_base64 (JObj fs))) = Some (to_base64 (JObj fs))) as -> by by destruct (to_base64 (JObj fs)).
    rewrite exec_bind, exec_of_res, parse_document_base64 by done.
    rewrite exec_bind, exec_of_res, Hl, Htr.
    rewrite exec_bind, exec_of_res, (field_given _ _ t) by done.
    rewrite exec_bind, exec_of_res, (field_given _ _ b) by done.
    rewrite exec_bind, exec_of_res, (field_given _ _ a) by done.
    do 4 (rewrite exec_bind, exec_of_res; cbn [assign]). fold (updated_fields fs t b a now).
    rewrite exec_bind, exec_send, serve_put by done. fold s1. rewrite exec_bind, Hr.
    destruct r as [r|e]; [done|]. by destruct (says_WORM e). }
  exists (updated_fields fs t b a now). inversion Hj as [| | | | |? Hd _]; subst.
  split_and!; [..|intros newId' now' d'; rewrite route_get by done; apply exec_get_note; [done|]; split_and!; [|done|done]].
  - set_fields_tac.
  - set_fields_tac.
  - set_fields_tac.
  - intros [k x] Hin Hk2. cbn [fst] in Hk2. rewrite !not_elem_of_cons in Hk2. destruct Hk2 as (N1 & N2 & N3 & N4 & _).
    unfold updated_fields. repeat (apply set_field_keeps; [by repeat apply set_field_nodup|by apply not_eq_sym|]). done.
  - unfold get. rewrite Hs2 by (symmetry; apply index_note_key). unfold s1. by rewrite lookup_insert_eq.
Qed.
End OnServer.

Section Examples.
#[local] Existing Instance ascii_only.
#[local] Existing Instance no_others.
#[local] Existing Instance plain_errors.

Lemma one_note_listed : notes_are [index_entry (js "A1") (js "Untitled Note") noon] one_note.
Proof.
  split_and!; [by vm_compute| |by vm_compute]. constructor. constructor; [|constructor].
  apply index_entry_ok; by repeat constructor.
Qed.

Lemma saved_note_reads_back_witness :
  let s' := final serve (fetch [] noon (to_request (PutNote (js "A1") (js "T") (js "text") (js "Ann")))) quiet one_note in
  ∃ fs', (js "title", JStr (js "T")) ∈ fs' ∧ (js "body", JStr (js "text")) ∈ fs' ∧
    ∀ d', exec serve (fetch [] noon (to_request (GetNote (js "A1")))) d' s' =
      (Ok (Response 200 (Json (with_id (js "A1") (JObj fs')))), d', s').
Proof.
  destruct (saved_note_reads_back [] noon (js "A1") (js "T") (js "text") (js "Ann") (new_note noon) (Some (JBool false))
    [index_entry (js "A1") (js "Untitled Note") noon] quiet one_note) as (fs' & H1 & H2 & _ & _ & H3);
    [by repeat constructor|done|by repeat constructor|by repeat constructor|by repeat constructor|by repeat constructor
    |exact one_note_is|by vm_compute|done|by vm_compute|exact one_note_listed|].
  exists fs'. split; [exact H1|split; [exact H2|intros d'; exact (H3 [] noon d')]].
Defined.
End Examples.

(** ** The layout on small screens and the status line *)

Inductive mview := EditorView | PreviewView.
#[export] Instance mview_eq_dec : EqDecision mview.
Proof. solve_decision. Defined.

(** [dataView] is the attribute of the workspace. *)
Record layout := Layout { mobileView : mview; dataView : option mview; editorTab : bool; previewTab : bool; toggleShown : bool }.

Definition setMobileView (v : mview) (l : layout) : layout :=
  Layout v (Some v) (bool_decide (v = EditorView)) (bool_decide (v = PreviewView)) (toggleShown l).

Definition syncResponsiveLayout (innerWidth : Z) (l : layout) : layout :=
  let isMobile := innerWidth <=? 900 in
  let l := Layout (mobileView l) (dataView l) (editorTab l) (previewTab l) isMobile in
  if isMobile then setMobileView (mobileView l) l
  else Layout (mobileView l) None (editorTab l) (previewTab l) (toggleShown l).

(** The choice of a view survives a resize, and shows again when the screen
    is small. *)
Lemma layout_kept w w' v l :
  mobileView (syncResponsiveLayout w (setMobileView v l)) = v ∧
  (w' ≤ 900 → dataView (syncResponsiveLayout w' (syncResponsiveLayout w (setMobileView v l))) = Some v).
Proof.
  unfold syncResponsiveLayout. destruct (Z.leb_spec w 900); (split; [done|]); intros Hw;
    destruct (Z.leb_spec w' 900); done || lia.
Qed.

(** The status line: the size is left as the server wrote it. *)
Record status_line := StatusLine { statKeys : jsstr; statWal : option jsstr; statUptime : jsstr }.
Definition given (kv : gmap jsstr jsstr) (k : string) : option jsstr :=
  match kv !! js k with Some ((_ :: _) as v) => Some v | _ => None end.
Definition on_status (value : jsstr) : status_line :=
  let kv := parseKV value in
  StatusLine (default (js "0") (given kv "keys")) (given kv "wal_size")
    (match given kv "uptime_in_seconds" with Some u => u ++ js "s" | None => js "-" end).

(** ** The preview, with the Markdown renderer and the browser's HTML *)

Section Preview.
Context {UD : UnicodeData} (marked : option (jsstr → jsstr)) (purify : option (jsstr → jsstr)).
Context (parse_html : jsstr → list dom) (print_html : list dom → jsstr).

Definition markedParse (t : jsstr) : jsstr := match marked with Some f => f t | None => escapeHTML t end.
Definition sanitizeHtml (html : jsstr) : jsstr :=
  match purify with Some f => f html | None => print_html (sanitize (parse_html html)) end.
Definition preview_dom (md : jsstr) : list dom := hardenPreviewLinks <$> parse_html (sanitizeHtml (markedParse md)).

(** Without the libraries a note is shown as its text, whatever it contains. *)
Lemma preview_plain md : marked = None → purify = None →
  parse_html (escapeHTML md) = [Text md] → parse_html (print_html [Text md]) = [Text md] → preview_dom md = [Text md].
Proof. intros Hm Hp H1 H2. unfold preview_dom, sanitizeHtml, markedParse. rewrite Hm, Hp, H1. change (sanitize [Text md]) with [Text md]. by rewrite H2. Qed.
End Preview.
