(* ===== verification/Uri.v ===== *)
(** * [encodeURIComponent], against the server's [decodeURIComponent]

    What the explorer page puts in its paths ([explorer/app.ts]) and how the
    explorer server reads it back: an encoded key is one segment of the path
    and decodes to the key. *)
From S2P Require Import Prelude Utf8 JsText Number Json WebApp Explorer.
#[local] Open Scope Z_scope.

Definition hex_upper (d : Z) : Z := if d <? 10 then 48 + d else 55 + d.
Definition escape_byte (b : Z) : jsstr := [37; hex_upper (b / 16); hex_upper (b mod 16)].

(** Letters, digits and the marks of the standard *)
Definition unreserved (c : Z) : bool :=
  is_digit c || (65 <=? c) && (c <=? 90) || (97 <=? c) && (c <=? 122) ||
  bool_decide (c ∈ [45; 95; 46; 33; 126; 42; 39; 40; 41]).

Definition encode_uri_cp (c : Z) : jsstr :=
  if unreserved c then [c] else encode_cp c ≫= escape_byte.

(** A lone surrogate makes it throw. *)
Definition encodeURIComponent (s : jsstr) : res jsstr :=
  if well_formed s then Ok (code_points s ≫= encode_uri_cp) else Throw (Error (js "URI malformed")).

(** ** Facts *)

Lemma hex_upper_value d : 0 ≤ d < 16 → hex_value (hex_upper d) = Some d.
Proof. intros H. unfold hex_upper, hex_value, is_digit. repeat (case_ztest; try lia; cbn [andb]); f_equal; lia. Qed.

Lemma escaped_byte b r : is_byte b → escaped (escape_byte b ++ r) = Some (b, r).
Proof.
  intros Hb. unfold is_byte in Hb. unfold escape_byte, escaped. cbn [app]. rewrite Z.eqb_refl.
  rewrite !hex_upper_value by zdivmod. cbn. do 2 f_equal. zdivmod.
Qed.

Lemma continuation_byte n cp b r : 128 ≤ b < 192 →
  continuation (S n) cp (escape_byte b ++ r) = continuation n (cp * 64 + (b - 128)) r.
Proof.
  intros Hb. cbn [continuation]. rewrite escaped_byte by (unfold is_byte; lia). cbn.
  by rewrite (proj2 (Z.leb_le 128 b)), (proj2 (Z.ltb_lt b 192)) by lia.
Qed.

Lemma unreserved_ascii c : unreserved c = true → 0 ≤ c < 128 ∧ c ≠ 37 ∧ c ≠ 47.
Proof.
  unfold unreserved, is_digit. rewrite !orb_true_iff, !andb_true_iff, !Z.leb_le, bool_decide_eq_true.
  rewrite !elem_of_cons, elem_of_nil. lia.
Qed.

(** The escapes of a scalar value are read back, whatever follows. *)
Lemma escaped_cp_bytes c r : is_scalar c →
  escaped_cp ((encode_cp c ≫= escape_byte) ++ r) = Some (c, r).
Proof.
  intros Hc. unfold is_scalar in Hc. unfold encode_cp, escaped_cp.
  repeat case_ztest; cbn [mbind list_bind]; rewrite ?app_nil_r, <- ?app_assoc; rewrite escaped_byte by (unfold is_byte; zdivmod); cbn [mbind option_bind].
  - by rewrite (proj2 (Z.ltb_lt _ _)) by lia.
  - rewrite (proj2 (Z.ltb_ge _ 128)), (proj2 (Z.leb_le 192 _)), (proj2 (Z.ltb_lt _ 224)) by zdivmod. cbn [andb].
    rewrite continuation_byte by zdivmod. cbn [continuation mbind option_bind].
    replace ((192 + c / 64 - 192) * 64 + (128 + c mod 64 - 128)) with c by zdivmod.
    by rewrite (proj2 (Z.leb_le 128 c)) by lia.
  - rewrite (proj2 (Z.ltb_ge _ 128)), (proj2 (Z.ltb_ge _ 224)), andb_false_r, (proj2 (Z.leb_le 224 _)), (proj2 (Z.ltb_lt _ 240)) by zdivmod. cbn [andb].
    rewrite !continuation_byte by zdivmod. cbn [continuation mbind option_bind].
    replace (((224 + c / 4096 - 224) * 64 + (128 + c / 64 mod 64 - 128)) * 64 + (128 + c mod 64 - 128)) with c by zdivmod.
    rewrite (proj2 (Z.leb_le 2048 c)) by lia. cbn [andb].
    by replace ((0xD800 <=? c) && (c <=? 0xDFFF)) with false by (repeat case_ztest; cbn; lia).
  - rewrite (proj2 (Z.ltb_ge _ 128)), (proj2 (Z.ltb_ge _ 224)), andb_false_r, (proj2 (Z.ltb_ge _ 240)), andb_false_r,
      (proj2 (Z.leb_le 240 _)), (proj2 (Z.ltb_lt _ 248)) by zdivmod. cbn [andb].
    rewrite !continuation_byte by zdivmod. cbn [continuation mbind option_bind].
    replace ((((240 + c / 262144 - 240) * 64 + (128 + c / 4096 mod 64 - 128)) * 64 + (128 + c / 64 mod 64 - 128)) * 64 +
      (128 + c mod 64 - 128)) with c by zdivmod.
    by rewrite (proj2 (Z.leb_le 65536 c)), (proj2 (Z.ltb_lt c _)) by lia.
Qed.

Lemma encode_uri_cp_head c : ∃ r, encode_cp c ≫= escape_byte = 37 :: r.
Proof. unfold encode_cp. repeat case_ztest; by eexists. Qed.

Lemma decode_uri_encode n cps : Forall is_scalar cps →
  (length (cps ≫= encode_uri_cp) ≤ n)%nat → decode_uri n (cps ≫= encode_uri_cp) = Some (units cps).
Proof.
  intros Hc. revert n. induction Hc as [|c cps Hc _ IH]; intros n Hn; [by destruct n|].
  rewrite bind_cons, length_app in Hn. rewrite bind_cons, units_cons.
  unfold encode_uri_cp at 1 in Hn. unfold encode_uri_cp at 1. destruct (unreserved c) eqn:Eu.
  - destruct (unreserved_ascii c Eu) as (Hr & Hne & _). destruct n as [|n]; [cbn in Hn; lia|]. cbn [app decode_uri].
    rewrite (proj2 (Z.eqb_neq c 37)) by done. rewrite IH by (cbn in Hn; lia). cbn.
    by rewrite units_single by (unfold is_unit; lia).
  - destruct (encode_uri_cp_head c) as [r Er]. pose proof (escaped_cp_bytes c (cps ≫= encode_uri_cp) Hc) as Hx.
    rewrite Er in *. destruct n as [|n]; [cbn in Hn; lia|]. cbn [app decode_uri] in *. rewrite Z.eqb_refl.
    rewrite Hx. cbn [mbind option_bind]. rewrite IH; [done|]. cbn in Hn. lia.
Qed.

(** What is encoded is decoded to itself. *)
Lemma decode_encode_uri s t : encodeURIComponent s = Ok t → decodeURIComponent t = Ok s.
Proof.
  unfold encodeURIComponent. destruct (well_formed s) eqn:Hw; [|done]. intros [= <-]. unfold decodeURIComponent.
  rewrite decode_uri_encode by (done || by apply code_points_scalar, well_formed_units).
  by rewrite units_code_points.
Qed.

Lemma hex_upper_range d : 0 ≤ d < 16 → 48 ≤ hex_upper d < 71.
Proof. unfold hex_upper. case_ztest; lia. Qed.

Lemma escape_byte_range b : is_byte b → Forall (λ x, x = 37 ∨ 48 ≤ x < 71) (escape_byte b).
Proof.
  unfold is_byte, escape_byte. intros Hb. repeat (apply Forall_cons; split); [by left|right..|constructor];
    apply hex_upper_range; zdivmod.
Qed.

(** An encoded text is one segment of a path, without a slash. *)
Lemma encoded_segment s t : encodeURIComponent s = Ok t → s ≠ [] → t ≠ [] ∧ no_slash t = true.
Proof.
  unfold encodeURIComponent. destruct (well_formed s) eqn:Hw; [|done]. intros [= <-] Hs.
  pose proof (code_points_scalar s (well_formed_units s Hw)) as Hc. split.
  - destruct s as [|x s]; [done|]. intros E. pose proof (units_code_points (x :: s) Hw) as Hu.
    destruct (code_points (x :: s)) as [|c cps]; [done|]. rewrite bind_cons in E. apply app_nil in E as [E _].
    unfold encode_uri_cp in E. destruct (unreserved c); [done|].
    destruct (encode_uri_cp_head c) as [r Er]. by rewrite Er in E.
  - unfold no_slash. apply forallb_forall. intros x Hx%list_elem_of_In. apply list_elem_of_bind in Hx as (c & Hx & Hin).
    rewrite Forall_forall in Hc. specialize (Hc c Hin). unfold encode_uri_cp in Hx. destruct (unreserved c) eqn:Eu.
    + apply list_elem_of_singleton in Hx as ->. destruct (unreserved_ascii c Eu) as (_ & _ & H). by apply negb_true_iff, Z.eqb_neq.
    + apply list_elem_of_bind in Hx as (b & Hx & Hb). pose proof (encode_cp_bytes c Hc) as Hbs.
      rewrite Forall_forall in Hbs. pose proof (escape_byte_range b (Hbs b Hb)) as Hr. rewrite Forall_forall in Hr.
      specialize (Hr x Hx). cbn in Hr. apply negb_true_iff, Z.eqb_neq. lia.
Qed.
