(* ===== verification/ExplorerPage.v ===== *)
(** * The explorer page ([apps/bun/src/explorer/app.ts])

    The page as a state machine, as [NotepadPage] does it: the user's
    actions, the answers to the requests (a response and its body are two
    events), timers and WebSocket messages in any order.  Answers have the
    type the code gives them.  A key that is empty counts as none, as it does
    in the code.  Clocks, dates and sizes are left as they are received. *)
From Stdlib Require Import QArith.
From S2P Require Import Prelude Utf8 JsText Number Command Protocol Json Prog WebApp Html PageLink PageTimers Uri.
From S2P Require KvServer Explorer.
#[local] Open Scope Z_scope.

Record KeyEntry := Entry { key : jsstr; locked : bool }.
Record KeyMeta := Meta { created : jsstr; updated : jsstr; writes : Z; reads : Z }.

Inductive api_request :=
| GetKeys | PostKey (key value : jsstr) | GetKey (key : jsstr) | PutKey (key value : jsstr)
| PostLock (key : jsstr) | DeleteKey_ (key : jsstr).

(** A call keeps what its closure holds. *)
Inductive call := LoadKeys | AddKey (key : jsstr) | SelectKey (key : jsstr) | SaveValue | LockKey | DeleteKey.
Inductive stage := AwaitResponse (c : call) | AwaitBody (c : call) | AwaitText.
Inductive timer := SaveTimer | HideSaved.
Inductive confirmation := ConfirmLock | ConfirmDelete.

(** [Failure m]: rejected with an error whose message is [m] *)
Inductive answer := Failure (m : jsstr) | Answered (ok : bool).
Inductive body :=
| BadBody (m : jsstr) | KeysBody (l : list KeyEntry) | TextBody (t : jsstr)
| KeyBody (value : option jsstr) (locked : option bool) (meta : option KeyMeta).

#[export] Instance timer_eq_dec : EqDecision timer.
Proof. solve_decision. Defined.

Record row := Row { r_key : jsstr; r_icon : jsstr; r_name : jsstr; r_locked : bool; r_active : bool }.
Record detail := Detail { shown : bool; d_key : jsstr; editor : jsstr; e_disabled : bool; d_badge : bool;
  d_lockDisabled : bool; d_deleteDisabled : bool; d_meta : option KeyMeta }.
Record indicator := Indicator { visible : bool; saving : bool; saved : bool }.
Record dialog := Dialog { c_active : bool; c_callback : option confirmation; c_installed : bool;
  a_active : bool; newKey : jsstr; newValue : jsstr }.

Record page := Page {
  keys : list KeyEntry; currentKey : option jsstr; currentValue : jsstr; currentMeta : option KeyMeta; currentLocked : bool;
  saveTimeout : option nat; isSaving : bool; filter_ : jsstr;
  rows : list row; keyCount : jsstr; det : detail; ind : indicator; dlg : dialog; toasts : list jsstr; procLog : list (jsstr * jsstr);
  timers : list (nat * timer); inflight : list (nat * stage); p_made : nat; log : list (nat * api_request); lnk : link }.

Definition set_keys x p := Page x (currentKey p) (currentValue p) (currentMeta p) (currentLocked p) (saveTimeout p) (isSaving p) (filter_ p) (rows p) (keyCount p) (det p) (ind p) (dlg p) (toasts p) (procLog p) (timers p) (inflight p) (p_made p) (log p) (lnk p).
Definition set_current k v m l p := Page (keys p) k v m l (saveTimeout p) (isSaving p) (filter_ p) (rows p) (keyCount p) (det p) (ind p) (dlg p) (toasts p) (procLog p) (timers p) (inflight p) (p_made p) (log p) (lnk p).
Definition set_key k p := set_current k (currentValue p) (currentMeta p) (currentLocked p) p.
Definition set_timers t l n p := Page (keys p) (currentKey p) (currentValue p) (currentMeta p) (currentLocked p) t (isSaving p) (filter_ p) (rows p) (keyCount p) (det p) (ind p) (dlg p) (toasts p) (procLog p) l (inflight p) n (log p) (lnk p).
Definition set_saving b i p := Page (keys p) (currentKey p) (currentValue p) (currentMeta p) (currentLocked p) (saveTimeout p) b (filter_ p) (rows p) (keyCount p) (det p) i (dlg p) (toasts p) (procLog p) (timers p) (inflight p) (p_made p) (log p) (lnk p).
Definition set_filter x p := Page (keys p) (currentKey p) (currentValue p) (currentMeta p) (currentLocked p) (saveTimeout p) (isSaving p) x (rows p) (keyCount p) (det p) (ind p) (dlg p) (toasts p) (procLog p) (timers p) (inflight p) (p_made p) (log p) (lnk p).
Definition set_rows x p := Page (keys p) (currentKey p) (currentValue p) (currentMeta p) (currentLocked p) (saveTimeout p) (isSaving p) (filter_ p) x (keyCount p) (det p) (ind p) (dlg p) (toasts p) (procLog p) (timers p) (inflight p) (p_made p) (log p) (lnk p).
Definition set_count x p := Page (keys p) (currentKey p) (currentValue p) (currentMeta p) (currentLocked p) (saveTimeout p) (isSaving p) (filter_ p) (rows p) x (det p) (ind p) (dlg p) (toasts p) (procLog p) (timers p) (inflight p) (p_made p) (log p) (lnk p).
Definition set_det x p := Page (keys p) (currentKey p) (currentValue p) (currentMeta p) (currentLocked p) (saveTimeout p) (isSaving p) (filter_ p) (rows p) (keyCount p) x (ind p) (dlg p) (toasts p) (procLog p) (timers p) (inflight p) (p_made p) (log p) (lnk p).
Definition set_dlg x p := Page (keys p) (currentKey p) (currentValue p) (currentMeta p) (currentLocked p) (saveTimeout p) (isSaving p) (filter_ p) (rows p) (keyCount p) (det p) (ind p) x (toasts p) (procLog p) (timers p) (inflight p) (p_made p) (log p) (lnk p).
Definition add_toast x p := Page (keys p) (currentKey p) (currentValue p) (currentMeta p) (currentLocked p) (saveTimeout p) (isSaving p) (filter_ p) (rows p) (keyCount p) (det p) (ind p) (dlg p) (toasts p ++ [x]) (procLog p) (timers p) (inflight p) (p_made p) (log p) (lnk p).
Definition set_proc x p := Page (keys p) (currentKey p) (currentValue p) (currentMeta p) (currentLocked p) (saveTimeout p) (isSaving p) (filter_ p) (rows p) (keyCount p) (det p) (ind p) (dlg p) (toasts p) x (timers p) (inflight p) (p_made p) (log p) (lnk p).
Definition set_calls l n g p := Page (keys p) (currentKey p) (currentValue p) (currentMeta p) (currentLocked p) (saveTimeout p) (isSaving p) (filter_ p) (rows p) (keyCount p) (det p) (ind p) (dlg p) (toasts p) (procLog p) (timers p) l n g (lnk p).
Definition set_link x p := Page (keys p) (currentKey p) (currentValue p) (currentMeta p) (currentLocked p) (saveTimeout p) (isSaving p) (filter_ p) (rows p) (keyCount p) (det p) (ind p) (dlg p) (toasts p) (procLog p) (timers p) (inflight p) (p_made p) (log p) x.

(** [!state.currentKey] is false *)
Definition chosen (p : page) : option jsstr :=
  match currentKey p with Some ((_ :: _) as k) => Some k | _ => None end.
(** The key in a template literal or a path *)
Definition key_text (p : page) : jsstr := default (js "null") (currentKey p).

Section Page_.
Context {UD : UnicodeData}.

(** ** Drawing *)

Definition matches (f : jsstr) (k : KeyEntry) : bool := bool_decide (f = []) || includes (toLowerCase (key k)) f.

Definition row_of (p : page) (k : KeyEntry) : row :=
  Row (key k) (escapeHTML (toUpperCase (take 1 (key k)))) (escapeHTML (key k)) (locked k) (bool_decide (currentKey p = Some (key k))).
Definition renderKeyList (p : page) : page :=
  set_rows (row_of p <$> base.filter (λ k, matches (filter_ p) k = true) (keys p)) p.

Definition renderMeta (p : page) : page :=
  let d := det p in
  set_det (Detail (shown d) (d_key d) (editor d) (e_disabled d) (d_badge d) (d_lockDisabled d) (d_deleteDisabled d) (currentMeta p)) p.

Definition renderDetail (p : page) : page :=
  match chosen p with
  | None =>
      let d := det p in
      set_det (Detail false (d_key d) (editor d) (e_disabled d) (d_badge d) (d_lockDisabled d) (d_deleteDisabled d) (d_meta d)) p
  | Some k =>
      let l := currentLocked p in
      renderMeta (set_det (Detail true k (currentValue p) l l l l (d_meta (det p))) p)
  end.

Definition updateKeyCount (p : page) : page := set_count (show (len (keys p))) p.

(** Messages are escaped. *)
Definition showToast (msg : jsstr) (p : page) : page := add_toast (escapeHTML msg) p.

(** The log keeps its last fifty entries. *)
Definition logProcCall (cmd result : jsstr) (p : page) : page :=
  let l := procLog p ++ [(escapeHTML cmd, escapeHTML ([0x2192; 32] ++ result))] in
  set_proc (drop (length l - 50) l) p.

(** ** Calls *)

Definition fetch_ (r : api_request) (c : call) (p : page) : page :=
  set_calls (inflight p ++ [(p_made p, AwaitResponse c)]) (S (p_made p)) (log p ++ [(p_made p, r)]) p.
Definition clearTimeout (h : option nat) (p : page) : list (nat * timer) :=
  clear h (timers p).

(** The [catch] of a call, [m] the message of the error *)
Definition failed (c : call) (m : jsstr) (p : page) : page :=
  match c with
  | LoadKeys => showToast (js "Error loading keys") p
  | AddKey _ => showToast (match m with [] => js "Failed to create key" | _ => m end) p
  | SelectKey _ => showToast (js "Error loading key") p
  | SaveValue => set_saving false (Indicator (visible (ind p)) false false) (showToast (js "Save failed") p)
  | LockKey => showToast (js "Failed to lock key") p
  | DeleteKey => showToast (js "Cannot delete " ++ [0x2014] ++ js " key may be WORM-locked") p
  end.

(** [encodeURIComponent] throws on a lone surrogate, within the [try]. *)
Definition fetch_key (k : jsstr) (r : api_request) (c : call) (p : page) : page :=
  if well_formed k then fetch_ r c p else failed c [] p.

Definition loadKeys (p : page) : page := fetch_ GetKeys LoadKeys p.
Definition selectKey (k : jsstr) (p : page) : page := fetch_key k (GetKey k) (SelectKey k) (set_key (Some k) p).

Definition saveCurrentValue (p : page) : page :=
  match chosen p with
  | None => p
  | Some k => fetch_key k (PutKey k (currentValue p)) SaveValue (set_saving true (ind p) p)
  end.

Definition handleValueChange (p : page) : page :=
  match chosen p with
  | None => p
  | Some k =>
      if currentLocked p then p else
      let p := set_current (currentKey p) (editor (det p)) (currentMeta p) (currentLocked p) p in
      let p := set_saving (isSaving p) (Indicator true true false) p in
      set_timers (Some (p_made p)) (clearTimeout (saveTimeout p) p ++ [(p_made p, SaveTimer)]) (S (p_made p)) p
  end.

Definition closeDialog (p : page) : page :=
  let d := dlg p in set_dlg (Dialog false None (c_installed d) (a_active d) (newKey d) (newValue d)) p.
Definition openAddDialog (p : page) : page :=
  let d := dlg p in set_dlg (Dialog (c_active d) (c_callback d) (c_installed d) true [] []) p.
Definition closeAddDialog (p : page) : page :=
  let d := dlg p in set_dlg (Dialog (c_active d) (c_callback d) (c_installed d) false (newKey d) (newValue d)) p.

Definition handleAddKey (p : page) : page :=
  let k := trim (newKey (dlg p)) in
  if bool_decide (k = []) then showToast (js "Key cannot be empty") p
  else fetch_ (PostKey k (newValue (dlg p))) (AddKey k) p.

Definition has_key (k : jsstr) (p : page) : bool := bool_decide (k ∈ key <$> keys p).

Definition added (k : jsstr) (p : page) : page :=
  let p := closeAddDialog (logProcCall (js "EXEC kv_put " ++ k ++ js " <value>") (js "OK") p) in
  let p := if has_key k p then p else set_keys (Entry k false :: keys p) p in
  showToast (js "Key " ++ [34] ++ k ++ [34] ++ js " created") (selectKey k (updateKeyCount (renderKeyList p))).

Definition loaded (k : jsstr) (value : option jsstr) (l : option bool) (m : option KeyMeta) (p : page) : page :=
  let p := set_current (currentKey p) (default [] value) m (default false l) p in
  let shown := match value with Some ((_ :: _) as v) => [34] ++ truncate v 40 ++ [34] | _ => js "null" end in
  renderDetail (renderKeyList (logProcCall (js "EXEC kv_get " ++ k) shown p)).

Definition save_done (m : option KeyMeta) (p : page) : page :=
  let p := match m with
           | Some _ => renderMeta (set_current (currentKey p) (currentValue p) m (currentLocked p) p)
           | None => p
           end in
  let p := set_saving false (Indicator (visible (ind p)) false true) p in
  set_timers (saveTimeout p) (timers p ++ [(p_made p, HideSaved)]) (S (p_made p)) p.

(** The first entry with the key, locked *)
Fixpoint lock_first (k : jsstr) (l : list KeyEntry) : list KeyEntry :=
  match l with
  | [] => []
  | e :: l => if bool_decide (key e = k) then Entry k true :: l else e :: lock_first k l
  end.
Definition lock_entry (k : option jsstr) (p : page) : page :=
  match k with Some k => set_keys (lock_first k (keys p)) p | None => p end.

Definition lock_done (p : page) : page :=
  let p := set_current (currentKey p) (currentValue p) (currentMeta p) true p in
  let p := renderKeyList (renderDetail (lock_entry (currentKey p) p)) in
  showToast ([34] ++ key_text p ++ [34] ++ js " is now WORM-locked") p.

(** [k.key !== state.currentKey] *)
Definition without (k : option jsstr) (l : list KeyEntry) : list KeyEntry :=
  base.filter (λ e, Some (key e) ≠ k) l.

Definition delete_done (p : page) : page :=
  let p := set_keys (without (currentKey p) (keys p)) p in
  let p := set_current None (currentValue p) None (currentLocked p) p in
  showToast (js "Key deleted") (updateKeyCount (renderDetail (renderKeyList p))).

Definition settle (h : nat) (p : page) : page :=
  set_calls (base.filter (λ c : nat * stage, c.1 ≠ h) (inflight p)) (p_made p) (log p) p.
Definition await (h : nat) (s : stage) (p : page) : page := set_calls (inflight p ++ [(h, s)]) (p_made p) (log p) p.

Definition responded (h : nat) (c : call) (r : answer) (p : page) : page :=
  let p := settle h p in
  match r with
  | Failure m => failed c m p
  | Answered false => match c with AddKey _ => await h AwaitText p | _ => failed c [] p end
  | Answered true =>
      match c with
      | LockKey => lock_done p
      | DeleteKey => delete_done p
      | SaveValue => await h (AwaitBody c) (logProcCall (js "EXEC kv_put " ++ key_text p ++ js " <value>") (js "OK") p)
      | _ => await h (AwaitBody c) p
      end
  end.

Definition body_read (h : nat) (c : call) (b : body) (p : page) : page :=
  let p := settle h p in
  match c, b with
  | c, BadBody m => failed c m p
  | LoadKeys, KeysBody l => updateKeyCount (renderKeyList (set_keys l p))
  | AddKey k, _ => added k p
  | SelectKey k, KeyBody v l m => loaded k v l m p
  | SaveValue, KeyBody _ _ m => save_done m p
  | c, _ => failed c [] p
  end.

(** ** Dialogs *)

Definition showDialog (cb : confirmation) (p : page) : page :=
  let d := dlg p in set_dlg (Dialog true (Some cb) true (a_active d) (newKey d) (newValue d)) p.
Definition confirmWormLock (p : page) : page := if chosen p then showDialog ConfirmLock p else p.
Definition confirmDelete (p : page) : page := if chosen p then showDialog ConfirmDelete p else p.

(** [encodeURIComponent(null)] is the text [null]. *)
Definition confirmed (cb : confirmation) (p : page) : page :=
  match cb with
  | ConfirmLock => fetch_key (key_text p) (PostLock (key_text p)) LockKey p
  | ConfirmDelete => fetch_key (key_text p) (DeleteKey_ (key_text p)) DeleteKey p
  end.
Definition on_confirm (p : page) : page :=
  if c_installed (dlg p) then
    match c_callback (dlg p) with Some cb => confirmed cb (closeDialog p) | None => closeDialog p end
  else p.

(** ** Messages *)

Inductive message := Updated (k : jsstr) | Deleted (k : jsstr) | Locked (k : jsstr).

Definition text_field (v : json) (k : string) : option jsstr :=
  match prop v (js k) with Ok (Some (JStr s)) => Some s | _ => None end.

Definition read_message (data : jsstr) : option message :=
  v ← JSON_parse data;
  type ← text_field v "type";
  k ← text_field v "key";
  if bool_decide (type = js "kv:updated") then Some (Updated k)
  else if bool_decide (type = js "kv:deleted") then Some (Deleted k)
  else if bool_decide (type = js "kv:locked") then Some (Locked k)
  else None.

Definition handleRemoteUpdate (k : jsstr) (p : page) : page :=
  let p := if has_key k p then p else updateKeyCount (renderKeyList (set_keys (Entry k false :: keys p) p)) in
  if bool_decide (currentKey p = Some k) then selectKey k p else p.

Definition handleRemoteDelete (k : jsstr) (p : page) : page :=
  let p := updateKeyCount (renderKeyList (set_keys (without (Some k) (keys p)) p)) in
  if bool_decide (currentKey p = Some k)
  then showToast (js "Key " ++ [34] ++ k ++ [34] ++ js " was deleted remotely") (renderDetail (set_key None p)) else p.

Definition handleRemoteLock (k : jsstr) (p : page) : page :=
  let p := lock_entry (Some k) p in
  let p := if bool_decide (currentKey p = Some k)
           then renderDetail (set_current (currentKey p) (currentValue p) (currentMeta p) true p) else p in
  renderKeyList p.

Definition on_message (data : jsstr) (p : page) : page :=
  match read_message data with
  | Some (Updated k) => handleRemoteUpdate k p
  | Some (Deleted k) => handleRemoteDelete k p
  | Some (Locked k) => handleRemoteLock k p
  | None => p
  end.

(** ** The page *)

Inductive event :=
| FilterTyped (v : jsstr) | ValueTyped (v : jsstr) | SaveKey | EscapeKey
| AddClicked | NewKeyTyped (k v : jsstr) | AddConfirmed | AddCancelled
| KeyClicked (i : nat) | LockClicked | DeleteClicked | ConfirmClicked | CancelClicked
| Responded (h : nat) (r : answer) | BodyRead (h : nat) (b : body)
| TimerFired (h : nat) | LinkEvent (e : link_event) | WsMessage (data : jsstr).

Definition with_editor v (d : detail) : detail :=
  Detail (shown d) (d_key d) v (e_disabled d) (d_badge d) (d_lockDisabled d) (d_deleteDisabled d) (d_meta d).

(** What is hidden or disabled takes no input. *)
Definition step (e : event) (p : page) : page :=
  match e with
  | FilterTyped v => renderKeyList (set_filter (toLowerCase v) p)
  | ValueTyped v =>
      if shown (det p) && negb (e_disabled (det p)) then handleValueChange (set_det (with_editor v (det p)) p) else p
  | SaveKey => saveCurrentValue (if saveTimeout p then set_timers None (clearTimeout (saveTimeout p) p) (p_made p) p else p)
  | EscapeKey => closeAddDialog (closeDialog p)
  | AddClicked => openAddDialog p
  | NewKeyTyped k v =>
      let d := dlg p in if a_active d then set_dlg (Dialog (c_active d) (c_callback d) (c_installed d) true k v) p else p
  | AddConfirmed => if a_active (dlg p) then handleAddKey p else p
  | AddCancelled => closeAddDialog p
  | KeyClicked i => match rows p !! i with Some r => selectKey (r_key r) p | None => p end
  | LockClicked => if shown (det p) && negb (d_lockDisabled (det p)) then confirmWormLock p else p
  | DeleteClicked => if shown (det p) && negb (d_deleteDisabled (det p)) then confirmDelete p else p
  | ConfirmClicked => on_confirm p
  | CancelClicked => closeDialog p
  | Responded h r =>
      match list_find (λ c, c.1 = h) (inflight p) with
      | Some (_, (_, AwaitResponse c)) => responded h c r p
      | _ => p
      end
  | BodyRead h b =>
      match list_find (λ c, c.1 = h) (inflight p) with
      | Some (_, (_, AwaitBody c)) => body_read h c b p
      | Some (_, (_, AwaitText)) =>
          failed (AddKey []) (match b with TextBody t => t | BadBody m => m | _ => [] end) (settle h p)
      | _ => p
      end
  | TimerFired h =>
      match list_find (λ t, t.1 = h) (timers p) with
      | Some (_, (_, t)) =>
          let p := set_timers (saveTimeout p) (base.filter (λ t : nat * timer, t.1 ≠ h) (timers p)) (p_made p) p in
          match t with
          | SaveTimer => saveCurrentValue p
          | HideSaved => if negb (isSaving p) && saved (ind p) then set_saving false (Indicator false (saving (ind p)) false) p else p
          end
      | None => p
      end
  | LinkEvent e => set_link (PageLink.step e (lnk p)) p
  | WsMessage data => on_message data p
  end.

Definition run (es : list event) (p : page) : page := foldl (λ p e, step e p) p es.

Definition blank : page :=
  Page [] None [] None false None false [] [] (js "0") (Detail false [] [] false false false false None)
    (Indicator false false false) (Dialog false None false false [] []) [] [] [] [] 1 [] new_link.
Definition init : page := let p := loadKeys blank in set_link (connectWebSocket (lnk p)) p.
End Page_.

(** ** What holds of the page at all times *)

Section Facts.
Context {UD : UnicodeData}.

(** The rows are the keys that match the filter, as text. *)
Definition rows_ok (p : page) : Prop :=
  (λ r, (r_key r, r_name r, r_locked r)) <$> rows p =
  (λ k, (key k, escapeHTML (key k), locked k)) <$> base.filter (λ k, matches (filter_ p) k = true) (keys p).
Definition count_ok (p : page) : Prop := keyCount p = show (len (keys p)).
Definition unique (l : list KeyEntry) : Prop := NoDup (key <$> l).

(** The pane shows the lock the page holds, and takes no input with it. *)
Definition detail_ok (p : page) : Prop :=
  shown (det p) = true → is_Some (currentKey p) ∧ d_badge (det p) = currentLocked p ∧
    e_disabled (det p) = d_badge (det p) ∧ d_lockDisabled (det p) = d_badge (det p) ∧
    d_deleteDisabled (det p) = d_badge (det p).
Definition rest_ok (p : page) : Prop :=
  detail_ok p ∧ timers_ok SaveTimer (timers p) (p_made p) (saveTimeout p) ∧ link_ok (lnk p) ∧ (length (procLog p) ≤ 50)%nat.
Definition page_ok (p : page) : Prop := rows_ok p ∧ count_ok p ∧ unique (keys p) ∧ rest_ok p.

(** The lists of the server have each key once. *)
Definition sane (e : event) : Prop :=
  match e with BodyRead _ (KeysBody l) => unique l | _ => True end.

Lemma key_rows_ok_render p : rows_ok (renderKeyList p).
Proof. unfold rows_ok, renderKeyList. cbn [rows set_rows keys filter_]. by rewrite <- list_fmap_compose. Qed.

Lemma key_relist_ok l p : unique l → page_ok p → page_ok (updateKeyCount (renderKeyList (set_keys l p))).
Proof. intros Hl (_ & _ & _ & H). split; [exact (key_rows_ok_render (set_keys l p))|]. by split; [|split]. Qed.

Lemma key_fetch_ok r c p : page_ok p → page_ok (fetch_ r c p).
Proof.
  intros (H1 & H2 & H3 & H4 & H5 & H6). do 4 (split; [done|]). split; [|done]. eapply timers_more; [|exact H5]. cbn. lia.
Qed.
Lemma key_failed_ok c m p : page_ok p → page_ok (failed c m p).
Proof. by destruct c. Qed.
Lemma fetch_key_ok k r c p : page_ok p → page_ok (fetch_key k r c p).
Proof. intros H. unfold fetch_key. destruct (well_formed k); [by apply key_fetch_ok|by apply key_failed_ok]. Qed.
Lemma select_ok k p : page_ok p → page_ok (selectKey k p).
Proof.
  intros (H1 & H2 & H3 & H4 & H5). apply fetch_key_ok. do 3 (split; [done|]). split; [|done].
  intros Hs. destruct (H4 Hs) as [_ H]. split; [by eexists|exact H].
Qed.
Lemma key_save_ok p : page_ok p → page_ok (saveCurrentValue p).
Proof. intros H. unfold saveCurrentValue. destruct (chosen p); [by apply fetch_key_ok|done]. Qed.

Lemma chosen_current k p : chosen p = Some k → currentKey p = Some k.
Proof. unfold chosen. by destruct (currentKey p) as [[]|]. Qed.

Lemma renderDetail_ok p : rows_ok p → count_ok p → unique (keys p) →
  timers_ok SaveTimer (timers p) (p_made p) (saveTimeout p) → link_ok (lnk p) → (length (procLog p) ≤ 50)%nat →
  page_ok (renderDetail p).
Proof.
  intros H1 H2 H3 H4 H5 H6. unfold renderDetail.
  destruct (chosen p) as [k|] eqn:E; do 3 (split; [done|]); (split; [|done]); [|done].
  intros _. apply chosen_current in E. split; [by exists k|done].
Qed.

Lemma proc_ok cmd r p : page_ok p → page_ok (logProcCall cmd r p).
Proof.
  intros (H1 & H2 & H3 & H4 & H5 & H6 & H7). do 6 (split; [done|]). cbn [logProcCall set_proc procLog].
  rewrite length_drop. lia.
Qed.

Lemma has_key_false k p : has_key k p = false → k ∉ key <$> keys p.
Proof. apply bool_decide_eq_false. Qed.

Lemma add_entry_ok k p : page_ok p →
  page_ok (updateKeyCount (renderKeyList (if has_key k p then p else set_keys (Entry k false :: keys p) p))).
Proof.
  intros H. destruct (has_key k p) eqn:E.
  - pose proof (key_relist_ok (keys p) p) as R. destruct H as (H1 & H2 & H3 & H4). apply R; [exact H3|by do 3 (split; [done|])].
  - apply key_relist_ok; [|done]. unfold unique. rewrite fmap_cons. apply NoDup_cons. split; [by apply has_key_false|by destruct H as (_ & _ & H & _)].
Qed.

Lemma lock_first_keys k l : key <$> lock_first k l = key <$> l.
Proof. induction l as [|e l IH]; [done|]. cbn [lock_first]. case_bool_decide as E; cbn; [by rewrite E|by rewrite IH]. Qed.

Lemma lock_first_len k l : len (lock_first k l) = len l.
Proof. unfold len. f_equal. by rewrite <- (length_fmap key (lock_first k l)), lock_first_keys, length_fmap. Qed.

Lemma without_unique k l : unique l → unique (without k l).
Proof. intros H. eapply sublist_NoDup; [exact H|apply fmap_sublist, sublist_filter]. Qed.

(** What is drawn after some entry was locked *)
Lemma locked_parts k p : page_ok p →
  let p' := lock_entry k p in
  count_ok p' ∧ unique (keys p') ∧ timers p' = timers p ∧ p_made p' = p_made p ∧ saveTimeout p' = saveTimeout p ∧
  lnk p' = lnk p ∧ procLog p' = procLog p ∧ det p' = det p ∧ currentLocked p' = currentLocked p ∧ currentKey p' = currentKey p.
Proof.
  intros (_ & H2 & H3 & _). destruct k as [k|]; [|by split_and!]. cbn zeta.
  split_and!; try done.
  - unfold count_ok in *. cbn [lock_entry set_keys keyCount keys]. by rewrite lock_first_len.
  - unfold unique in *. cbn [lock_entry set_keys keys]. by rewrite lock_first_keys.
Qed.

Lemma count_without k p : page_ok p →
  page_ok (updateKeyCount (renderKeyList (set_keys (without k (keys p)) p))).
Proof. intros H. apply key_relist_ok; [|done]. apply without_unique. by destruct H as (_ & _ & H & _). Qed.

Lemma value_change_ok p v : page_ok p → shown (det p) && negb (e_disabled (det p)) = true →
  page_ok (handleValueChange (set_det (with_editor v (det p)) p)).
Proof.
  intros (H1 & H2 & H3 & H4 & H5 & H6) _. unfold handleValueChange. cbn [set_det currentKey currentLocked].
  destruct (chosen _); [|by do 4 (split; [done|])]. destruct (currentLocked p) eqn:El.
  { do 4 (split; [done|]). done. }
  do 3 (split; [done|]). split; [by unfold detail_ok in *; rewrite El in H4|]. split; [|done].
  by apply timers_rearm.
Qed.

Lemma added_ok k p : page_ok p → page_ok (added k p).
Proof.
  intros H. unfold added. cbv zeta. set (p1 := closeAddDialog _).
  assert (page_ok p1) as Hp by exact (proc_ok _ _ p H). clearbody p1.
  apply (select_ok k). by apply add_entry_ok.
Qed.

Lemma loaded_ok k v l m p : page_ok p → page_ok (loaded k v l m p).
Proof.
  intros H. unfold loaded. cbv zeta. set (p1 := set_current _ _ _ _ p). set (p2 := logProcCall _ _ p1).
  destruct H as (H1 & H2 & H3 & H4 & H5 & H6 & H7). apply renderDetail_ok; try done; [apply key_rows_ok_render|].
  cbn [p2 logProcCall set_proc procLog renderKeyList set_rows]. rewrite length_drop. lia.
Qed.

Lemma key_save_done_ok m p : page_ok p → page_ok (save_done m p).
Proof.
  intros H. unfold save_done. cbv zeta. set (p1 := match m with Some _ => _ | None => p end).
  assert (page_ok p1) as (H1 & H2 & H3 & H4 & H5 & H6) by by (unfold p1; destruct m). clearbody p1.
  do 4 (split; [done|]). split; [|done]. by apply timers_arm.
Qed.

Lemma key_lock_done_ok p : page_ok p → page_ok (lock_done p).
Proof.
  intros H. unfold lock_done. cbv zeta. set (p1 := set_current _ _ _ true p).
  assert (count_ok p1 ∧ unique (keys p1) ∧ timers_ok SaveTimer (timers p1) (p_made p1) (saveTimeout p1) ∧ link_ok (lnk p1) ∧
    (length (procLog p1) ≤ 50)%nat) as (H2 & H3 & H5 & H6 & H7).
  { destruct H as (H1 & H2 & H3 & H4 & H5 & H6 & H7). by split_and!. }
  destruct (locked_parts (currentKey p1) p H) as (L2 & L3 & _).
  assert (detail_ok (renderDetail (lock_entry (currentKey p1) p1))) as Hd.
  { unfold renderDetail. destruct (chosen _) as [x|] eqn:E; [|done]. apply chosen_current in E. intros _.
    split; [exists x; exact E|by destruct (currentKey p1)]. }
  split; [apply key_rows_ok_render|]. split; [|split; [|split; [exact Hd|]]].
  - unfold renderDetail. destruct (chosen _), (currentKey p1); exact L2.
  - unfold renderDetail. destruct (chosen _), (currentKey p1); exact L3.
  - unfold renderDetail. destruct (chosen _), (currentKey p1); by split_and!.
Qed.

Lemma key_delete_done_ok p : page_ok p → page_ok (delete_done p).
Proof.
  intros H. unfold delete_done. cbv zeta.
  destruct (count_without (currentKey p) p H) as (H1 & H2 & H3 & H4 & H5 & H6 & H7).
  split; [exact (key_rows_ok_render (set_current None _ None _ (set_keys (without (currentKey p) (keys p)) p)))|].
  do 2 (split; [done|]). by split_and!.
Qed.

Lemma key_settle_ok h p : page_ok p → page_ok (settle h p).
Proof. done. Qed.

Lemma key_responded_ok h c r p : page_ok p → page_ok (responded h c r p).
Proof.
  intros H. apply (key_settle_ok h) in H. unfold responded. cbv zeta. revert H. generalize (settle h p). clear p. intros p H.
  destruct r as [m|[]]; [by apply key_failed_ok|..|destruct c; by apply key_failed_ok || exact H].
  destruct c; try exact H; [exact (proc_ok _ _ p H)|by apply key_lock_done_ok|by apply key_delete_done_ok].
Qed.

Lemma key_body_read_ok h c b p : match b with KeysBody l => unique l | _ => True end → page_ok p → page_ok (body_read h c b p).
Proof.
  intros Hb H. apply (key_settle_ok h) in H. unfold body_read. cbv zeta. revert H. generalize (settle h p). clear p. intros p H.
  destruct c, b; try (by apply key_failed_ok); try (by apply added_ok);
    [by apply key_relist_ok|by apply loaded_ok|by apply key_save_done_ok].
Qed.

Lemma key_remote_update_ok k p : page_ok p → page_ok (handleRemoteUpdate k p).
Proof.
  intros H. unfold handleRemoteUpdate. cbv zeta. set (p1 := if has_key k p then p else _).
  assert (page_ok p1) as Hp.
  { pose proof (add_entry_ok k p H) as A. unfold p1. destruct (has_key k p); [exact H|exact A]. }
  clearbody p1. case_bool_decide; [by apply select_ok|done].
Qed.

Lemma key_remote_delete_ok k p : page_ok p → page_ok (handleRemoteDelete k p).
Proof.
  intros H. unfold handleRemoteDelete. cbv zeta. pose proof (count_without (Some k) p H) as Hp.
  case_bool_decide; [|exact Hp]. destruct Hp as (H1 & H2 & H3 & H4 & H5 & H6 & H7).
  do 3 (split; [done|]). by split_and!.
Qed.

Lemma key_remote_lock_ok k p : page_ok p → page_ok (handleRemoteLock k p).
Proof.
  intros H. unfold handleRemoteLock. cbv zeta. destruct (locked_parts (Some k) p H) as (L2 & L3 & L4 & L5 & L6 & L7 & L8 & L9 & L10 & L11).
  destruct H as (H1 & H2 & H3 & H4 & H5 & H6 & H7). revert L2 L3 L4 L5 L6 L7 L8 L9 L10 L11.
  generalize (lock_entry (Some k) p). intros q L2 L3 L4 L5 L6 L7 L8 L9 L10 L11.
  case_bool_decide as Ek.
  - split; [apply key_rows_ok_render|]. unfold renderDetail.
    destruct (chosen _) as [x|] eqn:E; (split; [exact L2|split; [exact L3|]]);
      (split; [|split_and!; cbn; by rewrite ?L4, ?L5, ?L6, ?L7, ?L8]); [|done].
    apply chosen_current in E. intros _. split; [exists x; exact E|done].
  - split; [apply key_rows_ok_render|]. split; [exact L2|split; [exact L3|]].
    split_and!; cbn; rewrite ?L4, ?L5, ?L6, ?L7, ?L8; try done. unfold detail_ok in *. cbn. by rewrite L9, L10, L11.
Qed.

Lemma key_page_ok_step e p : sane e → page_ok p → page_ok (step e p).
Proof.
  intros Hs H. pose proof H as (H1 & H2 & H3 & H4 & H5 & H6 & H7). destruct e; cbn [step].
  - split; [apply key_rows_ok_render|]. by split.
  - destruct (_ && _) eqn:E; [by apply value_change_ok|done].
  - destruct (saveTimeout p) as [t|] eqn:Et; [|by apply key_save_ok]. apply key_save_ok. do 4 (split; [done|]). split; [|done].
    unfold clearTimeout. rewrite <- Et. cbn [set_timers timers p_made saveTimeout]. rewrite Et. by apply (timers_clear _ _ _ (Some t)).
  - exact H.
  - exact H.
  - cbv zeta. by destruct (a_active _).
  - destruct (a_active _); [|done]. unfold handleAddKey. case_bool_decide; [done|by apply key_fetch_ok].
  - exact H.
  - destruct (rows p !! i); [by apply select_ok|done].
  - destruct (_ && _); [|done]. unfold confirmWormLock. by destruct (chosen p).
  - destruct (_ && _); [|done]. unfold confirmDelete. by destruct (chosen p).
  - unfold on_confirm. destruct (c_installed _); [|done]. destruct (c_callback _) as [[]|]; [..|exact H]; by apply fetch_key_ok.
  - exact H.
  - destruct (list_find _ _) as [[i [h' []]]|]; [by apply key_responded_ok|done..].
  - destruct (list_find _ _) as [[i [h' []]]|]; [done|by apply key_body_read_ok|by apply key_failed_ok|done].
  - destruct (list_find _ _) as [[i [h' t]]|]; [|done]. cbv zeta.
    set (p1 := set_timers _ _ _ p).
    assert (page_ok p1) as Hp by (do 4 (split; [done|]); split; [by apply timers_fired|done]).
    destruct t; [by apply key_save_ok|]. by destruct (_ && _).
  - do 5 (split; [done|]). split; [by apply link_ok_step|done].
  - unfold on_message. destruct (read_message data) as [[]|];
      [by apply key_remote_update_ok|by apply key_remote_delete_ok|by apply key_remote_lock_ok|done].
Qed.

Lemma key_page_ok_run es : Forall sane es → page_ok (run es init).
Proof.
  assert (page_ok init) as H0.
  { do 2 (split; [done|]). split; [constructor|]. split; [done|]. split; [|split; [apply link_ok_start|cbn; lia]].
    split_and!; [constructor|constructor|]. intros h Hh. by apply elem_of_nil in Hh. }
  unfold run. revert H0. generalize init. induction es as [|e es IH]; intros p Hp Hs; [done|].
  apply Forall_cons in Hs as [He Hs]. apply IH; [by apply key_page_ok_step|done].
Qed.

(** C21: whatever happens on the page, in whatever order, provided the lists
    the server sends have each key once: the list shows the keys that match
    the filter, each once, as text and with its lock; the counter shows the
    number of all keys, whatever the filter; while a key is shown some key is
    current, the badge is the lock the page holds, and the editor and the two
    buttons are disabled exactly when the badge is on; at most one save is
    armed, the log keeps at most fifty calls, and one WebSocket is live or
    awaited.  The lock the page holds is that of the last answer, not always
    that of the current key: between the choice of a key and the answer about
    it, the widgets are those of the key chosen before
    ([chosen_lock_unheeded]). *)
Theorem explorer_consistent es : Forall sane es →
  let p := run es init in
  ((λ r, (r_key r, r_name r, r_locked r)) <$> rows p =
   (λ k, (key k, escapeHTML (key k), locked k)) <$> base.filter (λ k, matches (filter_ p) k = true) (keys p)) ∧
  NoDup (r_key <$> rows p) ∧ keyCount p = show (len (keys p)) ∧
  (shown (det p) = true → is_Some (currentKey p) ∧ d_badge (det p) = currentLocked p ∧
     e_disabled (det p) = d_badge (det p) ∧ d_lockDisabled (det p) = d_badge (det p) ∧
     d_deleteDisabled (det p) = d_badge (det p)) ∧
  (length (base.filter (λ t : nat * timer, t.2 = SaveTimer) (timers p)) ≤ 1)%nat ∧
  (length (procLog p) ≤ 50)%nat ∧ link_ok (lnk p).
Proof.
  intros Hs. cbv zeta. generalize (key_page_ok_run es Hs). generalize (run es init).
  intros p (H1 & H2 & H3 & H4 & H5 & H6 & H7). split_and!; try done; [|by eapply one_save].
  assert (r_key <$> rows p = key <$> base.filter (λ k, matches (filter_ p) k = true) (keys p)) as ->.
  { apply (f_equal (fmap (λ x : jsstr * jsstr * bool, x.1.1))) in H1. rewrite <- !list_fmap_compose in H1. exact H1. }
  eapply sublist_NoDup; [exact H3|apply fmap_sublist, sublist_filter].
Qed.
End Facts.

(** ** Executions *)

Section Examples.
#[local] Existing Instance KvServer.ascii_only.

Definition opening : list event :=
  [Responded 1 (Answered true); BodyRead 1 (KeysBody [Entry (js "A") false; Entry (js "B") false]);
   KeyClicked 0; Responded 2 (Answered true); BodyRead 2 (KeyBody (Some (js "one")) (Some false) None)].
Definition opened (es : list event) : page := run (opening ++ es) init.

Lemma explorer_consistent_witness :
  let p := opened [FilterTyped (js "b")] in
  r_key <$> rows p = [js "B"] ∧ rows_ok p ∧ NoDup (r_key <$> rows p) ∧ keyCount p = show (len (keys p)).
Proof.
  cbv zeta. assert (Forall sane (opening ++ [FilterTyped (js "b")])) as Hs.
  { repeat (constructor; [done|]). constructor; [|repeat (constructor; [done|]); constructor].
    apply (bool_decide_unpack (NoDup _)). by vm_compute. }
  destruct (explorer_consistent (opening ++ [FilterTyped (js "b")]) Hs) as (H1 & H2 & H3 & _).
  split; [by vm_compute|split; [exact H1|split; [exact H2|exact H3]]].
Defined.

(** A chosen key is current before its value has arrived: a save armed by an
    edit of the key before it writes that key's text to the new one. *)
Lemma switching_overwrites_other :
  let p := opened [ValueTyped (js "one more"); KeyClicked 1; TimerFired 3] in
  last (log p) = Some (5%nat, PutKey (js "B") (js "one more")).
Proof. by vm_compute. Qed.

(** A locked key chosen while one that is not is shown can be typed in, saved
    and deleted until the answer about it arrives: the page does not look at
    the lock its own list shows. *)
Lemma chosen_lock_unheeded :
  let start := [Responded 1 (Answered true); BodyRead 1 (KeysBody [Entry (js "A") false; Entry (js "B") true]);
                KeyClicked 0; Responded 2 (Answered true); BodyRead 2 (KeyBody (Some (js "one")) (Some false) None);
                KeyClicked 1] in
  r_locked <$> (rows (run start init) !! 1%nat) = Some true ∧
  last (log (run (start ++ [ValueTyped (js "x"); TimerFired 4]) init)) = Some (5%nat, PutKey (js "B") (js "x")) ∧
  last (log (run (start ++ [DeleteClicked; ConfirmClicked]) init)) = Some (4%nat, DeleteKey_ (js "B")).
Proof. by vm_compute. Qed.

(** The event of the page's own save makes it read the key again: what was
    typed since is gone, and the save armed by it sends the older text. *)
Lemma own_save_drops_typing :
  let p := opened [ValueTyped (js "ab"); TimerFired 3; ValueTyped (js "abc");
                   WsMessage (stringify (Explorer.kv_event "kv:updated" (js "A"))); Responded 6 (Answered true);
                   BodyRead 6 (KeyBody (Some (js "ab")) (Some false) None); TimerFired 5] in
  editor (det p) = js "ab" ∧ last (log p) = Some (7%nat, PutKey (js "A") (js "ab")) ∧
  Forall (λ r, r.2 ≠ PutKey (js "A") (js "abc")) (log p).
Proof.
  cbv zeta. split; [by vm_compute|]. split; [by vm_compute|].
  match goal with |- Forall _ ?l => let l' := eval vm_compute in l in change (Forall (λ r, r.2 ≠ PutKey (js "A") (js "abc")) l') end.
  repeat (apply Forall_cons; split; [by intros [=]|]). constructor.
Qed.

(** A deletion confirmed after the key was deleted elsewhere deletes the key
    named null. *)
Lemma confirmation_deletes_null :
  let p := opened [DeleteClicked; WsMessage (stringify (Explorer.kv_event "kv:deleted" (js "A"))); ConfirmClicked] in
  last (log p) = Some (3%nat, DeleteKey_ (js "null")).
Proof. by vm_compute. Qed.
End Examples.

(** ** The requests of the page on the explorer server *)

(** The path of a key: the browser resolves a segment of one or two dots. *)
Definition dots (k : jsstr) : bool := bool_decide (k = js "." ∨ k = js "..").

Definition key_path (k tail : jsstr) : res jsstr :=
  e ← encodeURIComponent k;
  Ok (if bool_decide (e = js ".") then js "/api/keys/" ++ drop 1 tail
      else if bool_decide (e = js "..") then js "/api/" ++ drop 1 tail
      else js "/api/keys/" ++ e ++ tail).

(** [fetch] of a request as the server receives it *)
Definition to_request (r : api_request) : res request :=
  match r with
  | GetKeys => Ok (Request (js "GET") (js "/api/keys") None)
  | PostKey k v => Ok (Request (js "POST") (js "/api/keys")
                    (JSON_parse (stringify (JObj [(js "key", JStr k); (js "value", JStr v)]))))
  | GetKey k => path ← key_path k []; Ok (Request (js "GET") path None)
  | PutKey k v => path ← key_path k []; Ok (Request (js "PUT") path (JSON_parse (stringify (JObj [(js "value", JStr v)]))))
  | PostLock k => path ← key_path k (js "/lock"); Ok (Request (js "POST") path None)
  | DeleteKey_ k => path ← key_path k []; Ok (Request (js "DELETE") path None)
  end.

Section OnServer.
Context {E : ErrorTexts} {B : Explorer.Buffers}.

(** A path of a key is none of the fixed paths. *)
Lemma key_path_fixed e rest t : e ≠ [] →
  t ∈ [js "/"; js "/styles.css"; js "/app.js"; js "/api/keys"; js "/api/stats"] →
  bool_decide (js "/api/keys/" ++ e ++ rest = t) = false.
Proof.
  intros He Ht. apply bool_decide_eq_false_2. destruct e as [|c e]; [done|].
  rewrite !elem_of_cons, elem_of_nil in Ht. by destruct Ht as [->|[->|[->|[->|[->|[]]]]]]; intros [=].
Qed.

Lemma match_item_key e : e ≠ [] → no_slash e = true → match_item (js "/api/keys/") (js "/api/keys/" ++ e) = Some e.
Proof.
  intros He Hs. unfold match_item. change (strip_prefix (js "/api/keys/") (js "/api/keys/" ++ e)) with (Some e).
  cbn [mbind option_bind]. by rewrite bool_decide_eq_true_2, Hs.
Qed.

Lemma match_lock_key e : e ≠ [] → no_slash e = true → match_lock (js "/api/keys/") (js "/api/keys/" ++ e ++ js "/lock") = Some e.
Proof.
  intros He Hs. unfold match_lock.
  change (strip_prefix (js "/api/keys/") (js "/api/keys/" ++ e ++ js "/lock")) with (Some (e ++ js "/lock")).
  cbn [mbind option_bind]. rewrite span_app;
    [|apply Forall_forall; intros x Hx; by apply (proj1 (forallb_forall _ e) Hs), list_elem_of_In|done]. cbn. by rewrite bool_decide_eq_true_2.
Qed.

Lemma match_item_lock e : e ≠ [] → match_item (js "/api/keys/") (js "/api/keys/" ++ e ++ js "/lock") = None.
Proof.
  intros He. unfold match_item.
  change (strip_prefix (js "/api/keys/") (js "/api/keys/" ++ e ++ js "/lock")) with (Some (e ++ js "/lock")).
  cbn [mbind option_bind]. assert (no_slash (e ++ js "/lock") = false) as ->; [|by rewrite andb_false_r].
  unfold no_slash. rewrite forallb_app. cbn. by rewrite andb_false_r.
Qed.

Lemma key_path_encoded k tail e : dots k = false → encodeURIComponent k = Ok e →
  key_path k tail = Ok (js "/api/keys/" ++ e ++ tail).
Proof.
  intros Hd Ee. pose proof (decode_encode_uri k e Ee) as Hdec. unfold key_path. rewrite Ee. cbn [mbind res_bind].
  apply bool_decide_eq_false in Hd. rewrite !bool_decide_eq_false_2; [done|..]; intros ->; injection Hdec; intros <-; apply Hd; auto.
Qed.

Lemma key_reached k v : k ≠ [] → well_formed k = true → dots k = false → Forall is_unit v →
  ∃ get put lock del,
    to_request (GetKey k) = Ok get ∧ to_request (PutKey k v) = Ok put ∧
    to_request (PostLock k) = Ok lock ∧ to_request (DeleteKey_ k) = Ok del ∧
    WebApp.body put = Some (JObj [(js "value", JStr v)]) ∧
    Explorer.fetch get = Explorer.read_key k ∧ Explorer.fetch put = Explorer.update_key k put ∧
    Explorer.fetch lock = Explorer.lock_key k ∧ Explorer.fetch del = Explorer.delete_key k.
Proof.
  intros Hk Hw Hd Hv. destruct (encodeURIComponent k) as [e|x] eqn:Ee; [|by unfold encodeURIComponent in Ee; rewrite Hw in Ee].
  destruct (encoded_segment k e Ee Hk) as [He Hs]. pose proof (decode_encode_uri k e Ee) as Hdec.
  assert (JSON_parse (stringify (JObj [(js "value", JStr v)])) = Some (JObj [(js "value", JStr v)])) as Hj.
  { apply parse_stringify. constructor; [apply (bool_decide_unpack (NoDup _)); by vm_compute|].
    constructor; [|constructor]. split; [by repeat constructor|by constructor]. }
  unfold to_request. rewrite !(key_path_encoded k _ e Hd Ee), Hj. cbn [mbind res_bind].
  eexists _, _, _, _. do 4 (split; [reflexivity|]). split; [done|].
  unfold Explorer.fetch. cbn [method pathname]. rewrite app_nil_r.
  rewrite match_item_key, match_item_lock, match_lock_key by done. rewrite Hdec.
  rewrite !(key_path_fixed e (js "/lock")) by (done || set_solver).
  rewrite <- (app_nil_r e), !(key_path_fixed e []) by (done || set_solver). split_and!; reflexivity.
Qed.

(** The four requests about a key. *)
Definition about_key (k v : jsstr) : list api_request := [GetKey k; PutKey k v; PostLock k; DeleteKey_ k].

Lemma dots_not_found k v r : dots k = true → r ∈ about_key k v →
  ∃ req, to_request r = Ok req ∧ Explorer.fetch req = Explorer.reply 404 (js "Not found").
Proof.
  intros [->| ->]%bool_decide_eq_true Hr; unfold about_key in Hr;
    rewrite !elem_of_cons, elem_of_nil in Hr;
    (destruct Hr as [->|[->|[->|[->|[]]]]]; eexists; (split; [reflexivity|]; reflexivity)).
Qed.

Lemma lone_surrogate_throws k v r : well_formed k = false → r ∈ about_key k v → ∃ x, to_request r = Throw x.
Proof.
  intros Hw Hr. assert (∃ x, encodeURIComponent k = Throw x) as [x Ex].
  { unfold encodeURIComponent. rewrite Hw. by eexists. }
  exists x. unfold about_key in Hr. rewrite !elem_of_cons, elem_of_nil in Hr.
  destruct Hr as [->|[->|[->|[->|[]]]]]; unfold to_request, key_path; by rewrite Ex.
Qed.

(** C22: where the requests of the page about a key end up, for every key
    that is not empty (the page takes an empty one for none) and every text.
    Unless the key is one or two dots or has a lone surrogate, each of the
    four reaches the server's handler of that very key, decoded from the path
    in which the page encoded it, and the value is read from the body; about
    a key of one or two dots, whose segment the browser resolves away, each
    is answered 404; for a key with a lone surrogate the encoding throws and
    none is sent. *)
Theorem requests_reach_key k v : k ≠ [] → Forall is_unit v →
  (well_formed k = true → dots k = false →
   ∃ get put lock del,
     to_request (GetKey k) = Ok get ∧ to_request (PutKey k v) = Ok put ∧
     to_request (PostLock k) = Ok lock ∧ to_request (DeleteKey_ k) = Ok del ∧
     WebApp.body put = Some (JObj [(js "value", JStr v)]) ∧
     Explorer.fetch get = Explorer.read_key k ∧ Explorer.fetch put = Explorer.update_key k put ∧
     Explorer.fetch lock = Explorer.lock_key k ∧ Explorer.fetch del = Explorer.delete_key k) ∧
  (k = js "." ∨ k = js ".." → ∀ r, r ∈ about_key k v →
     ∃ req, to_request r = Ok req ∧ Explorer.fetch req = Explorer.reply 404 (js "Not found")) ∧
  (well_formed k = false → ∀ r, r ∈ about_key k v → ∃ x, to_request r = Throw x).
Proof.
  intros Hk Hv. split; [intros Hw Hd; by apply key_reached|]. split.
  - intros Hd r. apply dots_not_found. by apply bool_decide_eq_true.
  - intros Hw r. by apply lone_surrogate_throws.
Qed.

End OnServer.

Section RoutingExample.
#[local] Existing Instance plain_errors.
#[local] Instance no_buffers : Explorer.Buffers := Explorer.Build_Buffers (λ _, Throw TypeError).

(** A key with a space, a slash and a letter beyond ASCII *)
Definition odd_key : jsstr := js "a b/" ++ [233].

Lemma requests_reach_key_witness :
  ∃ get, to_request (GetKey odd_key) = Ok get ∧ pathname get = js "/api/keys/a%20b%2F%C3%A9" ∧
    Explorer.fetch get = Explorer.read_key odd_key.
Proof.
  destruct (requests_reach_key odd_key (js "v")) as [H _]; [by intros [=]|by repeat constructor|].
  destruct H as (get & put & lock & del & H1 & _ & _ & _ & _ & H2 & _); [by vm_compute|by vm_compute|].
  exists get. split; [exact H1|split; [|exact H2]].
  assert (to_request (GetKey odd_key) ≫= (λ r, Ok (pathname r)) = Ok (js "/api/keys/a%20b%2F%C3%A9")) as H by by vm_compute.
  rewrite H1 in H. by injection H.
Defined.
End RoutingExample.

(** ** The status bar *)

Definition parseKV (text : jsstr) : gmap jsstr jsstr := Explorer.parseKV text.
Definition given (kv : gmap jsstr jsstr) (k : string) : option jsstr :=
  match kv !! js k with Some ((_ :: _) as v) => Some v | _ => None end.

(** The uptime, and the size as it is received *)
Definition handleStatusMsg (value : jsstr) : jsstr * option jsstr :=
  let kv := parseKV value in
  (match given kv "uptime_in_seconds" with Some u => u ++ js "s" | None => [0x2014] end, given kv "wal_size").

(** A statistic: its text, and whether it flashes *)
Definition animateStat (text : jsstr) (value : Z) : jsstr * bool :=
  match parseInt (match text with [] => js "0" | t => t end) with
  | Fin q => if Qeq_bool q (inject_Z value) then (text, false) else (show value, true)
  | _ => (show value, true)
  end.
Definition handleStatsMsg (texts : jsstr * jsstr) (reads writes : option Z) : (jsstr * bool) * (jsstr * bool) :=
  (animateStat texts.1 (default 0 reads), animateStat texts.2 (default 0 writes)).

(** [toLocaleString] is the browser's. *)
Definition formatTimestamp (toLocaleString : num → jsstr) (val : jsstr) : jsstr :=
  match parseInt val with
  | NaN => [0x2014]
  | Fin q => if Qeq_bool q 0 then [0x2014] else toLocaleString (Fin q)
  | n => toLocaleString n
  end.

(** A statistic shows the last value received, and flashes when it changes. *)
Lemma animateStat_shows n m : 0 ≤ n ≤ 2 ^ 53 → animateStat (show n) m = (show m, negb (n =? m)).
Proof.
  intros Hn. unfold animateStat. pose proof (parseInt_show n Hn) as Hp.
  destruct (show n) as [|c t] eqn:E; [done|]. rewrite Hp.
  assert (Qeq_bool (inject_Z n) (inject_Z m) = (n =? m)) as ->.
  { destruct (Z.eqb_spec n m) as [->|Hne]; [by apply Qeq_bool_iff|].
    apply not_true_iff_false. intros H%Qeq_bool_iff. apply Hne. unfold Qeq in H. cbn in H. lia. }
  destruct (Z.eqb_spec n m) as [->|_]; [|done]. by rewrite E.
Qed.
