(* ===== verification/DashboardPage.v ===== *)
(** * The dashboard page ([apps/bun/src/ui/app.ts])

    The console with its history, the container panel with its keyed
    reconciliation of cards; the status messages and the deployment buttons
    are [DashboardStatus]'s.
    The WebSocket is [PageLink]'s.  Charts and texts of sizes are not
    modelled; [localeCompare] and [String] of what is no text are
    parameters. *)
From stdpp Require Import sorting.
From S2P Require Import Prelude JsText Number Json WebApp Html PageLink.
From S2P Require Explorer.
#[local] Open Scope Z_scope.

(** [v.k] of a parsed object *)
Definition field (v : json) (k : string) : option json :=
  match prop v (js k) with Ok x => x | Throw _ => None end.

(** ** The console *)

Module Console.

Inductive entry := Cmd (t : jsstr) | Result (t : jsstr) | Failed (t : jsstr).
Inductive action := OverSocket (data : jsstr) | OverHttp (command : jsstr).

Record console := State { commandHistory : list jsstr; historyIndex : Z; input : jsstr; output : list entry }.
Definition start : console := State [] (-1) [] [].

Definition command_message (cmd : jsstr) : json :=
  JObj [(js "type", JStr (js "command")); (js "command", JStr cmd)].

(** [open]: the page's socket is open *)
Definition executeCommand (open : bool) (cmd : jsstr) (c : console) : console * list action :=
  let h := cmd :: commandHistory c in
  let h := if 50 <? len h then removelast h else h in
  (State h (-1) [] (output c ++ [Cmd cmd]),
   [if open then OverSocket (stringify (command_message cmd)) else OverHttp cmd]).

Definition navigateHistory (direction : Z) (c : console) : console :=
  if bool_decide (commandHistory c = []) then c else
  let i := historyIndex c + direction in
  let i := if len (commandHistory c) <=? i then len (commandHistory c) - 1 else i in
  let i := if i <? -1 then -1 else i in
  State (commandHistory c) i
    (if i =? -1 then [] else default [] (commandHistory c !! Z.to_nat i)) (output c).

(** [data.error ? String(data.error) : String(data.response?.value ?? JSON.stringify(data.response))] *)
Definition handleCommandResult (String_ : option json → jsstr) (data : json) (c : console) : console :=
  let e := field data "error" in
  let entry :=
    if truthy e then Failed (match e with Some (JStr s) => s | _ => String_ e end)
    else
      let response := field data "response" in
      let value := match response with Some v => field v "value" | None => None end in
      Result (match coalesce value None with
              | Some (JStr s) => s
              | Some v => String_ (Some v)
              | None => match response with Some v => stringify v | None => js "undefined" end
              end) in
  State (commandHistory c) (historyIndex c) (input c) (output c ++ [entry]).

Inductive event := Typed (v : jsstr) | Enter (open : bool) | ArrowUp | ArrowDown | Answered (data : json).

Section Run.
Context (String_ : option json → jsstr).

Definition step (e : event) (c : console) : console * list action :=
  match e with
  | Typed v => (State (commandHistory c) (historyIndex c) v (output c), [])
  | Enter open =>
      let cmd := trim (input c) in
      if bool_decide (cmd = []) then (c, []) else executeCommand open cmd c
  | ArrowUp => (navigateHistory 1 c, [])
  | ArrowDown => (navigateHistory (-1) c, [])
  | Answered data => (handleCommandResult String_ data c, [])
  end.

Fixpoint run (es : list event) (c : console) : console * list action :=
  match es with
  | [] => (c, [])
  | e :: es => let '(c, a) := step e c in let '(c, b) := run es c in (c, a ++ b)
  end.

(** The commands that were entered, the first one first *)
Definition commands (l : list entry) : list jsstr := omap (λ e, match e with Cmd t => Some t | _ => None end) l.

Definition console_ok (c : console) : Prop :=
  commandHistory c = take 50 (reverse (commands (output c))) ∧
  -1 ≤ historyIndex c ∧ (historyIndex c < len (commandHistory c) ∨ historyIndex c = -1).

Lemma history_push h cmd (l : list jsstr) : h = take 50 (reverse l) →
  (if 50 <? len (cmd :: h) then removelast (cmd :: h) else cmd :: h) = take 50 (reverse (l ++ [cmd])).
Proof.
  intros ->. rewrite reverse_snoc. rewrite len_cons. unfold len. rewrite length_take.
  change (take 50 (cmd :: reverse l)) with (cmd :: take 49 (reverse l)).
  destruct (Z.ltb_spec 50 (1 + Z.of_nat (50 `min` length (reverse l)))) as [H|H].
  - rewrite removelast_firstn_len. cbn [length]. rewrite length_take.
    replace (50 `min` length (reverse l))%nat with 50%nat by lia. cbn [pred firstn]. f_equal.
    rewrite firstn_firstn. f_equal.
  - f_equal. by rewrite !take_ge by lia.
Qed.

Lemma navigate_ok d c : console_ok c → console_ok (navigateHistory d c).
Proof.
  intros (H1 & H2 & H3). unfold navigateHistory. case_bool_decide as Hn; [done|].
  split; [done|]. cbn [historyIndex commandHistory]. pose proof (len_nonneg (commandHistory c)).
  assert (0 < len (commandHistory c)).
  { destruct (commandHistory c) as [|x l]; [done|]. rewrite len_cons. pose proof (len_nonneg l). lia. }
  repeat case_ztest; lia.
Qed.

Lemma console_ok_step e c : console_ok c → console_ok (step e c).1.
Proof.
  intros H. destruct e as [v|open| | |data]; cbn [step]; [exact H| |by apply navigate_ok|by apply navigate_ok|].
  - case_bool_decide; [done|]. destruct H as (H1 & H2 & H3). split; [|cbn; lia].
    cbn [executeCommand fst commandHistory output]. unfold commands. rewrite omap_app. by apply history_push.
  - destruct H as (H1 & H2 & H3). split; [|done]. cbn [fst handleCommandResult commandHistory output]. rewrite H1.
    unfold commands. rewrite omap_app. do 2 f_equal. destruct (truthy _); cbn; by rewrite app_nil_r.
Qed.

Lemma console_ok_run es c : console_ok c → console_ok (run es c).1.
Proof.
  revert c. induction es as [|e es IH]; intros c Hc; [done|]. cbn [run]. pose proof (console_ok_step e c Hc) as Hs.
  destruct (step e c) as [c1 a]. specialize (IH c1 Hs). by destruct (run es c1).
Qed.

Definition up (n : nat) (c : console) : console := Nat.iter n (navigateHistory 1) c.

Lemma up_index n c : console_ok c → historyIndex c = -1 → (n ≤ length (commandHistory c))%nat →
  historyIndex (up n c) = Z.of_nat n - 1 ∧ commandHistory (up n c) = commandHistory c ∧
  (n ≠ 0%nat → input (up n c) = default [] (commandHistory c !! pred n)).
Proof.
  intros Hc Hi. induction n as [|n IH]; intros Hn; [done|]. destruct IH as (I1 & I2 & _); [lia|].
  change (up (S n) c) with (navigateHistory 1 (up n c)). unfold navigateHistory. rewrite I1, I2.
  rewrite bool_decide_eq_false_2 by (intros E; rewrite E in Hn; cbn in Hn; lia).
  unfold len. destruct (Z.leb_spec (Z.of_nat (length (commandHistory c))) (Z.of_nat n - 1 + 1)); [lia|].
  destruct (Z.ltb_spec (Z.of_nat n - 1 + 1) (-1)); [lia|]. destruct (Z.eqb_spec (Z.of_nat n - 1 + 1) (-1)); [lia|].
  cbn [historyIndex commandHistory input]. split_and!; [lia|done|]. intros _. do 2 f_equal. lia.
Qed.

(** The console remembers the last fifty commands, and after a command
    the [n]-th press of the up arrow brings back the [n]-th latest one,
    whatever was typed, entered, recalled and answered before. *)
Theorem console_recalls es n :
  let c := (run es start).1 in
  let past := take 50 (reverse (commands (output c))) in
  commandHistory c = past ∧
  (historyIndex c = -1 → (n < length past)%nat → Some (input (up (S n) c)) = past !! n).
Proof.
  cbv zeta. assert (console_ok (run es start).1) as Hc by (apply console_ok_run; split; [done|cbn; lia]).
  revert Hc. generalize (run es start).1. intros c Hc. pose proof Hc as (H1 & _). split; [done|].
  intros Hi Hn. destruct (up_index (S n) c Hc Hi) as (_ & _ & H); [rewrite H1; lia|].
  rewrite H by done. rewrite H1. cbn [pred]. by destruct (lookup_lt_is_Some_2 _ _ Hn) as [x ->].
Qed.
End Run.
End Console.

(** ** The container panel *)

Module Docker.

Record ContainerInfo := Container { name : jsstr; state : jsstr; status : jsstr; ports : jsstr }.
#[export] Instance container_eq_dec : EqDecision ContainerInfo.
Proof. solve_decision. Defined.

Inductive docker_action := Start | Stop | Kill.
#[export] Instance docker_action_eq_dec : EqDecision docker_action.
Proof. solve_decision. Defined.

(** A card: [card_id] is the element; [buttons] are its actions with the
    container each names. *)
Record card := Card { card_id : nat; dataset : jsstr; class : jsstr; busy : bool; title : jsstr; status_text : jsstr;
  buttons : list (docker_action * jsstr) }.

(** [cards] are the cards in the panel, in order; [placeholder]: the message
    that stands in it. *)
Record panel := Panel { cards : list card; placeholder : option jsstr; dockerCount : jsstr; lastDockerSnapshot : jsstr; made : nat }.

(** The panel of the page as it is loaded *)
Definition loading : panel := Panel [] (Some (js "Loading containers" ++ [0x2026])) (js "0 / 0") [] 0.

Definition running (c : ContainerInfo) : bool := bool_decide (state c = js "running").

Definition renderDockerActions (container : jsstr) (isRunning : bool) : list (docker_action * jsstr) :=
  if isRunning then [(Stop, container); (Kill, container)] else [(Start, container)].

Definition createDockerCard (id : nat) (c : ContainerInfo) : card :=
  Card id (name c) [] false [] [] (renderDockerActions (name c) (running c)).

(** [name.replace("wormdb-", "")]: the first occurrence *)
Fixpoint replace_first (p s : jsstr) : jsstr :=
  match s with
  | [] => []
  | x :: s' => if startsWith s p then drop (length p) s else x :: replace_first p s'
  end.

(** [a || b] on texts *)
Definition or_text (a b : jsstr) : jsstr := match a with [] => b | _ => a end.

Definition updateDockerCard (k : card) (c : ContainerInfo) : card :=
  let hasStopBtn := existsb (λ b : docker_action * jsstr, bool_decide (b.1 = Stop)) (buttons k) in
  Card (card_id k) (name c) (or_text (state c) (js "unknown")) false (replace_first (js "wormdb-") (name c))
    (or_text (status c) (state c))
    (if (running c && negb hasStopBtn) || (negb (running c) && hasStopBtn)
     then renderDockerActions (name c) (running c)
     else (λ b : docker_action * jsstr, (b.1, name c)) <$> buttons k).

Section Render.
(** [a.localeCompare(b)] *)
Context (localeCompare : jsstr → jsstr → Z).

(** The comparison of the sort is not positive *)
Definition before (a b : ContainerInfo) : bool :=
  if running a && negb (running b) then true
  else if negb (running a) && running b then false
  else localeCompare (name a) (name b) <=? 0.

(** [sort], which is stable *)
Fixpoint insert_sorted (c : ContainerInfo) (l : list ContainerInfo) : list ContainerInfo :=
  match l with
  | [] => [c]
  | d :: l' => if before c d then c :: l else d :: insert_sorted c l'
  end.
Definition sort_containers (l : list ContainerInfo) : list ContainerInfo := foldr insert_sorted [] l.

(** The lines of the snapshot, sorted by code units *)
Fixpoint units_le (s t : jsstr) : bool :=
  match s, t with
  | [], _ => true
  | _, [] => false
  | a :: s, b :: t => if a =? b then units_le s t else a <? b
  end.
Fixpoint insert_line (s : jsstr) (l : list jsstr) : list jsstr :=
  match l with
  | [] => [s]
  | t :: l' => if units_le s t then s :: l else t :: insert_line s l'
  end.
Definition snapshot_line (c : ContainerInfo) : jsstr := name c ++ [124] ++ state c ++ [124] ++ status c ++ [124] ++ ports c.
Definition snapshot (l : list ContainerInfo) : jsstr := join [10] (foldr insert_line [] (snapshot_line <$> l)).

(** [existing]: the last card of each name that is not empty *)
Definition existing_of (l : list card) : list card :=
  foldl (λ acc k, if bool_decide (dataset k = []) then acc
                  else base.filter (λ x, dataset x ≠ dataset k) acc ++ [k]) [] l.

(** The loop over the sorted containers: the cards left in [existing], the
    cards appended, and the next element *)
Fixpoint place (l : list ContainerInfo) (existing : list card) (next : nat) : list card * list card * nat :=
  match l with
  | [] => (existing, [], next)
  | c :: l =>
      match base.filter (λ k, dataset k = name c) existing with
      | k :: _ =>
          let '(e, out, n) := place l (base.filter (λ k, dataset k ≠ name c) existing) next in
          (e, updateDockerCard k c :: out, n)
      | [] =>
          let '(e, out, n) := place l existing (S next) in
          (e, updateDockerCard (createDockerCard next c) c :: out, n)
      end
  end.

Definition count_text (l : list ContainerInfo) : jsstr :=
  show (len (base.filter (λ c, running c = true) l)) ++ js " / " ++ show (len l).

(** [appendChild] moves a card that is in the panel to its end; the cards
    left in [existing] are removed. *)
Definition renderContainerCards (l : list ContainerInfo) (p : panel) : panel :=
  let snap := snapshot l in
  if bool_decide (snap = lastDockerSnapshot p) then Panel (cards p) (placeholder p) (count_text l) (lastDockerSnapshot p) (made p)
  else match l with
       | [] => Panel [] (Some (js "No containers found")) (count_text l) snap (made p)
       | _ =>
           let existing := existing_of (cards p) in
           let '(stale, out, next) := place (sort_containers l) existing (made p) in
           let moved := base.filter (λ k, card_id k ∉ card_id <$> out) (cards p) ++ out in
           Panel (base.filter (λ k, card_id k ∉ card_id <$> stale) moved) None (count_text l) snap next
       end.

(** The first card of the container is marked; the action is sent when the
    socket is open. *)
Fixpoint mark_busy (n : jsstr) (l : list card) : list card :=
  match l with
  | [] => []
  | k :: l =>
      if bool_decide (dataset k = n)
      then Card (card_id k) (dataset k) (class k) true (title k) (status_text k) (buttons k) :: l
      else k :: mark_busy n l
  end.
Definition action_text (a : docker_action) : jsstr :=
  match a with Start => js "start" | Stop => js "stop" | Kill => js "kill" end.
Definition containerAction (open : bool) (n : jsstr) (a : docker_action) (p : panel) : panel * option jsstr :=
  (Panel (mark_busy n (cards p)) (placeholder p) (dockerCount p) (lastDockerSnapshot p) (made p),
   if open then Some (stringify (JObj [(js "type", JStr (js "docker_action")); (js "container", JStr n);
                                       (js "action", JStr (action_text a))])) else None).

Inductive event := Containers (l : list ContainerInfo) | Pressed (open : bool) (n : jsstr) (a : docker_action).

(** A button that is pressed is one of a card. *)
Definition step (e : event) (p : panel) : panel :=
  match e with
  | Containers l => renderContainerCards l p
  | Pressed open n a => if bool_decide (n ≠ [] ∧ (a, n) ∈ cards p ≫= buttons) then (containerAction open n a p).1 else p
  end.
Definition run (es : list event) (p : panel) : panel := foldl (λ p e, step e p) p es.
End Render.

(** *** The order of code units *)

Lemma units_le_total s t : units_le s t = true ∨ units_le t s = true.
Proof.
  revert t. induction s as [|a s IH]; intros t; [by left|]. destruct t as [|b t]; [by right|]. cbn [units_le].
  destruct (Z.eqb_spec a b) as [->|Hab]; [rewrite Z.eqb_refl; apply IH|].
  rewrite (proj2 (Z.eqb_neq b a)) by done. rewrite !Z.ltb_lt. lia.
Qed.
Lemma units_le_trans s t u : units_le s t = true → units_le t u = true → units_le s u = true.
Proof.
  revert t u. induction s as [|a s IH]; intros t u; [done|]. destruct t as [|b t]; [done|]. destruct u as [|c u]; [done|].
  cbn [units_le]. destruct (Z.eqb_spec a b) as [->|Hab], (Z.eqb_spec b c) as [->|Hbc];
    rewrite ?Z.eqb_refl, ?(proj2 (Z.eqb_neq _ _)) by done; try done; [apply IH|].
  rewrite !Z.ltb_lt. intros H1 H2. rewrite (proj2 (Z.eqb_neq a c)) by lia. apply Z.ltb_lt. lia.
Qed.
Lemma units_le_antisym s t : units_le s t = true → units_le t s = true → s = t.
Proof.
  revert t. induction s as [|a s IH]; intros t; [by destruct t|]. destruct t as [|b t]; [done|]. cbn [units_le].
  destruct (Z.eqb_spec a b) as [->|Hab]; [rewrite Z.eqb_refl; intros; f_equal; by apply IH|].
  rewrite (proj2 (Z.eqb_neq b a)) by done. rewrite !Z.ltb_lt. lia.
Qed.
(** *** The snapshot tells the lists apart *)

(** A text that a line of the snapshot can hold, as those of Docker are *)
Definition plain (s : jsstr) : Prop := 10 ∉ s ∧ 124 ∉ s.
(** The names of Docker's containers: letters, digits, [_], [.] and [-] *)
Definition name_unit (x : Z) : Prop := 48 ≤ x ≤ 57 ∨ 65 ≤ x ≤ 90 ∨ 97 ≤ x ≤ 122 ∨ x = 95 ∨ x = 46 ∨ x = 45.
Definition docker_name (s : jsstr) : Prop := s ≠ [] ∧ Forall name_unit s.
Definition plain_container (c : ContainerInfo) : Prop :=
  docker_name (name c) ∧ plain (state c) ∧ plain (status c) ∧ plain (ports c).
Definition good (l : list ContainerInfo) : Prop := NoDup (name <$> l) ∧ Forall plain_container l.

Definition unline (s : jsstr) : ContainerInfo :=
  match split_on 124 s with
  | [a; b; c; d] => Container a b c d
  | _ => Container [] [] [] []
  end.

Lemma docker_name_plain s : docker_name s → s ≠ [] ∧ plain s.
Proof.
  intros [Hn H]. rewrite Forall_forall in H. split; [done|]. split; intros Hx; apply H in Hx; unfold name_unit in Hx; lia.
Qed.

Lemma unline_line c : plain_container c → unline (snapshot_line c) = c.
Proof.
  intros ((_ & _ & H1)%docker_name_plain & (_ & H2) & (_ & H3) & (_ & H4)). unfold unline, snapshot_line, split_on.
  change (name c ++ [124] ++ state c ++ [124] ++ status c ++ [124] ++ ports c)
    with (name c ++ 124 :: state c ++ 124 :: status c ++ 124 :: ports c).
  rewrite !split_on_part, split_on_last by done. by destruct c.
Qed.

Lemma split_join d ls : ls ≠ [] → Forall (λ l, d ∉ l) ls → split_on d (join [d] ls) = ls.
Proof.
  intros Hn H. unfold split_on. induction H as [|a ls Ha H IH]; [done|]. destruct ls as [|b ls].
  - cbn [join]. by rewrite split_on_last.
  - rewrite join_cons2. cbn [app]. rewrite split_on_part by done. cbn [app]. f_equal. by apply IH.
Qed.

Lemma insert_line_perm s l : insert_line s l ≡ₚ s :: l.
Proof. induction l as [|t l IH]; [done|]. cbn [insert_line]. destruct (units_le s t); [done|]. rewrite IH. apply Permutation_swap. Qed.
Lemma lines_perm l : foldr insert_line [] l ≡ₚ l.
Proof. induction l as [|s l IH]; [done|]. cbn [foldr]. by rewrite insert_line_perm, IH. Qed.

Lemma snapshot_line_plain c : plain_container c → snapshot_line c ≠ [] ∧ 10 ∉ snapshot_line c.
Proof.
  intros ((Hn & H1 & _)%docker_name_plain & (H2 & _) & (H3 & _) & (H4 & _)). unfold snapshot_line. split; [by destruct (name c)|].
  rewrite !not_elem_of_app. split_and!; try done; by intros [=]%list_elem_of_singleton.
Qed.

Lemma snapshot_inj l l' : Forall plain_container l → Forall plain_container l' → snapshot l = snapshot l' → l ≡ₚ l'.
Proof.
  assert (∀ l, Forall plain_container l → Forall (λ s, s ≠ [] ∧ 10 ∉ s) (foldr insert_line [] (snapshot_line <$> l))) as Hl.
  { clear. intros l Hl. rewrite lines_perm. apply Forall_fmap. eapply Forall_impl; [exact Hl|]. apply snapshot_line_plain. }
  assert (∀ ls ls', Forall (λ s, s ≠ [] ∧ 10 ∉ s) ls → Forall (λ s, s ≠ [] ∧ 10 ∉ s) ls' →
    join [10] ls = join [10] ls' → ls = ls') as Hj.
  { clear. intros ls ls' H H' E.
    assert (∀ ls, Forall (λ s : jsstr, s ≠ [] ∧ 10 ∉ s) ls → join [10] ls = [] → ls = []) as Hnil.
    { clear. intros ls H E. destruct H as [|a ls [Ha _] _]; [done|]. by destruct a, ls. }
    assert (∀ ls : list jsstr, Forall (λ s, s ≠ [] ∧ 10 ∉ s) ls → Forall (λ s, 10 ∉ s) ls) as Hw.
    { intros k Hk. eapply Forall_impl; [exact Hk|]. by intros ? []. }
    destruct ls as [|a ls]; [symmetry; by apply Hnil|]. destruct ls' as [|b ls']; [by apply Hnil|].
    apply (f_equal (split_on 10)) in E. by rewrite !split_join in E by (done || by apply Hw). }
  intros H H' E. apply Hj in E; [|by apply Hl..].
  assert (snapshot_line <$> l ≡ₚ snapshot_line <$> l') as Hp.
  { rewrite <- (lines_perm (snapshot_line <$> l)), E. apply lines_perm. }
  apply (fmap_Permutation unline) in Hp. rewrite <- !list_fmap_compose in Hp.
  assert (∀ l, Forall plain_container l → unline ∘ snapshot_line <$> l = l) as Hid.
  { clear. intros l H. induction H as [|c l Hc _ IH]; [done|]. rewrite fmap_cons, IH. cbn [compose]. f_equal. by apply unline_line. }
  by rewrite !Hid in Hp.
Qed.

(** Lists that differ in order only have the same snapshot. *)
Lemma insert_line_sorted s l : StronglySorted (λ a b, units_le a b = true) l →
  StronglySorted (λ a b, units_le a b = true) (insert_line s l).
Proof.
  induction 1 as [|t l Hs IH Ht]; cbn [insert_line]; [by repeat constructor|].
  destruct (units_le s t) eqn:E.
  - constructor; [by constructor|]. constructor; [done|]. eapply Forall_impl; [exact Ht|]. intros x. by apply units_le_trans.
  - constructor; [done|]. rewrite insert_line_perm. constructor; [|done].
    destruct (units_le_total s t); congruence.
Qed.

Lemma lines_sorted l : StronglySorted (λ a b, units_le a b = true) (foldr insert_line [] l).
Proof. induction l as [|s l IH]; [constructor|]. by apply insert_line_sorted. Qed.

Lemma snapshot_perm l l' : l ≡ₚ l' → snapshot l = snapshot l'.
Proof.
  intros Hp. unfold snapshot. f_equal.
  apply (StronglySorted_unique_strong (λ a b, units_le a b = true)); [|apply lines_sorted..|].
  - intros x y _ _. apply units_le_antisym.
  - by rewrite !lines_perm, Hp.
Qed.

(** *** Cards *)

(** The buttons of a card are those of its container, in one state or the other. *)
Definition shaped (k : card) : Prop := ∃ b, buttons k = renderDockerActions (dataset k) b.

(** What a card shows of a container: everything but its mark. *)
Definition shown (k : card) : jsstr * jsstr * jsstr * jsstr * list (docker_action * jsstr) :=
  (dataset k, class k, title k, status_text k, buttons k).
Definition wanted (c : ContainerInfo) : jsstr * jsstr * jsstr * jsstr * list (docker_action * jsstr) :=
  (name c, or_text (state c) (js "unknown"), replace_first (js "wormdb-") (name c), or_text (status c) (state c),
   renderDockerActions (name c) (running c)).

Lemma update_shown k c : shaped k → dataset k = name c → shown (updateDockerCard k c) = wanted c.
Proof.
  intros [b Hb] Hd. unfold shown, wanted, updateDockerCard. cbn [dataset class title status_text buttons]. f_equal.
  rewrite Hb, Hd. by destruct b, (running c).
Qed.

Lemma wanted_shaped k c : shown k = wanted c → shaped k.
Proof. intros [= Hd _ _ _ Hb]. exists (running c). by rewrite Hb, Hd. Qed.

Lemma shaped_all (l : list card) (cs : list ContainerInfo) : shown <$> l = wanted <$> cs → Forall shaped l.
Proof.
  revert cs. induction l as [|k l IH]; intros cs E; [constructor|].
  destruct cs as [|c cs]; [done|]. rewrite !fmap_cons in E. apply (inj2 cons) in E as [E1 E2].
  constructor; [by apply (wanted_shaped k c)|by apply (IH cs)].
Qed.

Lemma place_shown l existing next e out n : Forall shaped existing → place l existing next = (e, out, n) →
  shown <$> out = wanted <$> l.
Proof.
  revert existing next e out n. induction l as [|c l IH]; intros existing next e out n Hs; cbn [place].
  { by intros [= <- <- <-]. }
  destruct (base.filter (λ k, dataset k = name c) existing) as [|k r] eqn:Ek.
  - destruct (place l existing (S next)) as [[e1 out1] n1] eqn:Ep. intros [= <- <- <-]. rewrite !fmap_cons. f_equal.
    + apply update_shown; [by exists (running c)|done].
    + by eapply IH.
  - destruct (place l _ next) as [[e1 out1] n1] eqn:Ep. intros [= <- <- <-]. rewrite !fmap_cons.
    assert (k ∈ base.filter (λ k, dataset k = name c) existing) as Hk by (rewrite Ek; by left).
    apply list_elem_of_filter in Hk as [Hd Hk]. rewrite Forall_forall in Hs. f_equal.
    + apply update_shown; [by apply Hs|done].
    + eapply IH; [|exact Ep]. apply Forall_forall. intros x [_ Hx]%list_elem_of_filter. by apply Hs.
Qed.

(** A card that is placed is not busy. *)
Lemma place_idle l existing next e out n : place l existing next = (e, out, n) → Forall (λ k, busy k = false) out.
Proof.
  revert existing next e out n. induction l as [|c l IH]; intros existing next e out n; cbn [place].
  { intros [= <- <- <-]. constructor. }
  destruct (base.filter _ existing) as [|k r];
    destruct (place l _ _) as [[e1 out1] n1] eqn:Ep; intros [= <- <- <-]; (constructor; [done|by eapply IH]).
Qed.

(** Every card is placed or left, once; those created are numbered from [next]. *)
Lemma place_ids l existing next e out n : NoDup (dataset <$> existing) → place l existing next = (e, out, n) →
  (next ≤ n)%nat ∧ (card_id <$> e) ++ (card_id <$> out) ≡ₚ (card_id <$> existing) ++ seq next (n - next).
Proof.
  revert existing next e out n. induction l as [|c l IH]; intros existing next e out n Hd; cbn [place].
  { intros [= <- <- <-]. rewrite Nat.sub_diag. split; [lia|]. reflexivity. }
  destruct (base.filter (λ k, dataset k = name c) existing) as [|k r] eqn:Ek.
  - destruct (place l existing (S next)) as [[e1 out1] n1] eqn:Ep. intros [= <- <- <-]. apply IH in Ep as [Hn Hp]; [|done].
    split; [lia|]. rewrite fmap_cons, <- Permutation_middle. cbn [card_id updateDockerCard createDockerCard]. rewrite Hp.
    replace (n1 - next)%nat with (S (n1 - S next)) by lia. cbn [seq]. by rewrite Permutation_middle.
  - destruct (place l _ next) as [[e1 out1] n1] eqn:Ep. intros [= <- <- <-].
    pose proof (filter_app_complement (λ k, dataset k = name c) existing) as Hx. rewrite Ek in Hx.
    assert (NoDup (dataset <$> (k :: r) ++ base.filter (λ k, dataset k ≠ name c) existing)) as Hd' by by rewrite Hx.
    rewrite fmap_app in Hd'. apply NoDup_app in Hd' as (Hk & _ & Hd').
    assert (r = []) as ->.
    { destruct r as [|k' r]; [done|]. assert (dataset k' = dataset k) as E.
      { assert (∀ x, x ∈ k :: k' :: r → dataset x = name c) as Hc by (intros x; rewrite <- Ek; by intros [? _]%list_elem_of_filter).
        rewrite !Hc by set_solver. done. }
      cbn in Hk. apply NoDup_cons in Hk as [Hk _]. rewrite E in Hk. exfalso. apply Hk. by left. }
    apply IH in Ep as [Hn Hp]; [|done]. split; [done|]. rewrite fmap_cons, <- Permutation_middle, Hp.
    cbn [card_id updateDockerCard]. by rewrite <- (fmap_Permutation card_id _ _ Hx).
Qed.

Lemma existing_all l : NoDup (dataset <$> l) → Forall (λ k, dataset k ≠ []) l → existing_of l = l.
Proof.
  intros Hd Hn. unfold existing_of. assert (∀ acc, NoDup (dataset <$> acc ++ l) →
    foldl (λ acc k, if bool_decide (dataset k = []) then acc
                    else base.filter (λ x, dataset x ≠ dataset k) acc ++ [k]) acc l = acc ++ l) as H.
  { clear Hd. induction Hn as [|k l Hk _ IH]; intros acc Ha; cbn [foldl]; [by rewrite app_nil_r|].
    rewrite bool_decide_eq_false_2 by done.
    assert (base.filter (λ x, dataset x ≠ dataset k) acc = acc) as ->.
    { apply filter_all, Forall_forall. intros x Hx E. rewrite fmap_app, fmap_cons in Ha. apply NoDup_app in Ha as (_ & Ha & _).
      apply (Ha (dataset x)); [by apply list_elem_of_fmap_2|]. rewrite E. by left. }
    rewrite IH; [by rewrite <- app_assoc|]. by rewrite <- app_assoc. }
  by apply (H []).
Qed.

(** *** The order *)

(** What the comparison of names must be for the sort to have one result *)
Record collates (localeCompare : jsstr → jsstr → Z) : Prop := {
  collates_total a b : localeCompare a b ≤ 0 ∨ localeCompare b a ≤ 0;
  collates_trans a b c : localeCompare a b ≤ 0 → localeCompare b c ≤ 0 → localeCompare a c ≤ 0;
  collates_antisym a b : docker_name a → docker_name b → localeCompare a b ≤ 0 → localeCompare b a ≤ 0 → a = b;
}.

Section Order.
Context (localeCompare : jsstr → jsstr → Z) (Hlc : collates localeCompare).
Let le a b := before localeCompare a b = true.

Lemma before_total a b : le a b ∨ le b a.
Proof.
  unfold le, before. destruct (running a), (running b); cbn; auto;
    rewrite !Z.leb_le; apply Hlc.
Qed.
Lemma before_trans a b c : le a b → le b c → le a c.
Proof.
  unfold le, before. destruct (running a), (running b), (running c); cbn; try done;
    rewrite !Z.leb_le; apply Hlc.
Qed.
Lemma before_antisym a b : docker_name (name a) → docker_name (name b) → le a b → le b a → name a = name b.
Proof.
  intros Ha Hb.
  unfold le, before. destruct (running a), (running b); cbn; try done; rewrite !Z.leb_le; by apply Hlc.
Qed.

Lemma insert_sorted_perm c l : insert_sorted localeCompare c l ≡ₚ c :: l.
Proof.
  induction l as [|d l IH]; [done|]. cbn [insert_sorted]. destruct (before _ c d); [done|]. rewrite IH. apply Permutation_swap.
Qed.
Lemma sort_perm l : sort_containers localeCompare l ≡ₚ l.
Proof. induction l as [|c l IH]; [done|]. unfold sort_containers in *. cbn [foldr]. by rewrite insert_sorted_perm, IH. Qed.

Lemma insert_sorted_sorted c l : StronglySorted le l → StronglySorted le (insert_sorted localeCompare c l).
Proof.
  induction 1 as [|d l Hs IH Hd]; cbn [insert_sorted]; [by repeat constructor|].
  destruct (before localeCompare c d) eqn:E.
  - constructor; [by constructor|]. constructor; [done|]. eapply Forall_impl; [exact Hd|]. intros x. by apply before_trans.
  - constructor; [done|]. rewrite insert_sorted_perm. constructor; [|done].
    destruct (before_total c d) as [H|H]; [|done]. unfold le in H. congruence.
Qed.
Lemma sort_sorted l : StronglySorted le (sort_containers localeCompare l).
Proof. induction l as [|c l IH]; [constructor|]. by apply insert_sorted_sorted. Qed.

(** Lists that differ in order only are sorted alike. *)
Lemma sort_unique l l' : good l → l ≡ₚ l' → sort_containers localeCompare l = sort_containers localeCompare l'.
Proof.
  intros [Hd Hn] Hp. rewrite Forall_forall in Hn. apply (StronglySorted_unique_strong le); [|apply sort_sorted..|by rewrite !sort_perm].
  intros x y Hx Hy H1 H2. rewrite sort_perm in Hx, Hy. rewrite <- Hp in Hy.
  pose proof (before_antisym x y (proj1 (Hn x Hx)) (proj1 (Hn y Hy)) H1 H2) as E.
  apply list_elem_of_lookup in Hx as [i Hi], Hy as [j Hj]. assert (i = j) as ->; [|congruence].
  eapply NoDup_lookup; [exact Hd| |]; rewrite list_lookup_fmap; [by rewrite Hi|by rewrite Hj, E].
Qed.

(** The panel shows a list; [seen]: a list that is not empty was received. *)
Definition message_of (seen : bool) (l : list ContainerInfo) : option jsstr :=
  match l with
  | [] => Some (if seen then js "No containers found" else js "Loading containers" ++ [0x2026])
  | _ => None
  end.

Record panel_ok (l : list ContainerInfo) (seen : bool) (p : panel) : Prop := PanelOk {
  po_good : good l;
  po_snapshot : lastDockerSnapshot p = snapshot l;
  po_shown : shown <$> cards p = wanted <$> sort_containers localeCompare l;
  po_message : placeholder p = message_of seen l;
  po_seen : l ≠ [] → seen = true;
  po_ids : NoDup (card_id <$> cards p);
  po_made : Forall (λ k, (card_id k < made p)%nat) (cards p);
}.

Lemma shown_dataset (ks : list card) (cs : list ContainerInfo) : shown <$> ks = wanted <$> cs → dataset <$> ks = name <$> cs.
Proof.
  intros E. apply (f_equal (fmap (λ x : jsstr * jsstr * jsstr * jsstr * list (docker_action * jsstr), x.1.1.1.1))) in E.
  rewrite <- !list_fmap_compose in E. exact E.
Qed.

Definition some_list (l : list ContainerInfo) : bool := match l with [] => false | _ => true end.

(** A list with the containers of the last one draws nothing. *)
Lemma render_same l l0 seen p : good l → panel_ok l0 seen p → l ≡ₚ l0 →
  let p' := renderContainerCards localeCompare l p in
  panel_ok l (seen || some_list l) p' ∧ cards p' = cards p.
Proof.
  intros Hg [Hg0 Hs Hc Hm Hse Hi Hb] Hp. cbv zeta. unfold renderContainerCards.
  rewrite bool_decide_eq_true_2 by (rewrite Hs; by apply snapshot_perm). split; [|done].
  assert (message_of seen l0 = message_of (seen || some_list l) l) as Em.
  { destruct l as [|c l]; [apply Permutation_nil in Hp as ->; cbn; by rewrite orb_false_r|].
    destruct l0; [by apply Permutation_nil_r in Hp|done]. }
  split; cbn [cards placeholder lastDockerSnapshot made]; try done.
  - rewrite Hs. symmetry. by apply snapshot_perm.
  - by rewrite Hc, (sort_unique l l0 Hg Hp).
  - congruence.
  - intros Hn. destruct l; [done|]. apply orb_true_r.
Qed.

(** Another list is drawn, with no card busy. *)
Lemma render_other l l0 seen p : good l → panel_ok l0 seen p → ¬ l ≡ₚ l0 →
  let p' := renderContainerCards localeCompare l p in
  panel_ok l (seen || some_list l) p' ∧ Forall (λ k, busy k = false) (cards p').
Proof.
  intros Hg [Hg0 Hs Hc Hm Hse Hi Hb] Hne. cbv zeta. unfold renderContainerCards.
  rewrite bool_decide_eq_false_2.
  2:{ intros E. rewrite Hs in E. apply Hne. by apply snapshot_inj; [apply Hg|apply Hg0|]. }
  destruct l as [|c l].
  { split; [|constructor]. split; try done; try constructor.
    cbn. rewrite Hse; [done|]. intros ->. by apply Hne. }
  set (cs := c :: l) in *.
  assert (NoDup (dataset <$> cards p)) as Hd.
  { rewrite (shown_dataset _ _ Hc), sort_perm. apply Hg0. }
  assert (Forall (λ k, dataset k ≠ []) (cards p)) as Hn.
  { apply (Forall_fmap dataset (λ d, d ≠ []) (cards p)). rewrite (shown_dataset _ _ Hc), sort_perm.
    apply Forall_fmap. eapply Forall_impl; [exact (proj2 Hg0)|]. by intros x [[]]. }
  rewrite (existing_all _ Hd Hn). destruct (place _ _ _) as [[e out] next] eqn:Ep.
  destruct (place_ids _ _ _ _ _ _ Hd Ep) as [Hle Hp].
  rewrite Forall_forall in Hb. assert (NoDup ((card_id <$> e) ++ (card_id <$> out))) as Ha.
  { rewrite Hp. apply NoDup_app. split_and!; [done| |apply NoDup_seq].
    intros i (k & -> & Hk)%list_elem_of_fmap. specialize (Hb k Hk). rewrite elem_of_seq. lia. }
  apply NoDup_app in Ha as (He & Heo & Ho). rewrite filter_app.
  assert (base.filter (λ k, card_id k ∉ card_id <$> e) (base.filter (λ k, card_id k ∉ card_id <$> out) (cards p)) = []) as ->.
  { apply elem_of_nil_inv. intros k [He' [Ho' Hk]%list_elem_of_filter]%list_elem_of_filter.
    assert (card_id k ∈ (card_id <$> e) ++ (card_id <$> out)) as [|]%elem_of_app; [|done..].
    rewrite Hp. apply elem_of_app. left. by apply list_elem_of_fmap_2. }
  rewrite (filter_all _ out) by (apply Forall_forall; intros k Hk E'; by apply (Heo (card_id k) E'), list_elem_of_fmap_2).
  cbn [app]. split; [|exact (place_idle _ _ _ _ _ _ Ep)].
  split; cbn [cards placeholder lastDockerSnapshot made]; try done.
  - exact (place_shown _ _ _ _ _ _ (shaped_all _ _ Hc) Ep).
  - intros _. apply orb_true_r.
  - apply Forall_forall. intros k Hk.
    assert (card_id k ∈ (card_id <$> cards p) ++ seq (made p) (next - made p)) as [(k' & -> & Hk')%list_elem_of_fmap|Hq]%elem_of_app.
    { rewrite <- Hp. apply elem_of_app. right. by apply list_elem_of_fmap_2. }
    + specialize (Hb k' Hk'). lia.
    + apply elem_of_seq in Hq. lia.
Qed.

Lemma mark_busy_shown n ks : shown <$> mark_busy n ks = shown <$> ks.
Proof. induction ks as [|k ks IH]; [done|]. cbn [mark_busy]. case_bool_decide; cbn [fmap list_fmap]; [done|by f_equal]. Qed.

Lemma mark_busy_id n ks : card_id <$> mark_busy n ks = card_id <$> ks.
Proof. induction ks as [|k ks IH]; [done|]. cbn [mark_busy]. case_bool_decide; cbn [fmap list_fmap]; [done|by f_equal]. Qed.

Definition good_event (e : event) : Prop := match e with Containers l => good l | Pressed _ _ _ => True end.

(** The last list received, none counting as an empty one, and whether one
    that is not empty was. *)
Definition last_list (es : list event) : list ContainerInfo :=
  foldl (λ l e, match e with Containers l' => l' | _ => l end) [] es.
Definition ever_listed (es : list event) : bool :=
  existsb (λ e, match e with Containers l => some_list l | _ => false end) es.

Lemma last_list_snoc es e : last_list (es ++ [e]) = match e with Containers l => l | _ => last_list es end.
Proof. unfold last_list. rewrite foldl_app. by destruct e. Qed.

Lemma panel_ok_render l l0 seen p : good l → panel_ok l0 seen p →
  panel_ok l (seen || some_list l) (renderContainerCards localeCompare l p).
Proof.
  intros Hg Hp. destruct (decide (snapshot l = lastDockerSnapshot p)) as [E|E].
  - apply (render_same l l0); try done. rewrite (po_snapshot _ _ _ Hp) in E.
    by apply snapshot_inj; [apply Hg|apply Hp|].
  - apply (render_other l l0); try done. intros Hl. apply E. rewrite (po_snapshot _ _ _ Hp).
    by apply snapshot_perm.
Qed.

Lemma panel_ok_loading : panel_ok [] false loading.
Proof. split; try done; try constructor; constructor. Qed.

Lemma panel_ok_run es : Forall good_event es →
  panel_ok (last_list es) (ever_listed es) (run localeCompare es loading).
Proof.
  intros Hes. induction es as [|e es IH] using rev_ind; [apply panel_ok_loading|].
  apply Forall_app in Hes as [Hes [He _]%Forall_cons]. specialize (IH Hes).
  rewrite last_list_snoc. unfold run, ever_listed. rewrite foldl_app, existsb_app. cbn [foldl existsb].
  fold (run localeCompare es loading). fold (ever_listed es). rewrite orb_false_r. destruct e as [l|open n a].
  - by apply (panel_ok_render l (last_list es)).
  - rewrite orb_false_r. cbn [step]. case_bool_decide; [|done]. destruct IH as [Hg Hs Hc Hm Hse Hi Hb].
    split; cbn [containerAction fst cards made lastDockerSnapshot placeholder]; try done;
      rewrite ?mark_busy_shown, ?mark_busy_id; try done.
    apply (Forall_fmap card_id (λ i, (i < made _)%nat)). rewrite mark_busy_id. by apply Forall_fmap.
Qed.

(** C26: when a list of containers arrives, the panel follows it, whatever
    was shown and pressed before.  There is a card for each container, the
    running ones first and by name, each with its name, its state, its status
    and the buttons of its state, which name that container; the count is
    that of the running and of all; there is a message in place of cards when
    the list is empty: that none was found if one was listed before, and
    otherwise still that they are loading.  If the containers are not those
    of the list before, no card is busy any more; if they are, in any order,
    the cards are left exactly as they were, those busy included: an action
    that changes nothing leaves its card busy. *)
Theorem cards_follow_containers es l : Forall good_event es → good l →
  let before_it := run localeCompare es loading in
  let p := run localeCompare (es ++ [Containers l]) loading in
  shown <$> cards p = wanted <$> sort_containers localeCompare l ∧
  sort_containers localeCompare l ≡ₚ l ∧
  StronglySorted (λ a b, before localeCompare a b = true) (sort_containers localeCompare l) ∧
  dockerCount p = show (len (base.filter (λ c, running c = true) l)) ++ js " / " ++ show (len l) ∧
  placeholder p = match l with
                  | [] => Some (if ever_listed es then js "No containers found" else js "Loading containers" ++ [0x2026])
                  | _ => None
                  end ∧
  (l ≡ₚ last_list es → cards p = cards before_it) ∧
  (¬ l ≡ₚ last_list es → Forall (λ k, busy k = false) (cards p)).
Proof.
  intros Hes Hl. cbv zeta. unfold run. rewrite foldl_app. cbn [foldl step]. fold (run localeCompare es loading).
  pose proof (panel_ok_run es Hes) as Hp. pose proof (panel_ok_render l _ _ _ Hl Hp) as [_ _ H1 H2 _ _ _].
  split; [exact H1|]. split; [apply sort_perm|]. split; [apply sort_sorted|].
  split; [unfold renderContainerCards; case_bool_decide; [done|]; destruct l; [done|];
          by destruct (place _ _ _) as [[? ?] ?]|].
  split; [rewrite H2; destruct l; cbn; by rewrite ?orb_false_r|].
  split; intros Hll.
  - by apply (render_same l (last_list es) (ever_listed es)).
  - by apply (render_other l (last_list es) (ever_listed es)).
Qed.
End Order.

(** The order of code units is one such comparison. *)
Definition compare_units (s t : jsstr) : Z := if units_le s t then 0 else 1.
Lemma compare_units_le s t : compare_units s t ≤ 0 ↔ units_le s t = true.
Proof. unfold compare_units. destruct (units_le s t); split; (done || lia). Qed.
Lemma compare_units_collates : collates compare_units.
Proof.
  split; intros *; rewrite !compare_units_le; [apply units_le_total|apply units_le_trans|]. intros _ _. apply units_le_antisym.
Qed.

(** *** Behaviour that the proofs bring out *)

Definition db1 : ContainerInfo := Container (js "wormdb-node1") (js "running") (js "Up 2 minutes") (js "6389/tcp").
Definition db2 : ContainerInfo := Container (js "wormdb-node2") (js "exited") (js "Exited (0)") [].

Lemma docker_name_dec s : s ≠ [] → forallb (λ x, ((48 <=? x) && (x <=? 57)) || ((65 <=? x) && (x <=? 90)) ||
  ((97 <=? x) && (x <=? 122)) || (x =? 95) || (x =? 46) || (x =? 45)) s = true → docker_name s.
Proof.
  intros Hn H. split; [done|]. apply Forall_forall. intros x Hx. rewrite forallb_forall in H.
  specialize (H x (proj1 (list_elem_of_In _ _) Hx)). unfold name_unit. lia.
Qed.
Lemma plain_dec s : forallb (λ x, negb (x =? 10) && negb (x =? 124)) s = true → plain s.
Proof.
  intros H. rewrite forallb_forall in H. split; intros Hx%list_elem_of_In%H; done.
Qed.

Lemma two_good : good [db2; db1].
Proof.
  split; [apply (bool_decide_unpack _); by vm_compute|].
  repeat apply Forall_cons_2; try apply Forall_nil_2; unfold plain_container; split_and!;
    (apply docker_name_dec; [done|]) || apply plain_dec; by vm_compute.
Qed.

Lemma cards_follow_containers_witness : collates compare_units ∧ good [db2; db1] ∧
  (shown <$> cards (run compare_units [Containers [db2]; Pressed true (name db2) Start; Containers [db2; db1]] loading))
  = wanted <$> [db1; db2].
Proof.
  split; [apply compare_units_collates|]. split; [apply two_good|].
  assert (good [db2]) as H2.
  { destruct two_good as [_ H]. split; [apply NoDup_singleton|]. by inversion H as [|? ? Hd]; constructor. }
  refine (eq_trans (proj1 (cards_follow_containers compare_units compare_units_collates
    [Containers [db2]; Pressed true (name db2) Start] [db2; db1] _ two_good)) _).
  - apply Forall_cons_2; [exact H2|]. apply Forall_cons_2; [exact I|apply Forall_nil_2].
  - by vm_compute.
Defined.

(** An action that changes nothing leaves its card busy: the list that
    follows it has the same snapshot, and no card is touched. *)
Lemma failed_action_stays_busy lc :
  busy <$> cards (run lc [Containers [db1]; Pressed true (name db1) Stop; Containers [db1]; Containers [db1]] loading) = [true].
Proof. by vm_compute. Qed.

(** The action of a button is marked but not sent when the socket is closed. *)
Lemma closed_socket_marks lc :
  let p := run lc [Containers [db1]] loading in
  (containerAction false (name db1) Stop p).2 = None ∧ busy <$> cards (containerAction false (name db1) Stop p).1 = [true].
Proof. by vm_compute. Qed.

(** The first list, when it is empty, has the snapshot of the page that has
    received none, which goes on waiting. *)
Lemma no_container_loads_forever lc : renderContainerCards lc [] loading = loading.
Proof. by vm_compute. Qed.
End Docker.
