(* ===== verification/Peers.v ===== *)
(** * The cluster as the dashboard sees it ([apps/bun/src/bin/ui.ts])

    The parser of [CLUSTER PEERS], the endpoints learnt from it and the choice
    of the next endpoint; [peer_list] is the text the server prints
    ([peerList] of [src/cluster/node.zig]), against which the parser is
    checked.  [String] of a number that is no integer is a parameter. *)
From Stdlib Require Import QArith Qround.
From S2P Require Import Prelude JsText Number Json.
#[local] Open Scope Z_scope.

(** ** Text *)

(** [s.split(sep)] for a separator that is not empty; [skip] units of it are
    still to be passed over. *)
Fixpoint split_text (sep cur s : jsstr) (skip : nat) : list jsstr :=
  match s with
  | [] => [cur]
  | c :: r =>
      match skip with
      | S n => split_text sep cur r n
      | O => if startsWith s sep then cur :: split_text sep [] r (length sep - 1)
             else split_text sep (cur ++ [c]) r 0
      end
  end.

(** [v || d] of a property that may be missing *)
Definition or_text (v : option jsstr) (d : jsstr) : jsstr :=
  match v with Some ((_ :: _) as s) => s | _ => d end.
Definition nonempty (v : option jsstr) : option jsstr :=
  match v with Some ((_ :: _) as s) => Some s | _ => None end.

(** A line [name=value]: [eq = line.indexOf("=")], kept when [eq > 0]. *)
Definition parse_field (kv : gmap jsstr jsstr) (line : jsstr) : gmap jsstr jsstr :=
  match span (λ c, negb (c =? 61)) line with
  | ((_ :: _) as name, _ :: v) => <[name := v]> kv
  | _ => kv
  end.
Definition parse_section (section : jsstr) : gmap jsstr jsstr :=
  foldl parse_field ∅ (split_on 10 section).

(** A JavaScript [Map], in insertion order *)
Fixpoint map_set {V} (m : list (jsstr * V)) (k : jsstr) (v : V) : list (jsstr * V) :=
  match m with
  | [] => [(k, v)]
  | e :: m => if bool_decide (e.1 = k) then (k, v) :: m else e :: map_set m k v
  end.
Fixpoint map_get {V} (m : list (jsstr * V)) (k : jsstr) : option V :=
  match m with
  | [] => None
  | e :: m => if bool_decide (e.1 = k) then Some e.2 else map_get m k
  end.

(** ** Peers *)

Record peer := Peer {
  meshIp : jsstr; state : jsstr; gossipEndpoint : option jsstr; wormwire : jsstr }.
Record peers_response := Peers { selfIp : jsstr; selfPort : num; peers : list peer }.

#[export] Instance peer_eq_dec : EqDecision peer.
Proof. solve_decision. Defined.

Definition is_dead (p : peer) : bool := bool_decide (state p = js "dead").

Definition read_peer (kv : gmap jsstr jsstr) : option peer :=
  ip ← nonempty (kv !! js "mesh_ip");
  Some (Peer ip (or_text (kv !! js "state") (js "unknown")) (nonempty (kv !! js "gossip_endpoint"))
          (or_text (kv !! js "wormwire") (js "disconnected"))).

(** The loop over the sections; [first] on the first one. *)
Fixpoint read_sections (first : bool) (sections : list jsstr) (r : peers_response) : peers_response :=
  match sections with
  | [] => r
  | s :: sections =>
      let kv := parse_section s in
      read_sections false sections
        match nonempty (kv !! js "self_mesh_ip") with
        | Some ip => if first then Peers ip (Number (or_text (kv !! js "self_port") (js "0"))) (peers r)
                     else match read_peer kv with
                          | Some p => Peers (selfIp r) (selfPort r) (peers r ++ [p]) | None => r end
        | None => match read_peer kv with
                  | Some p => Peers (selfIp r) (selfPort r) (peers r ++ [p]) | None => r end
        end
  end.

(** The first part of the address, before the port *)
Definition gossip_ip (p : peer) : option jsstr := hd [] ∘ split_on 58 <$> gossipEndpoint p.

Definition by_gossip_step (m : list (jsstr * peer)) (p : peer) : list (jsstr * peer) :=
  match gossip_ip p with
  | None => m
  | Some ip =>
      match map_get m ip with
      | None => map_set m ip p
      | Some existing => if is_dead existing && negb (is_dead p) then map_set m ip p else m
      end
  end.
Definition by_gossip_ip (raw : list peer) : list (jsstr * peer) := foldl by_gossip_step [] raw.

Definition parsePeersResponse (text : jsstr) : peers_response :=
  let sections := base.filter (λ s, trim s ≠ []) (split_text (js (String.append "---" (String "010" ""))) [] text 0) in
  let raw := read_sections true sections (Peers (js "0.0.0.0") (Fin 0%Q) []) in
  Peers (selfIp raw) (selfPort raw) (snd <$> by_gossip_ip (peers raw)).

(** ** Endpoints *)

Record endpoint := Endpoint { host : jsstr; port : num; from_mesh : option jsstr }.

#[export] Instance Q_eq_dec : EqDecision Q.
Proof. solve_decision. Defined.
#[export] Instance num_eq_dec : EqDecision num.
Proof. solve_decision. Defined.
#[export] Instance endpoint_eq_dec : EqDecision endpoint.
Proof. solve_decision. Defined.

(** [s.lastIndexOf(":")], [-1] when there is none *)
Fixpoint last_colon (i last : Z) (s : jsstr) : Z :=
  match s with [] => last | c :: s => last_colon (i + 1) (if c =? 58 then i else last) s end.

Definition peer_host (gossip : jsstr) : jsstr :=
  let i := last_colon 0 (-1) gossip in if 0 <? i then take (Z.to_nat i) gossip else gossip.

(** [===] on numbers *)
Definition num_eqb (a b : num) : bool :=
  match a, b with
  | Fin p, Fin q => Qeq_bool p q
  | Infinity a, Infinity b => Bool.eqb a b
  | _, _ => false
  end.

Definition knows (known : list endpoint) (h : jsstr) (p : num) : bool :=
  existsb (λ ep, bool_decide (host ep = h) && num_eqb (port ep) p) known.

(** One round of the loop of [discoverEndpoints] *)
Definition discover (wormPort : num) (known : list endpoint) (p : peer) : list endpoint :=
  match gossipEndpoint p with
  | Some ((_ :: _) as g) =>
      if negb (bool_decide (state p = js "alive")) then known else
      let ip := peer_host g in
      if bool_decide (ip = []) || bool_decide (ip = js "0.0.0.0") then known
      else if knows known ip wormPort then known
      else known ++ [Endpoint ip wormPort (Some (meshIp p))]
  | _ => known
  end.
Definition discoverEndpoints (known : list endpoint) (ps : list peer) (wormPort : num) : list endpoint :=
  foldl (discover wormPort) known ps.

Class NumberText := other_number : num → jsstr.

Section Target.
Context {N : NumberText}.

(** [String(x)] *)
Definition number_text (x : num) : jsstr :=
  match as_integer x with
  | Some z => if Z.abs z <? 10 ^ 21 then show z else other_number x
  | None => other_number x
  end.

(** [`${ep.host}:${ep.port}`] *)
Definition target (ep : endpoint) : jsstr := host ep ++ js ":" ++ number_text (port ep).

(** [candidates[0]] of [failoverToNext] *)
Definition next_endpoint (active : endpoint) (known : list endpoint) : option endpoint :=
  head (base.filter (λ ep, target ep ≠ target active) known).
End Target.

Definition isValidPort (value : num) : bool :=
  match as_integer value with Some z => (1 <=? z) && (z <=? 65535) | None => false end.

(** ** What the server prints *)

Record member := Member {
  m_ip : jsstr; m_state : jsstr; m_endpoint : option jsstr; m_connected : bool;
  m_sync : jsstr * Z * Z }.

Definition named_line (name : string) (v : jsstr) : jsstr := js name ++ js "=" ++ v.
Definition member_lines (m : member) : list jsstr :=
  [named_line "mesh_ip" (m_ip m); named_line "state" (m_state m)] ++
  match m_endpoint m with Some ep => [named_line "gossip_endpoint" ep] | None => [] end ++
  [named_line "wormwire" (if m_connected m then js "connected" else js "disconnected");
   named_line "root_sync" (m_sync m).1.1; named_line "root_sync_last_ms" (show (m_sync m).1.2);
   named_line "root_sync_missing_ranges" (show (m_sync m).2)].
Definition line_end : jsstr := [10].
Definition separator : jsstr := [45; 45; 45; 10].
Definition section_text (lines : list jsstr) : jsstr := lines ≫= λ l, l ++ line_end.
Definition peer_list (ip : jsstr) (port : Z) (members : list member) : jsstr :=
  section_text [named_line "self_mesh_ip" ip; named_line "self_port" (show port)] ++ separator ++
  (members ≫= λ m, section_text (member_lines m) ++ separator).

(** What the parser must make of a member *)
Definition seen_peer (m : member) : peer :=
  Peer (m_ip m) (m_state m) (m_endpoint m) (if m_connected m then js "connected" else js "disconnected").

(** ** Facts *)

(** A value a line can carry: no line end, and no hyphen to be taken for a
    separator. *)
Definition plain (v : jsstr) : Prop := v ≠ [] ∧ 10 ∉ v ∧ 45 ∉ v.
#[export] Instance plain_dec v : Decision (plain v).
Proof. unfold plain. apply _. Defined.

Definition member_ok (m : member) : Prop :=
  plain (m_ip m) ∧ plain (m_state m) ∧ (∀ ep, m_endpoint m = Some ep → plain ep) ∧
  plain (m_sync m).1.1 ∧ 0 ≤ (m_sync m).1.2 ∧ 0 ≤ (m_sync m).2.

Lemma split_text_plain sep a s cur :
  (∀ c r, c ∈ a → startsWith (c :: r) sep = false) →
  split_text sep cur (a ++ s) 0 = split_text sep (cur ++ a) s 0.
Proof.
  revert cur. induction a as [|c a IH]; intros cur Ha; cbn [app split_text].
  - by rewrite app_nil_r.
  - rewrite Ha by left. rewrite IH by (intros; apply Ha; by right). by rewrite <- app_assoc.
Qed.

Lemma split_section a s : 45 ∉ a →
  split_text separator [] (a ++ separator ++ s) 0 = a :: split_text separator [] s 0.
Proof.
  intros Ha. rewrite split_text_plain; [done|].
  intros c r Hc. change (startsWith (c :: r) separator) with ((45 =? c) && startsWith r [45; 45; 10]).
  by destruct (Z.eqb_spec 45 c) as [<-|].
Qed.

Lemma split_sections sections : Forall (λ s, 45 ∉ s) sections →
  split_text separator [] (sections ≫= λ s, s ++ separator) 0 = sections ++ [[]].
Proof.
  induction 1 as [|s sections Hs _ IH]; [done|]. rewrite bind_cons, <- app_assoc.
  by rewrite split_section, IH.
Qed.

(** A section of named lines *)
Lemma parse_field_named kv name v : js name ≠ [] → 61 ∉ js name →
  parse_field kv (named_line name v) = <[js name := v]> kv.
Proof.
  intros Hn He. unfold parse_field, named_line. rewrite span_app.
  - cbn. by destruct (js name).
  - apply Forall_forall. intros c Hc. destruct (Z.eqb_spec c 61) as [->|]; [done|done].
  - done.
Qed.

Lemma split_lines lines : Forall (λ l, 10 ∉ l) lines → split_on 10 (section_text lines) = lines ++ [[]].
Proof.
  unfold split_on, section_text. induction 1 as [|l lines Hl _ IH]; [done|].
  rewrite bind_cons, <- app_assoc. change (line_end ++ ?s) with (10 :: s).
  rewrite split_on_part by done. by rewrite IH.
Qed.

Lemma span_rest {A} (f : A → bool) l x : x ∈ l → f x = false → (span f l).2 ≠ [].
Proof.
  intros Hx Hf. induction l as [|y l IH]; [by apply not_elem_of_nil in Hx|]. cbn.
  destruct (f y) eqn:E; [|done]. apply elem_of_cons in Hx as [->|Hx]; [by rewrite E in Hf|].
  specialize (IH Hx). by destruct (span f l).
Qed.

Lemma trim_starts c s : is_space c = false → trim (c :: s) ≠ [].
Proof.
  intros Hc. unfold trim. rewrite trimStart_word by by repeat constructor.
  unfold trimEnd. intros H%(f_equal (@rev Z)). rewrite rev_involutive in H. revert H.
  apply (span_rest _ _ c); [|done]. cbn [rev]. apply elem_of_app. right. by left.
Qed.

Lemma plain_line name v : 10 ∉ js name → 45 ∉ js name → 10 ∉ v → 45 ∉ v →
  10 ∉ named_line name v ∧ 45 ∉ named_line name v.
Proof.
  intros H1 H2 H3 H4. unfold named_line. change (js "=") with [61].
  rewrite !elem_of_app, !list_elem_of_singleton. split; intros [?|[?|?]]; done.
Qed.

Lemma show_plain n : 0 ≤ n → 10 ∉ show n ∧ 45 ∉ show n.
Proof.
  intros Hn. destruct (show_digits n Hn) as (_ & Hd & _). rewrite Forall_forall in Hd.
  by split; intros H%Hd.
Qed.

Ltac plain_name := apply (bool_decide_unpack _); by vm_compute.

Lemma member_lines_plain m : member_ok m →
  Forall (λ l, 10 ∉ l ∧ 45 ∉ l) (member_lines m).
Proof.
  intros ((_ & Hi1 & Hi2) & (_ & Hs1 & Hs2) & He & (_ & Hy1 & Hy2) & Hl & Hr). unfold member_lines.
  pose proof (show_plain _ Hl) as []. pose proof (show_plain _ Hr) as [].
  apply Forall_app. split; [repeat (apply Forall_cons; split); [..|done]; by apply plain_line; [plain_name..| |]|].
  apply Forall_app. split.
  - destruct (m_endpoint m) as [ep|]; [|done]. destruct (He ep eq_refl) as (_ & ? & ?).
    apply Forall_cons. split; [|done]. by apply plain_line; [plain_name..| |].
  - apply Forall_cons. split; [destruct (m_connected m); apply plain_line; plain_name|].
    repeat (apply Forall_cons; split); [..|apply Forall_nil; exact I]; by apply plain_line; [plain_name..| |].
Qed.

Lemma section_no_hyphen lines : Forall (λ l, 10 ∉ l ∧ 45 ∉ l) lines → 45 ∉ section_text lines.
Proof.
  intros Hl. unfold section_text. rewrite list_elem_of_bind. intros (l & Hin & Hl').
  rewrite Forall_forall in Hl. destruct (Hl l Hl') as [_ Hh].
  apply elem_of_app in Hin as [?|?%list_elem_of_singleton]; done.
Qed.

Lemma parse_section_lines lines : Forall (λ l, 10 ∉ l ∧ 45 ∉ l) lines →
  parse_section (section_text lines) = foldl parse_field ∅ lines.
Proof.
  intros Hl. unfold parse_section. rewrite split_lines.
  - by rewrite foldl_app.
  - eapply Forall_impl; [exact Hl|]. by intros l [? _].
Qed.

(** ** The parser reads the server's list *)

Ltac field_at := repeat (rewrite lookup_insert_ne by done); first [apply lookup_insert_eq | apply lookup_empty].

Lemma read_member m : member_ok m →
  let kv := parse_section (section_text (member_lines m)) in
  kv !! js "self_mesh_ip" = None ∧ read_peer kv = Some (seen_peer m).
Proof.
  intros Hm kv. unfold kv. rewrite parse_section_lines by by apply member_lines_plain.
  destruct Hm as ((Hi & _) & (Hs & _) & He & _).
  set (kv' := foldl parse_field ∅ (member_lines m)).
  assert (kv' !! js "self_mesh_ip" = None ∧ kv' !! js "mesh_ip" = Some (m_ip m) ∧
    kv' !! js "state" = Some (m_state m) ∧ kv' !! js "gossip_endpoint" = m_endpoint m ∧
    kv' !! js "wormwire" = Some (if m_connected m then js "connected" else js "disconnected"))
    as (H1 & H2 & H3 & H4 & H5).
  { unfold kv', member_lines. destruct (m_endpoint m) as [ep|]; cbn [app foldl];
      rewrite !parse_field_named by plain_name; split_and!; by field_at. }
  split; [done|]. unfold read_peer, seen_peer. rewrite H2, H3, H4, H5.
  destruct (m_ip m); [done|]. destruct (m_state m); [done|]. cbn [nonempty mbind option_bind or_text].
  do 2 f_equal; [|by destruct (m_connected m)].
  destruct (m_endpoint m) as [[|c ep]|] eqn:Ee; [|done..]. by destruct (He [] eq_refl).
Qed.

Lemma read_members members r :
  Forall member_ok members →
  read_sections false ((λ m, section_text (member_lines m)) <$> members) r =
  Peers (selfIp r) (selfPort r) (peers r ++ (seen_peer <$> members)).
Proof.
  intros Hm. revert r. induction Hm as [|m members Hm _ IH]; intros r.
  - cbn. rewrite app_nil_r. by destruct r.
  - cbn [fmap list_fmap read_sections]. destruct (read_member m Hm) as [-> ->]. cbn [nonempty].
    rewrite IH. cbn. by rewrite <- app_assoc.
Qed.

Lemma section_starts c l lines : is_space c = false →
  trim (section_text ((c :: l) :: lines)) ≠ [].
Proof. intros Hc. unfold section_text. rewrite bind_cons. by apply trim_starts. Qed.

(** The parser reads the list the server prints: its own address and
    port, and every member it lists, one peer per gossip address. *)
Theorem peers_read_back ip port members :
  plain ip → 0 ≤ port ≤ 65535 → Forall member_ok members →
  parsePeersResponse (peer_list ip port members) =
  Peers ip (Fin (inject_Z port)) (snd <$> by_gossip_ip (seen_peer <$> members)).
Proof.
  intros (Hne & Hi1 & Hi2) Hp Hm. unfold parsePeersResponse.
  set (sec0 := section_text [named_line "self_mesh_ip" ip; named_line "self_port" (show port)]).
  assert (Forall (λ l, 10 ∉ l ∧ 45 ∉ l) [named_line "self_mesh_ip" ip; named_line "self_port" (show port)]) as Hl.
  { destruct (show_plain port) as []; [lia|].
    repeat (apply Forall_cons; split); [..|done]; by apply plain_line; [plain_name..| |]. }
  assert (peer_list ip port members =
    (sec0 :: ((λ m, section_text (member_lines m)) <$> members)) ≫= λ s, s ++ separator) as ->.
  { rewrite bind_cons. unfold peer_list. rewrite <- app_assoc. do 2 f_equal.
    induction members as [|m members IH]; [done|]. apply Forall_cons in Hm as [_ Hm].
    cbn [fmap list_fmap]. by rewrite !bind_cons, IH. }
  change (js (String.append "---" (String "010" ""))) with separator. rewrite split_sections.
  2: { constructor; [by apply section_no_hyphen|]. apply Forall_fmap. eapply Forall_impl; [exact Hm|].
       intros m H. by apply section_no_hyphen, member_lines_plain. }
  rewrite filter_app. assert (base.filter (λ s, trim s ≠ []) [[]] = []) as -> by done. rewrite app_nil_r.
  rewrite filter_all.
  2: { constructor; [by apply section_starts|]. apply Forall_fmap. apply Forall_forall. intros m _.
       by apply section_starts. }
  assert (parse_section sec0 !! js "self_mesh_ip" = Some ip ∧
          parse_section sec0 !! js "self_port" = Some (show port)) as [E1 E2].
  { unfold sec0. rewrite parse_section_lines by done. cbn [foldl].
    rewrite !parse_field_named by plain_name. split; by field_at. }
  cbn [read_sections]. rewrite E1, E2. assert (nonempty (Some ip) = Some ip) as -> by by destruct ip.
  rewrite read_members by done. cbn [selfIp selfPort peers app]. f_equal.
  destruct (show_digits port) as (Hs & _); [lia|].
  assert (or_text (Some (show port)) (js "0") = show port) as -> by by destruct (show port).
  apply Number_show. lia.
Qed.

(** *** One peer per address *)

Lemma map_get_set {V} (m : list (jsstr * V)) k v k' :
  map_get (map_set m k v) k' = if bool_decide (k = k') then Some v else map_get m k'.
Proof.
  induction m as [|[k1 v1] m IH]; [done|]. cbn [map_set fst].
  destruct (decide (k1 = k)) as [->|H1].
  - rewrite bool_decide_eq_true_2 by done. cbn [map_get fst snd]. by case_bool_decide.
  - rewrite bool_decide_eq_false_2 by done. cbn [map_get fst snd]. rewrite IH.
    repeat (case_bool_decide; try congruence).
Qed.

Lemma map_set_keys {V} (m : list (jsstr * V)) k v :
  (map_set m k v).*1 = if bool_decide (is_Some (map_get m k)) then m.*1 else m.*1 ++ [k].
Proof.
  induction m as [|[k1 v1] m IH]; [done|]. cbn [map_set map_get fst snd].
  destruct (decide (k1 = k)) as [->|H1].
  - by rewrite (bool_decide_eq_true_2 (k = k)) by done.
  - rewrite !(bool_decide_eq_false_2 (k1 = k)) by done. cbn [fmap list_fmap fst]. rewrite IH.
    by case_bool_decide.
Qed.

Lemma map_get_elem {V} (m : list (jsstr * V)) k : k ∈ m.*1 ↔ is_Some (map_get m k).
Proof.
  induction m as [|[k1 v1] m IH]; cbn.
  - split; [by intros ?%not_elem_of_nil|by intros [? ?]].
  - rewrite elem_of_cons, IH. case_bool_decide as H1; [|naive_solver].
    split; [by eauto|intros _; by left].
Qed.

Lemma map_get_in {V} (m : list (jsstr * V)) k v :
  NoDup m.*1 → (k, v) ∈ m ↔ map_get m k = Some v.
Proof.
  induction m as [|[k1 v1] m IH]; intros Hn.
  { split; [by intros ?%not_elem_of_nil|done]. }
  cbn [fmap list_fmap fst] in Hn. apply NoDup_cons in Hn as [Hk Hn]. cbn [map_get fst snd].
  rewrite elem_of_cons, IH by done. case_bool_decide as E.
  - subst k1. split; [|intros [= ->]; by left]. intros [[= ->]|H]; [done|].
    destruct Hk. apply map_get_elem. by eexists.
  - split; [intros [[= -> ->]|?]; done|by right].
Qed.

(** The peer kept for an address: the first that is not dead, else the first. *)
Definition best (ps : list peer) : option peer :=
  match base.filter (λ p, is_dead p = false) ps with p :: _ => Some p | [] => head ps end.
Definition at_address (ip : jsstr) (ps : list peer) : list peer :=
  base.filter (λ p, gossip_ip p = Some ip) ps.

Lemma best_snoc ps p : best (ps ++ [p]) =
  match best ps with
  | Some q => if is_dead q && negb (is_dead p) then Some p else Some q
  | None => Some p
  end.
Proof.
  unfold best. rewrite filter_app. destruct (base.filter _ ps) as [|q r] eqn:E; cbn [app].
  - destruct ps as [|q ps]; cbn [head app].
    + rewrite filter_cons. by destruct (decide _).
    + assert (is_dead q = true) as ->.
      { rewrite filter_cons in E. destruct (decide (is_dead q = false)); [done|]. by destruct (is_dead q). }
      rewrite filter_cons. destruct (is_dead p) eqn:Ep; cbn.
      * rewrite decide_False by done. done.
      * rewrite decide_True by done. done.
  - assert (q ∈ base.filter (λ p, is_dead p = false) ps) as [-> _]%list_elem_of_filter; [|done].
    rewrite E. by left.
Qed.

(** Whatever the server lists, the dashboard keeps exactly one peer per
    gossip address: the first at it that is not dead, or the first of all
    when every one is; peers without an address are left out. *)
Theorem peers_deduplicated raw :
  NoDup (by_gossip_ip raw).*1 ∧
  ∀ ip, map_get (by_gossip_ip raw) ip = best (at_address ip raw).
Proof.
  unfold by_gossip_ip. induction raw as [|p raw [IHd IH]] using rev_ind; [by split; [constructor|]|].
  rewrite foldl_app. cbn [foldl]. set (m := foldl by_gossip_step [] raw) in *.
  assert (∀ ip, at_address ip (raw ++ [p]) =
    at_address ip raw ++ if bool_decide (gossip_ip p = Some ip) then [p] else []) as Ha.
  { intros ip. unfold at_address. rewrite filter_app, filter_cons. by case_bool_decide; case_decide. }
  unfold by_gossip_step. destruct (gossip_ip p) as [ip|] eqn:Eg.
  2: { split; [done|]. intros ip. by rewrite Ha, app_nil_r. }
  assert (∀ ip', map_get m ip' = best (at_address ip' (raw ++ [p])) ∨ ip' = ip) as Hother.
  { intros ip'. rewrite Ha. case_bool_decide as E; [right; congruence|]. left. by rewrite app_nil_r. }
  assert (best (at_address ip (raw ++ [p])) = match map_get m ip with
    | Some q => if is_dead q && negb (is_dead p) then Some p else Some q | None => Some p end) as Hip.
  { rewrite Ha, bool_decide_eq_true_2, best_snoc, IH by done. done. }
  assert (∀ m', map_get m' ip = best (at_address ip (raw ++ [p])) →
    (∀ ip', ip' ≠ ip → map_get m' ip' = map_get m ip') → ∀ ip', map_get m' ip' = best (at_address ip' (raw ++ [p]))) as Hall.
  { intros m' H1 H2 ip'. destruct (decide (ip' = ip)) as [->|Hne]; [done|]. rewrite H2 by done.
    by destruct (Hother ip'). }
  assert (∀ ip', ip' ≠ ip → map_get (map_set m ip p) ip' = map_get m ip') as Hset.
  { intros ip' Hne. rewrite map_get_set. by case_bool_decide. }
  assert (map_get (map_set m ip p) ip = Some p) as Hget by (rewrite map_get_set; by case_bool_decide).
  destruct (map_get m ip) as [q|] eqn:Eq.
  - destruct (is_dead q && negb (is_dead p)); (split; [|apply Hall; [congruence|done]]); [|done].
    rewrite map_set_keys, bool_decide_eq_true_2; [done|by rewrite Eq].
  - split; [|apply Hall; [congruence|done]].
    rewrite map_set_keys, bool_decide_eq_false_2; [|by rewrite Eq; intros [? ?]].
    apply NoDup_app. split_and!; [done| |apply NoDup_singleton].
    intros x Hx ->%list_elem_of_singleton. apply map_get_elem in Hx as [? ?]. congruence.
Qed.

(** The peer kept, described on the list itself. *)
Definition first_live (raw : list peer) (p : peer) : Prop :=
  ∃ pre post, raw = pre ++ p :: post ∧ is_Some (gossip_ip p) ∧
    ∀ q, q ∈ pre → gossip_ip q = gossip_ip p → is_dead q = true.

Lemma head_filter {A} (P : A → Prop) `{!∀ x, Decision (P x)} (l : list A) x :
  head (base.filter P l) = Some x ↔
  ∃ pre post, l = pre ++ x :: post ∧ P x ∧ Forall (λ y, ¬ P y) pre.
Proof.
  induction l as [|y l IH].
  { split; [done|]. by intros ([] & ? & ? & _). }
  rewrite filter_cons. destruct (decide (P y)) as [Hy|Hy].
  - split; [intros [= ->]; by exists [], l|].
    intros ([|z pre] & post & [= <- ->] & Hx & Hpre); [done|]. by apply Forall_cons in Hpre as [? _].
  - rewrite IH. split.
    + intros (pre & post & -> & Hx & Hpre). exists (y :: pre), post. split_and!; [done..|by constructor].
    + intros ([|z pre] & post & [= <- ->] & Hx & Hpre); [done|].
      apply Forall_cons in Hpre as [_ Hpre]. by exists pre, post.
Qed.

Lemma best_live l p : is_dead p = false →
  best l = Some p ↔ head (base.filter (λ q, is_dead q = false) l) = Some p.
Proof.
  intros Hp. unfold best. destruct (base.filter _ l) as [|q r] eqn:E; [|done]. split; [|done].
  destruct l as [|q l]; [done|]. intros [= ->]. rewrite filter_cons_True in E by done. done.
Qed.

Lemma kept_live raw p : is_dead p = false →
  p ∈ snd <$> by_gossip_ip raw ↔ first_live raw p.
Proof.
  intros Hp. destruct (peers_deduplicated raw) as [Hn Hg].
  assert (p ∈ snd <$> by_gossip_ip raw ↔ ∃ ip, best (at_address ip raw) = Some p) as ->.
  { rewrite list_elem_of_fmap. split.
    - intros ([ip q] & -> & Hin). exists ip. rewrite <- Hg. by apply map_get_in.
    - intros [ip Hb]. rewrite <- Hg in Hb. exists (ip, p). split; [done|]. by apply map_get_in. }
  assert (∀ ip, best (at_address ip raw) = Some p ↔ ∃ pre post, raw = pre ++ p :: post ∧
    gossip_ip p = Some ip ∧ ∀ q, q ∈ pre → gossip_ip q = Some ip → is_dead q = true) as Hbest.
  { intros ip. rewrite best_live by done. unfold at_address. rewrite list_filter_filter, head_filter.
    split; intros (pre & post & -> & H1 & H2); exists pre, post.
    - destruct H1 as [_ H1]. split_and!; [done..|]. intros q Hq Hip.
      rewrite Forall_forall in H2. specialize (H2 q Hq). destruct (is_dead q); [done|]. by destruct H2.
    - split_and!; [done..|]. apply Forall_forall. intros q Hq [Hd Hip].
      rewrite H2 in Hd by done. done. }
  unfold first_live. setoid_rewrite Hbest. split.
  - intros (ip & pre & post & -> & Hip & H). exists pre, post. rewrite Hip. split_and!; [done|by eexists|done].
  - intros (pre & post & -> & [ip Hip] & H). exists ip, pre, post. rewrite Hip in H. done.
Qed.

(** ** Concrete lists *)

Definition two_members : list member :=
  [Member (js "10.99.0.2") (js "dead") (Some (js "192.168.0.4:51821")) false (js "unknown", 0, 0);
   Member (js "10.99.0.3") (js "alive") (Some (js "192.168.0.4:51821")) true (js "healthy", 12, 0)].

Lemma peers_read_back_witness :
  parsePeersResponse (peer_list (js "10.99.0.1") 6389 two_members) =
  Peers (js "10.99.0.1") (Fin 6389) [Peer (js "10.99.0.3") (js "alive") (Some (js "192.168.0.4:51821")) (js "connected")].
Proof.
  rewrite (peers_read_back (js "10.99.0.1") 6389 two_members); [by vm_compute|plain_name|lia|].
  unfold two_members, member_ok. repeat (apply Forall_cons; split); try done; split_and!; try done; try plain_name;
    intros ep [= <-]; plain_name.
Defined.
