(* ===== verification/Dashboard.v ===== *)
(** * The dashboard's connection and failover ([apps/bun/src/bin/ui.ts])

    The module's variables and the functions that change them: the shared
    event subscription with its reconnection timer, the periodic status with
    the endpoints it discovers, and the failover to another endpoint.  Each
    entry point is one [event]; the texts sent to the browsers and the
    operations on sockets are [action]s.  Several attempts to connect can be
    in progress ([attempts], by target): the runtime settles each once. *)
From Stdlib Require Import QArith Qround.
From S2P Require Import Prelude Utf8 TypedArray JsText Number Command Protocol Wire Json Peers.
#[local] Open Scope Z_scope.

Record dash := Dash {
  activeEndpoint : endpoint;
  knownEndpoints : list endpoint;
  consecutiveFailures : Z;
  lastPeers : list peer;
  eventSocket : option Z;
  eventConnecting : bool;
  eventInbound : bytes;
  eventReconnectTimer : bool;
  wsClients : list Z;
  attempts : list endpoint;
}.

Inductive action :=
| Dial (to : endpoint)
| Write (socket : Z) (data : bytes)
| End (socket : Z)
| Relay (client : Z) (text : jsstr).

Definition set_active ep f d := Dash ep (knownEndpoints d) f (lastPeers d) (eventSocket d)
  (eventConnecting d) (eventInbound d) (eventReconnectTimer d) (wsClients d) (attempts d).
Definition set_failures n d := Dash (activeEndpoint d) (knownEndpoints d) n (lastPeers d) (eventSocket d)
  (eventConnecting d) (eventInbound d) (eventReconnectTimer d) (wsClients d) (attempts d).
Definition set_peers known ps d := Dash (activeEndpoint d) known (consecutiveFailures d) ps (eventSocket d)
  (eventConnecting d) (eventInbound d) (eventReconnectTimer d) (wsClients d) (attempts d).
Definition set_event s c i d := Dash (activeEndpoint d) (knownEndpoints d) (consecutiveFailures d) (lastPeers d)
  s c i (eventReconnectTimer d) (wsClients d) (attempts d).
Definition set_timer t d := Dash (activeEndpoint d) (knownEndpoints d) (consecutiveFailures d) (lastPeers d)
  (eventSocket d) (eventConnecting d) (eventInbound d) t (wsClients d) (attempts d).
Definition set_clients cs d := Dash (activeEndpoint d) (knownEndpoints d) (consecutiveFailures d) (lastPeers d)
  (eventSocket d) (eventConnecting d) (eventInbound d) (eventReconnectTimer d) cs (attempts d).
Definition set_attempts l d := Dash (activeEndpoint d) (knownEndpoints d) (consecutiveFailures d) (lastPeers d)
  (eventSocket d) (eventConnecting d) (eventInbound d) (eventReconnectTimer d) (wsClients d) l.

Definition new_dash (seed : endpoint) : dash := Dash seed [seed] 0 [] None false [] false [] [].

(** ** What the browsers are sent *)

Definition peer_json (p : peer) : json :=
  JObj [(js "meshIp", JStr (meshIp p)); (js "state", JStr (state p));
        (js "gossipEndpoint", match gossipEndpoint p with Some g => JStr g | None => JNull end);
        (js "wormwire", JStr (wormwire p))].

Section Dashboard.
Context {N : NumberText} (sendable : Z → bool).

(** [broadcast]: a client whose [send] throws is dropped. *)
Definition broadcast (type : string) (payload : list (jsstr * json)) (d : dash) : dash * list action :=
  let msg := stringify (JObj (set_fields [(js "type", JStr (js type))] payload)) in
  let reached := base.filter (λ c, sendable c = true) (wsClients d) in
  (set_clients reached d, (λ c, Relay c msg) <$> reached).

(** ** The event subscription *)

Definition scheduleEventReconnect (d : dash) : dash :=
  if eventReconnectTimer d then d else set_timer true d.

Definition setupEventSubscription (d : dash) : dash * list action :=
  if bool_decide (is_Some (eventSocket d)) || eventConnecting d then (d, [])
  else (set_attempts (attempts d ++ [activeEndpoint d]) (set_event (eventSocket d) true (eventInbound d) d),
        [Dial (activeEndpoint d)]).

Definition on_open (s : Z) (d : dash) : dash * list action :=
  (set_event (Some s) false [] d,
   [Write s WIRE_MAGIC] ++
   match encodeCommandFrame (SUB (js "cluster") None) with Ok frame => [Write s frame] | Throw _ => [] end).

(** One frame: every event is broadcast. *)
Definition event_of (frame : Z * bytes) : option (list (jsstr * json)) :=
  if isEventCode frame.1 then
    match decodeResponse frame.1 frame.2 with
    | Ok (event ch m) => Some [(js "channel", JStr ch); (js "message", JStr m)]
    | _ => None
    end
  else None.
Fixpoint relay (frames : list (Z * bytes)) (d : dash) : dash * list action :=
  match frames with
  | [] => (d, [])
  | frame :: frames =>
      match event_of frame with
      | Some payload =>
          let '(d, a) := broadcast "event" payload d in
          let '(d, b) := relay frames d in (d, a ++ b)
      | None => relay frames d
      end
  end.

Definition on_data (s : Z) (chunk : SocketData) (d : dash) : dash * list action :=
  if bool_decide (eventSocket d = Some s) then
    match receive (eventInbound d) (toBytes chunk) with
    | Ok (frames, rest) => relay frames (set_event (eventSocket d) (eventConnecting d) rest d)
    | Throw _ => (d, [])
    end
  else (d, []).

Definition on_close (s : Z) (d : dash) : dash :=
  if bool_decide (eventSocket d = Some s)
  then scheduleEventReconnect (set_event None (eventConnecting d) [] d) else d.

Definition on_error (s : Z) (d : dash) : dash :=
  match eventSocket d with
  | Some s' => if bool_decide (s' = s) then scheduleEventReconnect (set_event None false [] d) else d
  | None => scheduleEventReconnect (set_event None false [] d)
  end.

Definition on_connect_failed (d : dash) : dash := scheduleEventReconnect (set_event None false [] d).

(** ** Failover and status *)

Definition failoverToNext (d : dash) : dash * list action :=
  match next_endpoint (activeEndpoint d) (knownEndpoints d) with
  | None => (d, [])
  | Some next =>
      let d := set_active next 0 d in
      let '(d, ended) := match eventSocket d with
                         | Some s => (set_event None (eventConnecting d) (eventInbound d) d, [End s])
                         | None => (d, [])
                         end in
      let '(d, dialled) := setupEventSubscription d in
      (d, ended ++ dialled)
  end.

(** What [Promise.all] of the three commands gives; [None] when it rejects.
    The answer to [CLUSTER PEERS] is [None] when that command failed. *)
Definition polled : Type := option (WormResponse * WormResponse * option WormResponse).

Definition positive (x : num) : bool :=
  match x with Fin q => negb (Qle_bool q 0) | Infinity negative => negb negative | NaN => false end.

(** [pushStatus] from the moment its commands are answered; [to] is the
    target it was sent to. *)
Definition pushStatus (to : jsstr) (outcome : polled) (d : dash) : dash * list action :=
  match outcome with
  | Some (response, cluster, peersResp) =>
      let d := set_failures 0 d in
      let '(selfMeshIp, ps, d) :=
        match peersResp with
        | Some (bulk ((_ :: _) as v)) =>
            let parsed := parsePeersResponse v in
            (selfIp parsed, peers parsed,
             set_peers (if positive (selfPort parsed) && bool_decide (peers parsed ≠ [])
                        then discoverEndpoints (knownEndpoints d) (peers parsed) (selfPort parsed)
                        else knownEndpoints d) (peers parsed) d)
        | _ => ([], [], d)
        end in
      broadcast "status"
        [(js "target", JStr to); (js "selfMeshIp", JStr selfMeshIp); (js "response", response_json response);
         (js "cluster", response_json cluster); (js "peers", JArr (peer_json <$> ps));
         (js "knownEndpoints", jnum (len (knownEndpoints d))); (js "connected", JBool true)] d
  | None =>
      let d := set_failures (consecutiveFailures d + 1) d in
      let '(d, sent) := broadcast "status"
        [(js "target", JStr to); (js "connected", JBool false);
         (js "failureCount", jnum (consecutiveFailures d))] d in
      if (2 <=? consecutiveFailures d) && (1 <? len (knownEndpoints d)) then
        let '(d, a) := failoverToNext d in (d, sent ++ a)
      else (d, sent)
  end.

(** ** Events *)

Inductive dash_event :=
| Setup
| Opened (attempt : nat) (s : Z)
| ConnectFailed (attempt : nat)
| Data (s : Z) (chunk : SocketData)
| Closed (s : Z)
| Failed (s : Z)
| TimerFired
| Polled (to : jsstr) (outcome : polled)
| ClientOpened (c : Z)
| ClientClosed (c : Z).

Definition step (e : dash_event) (d : dash) : dash * list action :=
  match e with
  | Setup => setupEventSubscription d
  | Opened i s =>
      match attempts d !! i with
      | Some _ => on_open s (set_attempts (delete i (attempts d)) d)
      | None => (d, [])
      end
  | ConnectFailed i =>
      match attempts d !! i with
      | Some _ => (on_connect_failed (set_attempts (delete i (attempts d)) d), [])
      | None => (d, [])
      end
  | Data s chunk => on_data s chunk d
  | Closed s => (on_close s d, [])
  | Failed s => (on_error s d, [])
  | TimerFired => if eventReconnectTimer d then setupEventSubscription (set_timer false d) else (d, [])
  | Polled to outcome => pushStatus to outcome d
  | ClientOpened c =>
      (set_clients (if bool_decide (c ∈ wsClients d) then wsClients d else wsClients d ++ [c]) d, [])
  | ClientClosed c => (set_clients (base.filter (λ x, x ≠ c) (wsClients d)) d, [])
  end.

Fixpoint run (es : list dash_event) (d : dash) : dash * list action :=
  match es with
  | [] => (d, [])
  | e :: es => let '(d, a) := step e d in let '(d, b) := run es d in (d, a ++ b)
  end.
End Dashboard.

(** ** The subscription keeps trying, and the endpoints stay in order *)

Section Facts.
Context {N : NumberText} (sendable : Z → bool).

(** Two endpoints the dashboard takes for the same *)
Definition same_endpoint (a b : endpoint) : Prop := host a = host b ∧ num_eqb (port a) (port b) = true.
Fixpoint distinct (known : list endpoint) : Prop :=
  match known with [] => True | ep :: known => Forall (λ e, ¬ same_endpoint ep e) known ∧ distinct known end.

Record wf (d : dash) : Prop := {
  wf_alive : is_Some (eventSocket d) ∨ eventConnecting d = true ∨ eventReconnectTimer d = true;
  wf_connecting : eventConnecting d = true → attempts d ≠ [];
  wf_active : activeEndpoint d ∈ knownEndpoints d;
  wf_known : distinct (knownEndpoints d);
}.

(** [wf] without the first clause, which only holds once set up. *)
Definition sound (d : dash) : Prop :=
  (eventConnecting d = true → attempts d ≠ []) ∧
  activeEndpoint d ∈ knownEndpoints d ∧ distinct (knownEndpoints d).
Lemma wf_sound d : wf d → sound d.
Proof. by intros []. Qed.

Lemma broadcast_eq type payload d :
  ∃ cs a, broadcast sendable type payload d = (set_clients cs d, a).
Proof. by eexists _, _. Qed.

Lemma set_clients_wf cs d : wf d → wf (set_clients cs d).
Proof. by intros []. Qed.

Lemma setup_wf d : sound d → wf (setupEventSubscription d).1.
Proof.
  intros (Hc & Ha & Hk). unfold setupEventSubscription. case_bool_decide as Hs; cbn [orb].
  - split; auto.
  - destruct (eventConnecting d) eqn:Ec; [by split; auto|].
    split; cbn; auto. intros _. by destruct (attempts d).
Qed.

Lemma dash_schedule_wf d : sound d → wf (scheduleEventReconnect d).
Proof.
  intros (Hc & Ha & Hk). unfold scheduleEventReconnect.
  destruct (eventReconnectTimer d) eqn:Et; split; cbn; auto.
Qed.

Lemma delete_attempt_sound i d : sound d → sound (set_event (eventSocket d) false [] (set_attempts (delete i (attempts d)) d)).
Proof. intros (_ & Ha & Hk). by split_and!. Qed.

Lemma relay_wf frames d : wf d → wf (relay sendable frames d).1.
Proof.
  revert d. induction frames as [|f frames IH]; intros d Hd; cbn [relay]; [done|].
  destruct (event_of f) as [payload|]; [|by apply IH].
  destruct (broadcast_eq "event" payload d) as (cs & a & ->).
  pose proof (IH _ (set_clients_wf cs d Hd)) as H. by destruct (relay _ _ _).
Qed.

Lemma next_endpoint_known active known ep :
  next_endpoint active known = Some ep → ep ∈ known ∧ target ep ≠ target active.
Proof.
  unfold next_endpoint. intros H%head_Some_elem_of. apply list_elem_of_filter in H as [H1 H2]. by split.
Qed.

Lemma failover_wf d : wf d → wf (failoverToNext d).1.
Proof.
  intros Hd. unfold failoverToNext. destruct (next_endpoint _ _) as [ep|] eqn:En; [|done].
  apply next_endpoint_known in En as [Hep _]. destruct Hd as [_ Hc _ Hk].
  destruct (eventSocket d) as [s|] eqn:Es; cbn [eventSocket set_active]; rewrite Es.
  all: match goal with |- context [setupEventSubscription ?x] =>
    pose proof (setup_wf x) as H; destruct (setupEventSubscription x) as [d' a'] end.
  all: by apply H; split_and!.
Qed.

(** *** Discovery *)

Lemma knows_spec known h p : knows known h p = true ↔ Exists (λ ep, host ep = h ∧ num_eqb (port ep) p = true) known.
Proof.
  unfold knows. rewrite Exists_exists. induction known as [|ep known IH]; cbn.
  - split; [done|]. by intros (x & Hx%not_elem_of_nil & _).
  - rewrite orb_true_iff, IH, andb_true_iff, bool_decide_eq_true. split.
    + intros [[]|(x & Hx & H)]; [exists ep; by split; [left|]|exists x; by split; [right|]].
    + intros (x & [->|Hx]%elem_of_cons & H); [by left|right; by exists x].
Qed.

Lemma num_eqb_sym a b : num_eqb a b = num_eqb b a.
Proof.
  destruct a as [|[]|p], b as [|[]|q]; cbn; try done.
  destruct (Qeq_bool p q) eqn:E1, (Qeq_bool q p) eqn:E2; try done.
  - apply Qeq_bool_iff in E1. symmetry in E1. apply Qeq_bool_iff in E1. congruence.
  - apply Qeq_bool_iff in E2. symmetry in E2. apply Qeq_bool_iff in E2. congruence.
Qed.

Lemma distinct_snoc known ep : distinct known → knows known (host ep) (port ep) = false → distinct (known ++ [ep]).
Proof.
  induction known as [|e known IH]; cbn [app distinct]; [by split|]. intros [He Hd] Hk.
  cbn [knows existsb] in Hk. apply orb_false_iff in Hk as [Hk1 Hk2]. split; [|by apply IH].
  apply Forall_app. split; [done|]. apply Forall_cons. split; [|done]. intros [H1 H2].
  rewrite H1, bool_decide_eq_true_2 in Hk1 by done. cbn in Hk1. congruence.
Qed.

Lemma discover_keeps p known pr : ∃ more, discover p known pr = known ++ more.
Proof.
  unfold discover. assert (∃ more, known = known ++ more) as H by (exists []; by rewrite app_nil_r).
  repeat case_match; by eauto.
Qed.

Lemma discover_distinct p known pr : distinct known → distinct (discover p known pr).
Proof. intros Hd. unfold discover. repeat case_match; try done. by apply distinct_snoc. Qed.

Lemma discoverEndpoints_spec known ps p : distinct known →
  distinct (discoverEndpoints known ps p) ∧ ∃ more, discoverEndpoints known ps p = known ++ more.
Proof.
  unfold discoverEndpoints. revert known. induction ps as [|pr ps IH]; intros known Hd; cbn [foldl].
  { split; [done|]. exists []. by rewrite app_nil_r. }
  destruct (discover_keeps p known pr) as [m1 E1].
  destruct (IH _ (discover_distinct p known pr Hd)) as (H & m2 & E2). split; [done|].
  rewrite E2, E1. exists (m1 ++ m2). by rewrite app_assoc.
Qed.

Lemma set_peers_wf known ps d : wf d → distinct known → (∃ more, known = knownEndpoints d ++ more) →
  wf (set_peers known ps d).
Proof. intros [] Hk [more ->]. split; cbn; auto. apply elem_of_app. by left. Qed.

Lemma set_failures_wf n d : wf d → wf (set_failures n d).
Proof. by intros []. Qed.

Lemma pushStatus_wf to outcome d : wf d → wf (pushStatus sendable to outcome d).1.
Proof.
  intros Hd. unfold pushStatus. destruct outcome as [[[r c] p]|].
  - assert (∀ d', wf d' → ∀ t f, wf (broadcast sendable t f d').1) as Hb.
    { intros d' Hd' t f. destruct (broadcast_eq t f d') as (cs & a & ->). by apply set_clients_wf. }
    destruct p as [[| | |[|c1 v]|]|]; try by apply Hb, set_failures_wf.
    apply Hb, set_peers_wf; [by apply set_failures_wf|..]; cbn [knownEndpoints set_failures].
    all: destruct (positive _ && _); [by apply discoverEndpoints_spec, wf_known|].
    + by apply wf_known.
    + exists []. by rewrite app_nil_r.
  - match goal with |- context [broadcast sendable "status" ?f ?x] =>
      destruct (broadcast_eq "status" f x) as (cs & a & ->) end.
    assert (wf (set_clients cs (set_failures (consecutiveFailures d + 1) d))) as Hw
      by by apply set_clients_wf, set_failures_wf.
    case_match; [|done]. pose proof (failover_wf _ Hw) as Hf. by destruct (failoverToNext _).
Qed.

Lemma dash_step_wf e d : wf d → wf (step sendable e d).1.
Proof.
  intros Hd. pose proof (wf_sound d Hd) as Hs. destruct e as [|i s|i|s chunk|s|s| |to o|c|c]; cbn [step].
  - by apply setup_wf.
  - destruct (attempts d !! i) eqn:Ei; [|done]. destruct Hd. split; cbn; eauto.
  - destruct (attempts d !! i) eqn:Ei; [|done]. apply dash_schedule_wf. destruct Hd. by split_and!.
  - unfold on_data. case_bool_decide as E; [|done]. destruct (receive _ _) as [[fr rest]|]; [|done].
    apply relay_wf. destruct Hd. split; cbn; auto.
  - unfold on_close. case_bool_decide; [|done]. apply dash_schedule_wf. destruct Hd. by split_and!.
  - unfold on_error. assert (wf (scheduleEventReconnect (set_event None false [] d))) as H.
    { apply dash_schedule_wf. destruct Hd. by split_and!. }
    destruct (eventSocket d); [case_bool_decide; done|done].
  - destruct (eventReconnectTimer d); [|done]. apply setup_wf. destruct Hd. by split_and!.
  - by apply pushStatus_wf.
  - by apply set_clients_wf.
  - by apply set_clients_wf.
Qed.

(** C16: once set up, whatever connections open, fail or close, whatever the
    polls answer and whatever browsers come and go: the subscription is
    connected, connecting (with an attempt really in progress) or has its
    timer armed, the active endpoint is one of those known, and no endpoint
    is known twice. *)
Theorem dash_invariant seed es d a :
  run sendable (Setup :: es) (new_dash seed) = (d, a) → wf d.
Proof.
  cbn [run]. pose proof (setup_wf (new_dash seed)) as H0. cbn [step].
  destruct (setupEventSubscription (new_dash seed)) as [d0 a0].
  assert (wf d0) as Hd0. { apply H0. split_and!; [done|by left|done]. } clear H0.
  destruct (run sendable es d0) as [d1 a1] eqn:E1. intros [= <- _]. revert d0 a1 Hd0 E1.
  induction es as [|e es IH]; intros d0 a1 Hd0 E1; cbn [run] in E1; [by injection E1 as <- _|].
  pose proof (dash_step_wf e d0 Hd0) as H1. destruct (step _ e d0) as [d2 a2].
  destruct (run _ es d2) as [d3 a3] eqn:E2. injection E1 as <- _. by eapply IH.
Qed.

(** The address an alive peer can be reached at *)
Definition reachable_at (p : peer) (h : jsstr) : Prop :=
  state p = js "alive" ∧ ∃ g, gossipEndpoint p = Some g ∧ peer_host g = h ∧ h ≠ [] ∧ h ≠ js "0.0.0.0".

Lemma knows_app known more h p : knows known h p = true → knows (known ++ more) h p = true.
Proof. intros H. unfold knows in *. by rewrite existsb_app, H. Qed.

Lemma num_eqb_int z : num_eqb (Fin (inject_Z z)) (Fin (inject_Z z)) = true.
Proof. by apply Qeq_bool_iff. Qed.

Lemma discover_reachable z known p h : reachable_at p h →
  knows (discover (Fin (inject_Z z)) known p) h (Fin (inject_Z z)) = true.
Proof.
  intros (Ha & g & Hg & Hh & Hne & H0). unfold discover. rewrite Hg.
  destruct g as [|c g]; [by rewrite <- Hh in Hne|].
  rewrite (bool_decide_eq_true_2 (state p = _)) by done. cbn [negb]. rewrite Hh.
  rewrite !bool_decide_eq_false_2 by done. cbn [orb].
  destruct (knows known h (Fin (inject_Z z))) eqn:Ek; [done|].
  unfold knows. rewrite existsb_app. cbn [existsb host port].
  by rewrite bool_decide_eq_true_2, num_eqb_int, orb_true_r.
Qed.

Lemma discoverEndpoints_reachable z known ps p h : p ∈ ps → reachable_at p h →
  knows (discoverEndpoints known ps (Fin (inject_Z z))) h (Fin (inject_Z z)) = true.
Proof.
  unfold discoverEndpoints. intros Hin Hr. revert known. induction ps as [|q ps IH]; intros known.
  { by apply not_elem_of_nil in Hin. }
  cbn [foldl]. apply elem_of_cons in Hin as [->|Hin]; [|by apply IH].
  pose proof (discover_reachable z known q h Hr) as H. clear IH Hr.
  revert H. generalize (discover (Fin (inject_Z z)) known q). induction ps as [|r ps IH]; intros k H; [done|].
  cbn [foldl]. apply IH. destruct (discover_keeps (Fin (inject_Z z)) k r) as [m ->]. by apply knows_app.
Qed.

(** What a discovery adds is an alive peer at the port of the cluster. *)
Lemma discover_adds known p pr ep :
  ep ∈ discover p known pr → ep ∉ known → reachable_at pr (host ep) ∧ port ep = p.
Proof.
  unfold discover. destruct (gossipEndpoint pr) as [[|c g]|] eqn:Eg; [done| |done].
  case_bool_decide as Es; cbn [negb]; [|done].
  destruct (bool_decide _ || bool_decide _) eqn:Eo; [done|].
  apply orb_false_iff in Eo as [E1%bool_decide_eq_false E2%bool_decide_eq_false].
  destruct (knows _ _ _); [done|]. rewrite elem_of_app, list_elem_of_singleton.
  intros [?| ->] Hn; [done|]. split; [|done]. split; [done|]. by exists (c :: g).
Qed.

Lemma discoverEndpoints_adds known p ps ep :
  ep ∈ discoverEndpoints known ps p → ep ∉ known → ∃ pr, pr ∈ ps ∧ reachable_at pr (host ep) ∧ port ep = p.
Proof.
  unfold discoverEndpoints. revert known. induction ps as [|pr ps IH]; intros known; cbn [foldl]; [done|].
  intros H Hn. destruct (decide (ep ∈ discover p known pr)) as [Hd|Hd].
  - destruct (discover_adds known p pr ep Hd Hn) as [H1 H2]. exists pr. split; [by left|done].
  - destruct (IH _ H Hd) as (q & Hq & H1). exists q. split; [by right|done].
Qed.

(** The alive peers a list teaches: the first at its gossip address that is
    not dead. *)
Definition learnable (listed : list peer) (h : jsstr) : Prop :=
  ∃ p, first_live listed p ∧ reachable_at p h.

Lemma kept_learnable listed h :
  learnable listed h ↔ ∃ p, p ∈ snd <$> by_gossip_ip listed ∧ reachable_at p h.
Proof.
  split; intros (p & H & Hr); exists p; (split; [|done]); apply kept_live; try done;
    destruct Hr as [Hs _]; unfold is_dead; rewrite Hs; done.
Qed.

(** Which hosts are known after a discovery, exactly. *)
Lemma discoverEndpoints_knows z known ps h :
  knows (discoverEndpoints known ps (Fin (inject_Z z))) h (Fin (inject_Z z)) = true ↔
  knows known h (Fin (inject_Z z)) = true ∨ ∃ p, p ∈ ps ∧ reachable_at p h.
Proof.
  split.
  - intros H. unfold knows in H. apply existsb_exists in H as (ep & Hep & Hk).
    apply andb_true_iff in Hk as [<-%bool_decide_eq_true Hp]. apply list_elem_of_In in Hep.
    destruct (decide (ep ∈ known)) as [Hin|Hin].
    + left. unfold knows. apply existsb_exists. exists ep. split; [by apply list_elem_of_In|].
      by rewrite bool_decide_eq_true_2.
    + right. destruct (discoverEndpoints_adds _ _ _ _ Hep Hin) as (p & H1 & H2 & _). by exists p.
  - intros [H|(p & Hp & Hr)]; [|by eapply discoverEndpoints_reachable].
    unfold discoverEndpoints. revert known H. induction ps as [|q ps IH]; intros k H; [done|].
    cbn [foldl]. apply IH. destruct (discover_keeps (Fin (inject_Z z)) k q) as [m ->]. by apply knows_app.
Qed.

(** C17: a poll the server answers clears the count of failures and learns
    the cluster from the text the server prints.  A host is known at the port
    of the cluster afterwards if and only if it was, or the list has an alive
    member there that comes first among the members of its gossip address
    that are not dead: an alive member listed behind a suspected one or one
    that has left, at the same address, is not learnt ([suspect_hides_alive]).
    What was known stays, in order, and nothing else is added; the active
    endpoint stays. *)
Theorem poll_discovers to r c ip port members d d' a :
  plain ip → 0 < port ≤ 65535 → Forall member_ok members → wf d →
  pushStatus sendable to (Some (r, c, Some (bulk (peer_list ip port members)))) d = (d', a) →
  let at_port := Fin (inject_Z port) in
  let listed := seen_peer <$> members in
  consecutiveFailures d' = 0 ∧ activeEndpoint d' = activeEndpoint d ∧
  (∀ p, is_dead p = false → p ∈ lastPeers d' ↔ first_live listed p) ∧
  (∀ h, knows (knownEndpoints d') h at_port = true ↔
        knows (knownEndpoints d) h at_port = true ∨
        ∃ p, first_live listed p ∧ reachable_at p h) ∧
  ∃ more, knownEndpoints d' = knownEndpoints d ++ more ∧
    ∀ ep, ep ∈ more → ep ∉ knownEndpoints d →
      Peers.port ep = at_port ∧ ∃ p, first_live listed p ∧ reachable_at p (host ep).
Proof.
  intros Hip Hport Hm Hd Hpush. cbv zeta. unfold pushStatus in Hpush.
  destruct (peer_list ip port members) as [|c0 v] eqn:Epl.
  { exfalso. by vm_compute in Epl. }
  rewrite <- Epl, peers_read_back in Hpush by (done || lia). cbn [selfIp selfPort peers] in Hpush.
  set (ps := snd <$> by_gossip_ip (seen_peer <$> members)) in *.
  assert (positive (Fin (inject_Z port)) = true) as Hpos.
  { cbn. destruct (Qle_bool (inject_Z port) 0) eqn:E; [|done]. apply Qle_bool_iff in E.
    unfold Qle in E. cbn in E. lia. }
  rewrite Hpos in Hpush. cbn [andb] in Hpush.
  match type of Hpush with context [broadcast sendable "status" ?f ?x] =>
    destruct (broadcast_eq "status" f x) as (cs & b & Eb) end.
  rewrite Eb in Hpush. injection Hpush as <- _. cbn.
  assert (∀ known : list endpoint, (if bool_decide (ps ≠ []) then discoverEndpoints known ps
    (Fin (inject_Z port)) else known) = discoverEndpoints known ps (Fin (inject_Z port))) as ->.
  { intros known. by destruct ps. }
  split_and!; [done..| | |].
  - intros p Hp. by apply kept_live.
  - intros h. etransitivity; [exact (discoverEndpoints_knows port (knownEndpoints d) ps h)|].
    pose proof (kept_learnable (seen_peer <$> members) h) as Hl.
    split; (intros [?|?]; [by left|right; by apply Hl]).
  - pose proof (discoverEndpoints_spec (knownEndpoints d) ps (Fin (inject_Z port)) (wf_known d Hd)) as [_ [more E]].
    exists more. split; [done|]. intros ep Hin Hn.
    destruct (discoverEndpoints_adds (knownEndpoints d) (Fin (inject_Z port)) ps ep) as (p & H1 & H2 & H3).
    { rewrite E. apply elem_of_app. by right. }
    { done. }
    split; [done|]. apply (kept_learnable (seen_peer <$> members)). by exists p.
Qed.

(** The second failed poll in a row moves the dashboard to another known
    endpoint, if there is one: the count starts again, the subscription's
    socket is ended and, unless an attempt is in progress, the new endpoint
    is dialled. *)
Theorem failures_fail_over to d next d' a :
  wf d → 1 ≤ consecutiveFailures d → eventConnecting d = false →
  next_endpoint (activeEndpoint d) (knownEndpoints d) = Some next →
  pushStatus sendable to None d = (d', a) →
  activeEndpoint d' = next ∧ next ∈ knownEndpoints d ∧ target next ≠ target (activeEndpoint d) ∧
  consecutiveFailures d' = 0 ∧ knownEndpoints d' = knownEndpoints d ∧
  eventSocket d' = None ∧ eventConnecting d' = true ∧ attempts d' = attempts d ++ [next] ∧
  Dial next ∈ a ∧ (∀ s, eventSocket d = Some s → End s ∈ a).
Proof.
  intros Hd Hf Hc Hn Hpush. destruct (next_endpoint_known _ _ _ Hn) as [Hin Hne].
  assert (2 ≤ len (knownEndpoints d)) as Hlen.
  { pose proof (wf_active d Hd) as Ha. unfold len.
    destruct (knownEndpoints d) as [|e1 [|e2 l]]; [by apply not_elem_of_nil in Ha| |cbn; lia].
    apply list_elem_of_singleton in Ha. apply list_elem_of_singleton in Hin. congruence. }
  unfold pushStatus in Hpush.
  match type of Hpush with context [broadcast sendable "status" ?f ?x] =>
    destruct (broadcast_eq "status" f x) as (cs & b & Eb) end.
  rewrite Eb in Hpush. cbn [consecutiveFailures knownEndpoints set_clients set_failures] in Hpush.
  rewrite (proj2 (Z.leb_le 2 _)), (proj2 (Z.ltb_lt 1 _)) in Hpush by lia. cbn [andb] in Hpush.
  unfold failoverToNext in Hpush.
  cbn [activeEndpoint knownEndpoints set_clients set_failures eventSocket set_active] in Hpush. rewrite Hn in Hpush.
  destruct (eventSocket d) as [s|] eqn:Es.
  all: unfold setupEventSubscription in Hpush;
    cbn [eventSocket eventConnecting set_event set_active set_clients set_failures] in Hpush;
    rewrite ?Es, Hc in Hpush; rewrite bool_decide_eq_false_2 in Hpush by (by intros [? ?]); cbn [orb] in Hpush;
    injection Hpush as <- <-; cbn; split_and!; try done; rewrite ?Es; try done.
  - rewrite !elem_of_app. right. right. by left.
  - intros s' [= <-]. rewrite elem_of_app. right. by left.
  - rewrite !elem_of_app. right. by left.
Qed.
End Facts.

(** ** Concrete runs *)

Section Examples.
#[local] Instance plain_numbers : NumberText := λ _, [].
#[local] Notation all_sent := (λ _ : Z, true).

Definition node (h : string) : endpoint := Endpoint (js h) (Fin 6389) None.
Definition three_nodes : dash := set_peers [node "a"; node "b"; node "c"] [] (new_dash (node "a")).
Definition down : dash_event := Polled (js "x") None.
Definition dialled (acts : list action) : list endpoint :=
  omap (λ a, match a with Dial ep => Some ep | _ => None end) acts.

Definition session : list dash_event := [Opened 0 7; ClientOpened 1; Closed 7; TimerFired; down].
Lemma dash_invariant_witness :
  ∃ d a, run all_sent (Setup :: session) (new_dash (node "a")) = (d, a) ∧ wf d.
Proof.
  destruct (run all_sent (Setup :: session) (new_dash (node "a"))) as [d a] eqn:E.
  exists d, a. split; [done|]. by eapply dash_invariant.
Defined.

Definition connected : dash := set_event (Some 7) false [] (set_failures 1 three_nodes).
Lemma connected_wf : wf connected.
Proof.
  split; [left; by eexists|done|by left|].
  cbn. repeat split; repeat (apply Forall_cons; split); try apply Forall_nil; try done; by intros [[=] _].
Qed.

Lemma failures_fail_over_witness :
  let '(d, a) := pushStatus all_sent (js "a:6389") None connected in
  activeEndpoint d = node "b" ∧ Dial (node "b") ∈ a ∧ End 7 ∈ a.
Proof.
  destruct (pushStatus all_sent (js "a:6389") None connected) as [d a] eqn:E.
  destruct (failures_fail_over all_sent (js "a:6389") connected (node "b") d a)
    as (H1 & _ & _ & _ & _ & _ & _ & _ & H2 & H3); [exact connected_wf|done|done|by vm_compute|done|].
  split_and!; [done|done|by apply H3].
Defined.

Lemma poll_discovers_witness :
  let '(d, a) := pushStatus all_sent (js "a:6389")
    (Some (ok, ok, Some (bulk (peer_list (js "10.99.0.1") 6389 two_members)))) connected in
  consecutiveFailures d = 0 ∧ knows (knownEndpoints d) (js "192.168.0.4") (Fin (inject_Z 6389)) = true.
Proof.
  destruct (pushStatus _ _ _ _) as [d a] eqn:E.
  destruct (poll_discovers all_sent (js "a:6389") ok ok (js "10.99.0.1") 6389 two_members connected d a)
    as (H1 & _ & _ & H2 & _).
  - apply (bool_decide_unpack _); by vm_compute.
  - lia.
  - unfold two_members, member_ok. repeat (apply Forall_cons; split); try done; split_and!; try done;
      try (apply (bool_decide_unpack _); by vm_compute);
      intros ep [= <-]; apply (bool_decide_unpack _); by vm_compute.
  - exact connected_wf.
  - exact E.
  - split; [exact H1|]. apply H2. right.
    exists (Peer (js "10.99.0.3") (js "alive") (Some (js "192.168.0.4:51821")) (js "connected")).
    split; [|split; [done|]; eexists; split_and!; [done|by vm_compute|done|done]].
    exists [Peer (js "10.99.0.2") (js "dead") (Some (js "192.168.0.4:51821")) (js "disconnected")], [].
    split_and!; [by vm_compute|by eexists|].
    intros q Hq _. apply list_elem_of_singleton in Hq as ->. by vm_compute.
Defined.

(** The same list with the first member suspected, or having left, instead of
    dead: the alive member at the address is not learnt. *)
Lemma suspect_hides_alive :
  let learnt s := knows (knownEndpoints (pushStatus all_sent (js "a:6389")
    (Some (ok, ok, Some (bulk (peer_list (js "10.99.0.1") 6389
      [Member (js "10.99.0.2") s (Some (js "192.168.0.4:51821")) false (js "unknown", 0, 0);
       Member (js "10.99.0.3") (js "alive") (Some (js "192.168.0.4:51821")) true (js "healthy", 12, 0)]))))
    connected).1) (js "192.168.0.4") (Fin (inject_Z 6389)) in
  learnt (js "suspected") = false ∧ learnt (js "left") = false ∧ learnt (js "dead") = true.
Proof. by vm_compute. Qed.

(** With the first two endpoints down, the failover goes back and forth
    between them: the third is never tried. *)
Lemma third_endpoint_never_tried :
  let d n := (run all_sent (replicate n down) three_nodes).1 in
  activeEndpoint <$> [d 2; d 4; d 6; d 8]%nat = [node "b"; node "a"; node "b"; node "a"].
Proof. by vm_compute. Qed.

(** A failover while an attempt is in progress dials nobody: the attempt on
    the failed endpoint is the one that becomes the subscription. *)
Lemma stale_attempt_kept :
  let '(d, a) := run all_sent [Setup; down; down; Opened 0 7] three_nodes in
  activeEndpoint d = node "b" ∧ dialled a = [node "a"] ∧ eventSocket d = Some 7.
Proof. by vm_compute. Qed.

(** An error of the socket a failover has ended leaves the attempt on the new
    endpoint unnoticed: the timer dials a second time. *)
Lemma late_error_dials_twice :
  let '(d, a) := run all_sent [Setup; Opened 0 7; down; down; Failed 7; TimerFired] three_nodes in
  dialled a = [node "a"; node "b"; node "b"] ∧ attempts d = [node "b"; node "b"].
Proof. by vm_compute. Qed.
End Examples.
