(* ===== verification/DashboardServer.v ===== *)
(** * The dashboard's HTTP and WebSocket handlers ([apps/bun/src/bin/ui.ts])

    Each handler as a program of its effects: groups of commands sent to the
    database ([Promise.all]) and commands run on the host.  The commands a
    handler can cause are what the theorems bound.  Also the relay of events
    as a server-sent stream.  The codes and texts of the runtime's errors are
    parameters. *)
From Stdlib Require Import QArith.
From S2P Require Import Prelude Utf8 JsText Number Command Protocol Json Base64 KvServer WebApp Peers Dashboard.
#[local] Open Scope Z_scope.

(** ** Effects *)

(** [SendAll]: what the [Promise.all] of the calls gives.  [Spawn]: the
    standard output, the standard error and the exit code. *)
Inductive io (A : Type) : Type :=
| Ret (a : A)
| Raise (e : exn)
| SendAll (texts : list jsstr) (k : res (list WormResponse) → io A)
| Spawn (command : list jsstr) (k : res (jsstr * jsstr * Z) → io A).
Arguments Ret {A}.
Arguments Raise {A}.
Arguments SendAll {A}.
Arguments Spawn {A}.

#[export] Instance io_ret : MRet io := @Ret.
#[export] Instance io_bind : MBind io :=
  fix bind {A B} (f : A → io B) (p : io A) : io B :=
    match p with
    | Ret a => f a
    | Raise e => Raise e
    | SendAll ts k => SendAll ts (λ r, @bind A B f (k r))
    | Spawn c k => Spawn c (λ r, @bind A B f (k r))
    end.

Definition of_res {A} (r : res A) : io A := match r with Ok a => Ret a | Throw e => Raise e end.
Definition send_all (texts : list jsstr) : io (list WormResponse) := SendAll texts of_res.
Definition spawn (command : list jsstr) : io (jsstr * jsstr * Z) := Spawn command of_res.
Fixpoint catch {A} (p : io A) (h : exn → io A) : io A :=
  match p with
  | Ret a => Ret a
  | Raise e => h e
  | SendAll ts k => SendAll ts (λ r, catch (k r) h)
  | Spawn c k => Spawn c (λ r, catch (k r) h)
  end.

(** ** Requests and responses *)

Inductive ui_content :=
| Page (name : jsstr)
| Body (v : json)
| Words (t : jsstr)
| EventStream.
Record ui_response := Answer { answer_status : Z; answer_content : ui_content }.
Record ui_request := Ask { asked : request; x_admin_token : option jsstr }.

Definition notFound : ui_response := Answer 404 (Words (js "Not found")).

(** [json_text]: a JSON value in a template; [err_code]: [err.code]. *)
Class Runtime := { err_code : exn → option jsstr; json_text : json → jsstr }.

Section Handlers.
Context {N : NumberText} {E : ErrorTexts} {R : Runtime} (ADMIN_TOKEN : option jsstr).

Record ConnectionDiagnostic := Diagnostic { diag_code : option jsstr; diag_error : jsstr; diag_hint : jsstr }.

Definition formatConnectionDiagnostic (e : exn) (ep : endpoint) : ConnectionDiagnostic :=
  let code := err_code e in
  let named_ c := bool_decide (code = Some c) in
  let at_ := target ep in
  if named_ (js "ECONNREFUSED") then
    Diagnostic code (js "Connection refused by WormDB at " ++ at_ ++ js ".")
      (js "Start WormDB and confirm it listens on " ++ at_ ++ js " (default port is 6389).")
  else if named_ (js "ENOTFOUND") || named_ (js "EAI_AGAIN") then
    Diagnostic code (js "Unable to resolve WormDB host '" ++ host ep ++ js "'.")
      (js "Verify WORMDB_HOST and DNS/network configuration.")
  else if named_ (js "ETIMEDOUT") then
    Diagnostic code (js "Timed out connecting to WormDB at " ++ at_ ++ js ".")
      (js "Verify firewall/routing and that WormDB is reachable from this machine.")
  else if named_ (js "EHOSTUNREACH") || named_ (js "ENETUNREACH") then
    Diagnostic code (js "Network unreachable for WormDB target " ++ at_ ++ js ".")
      (js "Check host reachability and local network routes.")
  else
    Diagnostic code (js "Failed to reach WormDB at " ++ at_ ++ js ": " ++ err_message e)
      (js "Verify WORMDB_HOST/WORMDB_PORT and ensure WormDB is running.").

(** A property that is [undefined] is not printed. *)
Definition optional_ (name : string) (v : option jsstr) : list (jsstr * json) :=
  match v with Some v => [(js name, JStr v)] | None => [] end.

Definition diagnostic_fields (d : ConnectionDiagnostic) : list (jsstr * json) :=
  [(js "error", JStr (diag_error d)); (js "hint", JStr (diag_hint d))] ++ optional_ "code" (diag_code d).
Definition statusErrorPayload (active : endpoint) (e : exn) : json :=
  JObj ((js "target", JStr (target active)) :: diagnostic_fields (formatConnectionDiagnostic e active)).

Definition hasAdminAccess (req : ui_request) : bool :=
  match ADMIN_TOKEN with
  | None | Some [] => true
  | Some t => bool_decide (x_admin_token req = Some t)
  end.

(** ** Commands on the host *)

Definition docker_ps : list jsstr := [js "docker"; js "compose"; js "ps"; js "--format"; js "json"; js "-a"].
Definition docker_up : list jsstr := [js "docker"; js "compose"; js "up"; js "-d"].
Definition docker_down : list jsstr := [js "docker"; js "compose"; js "down"].

Definition runDeploymentCommand (command : list jsstr) : io (bool * list (jsstr * json)) :=
  '(stdout, stderr, code) ← spawn command;
  let ok := code =? 0 in
  Ret (ok, [(js "ok", JBool ok); (js "code", jnum code); (js "stdout", JStr stdout);
            (js "stderr", JStr stderr); (js "command", JStr (join (js " ") command))]).

(** One line of [docker compose ps] *)
Definition container_of (line : jsstr) : res json :=
  match JSON_parse line with
  | None => Throw SyntaxError
  | Some c =>
      let field name from := v ← prop c from; Ok match v with Some v => [(name, v)] | None => [] end in
      n ← field (js "name") (js "Name"); s ← field (js "service") (js "Service"); st ← field (js "state") (js "State");
      u ← field (js "status") (js "Status"); p ← field (js "ports") (js "Ports");
      Ok (JObj (n ++ s ++ st ++ u ++ p))
  end.
Fixpoint containers_of (lines : list jsstr) : res (list json) :=
  match lines with
  | [] => Ok []
  | l :: lines => c ← container_of l; r ← containers_of lines; Ok (c :: r)
  end.
Definition containers (stdout : jsstr) : res (list json) :=
  containers_of (base.filter (λ l, startsWith l (js "{") = true) (split_on 10 (trim stdout))).

(** The command of an action on a container *)
Definition container_command (action container : jsstr) : list jsstr :=
  if bool_decide (action = js "stop") then [js "docker"; js "stop"; js "-t"; js "10"; container]
  else if bool_decide (action = js "kill") then [js "docker"; js "kill"; container]
  else [js "docker"; js "start"; container].
Definition is_action (v : json) : option jsstr :=
  match v with
  | JStr a => if bool_decide (a ∈ [js "stop"; js "kill"; js "start"]) then Some a else None
  | _ => None
  end.
(** [container.startsWith("wormdb-")] *)
Definition wormdb_container (v : json) : res (option jsstr) :=
  match v with
  | JStr c => Ok (if startsWith c (js "wormdb-") then Some c else None)
  | _ => Throw TypeError
  end.

(** ** Routes: [active] is the active endpoint when the request arrives,
    [later] when it is answered. *)

Definition error_body (status : Z) (t : jsstr) : ui_response := Answer status (Body (JObj [(js "error", JStr t)])).
Definition deployment (r : bool * list (jsstr * json)) : ui_response :=
  Answer (if r.1 then 200 else 500) (Body (JObj r.2)).

Definition api_status (later : endpoint) : io ui_response :=
  catch
    (rs ← send_all [js "STATUS"; js "CLUSTER STATUS"];
     match rs with
     | [response; cluster] =>
         Ret (Answer 200 (Body (JObj [(js "target", JStr (target later)); (js "response", response_json response);
                                      (js "cluster", response_json cluster)])))
     | _ => Raise TypeError
     end)
    (λ e, Ret (Answer 503 (Body (statusErrorPayload later e)))).

Definition api_cluster_status (later : endpoint) : io ui_response :=
  catch
    (rs ← send_all [js "CLUSTER STATUS"];
     match rs with
     | [response] =>
         Ret (Answer 200 (Body (JObj [(js "target", JStr (target later)); (js "response", response_json response)])))
     | _ => Raise TypeError
     end)
    (λ e, Ret (Answer 503 (Body (statusErrorPayload later e)))).

Definition api_command (later : endpoint) (req : ui_request) : io ui_response :=
  if negb (hasAdminAccess req) then Ret (error_body 401 (js "unauthorized")) else
  body ← of_res (req_json (asked req));
  command ← of_res (prop body (js "command"));
  match command with
  | Some (JStr ((_ :: _) as command)) =>
      catch
        (rs ← send_all [trim command];
         match rs with
         | [response] =>
             Ret (Answer 200 (Body (JObj [(js "command", JStr (trim command)); (js "response", response_json response)])))
         | _ => Raise TypeError
         end)
        (λ e, Ret (Answer 503 (Body (JObj (diagnostic_fields (formatConnectionDiagnostic e later))))))
  | _ => Ret (error_body 400 (js "Missing command"))
  end.

Definition api_deploy (command : list jsstr) (req : ui_request) : io ui_response :=
  if negb (hasAdminAccess req) then Ret (error_body 401 (js "unauthorized")) else
  r ← runDeploymentCommand command; Ret (deployment r).

Definition api_containers : io ui_response :=
  catch
    (out ← spawn docker_ps;
     let '(stdout, _, code) := out in
     if negb (code =? 0) then Ret (error_body 500 (js "docker compose ps failed")) else
     cs ← of_res (containers stdout);
     Ret (Answer 200 (Body (JObj [(js "containers", JArr cs)]))))
    (λ e, Ret (error_body 500 (err_string e))).

Definition api_container (req : ui_request) : io ui_response :=
  if negb (hasAdminAccess req) then Ret (error_body 401 (js "unauthorized")) else
  body ← of_res (req_json (asked req));
  container ← of_res (prop body (js "container"));
  action ← of_res (prop body (js "action"));
  match container, action with
  | Some container, Some action =>
      if negb (truthy (Some container)) || negb (truthy (Some action))
      then Ret (error_body 400 (js "Missing container or action")) else
      match is_action action with
      | None => Ret (error_body 400 (js "Invalid action: " ++ json_text action))
      | Some a =>
          named ← of_res (wormdb_container container);
          match named with
          | None => Ret (error_body 400 (js "Invalid container name"))
          | Some c => r ← runDeploymentCommand (container_command a c); Ret (deployment r)
          end
      end
  | _, _ => Ret (error_body 400 (js "Missing container or action"))
  end.

(** [fetch], the upgrade of [/ws] apart. *)
Definition fetch (later : endpoint) (req : ui_request) : io ui_response :=
  let meth m := bool_decide (method (asked req) = m) in
  let at_ p := bool_decide (pathname (asked req) = p) in
  if at_ (js "/") then Ret (Answer 200 (Page (js "index.html")))
  else if at_ (js "/assets/styles.css") then Ret (Answer 200 (Page (js "styles.css")))
  else if at_ (js "/assets/app.js") then Ret (Answer 200 (Page (js "app.js")))
  else if at_ (js "/api/status") && meth (js "GET") then api_status later
  else if at_ (js "/api/cluster/status") && meth (js "GET") then api_cluster_status later
  else if at_ (js "/api/db/command") && meth (js "POST") then api_command later req
  else if at_ (js "/api/events") && meth (js "GET") then Ret (Answer 200 EventStream)
  else if at_ (js "/api/deploy/start") && meth (js "POST") then api_deploy docker_up req
  else if at_ (js "/api/deploy/stop") && meth (js "POST") then api_deploy docker_down req
  else if at_ (js "/api/docker/containers") && meth (js "GET") then api_containers
  else if at_ (js "/api/docker/container") && meth (js "POST") then api_container req
  else Ret notFound.

(** ** The WebSocket *)

(** A text sent back, or a push of the containers and the status after some
    milliseconds. *)
Inductive ws_effect := Reply (t : jsstr) | PushAfter (ms : Z).

Definition handleDockerAction (data : json) : io (list ws_effect) :=
  container ← of_res (prop data (js "container"));
  action ← of_res (prop data (js "action"));
  match container, action with
  | Some container, Some action =>
      if negb (truthy (Some container)) || negb (truthy (Some action)) then Ret [] else
      match is_action action with
      | None => Ret []
      | Some a =>
          named ← of_res (wormdb_container container);
          match named with
          | None => Ret []
          | Some c =>
              '(_, result) ← runDeploymentCommand (container_command a c);
              Ret (Reply (stringify (JObj ((js "type", JStr (js "docker_result")) :: result))) ::
                   ((λ i, PushAfter (Z.of_nat i * 1000)) <$> seq 0 11))
          end
      end
  | _, _ => Ret []
  end.

Definition handleWormCommand (later : endpoint) (data : json) : io (list ws_effect) :=
  command ← of_res (prop data (js "command"));
  if negb (truthy command) then Ret [] else
  catch
    (text ← of_res (match command with Some (JStr s) => Ok (trim s) | _ => Throw TypeError end);
     rs ← send_all [text];
     match rs with
     | [response] =>
         Ret [Reply (stringify (JObj [(js "type", JStr (js "command_result")); (js "command", JStr text);
                                      (js "response", response_json response)]))]
     | _ => Raise TypeError
     end)
    (λ e, Ret [Reply (stringify (JObj
       [(js "type", JStr (js "command_result"));
        (js "error", JStr (diag_error (formatConnectionDiagnostic e later)))]))]).

(** [message]: what does not parse is ignored; the handlers are not awaited. *)
Definition on_message (later : endpoint) (msg : jsstr) : io (list ws_effect) :=
  match JSON_parse msg with
  | None => Ret []
  | Some data =>
      match prop data (js "type") with
      | Throw _ => Ret []
      | Ok (Some (JStr t)) =>
          if bool_decide (t = js "docker_action") then handleDockerAction data
          else if bool_decide (t = js "command") then handleWormCommand later data
          else Ret []
      | Ok _ => Ret []
      end
  end.

(** [pushDocker]: what is broadcast. *)
Definition pushDocker : io (option json) :=
  catch
    (out ← spawn docker_ps;
     let '(stdout, _, code) := out in
     if negb (code =? 0) then Ret None else
     cs ← of_res (containers stdout);
     Ret (Some (JObj [(js "type", JStr (js "docker")); (js "containers", JArr cs)])))
    (λ _, Ret None).
End Handlers.

(** ** What the handlers can cause *)

Inductive does {A} (PT : jsstr → Prop) (PC : list jsstr → Prop) : io A → Prop :=
| does_ret a : does PT PC (Ret a)
| does_raise e : does PT PC (Raise e)
| does_send ts k : Forall PT ts → (∀ r, does PT PC (k r)) → does PT PC (SendAll ts k)
| does_spawn c k : PC c → (∀ r, does PT PC (k r)) → does PT PC (Spawn c k).

Section Does.
Context (PT : jsstr → Prop) (PC : list jsstr → Prop).

Lemma does_bind {A B} (p : io A) (f : A → io B) :
  does PT PC p → (∀ a, does PT PC (f a)) → does PT PC (p ≫= f).
Proof. intros Hp Hf. induction Hp; cbn; [done|constructor..]; auto. Qed.

Lemma does_catch {A} (p : io A) h : does PT PC p → (∀ e, does PT PC (h e)) → does PT PC (catch p h).
Proof. intros Hp Hh. induction Hp; cbn; [constructor|done|constructor..]; auto. Qed.

Lemma does_of_res {A} (r : res A) : does PT PC (of_res r).
Proof. destruct r; constructor. Qed.

Lemma does_send_all ts : Forall PT ts → does PT PC (send_all ts).
Proof. intros H. constructor; [done|]. intros r. apply does_of_res. Qed.

Lemma does_run command : PC command → does PT PC (runDeploymentCommand command).
Proof.
  intros H. apply does_bind; [constructor; [done|]; intros; apply does_of_res|].
  intros [[o e] c]. constructor.
Qed.
End Does.

Create HintDb does.
#[export] Hint Resolve does_of_res does_send_all does_run : does.

(** One step through a handler *)
Ltac walk := first
  [ solve [eauto with does]
  | apply does_ret | apply does_raise
  | apply does_catch; intros
  | apply does_bind; intros
  | apply does_spawn; intros
  | match goal with
    | |- does _ _ (match ?x with _ => _ end) => destruct x eqn:?
    | |- does _ _ (if ?x then _ else _) => destruct x eqn:?
    end ].

Section Safety.
Context {N : NumberText} {E : ErrorTexts} {R : Runtime} (ADMIN_TOKEN : option jsstr).

(** The commands the dashboard may run on its host: compose, and one of three
    actions on a container of the deployment, its name a single argument. *)
Definition allowed (command : list jsstr) : Prop :=
  command ∈ [docker_ps; docker_up; docker_down] ∨
  ∃ c, startsWith c (js "wormdb-") = true ∧
    command ∈ [[js "docker"; js "stop"; js "-t"; js "10"; c]; [js "docker"; js "kill"; c];
               [js "docker"; js "start"; c]].

Lemma container_command_allowed a v c :
  wormdb_container v = Ok (Some c) → allowed (container_command a c).
Proof.
  intros H. right. exists c. split.
  - destruct v as [| | |s| |]; cbn [wormdb_container] in H; try done.
    destruct (startsWith s (js "wormdb-")) eqn:Es; by simplify_eq.
  - unfold container_command. case_bool_decide; [by left|]. case_bool_decide; [right; by left|right; right; by left].
Qed.

Lemma ps_allowed : allowed docker_ps.
Proof. left. by left. Qed.
Lemma up_allowed : allowed docker_up.
Proof. left. right. by left. Qed.
Lemma down_allowed : allowed docker_down.
Proof. left. right. right. by left. Qed.

(** What does not send commands of its own choice. *)
Definition any_text (t : jsstr) : Prop := True.

(** C15: whatever is asked over HTTP or over the WebSocket, the only commands
    run on the host are those of [allowed]: nothing of a request reaches a
    command but one of three fixed actions and a container name that starts
    with [wormdb-], as an argument of its own. *)
Theorem only_allowed_commands later req msg :
  does any_text allowed (fetch ADMIN_TOKEN later req) ∧ does any_text allowed (on_message later msg).
Proof.
  assert (∀ e, does any_text allowed (Ret (A := ui_response) e)) as Hret by constructor.
  assert (∀ a v c, wormdb_container v = Ok (Some c) → does any_text allowed (runDeploymentCommand (container_command a c)))
    as Hrun by (intros; by apply does_run, (container_command_allowed _ v)).
  assert (∀ ts, does any_text allowed (send_all ts)) as Hsend
    by (intros ts; apply does_send_all, Forall_forall; done).
  assert (∀ v B (f : option jsstr → io B),
    (∀ c, wormdb_container v = Ok (Some c) → does any_text allowed (f (Some c))) → does any_text allowed (f None) →
    does any_text allowed (of_res (wormdb_container v) ≫= f)) as Hname.
  { intros v B f H1 H2. destruct (wormdb_container v) as [[c|]|e] eqn:Ev; cbn; [by apply H1|done|constructor]. }
  pose proof ps_allowed. pose proof up_allowed. pose proof down_allowed.
  split.
  - unfold fetch, api_status, api_cluster_status, api_command, api_deploy, api_containers, api_container, spawn.
    repeat first [apply Hname; intros | walk].
  - unfold on_message, handleDockerAction, handleWormCommand.
    repeat first [apply Hname; intros | walk].
Qed.

(** Without the admin token a request over HTTP can only look: the
    database is asked for its status, the host for its containers, and
    nothing else happens. *)
Theorem unauthorised_only_look later req t :
  ADMIN_TOKEN = Some t → t ≠ [] → x_admin_token req ≠ Some t →
  does (λ s, s ∈ [js "STATUS"; js "CLUSTER STATUS"]) (λ c, c = docker_ps) (fetch ADMIN_TOKEN later req).
Proof.
  intros Ht Hne Hx.
  assert (hasAdminAccess ADMIN_TOKEN req = false) as Ha.
  { unfold hasAdminAccess. rewrite Ht. destruct t as [|c t]; [done|]. by apply bool_decide_eq_false_2. }
  assert (∀ ts, Forall (λ s, s ∈ [js "STATUS"; js "CLUSTER STATUS"]) ts →
    does (λ s, s ∈ [js "STATUS"; js "CLUSTER STATUS"]) (λ c, c = docker_ps) (send_all ts)) as Hsend
    by (intros ts; apply does_send_all).
  unfold fetch, api_status, api_cluster_status, api_command, api_deploy, api_containers, api_container, spawn.
  rewrite Ha. cbn [negb].
  repeat first [apply Hsend; apply (bool_decide_unpack _); by vm_compute | walk].
Qed.

(** The WebSocket asks for no token: a message runs an action on a container,
    and any command of the database. *)
Lemma websocket_asks_no_token later :
  match on_message later (stringify (JObj [(js "type", JStr (js "docker_action"));
          (js "container", JStr (js "wormdb-1")); (js "action", JStr (js "kill"))])) with
  | Spawn command _ => command = [js "docker"; js "kill"; js "wormdb-1"]
  | _ => False
  end ∧
  match on_message later (stringify (JObj [(js "type", JStr (js "command")); (js "command", JStr (js "DEL k"))])) with
  | SendAll texts _ => texts = [js "DEL k"]
  | _ => False
  end.
Proof. split; by vm_compute. Qed.
End Safety.

(** ** The server-sent events *)

(** [buffer.indexOf("\r\n")] and the two slices around it *)
Fixpoint cut_line (s : jsstr) : option (jsstr * jsstr) :=
  match s with
  | [] => None
  | c :: r =>
      match r with
      | d :: r' => if (c =? 13) && (d =? 10) then Some ([], r') else '(l, t) ← cut_line r; Some (c :: l, t)
      | [] => None
      end
  end.

Definition crlf : jsstr := [13; 10].
(** [`data: ${JSON.stringify({ channel, message })}\n\n`] *)
Definition sse_text (channel message : jsstr) : jsstr :=
  js "data: " ++ stringify (JObj [(js "channel", JStr channel); (js "message", JStr message)]) ++ [10; 10].

(** The loop of the [data] callback; a line takes at least two units, so the
    length of the buffer bounds the rounds. *)
Fixpoint sse_loop (fuel : nat) (buffer : jsstr) : list jsstr * jsstr :=
  match fuel with
  | O => ([], buffer)
  | S fuel =>
      match cut_line buffer with
      | None => ([], buffer)
      | Some (line, rest) =>
          if startsWith line (js ">EVENT ") then
            match cut_line rest with
            | Some (message, rest) =>
                let '(out, b) := sse_loop fuel rest in
                (sse_text (trim (slice_from line 7)) message :: out, b)
            | None => ([], line ++ crlf ++ rest)
            end
          else sse_loop fuel rest
      end
  end.
(** The callback: what is enqueued, and the buffer afterwards. *)
Definition sse_data (buffer : jsstr) (chunk : jsstr) : list jsstr * jsstr :=
  let b := buffer ++ chunk in sse_loop (length b) b.

Fixpoint sse_run (buffer : jsstr) (chunks : list jsstr) : list jsstr * jsstr :=
  match chunks with
  | [] => ([], buffer)
  | c :: chunks => let '(out, b) := sse_data buffer c in let '(out', b) := sse_run b chunks in (out ++ out', b)
  end.

Lemma cut_line_inv s l r : cut_line s = Some (l, r) → s = l ++ crlf ++ r.
Proof.
  revert l. induction s as [|c s IH]; intros l; [done|]. cbn [cut_line].
  destruct s as [|d s]; [done|]. destruct (Z.eqb_spec c 13) as [->|]; cbn [andb].
  - destruct (Z.eqb_spec d 10) as [->|]; [by intros [= <- <-]|].
    intros ([l' t] & E & [= <- <-])%bind_Some. by rewrite (IH l' E).
  - intros ([l' t] & E & [= <- <-])%bind_Some. by rewrite (IH l' E).
Qed.

Lemma cut_line_app s t l r : cut_line s = Some (l, r) → cut_line (s ++ t) = Some (l, r ++ t).
Proof.
  revert l. induction s as [|c s IH]; intros l; [done|]. cbn [app cut_line].
  destruct s as [|d s]; [done|]. cbn [app]. destruct ((c =? 13) && (d =? 10)); [by intros [= <- <-]|].
  intros ([l' x] & E & [= <- <-])%bind_Some. change (d :: s ++ t) with ((d :: s) ++ t). by rewrite (IH l' E).
Qed.

(** A text without line break is a line, with whatever follows. *)
Lemma cut_line_at l r : cut_line l = None → cut_line (l ++ crlf ++ r) = Some (l, r).
Proof.
  induction l as [|c l IH]; [done|]. intros Hl. destruct l as [|d l].
  - cbn. by rewrite andb_false_r.
  - change (cut_line (c :: d :: l)) with
      (if (c =? 13) && (d =? 10) then Some ([], l) else '(l, t) ← cut_line (d :: l); Some (c :: l, t)) in Hl.
    destruct ((c =? 13) && (d =? 10)) eqn:E; [done|]. destruct (cut_line (d :: l)) as [[]|]; [done|]. specialize (IH eq_refl).
    change (cut_line ((c :: d :: l) ++ crlf ++ r)) with
      (if (c =? 13) && (d =? 10) then Some ([], l ++ crlf ++ r) else '(l, t) ← cut_line ((d :: l) ++ crlf ++ r); Some (c :: l, t)).
    by rewrite E, IH.
Qed.

Lemma cut_line_none_app l r : 13 ∉ l → cut_line r = None → cut_line (l ++ r) = None.
Proof.
  intros Hl Hr. induction l as [|c l IH]; [done|]. apply not_elem_of_cons in Hl as [Hc Hl].
  specialize (IH Hl). cbn [app cut_line]. destruct (l ++ r) as [|d s]; [done|].
  destruct (Z.eqb_spec c 13); [congruence|]. cbn [andb]. by rewrite IH.
Qed.

Lemma sse_loop_fuel n m s : (length s ≤ n)%nat → (length s ≤ m)%nat → sse_loop n s = sse_loop m s.
Proof.
  revert m s. induction n as [|n IH]; intros m s Hn Hm.
  { destruct s; [|cbn in Hn; lia]. by destruct m. }
  destruct m as [|m]; [by destruct s; [|cbn in Hm; lia]|]. cbn [sse_loop].
  destruct (cut_line s) as [[l r]|] eqn:E; [|done]. apply cut_line_inv in E. subst s.
  rewrite !length_app in Hn, Hm. cbn in Hn, Hm.
  destruct (startsWith _ _); [|apply IH; lia].
  destruct (cut_line r) as [[m' r']|] eqn:E'; [|done]. apply cut_line_inv in E'. subst r.
  rewrite !length_app in Hn, Hm. cbn in Hn, Hm. by rewrite (IH m r') by lia.
Qed.

Definition sse_all (s : jsstr) : list jsstr * jsstr := sse_loop (length s) s.

Lemma sse_all_step s : sse_all s =
  match cut_line s with
  | None => ([], s)
  | Some (line, rest) =>
      if startsWith line (js ">EVENT ") then
        match cut_line rest with
        | Some (message, rest) => let '(out, b) := sse_all rest in (sse_text (trim (slice_from line 7)) message :: out, b)
        | None => ([], s)
        end
      else sse_all rest
  end.
Proof.
  unfold sse_all. destruct s as [|c s]; [done|]. cbn [length sse_loop].
  destruct (cut_line (c :: s)) as [[l r]|] eqn:E; [|done]. apply cut_line_inv in E.
  assert (length (c :: s) = (length l + 2 + length r)%nat) as Hl by (rewrite E, !length_app; cbn; lia).
  cbn [length] in Hl. destruct (startsWith _ _); [|apply sse_loop_fuel; lia].
  destruct (cut_line r) as [[m r']|] eqn:E'; [|by rewrite E]. apply cut_line_inv in E'.
  assert (length r = (length m + 2 + length r')%nat) as Hr by (rewrite E', !length_app; cbn; lia).
  by rewrite (sse_loop_fuel (length s) (length r') r') by lia.
Qed.

(** Reading on from what is left is reading the whole. *)
Lemma sse_all_app s t : sse_all (s ++ t) =
  let '(out, b) := sse_all s in let '(out', b') := sse_all (b ++ t) in (out ++ out', b').
Proof.
  remember (length s) as n eqn:Hn. revert s Hn. induction (lt_wf n) as [n _ IH]. intros s ->.
  rewrite (sse_all_step s). destruct (cut_line s) as [[l r]|] eqn:E; [|by destruct (sse_all (s ++ t))].
  rewrite (sse_all_step (s ++ t)), (cut_line_app _ t _ _ E). apply cut_line_inv in E as Es.
  assert (length r < length s)%nat as Hlt by (rewrite Es, !length_app; cbn; lia).
  destruct (startsWith l (js ">EVENT ")) eqn:Ev; [|by apply IH with (y := length r)].
  destruct (cut_line r) as [[m r']|] eqn:E'.
  - rewrite (cut_line_app _ t _ _ E'). apply cut_line_inv in E'.
    assert (length r' < length s)%nat as Hlt' by (rewrite E', !length_app in Hlt; cbn in Hlt; lia).
    rewrite (IH (length r') Hlt' r' eq_refl). destruct (sse_all r') as [o b].
    by destruct (sse_all (b ++ t)) as [o' b'].
  - cbn [app]. rewrite (sse_all_step (s ++ t)), (cut_line_app _ t _ _ E), Ev.
    destruct (cut_line (r ++ t)) as [[m r']|]; [|done]. by destruct (sse_all r').
Qed.

(** What is left holds no event. *)
Lemma sse_all_rest s out b : sse_all s = (out, b) → sse_all b = ([], b).
Proof.
  remember (length s) as n eqn:Hn. revert s out Hn. induction (lt_wf n) as [n _ IH]. intros s out -> H.
  rewrite sse_all_step in H. destruct (cut_line s) as [[l r]|] eqn:E.
  2: { injection H as <- <-. by rewrite sse_all_step, E. }
  apply cut_line_inv in E as Es.
  assert (length r < length s)%nat as Hlt by (rewrite Es, !length_app; cbn; lia).
  destruct (startsWith l (js ">EVENT ")) eqn:Ev; [|by eapply IH].
  destruct (cut_line r) as [[m r']|] eqn:E'.
  - apply cut_line_inv in E'.
    assert (length r' < length s)%nat as Hlt' by (rewrite E', !length_app in Hlt; cbn in Hlt; lia).
    destruct (sse_all r') as [o b'] eqn:Er. injection H as <- <-. by eapply IH.
  - injection H as <- <-. by rewrite sse_all_step, E, Ev, E'.
Qed.

Lemma sse_run_all buffer chunks : sse_all buffer = ([], buffer) →
  sse_run buffer chunks = sse_all (buffer ++ concat chunks).
Proof.
  revert buffer. induction chunks as [|c chunks IH]; intros buffer Hs; cbn [sse_run concat].
  - by rewrite app_nil_r.
  - change (sse_data buffer c) with (sse_all (buffer ++ c)). rewrite app_assoc, (sse_all_app (buffer ++ c)).
    destruct (sse_all (buffer ++ c)) as [o b] eqn:E. rewrite IH; [done|].
    by apply sse_all_rest in E.
Qed.

(** The stream of a subscription: the acknowledgement and the events. *)
Definition event_lines (e : jsstr * jsstr) : jsstr := js ">EVENT " ++ e.1 ++ crlf ++ e.2 ++ crlf.
Definition sse_stream (events : list (jsstr * jsstr)) : jsstr := js "+OK" ++ crlf ++ (events ≫= event_lines).

(** Neither part of an event breaks the line. *)
Definition sse_event_ok (e : jsstr * jsstr) : Prop := cut_line e.1 = None ∧ cut_line e.2 = None.

Lemma sse_all_events events : Forall sse_event_ok events →
  sse_all (events ≫= event_lines) = ((λ e, sse_text (trim e.1) e.2) <$> events, []).
Proof.
  induction 1 as [|[ch m] events (H1 & H2) _ IH]; [done|]. cbn [fst snd] in *.
  rewrite bind_cons, sse_all_step. unfold event_lines at 1. cbn [fst snd]. rewrite <- !app_assoc.
  rewrite (app_assoc (js ">EVENT ") ch), cut_line_at.
  2: { apply cut_line_none_app; [apply (bool_decide_unpack _); by vm_compute|done]. }
  rewrite startsWith_app, cut_line_at by done. rewrite IH. cbn [fmap list_fmap fst snd].
  by rewrite slice_from_app.
Qed.

(** *** Chunks of bytes *)

(** A chunk that cuts no character *)
Definition whole (chunk : bytes) : Prop := ∃ cps, Forall is_scalar cps ∧ chunk = cps ≫= encode_cp.

Lemma whole_texts chunks text : Forall whole chunks → well_formed text = true → concat chunks = text_encode text →
  concat (buffer_text <$> chunks) = text.
Proof.
  intros Hw Ht Hc. pose proof (well_formed_units _ Ht) as Hu. assert (∃ cpss, Forall (Forall is_scalar) cpss ∧ chunks = (λ cps, cps ≫= encode_cp) <$> cpss) as (cpss & Hs & ->).
  { clear Hc. induction Hw as [|c chunks (cps & Hcps & ->) _ (cpss & Hs & ->)]; [by exists []|]. exists (cps :: cpss). by split; [constructor|]. }
  rewrite <- (units_code_points text) by done. unfold text_encode in Hc.
  assert (concat cpss = code_points text) as <-.
  { rewrite <- (dec_run_encode (code_points text)), <- Hc by by apply code_points_scalar.
    rewrite <- (dec_run_encode (concat cpss)).
    - f_equal. clear. induction cpss as [|cps cpss IH]; [done|]. by rewrite fmap_cons, !concat_cons, bind_app, IH.
    - clear Hc Hw. induction Hs as [|cps cpss H _ IH]; [constructor|]. rewrite concat_cons. apply Forall_app. split; [exact H|exact IH]. }
  clear Hc Hw. induction Hs as [|cps cpss H _ IH]; [done|]. rewrite !fmap_cons, !concat_cons, IH.
  unfold buffer_text. rewrite dec_run_encode by done. unfold units. by rewrite bind_app.
Qed.

(** A stream of ASCII has no character to cut. *)
Lemma ascii_whole chunks : Forall (λ b, 0 ≤ b ≤ 0x7F) (concat chunks) → Forall whole chunks.
Proof.
  induction chunks as [|c chunks IH]; [constructor|]. cbn [concat]. intros [Hc Hr]%Forall_app. constructor; [|by apply IH].
  clear IH Hr. exists c. split; [eapply Forall_impl; [exact Hc|]; intros b Hb; unfold is_scalar; cbv beta in Hb; lia|].
  induction Hc as [|b c Hb _ IH]; [done|]. rewrite bind_cons, <- IH. unfold encode_cp. by destruct (Z.ltb_spec b 0x80); [|lia].
Qed.

(** C33: of a stream whose bytes are cut anywhere between two characters, so
    anywhere in a stream of ASCII, the browser is sent the events, each once
    and in order, the channel trimmed, and nothing is left over.  The texts of
    an event are well-formed and break no line; one with a line break in it is sent in part
    ([broken_message_cut]), and a character that is cut arrives as two
    replacement characters ([cut_character_lost]). *)
Theorem sse_relays events chunks :
  Forall sse_event_ok events → well_formed (sse_stream events) = true →
  Forall whole chunks → concat chunks = text_encode (sse_stream events) →
  sse_run [] (buffer_text <$> chunks) = ((λ e, sse_text (trim e.1) e.2) <$> events, []).
Proof.
  intros He Hw Hc Hs. rewrite sse_run_all by done. cbn [app]. rewrite (whole_texts _ _ Hc Hw Hs), sse_all_step. unfold sse_stream.
  rewrite cut_line_at by by vm_compute. by apply sse_all_events.
Qed.

(** ** Concrete requests *)

Section Examples.
#[local] Existing Instance plain_errors.
#[local] Instance plain_numbers : NumberText := λ _, [].
#[local] Instance no_codes : Runtime := Build_Runtime (λ _, None) (λ _, []).

Definition start_request : ui_request :=
  Ask (Request (js "POST") (js "/api/deploy/start") None) (Some (js "guess")).
Lemma unauthorised_only_look_witness :
  does (λ s, s ∈ [js "STATUS"; js "CLUSTER STATUS"]) (λ c, c = docker_ps)
    (fetch (Some (js "secret")) (Endpoint (js "a") (Fin 6389) None) start_request).
Proof. apply (unauthorised_only_look (Some (js "secret")) _ start_request (js "secret")); done. Defined.

Definition e_acute : bytes := [0xC3; 0xA9].

Lemma sse_relays_witness :
  sse_run [] (buffer_text <$> [text_encode (js "+OK"); [13]; 10 :: text_encode (js ">EVENT cluster"); text_encode crlf; e_acute; text_encode crlf]) =
  ([sse_text (js "cluster") [0xE9]], []).
Proof.
  apply (sse_relays [(js "cluster", [0xE9])]).
  - apply Forall_singleton. split; by vm_compute.
  - by vm_compute.
  - change [text_encode (js "+OK"); [13]; 10 :: text_encode (js ">EVENT cluster"); text_encode crlf; e_acute; text_encode crlf] with
      ([text_encode (js "+OK"); [13]; 10 :: text_encode (js ">EVENT cluster"); text_encode crlf] ++ [e_acute] ++ [text_encode crlf]).
    apply Forall_app. split; [apply ascii_whole, (bool_decide_unpack _); by vm_compute|].
    constructor; [|apply ascii_whole, (bool_decide_unpack _); by vm_compute].
    exists [0xE9]. split; [apply Forall_singleton; unfold is_scalar; lia|by vm_compute].
  - by vm_compute.
Defined.

(** A message with a line break in it is sent up to there. *)
Lemma broken_message_cut : (sse_run [] [sse_stream [(js "c", js "up" ++ crlf ++ js "down")]]).1 = [sse_text (js "c") (js "up")].
Proof. by vm_compute. Qed.

(** The callback turns every chunk into text by itself: a character cut in
    two by the chunks is lost. *)
Lemma cut_character_lost :
  (sse_run [] (buffer_text <$>
     [text_encode (js "+OK" ++ crlf ++ js ">EVENT c" ++ crlf) ++ [0xC3]; [0xA9] ++ text_encode crlf])).1 =
  [sse_text (js "c") [0xFFFD; 0xFFFD]] ∧
  text_encode [0xE9] = [0xC3; 0xA9].
Proof. by vm_compute. Qed.
End Examples.
