(* ===== verification/MeshCanvas.v ===== *)
(** * The mesh canvas of the dashboard ([apps/bun/src/ui/mesh.ts])

    The nodes and connections that are drawn, as [updateFromStatus] makes
    them, and the render loop with its animation frames.  Positions, sizes
    and the drawing itself are not modelled.  A count that is no integer is
    not a number. *)
From S2P Require Import Prelude JsText Number Peers.
#[local] Open Scope Z_scope.

Inductive node_state := Alive | Suspected | Dead.
#[export] Instance node_state_eq_dec : EqDecision node_state.
Proof. solve_decision. Defined.

Record MeshNode := Node { id : jsstr; node_ip : jsstr; n_state : node_state; isSelf : bool }.
Record MeshConnection := Connection { from : jsstr; to : jsstr }.
#[export] Instance mesh_node_eq_dec : EqDecision MeshNode.
Proof. solve_decision. Defined.
#[export] Instance connection_eq_dec : EqDecision MeshConnection.
Proof. solve_decision. Defined.

(** What a frame that was requested will do: one of the two that [start]
    waits for, or a round of the loop *)
Inductive callback := Deferred | Measured | Looping.
#[export] Instance callback_eq_dec : EqDecision callback.
Proof. solve_decision. Defined.

(** [nodes] is a [Map]; [frames]: the callbacks that wait for a frame, by
    their handle. *)
Record canvas := Canvas {
  nodes : list (jsstr * MeshNode); connections : list MeshConnection; c_selfIp : jsstr;
  animFrame : option nat; isRunning : bool; frameCount : Z; frames : list (nat * callback); requested : nat }.

Definition new_canvas : canvas := Canvas [] [] [] None false 0 [] 0.

Definition set_nodes ns cs ip (m : canvas) : canvas :=
  Canvas ns cs ip (animFrame m) (isRunning m) (frameCount m) (frames m) (requested m).

(** ** Nodes and connections *)

Definition addOrUpdateNode (i ip : jsstr) (s : node_state) (self : bool) (ns : list (jsstr * MeshNode)) : list (jsstr * MeshNode) :=
  match map_get ns i with
  | Some n => map_set ns i (Node (id n) ip s (isSelf n))
  | None => map_set ns i (Node i ip s self)
  end.

Definition peer_id (ip : jsstr) : jsstr := js "peer-" ++ ip.
Definition state_of (s : jsstr) : node_state :=
  if bool_decide (s = js "alive") then Alive else if bool_decide (s = js "suspected") then Suspected else Dead.

(** [existingIds] that are not in [currentIds] are deleted. *)
Definition remove_gone (existing current : list jsstr) (ns : list (jsstr * MeshNode)) : list (jsstr * MeshNode) :=
  base.filter (λ e : jsstr * MeshNode, ¬ (e.1 ∈ existing ∧ e.1 ∉ current)) ns.

Definition kv_count (kv : gmap jsstr jsstr) (name : string) : option Z := as_integer (parseInt (or_text (kv !! js name) (js "0"))).

(** A peer of the fallback, which has only the counts *)
Definition made_up (alive suspected : Z) (i : nat) : jsstr * jsstr * node_state :=
  let z := Z.of_nat i in
  (js "peer-" ++ show z, js "10.99." ++ show (z / 255 + 1) ++ js "." ++ show (z mod 255 + 1),
   if z <? alive then Alive else if z <? alive + suspected then Suspected else Dead).

Definition add_peer (ns : list (jsstr * MeshNode)) (p : jsstr * jsstr * node_state) : list (jsstr * MeshNode) :=
  addOrUpdateNode p.1.1 p.1.2 p.2 false ns.

Definition self : jsstr := js "self".

Definition updateFromStatus (kv : gmap jsstr jsstr) (ps : list peer) (m : canvas) : canvas :=
  let enabled := bool_decide (kv !! js "cluster_enabled" ≠ Some (js "0")) in
  if negb enabled || bool_decide (kv_count kv "cluster_nodes" = Some 0) then
    set_nodes (addOrUpdateNode self (js "127.0.0.1") Alive true []) [] (c_selfIp m) m
  else
    let existingIds := (nodes m).*1 in
    let selfIp := or_text (kv !! js "mesh_ip") (js "10.99.x.x") in
    let ns := addOrUpdateNode self selfIp Alive true (nodes m) in
    match ps with
    | _ :: _ =>
        let added := (λ p, (peer_id (meshIp p), meshIp p, state_of (state p))) <$> ps in
        let ns := remove_gone existingIds (self :: added.*1.*1) (foldl add_peer ns added) in
        let cs := omap (λ p, let i := peer_id (meshIp p) in
                     if bool_decide (wormwire p = js "connected" ∧ is_Some (map_get ns i)) then Some (Connection self i) else None) ps in
        set_nodes ns cs selfIp m
    | [] =>
        let added :=
          match kv_count kv "cluster_alive", kv_count kv "cluster_suspected", kv_count kv "cluster_dead" with
          | Some alive, Some suspected, Some dead => made_up alive suspected <$> seq 0 (Z.to_nat (alive + suspected + dead))
          | _, _, _ => []
          end in
        let ns := remove_gone existingIds (self :: added.*1.*1) (foldl add_peer ns added) in
        let aliveNodes := base.filter (λ n, n_state n = Alive ∧ id n ≠ self) ns.*2 in
        set_nodes ns ((λ n, Connection self (id n)) <$> aliveNodes) selfIp m
    end.

(** The counts of [drawHUD] *)
Definition hud (m : canvas) : Z * Z * Z :=
  (len (nodes m), len (base.filter (λ n, n_state n = Alive) (nodes m).*2), len (connections m)).

(** ** The render loop *)

Definition set_loop a r c fs q (m : canvas) : canvas := Canvas (nodes m) (connections m) (c_selfIp m) a r c fs q.

Definition start (m : canvas) : canvas :=
  if isRunning m then m
  else set_loop (animFrame m) true (frameCount m) (frames m ++ [(requested m, Deferred)]) (S (requested m)) m.

Definition stop (m : canvas) : canvas :=
  set_loop None false (frameCount m)
    (match animFrame m with Some h => base.filter (λ f : nat * callback, f.1 ≠ h) (frames m) | None => frames m end) (requested m) m.

(** A round of [loop], which [_startLoop] begins with *)
Definition loop (m : canvas) : canvas :=
  if isRunning m then
    set_loop (Some (requested m)) true (frameCount m + 1) (frames m ++ [(requested m, Looping)]) (S (requested m)) m
  else m.

Definition on_frame (h : nat) (m : canvas) : canvas :=
  match list_find (λ f : nat * callback, f.1 = h) (frames m) with
  | None => m
  | Some (_, (_, c)) =>
      let m := set_loop (animFrame m) (isRunning m) (frameCount m) (base.filter (λ f : nat * callback, f.1 ≠ h) (frames m)) (requested m) m in
      match c with
      | Deferred => set_loop (animFrame m) (isRunning m) (frameCount m) (frames m ++ [(requested m, Measured)]) (S (requested m)) m
      | Measured | Looping => loop m
      end
  end.

Inductive event := Start | Stop | Frame (h : nat) | Status (kv : gmap jsstr jsstr) (ps : list peer).
Definition step (e : event) (m : canvas) : canvas :=
  match e with
  | Start => start m
  | Stop => stop m
  | Frame h => on_frame h m
  | Status kv ps => updateFromStatus kv ps m
  end.
Definition run (es : list event) (m : canvas) : canvas := foldl (λ m e, step e m) m es.

(** ** What is drawn *)

(** The peers a status stands for: those listed, or one for each it counts *)
Definition listed (kv : gmap jsstr jsstr) (ps : list peer) : list (jsstr * jsstr * node_state) :=
  match ps with
  | _ :: _ => (λ p, (peer_id (meshIp p), meshIp p, state_of (state p))) <$> ps
  | [] =>
      match kv_count kv "cluster_alive", kv_count kv "cluster_suspected", kv_count kv "cluster_dead" with
      | Some alive, Some suspected, Some dead => made_up alive suspected <$> seq 0 (Z.to_nat (alive + suspected + dead))
      | _, _, _ => []
      end
  end.

Definition named (k : jsstr) (l : list (jsstr * jsstr * node_state)) : option (jsstr * jsstr * node_state) :=
  last (base.filter (λ p : jsstr * jsstr * node_state, p.1.1 = k) l).

(** Each node is filed under its id, and only [self] is the node itself. *)
Definition filed (ns : list (jsstr * MeshNode)) : Prop :=
  NoDup ns.*1 ∧ ∀ k n, map_get ns k = Some n → id n = k ∧ isSelf n = bool_decide (k = self).

Lemma add_node i ip s ns : filed ns →
  let ns' := addOrUpdateNode i ip s (bool_decide (i = self)) ns in
  filed ns' ∧ ∀ k, map_get ns' k = if decide (i = k) then Some (Node i ip s (bool_decide (i = self))) else map_get ns k.
Proof.
  intros [Hd Hf]. cbv zeta.
  assert (addOrUpdateNode i ip s (bool_decide (i = self)) ns = map_set ns i (Node i ip s (bool_decide (i = self)))) as ->.
  { unfold addOrUpdateNode. destruct (map_get ns i) as [n|] eqn:E; [|done]. by destruct (Hf i n E) as [-> ->]. }
  assert (∀ k, map_get (map_set ns i (Node i ip s (bool_decide (i = self)))) k =
    if decide (i = k) then Some (Node i ip s (bool_decide (i = self))) else map_get ns k) as Hg.
  { intros k. rewrite map_get_set. by case_bool_decide; case_decide. }
  split; [|exact Hg]. split.
  - rewrite map_set_keys. destruct (bool_decide (is_Some (map_get ns i))) eqn:H; [exact Hd|].
    apply bool_decide_eq_false in H. apply NoDup_app. split_and!; [done| |apply NoDup_singleton].
    intros k Hk ->%list_elem_of_singleton. by apply H, map_get_elem.
  - intros k n. rewrite Hg. destruct (decide (i = k)) as [<-|]; [|apply Hf]. by intros [= <-].
Qed.

Lemma add_peers l ns : filed ns → Forall (λ p : jsstr * jsstr * node_state, p.1.1 ≠ self) l →
  filed (foldl add_peer ns l) ∧
  ∀ k, map_get (foldl add_peer ns l) k =
    match named k l with Some p => Some (Node k p.1.2 p.2 false) | None => map_get ns k end.
Proof.
  intros Hf Hl. induction l as [|p l IH] using rev_ind; [done|]. apply Forall_app in Hl as [Hl Hp].
  destruct (IH Hl) as [Hf' Hg]. rewrite foldl_app. cbn [foldl]. unfold add_peer at 1 3.
  inversion Hp as [|? ? Hne _]; subst.
  destruct (add_node p.1.1 p.1.2 p.2 (foldl add_peer ns l) Hf') as [H1 H2].
  rewrite bool_decide_eq_false_2 in H1, H2 by done. split; [exact H1|].
  intros k. rewrite H2. unfold named. rewrite filter_app. destruct (decide (p.1.1 = k)) as [<-|Hk].
  - by rewrite filter_cons_True, filter_nil, last_snoc by done.
  - rewrite filter_cons_False, filter_nil, app_nil_r by done. apply Hg.
Qed.

Lemma remove_gone_get ex cur ns k :
  map_get (remove_gone ex cur ns) k = if decide (k ∈ ex ∧ k ∉ cur) then None else map_get ns k.
Proof.
  induction ns as [|[i n] ns IH]; [by case_decide|]. unfold remove_gone in *. rewrite filter_cons. cbn [fst map_get snd].
  destruct (decide (¬ (i ∈ ex ∧ i ∉ cur))) as [H|H]; cbn [map_get fst snd]; rewrite IH; case_bool_decide as E; try done; subst i.
  - by rewrite decide_False.
  - apply dec_stable in H. by rewrite !decide_True by done.
Qed.

Lemma remove_gone_filed ex cur ns : filed ns → filed (remove_gone ex cur ns).
Proof.
  intros [Hd Hf]. split.
  - eapply sublist_NoDup; [exact Hd|]. apply fmap_sublist, sublist_filter.
  - intros k n. rewrite remove_gone_get. case_decide; [done|apply Hf].
Qed.

Lemma listed_named kv ps : Forall (λ p : jsstr * jsstr * node_state, p.1.1 ≠ self) (listed kv ps).
Proof. apply Forall_forall. intros p Hp. unfold listed in Hp. repeat case_match; set_solver. Qed.

Lemma named_elem k l : k ∈ l.*1.*1 ↔ is_Some (named k l).
Proof.
  unfold named. rewrite last_is_Some. rewrite <- list_fmap_compose, list_elem_of_fmap. split.
  - intros (p & -> & Hp) E. eapply elem_of_nil. rewrite <- E. apply list_elem_of_filter. by split; [|exact Hp].
  - destruct (base.filter _ l) as [|p r] eqn:E; [done|]. intros _.
    assert (p ∈ base.filter (λ p : jsstr * jsstr * node_state, p.1.1 = k) l) as [Hk Hp]%list_elem_of_filter by (rewrite E; by left).
    by exists p.
Qed.

(** The nodes of a status, whatever nodes there were *)
Lemma status_nodes ex ip l ns : filed ns → ex = ns.*1 → Forall (λ p : jsstr * jsstr * node_state, p.1.1 ≠ self) l →
  let ns' := remove_gone ex (self :: l.*1.*1) (foldl add_peer (addOrUpdateNode self ip Alive true ns) l) in
  filed ns' ∧ ∀ k, map_get ns' k =
    if decide (k = self) then Some (Node self ip Alive true)
    else (λ p : jsstr * jsstr * node_state, Node k p.1.2 p.2 false) <$> named k l.
Proof.
  intros Hf -> Hl. cbv zeta. destruct (add_node self ip Alive ns Hf) as [Hf1 Hg1].
  rewrite bool_decide_eq_true_2 in Hf1, Hg1 by done. destruct (add_peers l _ Hf1 Hl) as [Hf2 Hg2].
  split; [by apply remove_gone_filed|]. intros k. rewrite remove_gone_get, Hg2, Hg1. pose proof (named_elem k l) as Hn.
  destruct (decide (k = self)) as [->|Hk].
  - rewrite decide_False by set_solver. destruct (named self l) as [p|] eqn:E; [|by rewrite decide_True].
    exfalso. assert (self ∈ l.*1.*1) as Hin by (apply Hn; eauto).
    rewrite <- list_fmap_compose in Hin. apply list_elem_of_fmap in Hin as (q & Hq & Hin).
    rewrite Forall_forall in Hl. by apply (Hl q Hin).
  - destruct (named k l) as [p|] eqn:E.
    + rewrite decide_False; [done|]. intros [_ H]. apply H. right. apply Hn. eauto.
    + rewrite (decide_False (P := self = k)) by congruence. cbn. case_decide as H; [done|].
      destruct (map_get ns k) as [n|] eqn:En; [|done]. exfalso. apply H. split; [apply map_get_elem; eauto|].
      intros [?|Hin]%elem_of_cons; [done|]. apply Hn in Hin as [? ?]. congruence.
Qed.

(** The ends of every connection are nodes. *)
Definition canvas_ok (m : canvas) : Prop :=
  filed (nodes m) ∧
  Forall (λ c, from c = self ∧ to c ≠ self ∧ is_Some (map_get (nodes m) self) ∧ is_Some (map_get (nodes m) (to c))) (connections m).

Definition enabled (kv : gmap jsstr jsstr) : Prop :=
  kv !! js "cluster_enabled" ≠ Some (js "0") ∧ kv_count kv "cluster_nodes" ≠ Some 0.

(** What the canvas draws for a status: the nodes by their ids *)
Definition drawn (kv : gmap jsstr jsstr) (ps : list peer) (m : canvas) : Prop :=
  ∀ k, map_get (nodes m) k =
    if decide (k = self) then Some (Node self (or_text (kv !! js "mesh_ip") (js "10.99.x.x")) Alive true)
    else (λ p : jsstr * jsstr * node_state, Node k p.1.2 p.2 false) <$> named k (listed kv ps).

Lemma update_drawn kv ps m : enabled kv → canvas_ok m → drawn kv ps (updateFromStatus kv ps m) ∧ canvas_ok (updateFromStatus kv ps m).
Proof.
  intros [H1 H2] [Hf _]. unfold updateFromStatus.
  rewrite (bool_decide_eq_true_2 (_ ≠ _)), (bool_decide_eq_false_2 (_ = Some 0)) by done. cbn [negb orb].
  set (ip := or_text (kv !! js "mesh_ip") (js "10.99.x.x")).
  destruct (status_nodes (nodes m).*1 ip (listed kv ps) (nodes m) Hf eq_refl (listed_named kv ps)) as [Hf' Hg].
  destruct ps as [|p0 ps]; fold (listed kv []) in Hf', Hg |- *; cbn [listed] in Hf', Hg |- *.
  - fold (listed kv []). fold (listed kv []) in Hf', Hg. set (ns := remove_gone _ _ _) in *. split; [exact Hg|]. split; [exact Hf'|].
    cbn [set_nodes connections nodes]. apply Forall_fmap, Forall_forall. intros n [[_ Hn] Hin]%list_elem_of_filter.
    cbn [compose from to]. split_and!; [done|done|rewrite Hg, decide_True by done; eauto|].
    apply list_elem_of_fmap in Hin as ([k n'] & -> & Hin). cbn [snd] in *.
    assert (map_get ns k = Some n') as Hk.
    { clear -Hin Hf'. destruct Hf' as [Hd _]. induction ns as [|[k1 n1] ns IH]; [by apply elem_of_nil in Hin|].
      cbn in Hd. apply NoDup_cons in Hd as [Hk1 Hd]. cbn [map_get fst snd]. apply elem_of_cons in Hin as [[= <- <-]|Hin].
      - by rewrite bool_decide_eq_true_2.
      - rewrite bool_decide_eq_false_2; [by apply IH|]. intros ->. apply Hk1. apply list_elem_of_fmap. by exists (k, n'). }
    destruct (proj2 Hf' k n' Hk) as [-> _]. eauto.
  - set (ns := remove_gone _ _ _) in *. split; [exact Hg|]. split; [exact Hf'|].
    cbn [set_nodes connections nodes]. apply Forall_forall. intros c (p & Hp & Hc)%list_elem_of_omap.
    case_bool_decide as E; [|done]. injection Hc as <-. cbn [from to]. split_and!; [done|done|rewrite Hg, decide_True by done; eauto|apply E].
Qed.

Lemma canvas_ok_step e m : canvas_ok m → canvas_ok (step e m).
Proof.
  intros Hm. destruct e as [| |h|kv ps]; cbn [step].
  - unfold start. by destruct (isRunning m).
  - exact Hm.
  - unfold on_frame, loop. destruct (list_find _ _) as [[? [? []]]|]; try exact Hm; by destruct (isRunning _).
  - destruct (decide (enabled kv)) as [He|He]; [by apply update_drawn|].
    unfold updateFromStatus. assert (negb (bool_decide (kv !! js "cluster_enabled" ≠ Some (js "0"))) || bool_decide (kv_count kv "cluster_nodes" = Some 0) = true) as ->.
    { unfold enabled in He. apply orb_true_iff. rewrite negb_true_iff, bool_decide_eq_false, bool_decide_eq_true.
      destruct (decide (kv_count kv "cluster_nodes" = Some 0)); [by right|left]. intros ?. by apply He. }
    split; [|constructor]. split; [apply NoDup_singleton|]. intros k n. cbn [set_nodes nodes addOrUpdateNode map_get map_set fst snd].
    destruct (decide (self = k)) as [<-|Hk]; [by rewrite bool_decide_eq_true_2 by done; intros [= <-]|].
    by rewrite bool_decide_eq_false_2.
Qed.

Lemma canvas_ok_run es m : canvas_ok m → canvas_ok (run es m).
Proof. revert m. induction es as [|e es IH]; intros m Hm; [done|]. by apply IH, canvas_ok_step. Qed.
Lemma new_canvas_ok : canvas_ok new_canvas.
Proof. split; [|constructor]. split; [constructor|done]. Qed.

Lemma update_connections kv ps m : enabled kv → canvas_ok m → ps ≠ [] →
  connections (updateFromStatus kv ps m) =
  (λ p, Connection self (peer_id (meshIp p))) <$> base.filter (λ p, wormwire p = js "connected") ps.
Proof.
  intros He Hm Hps. destruct (update_drawn kv ps m He Hm) as [Hd _]. revert Hd. destruct He as [H1 H2]. unfold updateFromStatus.
  rewrite (bool_decide_eq_true_2 (_ ≠ _)), (bool_decide_eq_false_2 (_ = Some 0)) by done. cbn [negb orb].
  destruct ps as [|p0 ps0]; [done|]. clear Hps. set (ps := p0 :: ps0). set (ns := remove_gone _ _ _).
  unfold drawn. cbn [set_nodes nodes connections]. intros Hd.
  assert (∀ p, p ∈ ps → is_Some (map_get ns (peer_id (meshIp p)))) as Hall.
  { intros p Hp. rewrite Hd, decide_False by done. apply fmap_is_Some, named_elem. unfold listed. subst ps. cbv iota.
    rewrite <- !list_fmap_compose. apply list_elem_of_fmap. by exists p. }
  clearbody ns ps. clear -Hall. induction ps as [|p ps IH]; [done|]. cbn [omap list_omap]. rewrite filter_cons.
  rewrite IH by (intros q Hq; apply Hall; by right). destruct (decide (wormwire p = js "connected")) as [Hw|Hw].
  - rewrite bool_decide_eq_true_2; [done|]. split; [done|]. apply Hall. by left.
  - rewrite bool_decide_eq_false_2; [done|]. by intros [? _].
Qed.

(** C25: after a status of an enabled cluster, whatever came before, the
    canvas has the node itself and one node for each peer, as the status last
    says of it, and no other; every connection joins the node itself to a peer
    that has a node, and where peers are listed those are the connected ones. *)
Theorem mesh_follows_status es kv ps : enabled kv →
  let m := run (es ++ [Status kv ps]) new_canvas in
  drawn kv ps m ∧ NoDup (nodes m).*1 ∧
  Forall (λ c, from c = self ∧ to c ∈ (listed kv ps).*1.*1) (connections m) ∧
  (ps ≠ [] → connections m = (λ p, Connection self (peer_id (meshIp p))) <$> base.filter (λ p, wormwire p = js "connected") ps).
Proof.
  intros He. cbv zeta. unfold run. rewrite foldl_app. cbn [foldl step]. fold (run es new_canvas).
  pose proof (canvas_ok_run es _ new_canvas_ok) as Hm.
  destruct (update_drawn kv ps _ He Hm) as [Hd [[Hnd Hf] Hc]]. split_and!; [exact Hd|exact Hnd| |by apply update_connections].
  eapply Forall_impl; [exact Hc|]. intros c (H1 & H2 & _ & [n Hn]). split; [done|]. rewrite (Hd (to c)), decide_False in Hn by done.
  apply named_elem. destruct (named _ _); [eauto|done].
Qed.

(** ** One loop *)

(** The canvas is not started while it waits for the frames of an earlier
    start. *)
Fixpoint calm (es : list event) (m : canvas) : Prop :=
  match es with
  | [] => True
  | e :: es => (e = Start → isRunning m = true ∨ frames m = []) ∧ calm es (step e m)
  end.

Definition loop_ok (m : canvas) : Prop :=
  match frames m with
  | [] => isRunning m = false ∧ animFrame m = None
  | [(h, Looping)] => isRunning m = true ∧ animFrame m = Some h
  | [_] => animFrame m = None
  | _ => False
  end.

Lemma loop_ok_step e m : (e = Start → isRunning m = true ∨ frames m = []) → loop_ok m → loop_ok (step e m).
Proof.
  intros Hs. unfold loop_ok. destruct e as [| |h|kv ps]; cbn [step].
  - unfold start. destruct (Hs eq_refl) as [E|E]; [rewrite E; by rewrite <- E|]. rewrite E. intros [-> Ha]. by cbn.
  - unfold stop. destruct (frames m) as [|[h c] [|? ?]]; [intros [_ ->]; by cbn| |by destruct c].
    destruct c; [intros ->; by cbn..|]. intros [_ ->]. cbn. by rewrite decide_False by auto.
  - unfold on_frame. destruct (frames m) as [|[h' c] [|? ?]] eqn:Ef; cbn; [by rewrite Ef| |by destruct c].
    destruct (decide (h' = h)) as [->|Hne]; [|by rewrite Ef]. cbn. rewrite decide_False by auto.
    destruct c; cbn; [done| |]; unfold loop; cbn; destruct (isRunning m); naive_solver.
  - assert (∀ m', frames m' = frames m → isRunning m' = isRunning m → animFrame m' = animFrame m →
      loop_ok m → loop_ok m') as H by (intros m'; unfold loop_ok; by intros -> -> ->).
    apply H; unfold updateFromStatus; by destruct (_ || _), ps.
Qed.

(** At most one callback waits for a frame; while the canvas runs there is
    one, so that it goes on being drawn, and after it is stopped there is no
    round of the loop left. *)
Lemma one_loop es : calm es new_canvas →
  let m := run es new_canvas in
  (length (frames m) ≤ 1)%nat ∧ (isRunning m = true → length (frames m) = 1%nat) ∧
  (isRunning m = false → ∀ f, f ∈ frames m → f.2 ≠ Looping).
Proof.
  intros Hc. assert (loop_ok (run es new_canvas)) as H.
  { assert (∀ m, loop_ok m → calm es m → loop_ok (run es m)) as H; [|by apply H]. clear Hc.
    induction es as [|e es IH]; intros m Hm Hc; [done|]. destruct Hc as [H1 H2]. apply IH; [by apply loop_ok_step|done]. }
  revert H. cbv zeta. generalize (run es new_canvas). intros m. unfold loop_ok.
  destruct (frames m) as [|[h c] [|? ?]]; [| |by destruct c].
  - intros [-> _]. split_and!; [cbn; lia|done|]. by intros _ f ?%elem_of_nil.
  - intros H. split_and!; [cbn; lia|done|]. intros Hr f ->%list_elem_of_singleton. cbn. intros ->. destruct H. congruence.
Qed.

(** Stopped and started again before its two frames have come, the canvas
    runs two loops, and [stop] cancels the frame of one. *)
Lemma hurried_start_loops_twice :
  let m := run [Start; Stop; Start; Frame 0; Frame 1; Frame 2; Frame 3] new_canvas in
  (λ f, f.2) <$> frames m = [Looping; Looping] ∧ (λ f, f.2) <$> frames (stop m) = [Looping].
Proof. by vm_compute. Qed.

(** ** A concrete run *)

Definition mesh_kv : gmap jsstr jsstr := {[ js "cluster_nodes" := js "3"; js "mesh_ip" := js "10.99.0.1" ]}.
Definition mesh_peers : list peer :=
  [Peer (js "10.99.0.2") (js "alive") None (js "connected"); Peer (js "10.99.0.3") (js "dead") None (js "down")].

Lemma mesh_follows_status_witness :
  enabled mesh_kv ∧
  let m := run [Status ∅ []; Start; Status mesh_kv mesh_peers] new_canvas in
  map_get (nodes m) (js "peer-10.99.0.3") = Some (Node (js "peer-10.99.0.3") (js "10.99.0.3") Dead false) ∧
  connections m = [Connection self (js "peer-10.99.0.2")].
Proof.
  assert (enabled mesh_kv) as He by by split; intros E; vm_compute in E. split; [done|].
  destruct (mesh_follows_status [Status ∅ []; Start] mesh_kv mesh_peers He) as (Hd & _ & _ & Hc). split.
  - exact (Hd (js "peer-10.99.0.3")).
  - exact (Hc ltac:(done)).
Defined.
