(* ===== verification/DashboardStatus.v ===== *)
(** * The status of the dashboard page ([apps/bun/src/ui/app.ts])

    What the page does with a status, with an event and with the choice of a
    view, and its deployment buttons.  Charts, sizes and the raw status are
    not modelled; [String] of what is no text, the clock and the local time
    are parameters.  A peer is read as the record the server sends. *)
From Stdlib Require Import QArith Qround.
From S2P Require Import Prelude JsText Number Json Protocol WebApp Peers Dashboard DashboardServer DashboardPage MeshCanvas.
From S2P Require Explorer.
#[local] Open Scope Z_scope.

(** ** Status *)

Definition MAX_HISTORY : Z := 40.

Record row := Row { r_name : jsstr; r_address : jsstr; r_role : jsstr }.
Inductive table := ClusterDisabled | NodeRows (l : list row).

(** A history entry is a status with its time. *)
Record status_page := Page {
  isConnected : bool; connText : jsstr; lastStatus : option json; history : list (gmap jsstr jsstr * Z);
  statKeys : jsstr; statNodes : jsstr; statHealth : jsstr; nodesTable : table; mesh : canvas }.

Definition loaded : status_page :=
  Page false (js "Disconnected") None [] (js "-") (js "-") (js "-") (NodeRows []) new_canvas.

Section Page_.
Context (String_ : option json → jsstr).

(** [v === t], [v !== false] *)
Definition says (v : option json) (t : jsstr) : bool := match v with Some (JStr s) => bool_decide (s = t) | _ => false end.
Definition not_false (v : option json) : bool := match v with Some (JBool b) => b | _ => true end.

Definition text_of (v : option json) : jsstr := match v with Some (JStr s) => s | _ => String_ v end.

Definition updateConnectionStatus (online : bool) (message : option jsstr) (p : status_page) : status_page :=
  Page online (match message with Some m => m | None => if online then js "Connected" else js "Disconnected" end)
    (lastStatus p) (history p) (statKeys p) (statNodes p) (statHealth p) (nodesTable p) (mesh p).

(** [v >= 2] of a number *)
Definition at_least_two (v : option json) : bool :=
  match v with
  | Some (JNum t) => match Number t with Fin q => Qle_bool 2 q | Infinity negative => negb negative | NaN => false end
  | _ => false
  end.

(** [v?.type === "bulk" ? parseKV(v.value) : {}]; [None]: [parseKV] throws. *)
Definition kv_of (v : option json) : option (gmap jsstr jsstr) :=
  match v with
  | None | Some JNull => Some ∅
  | Some v =>
      if says (field v "type") (js "bulk") then
        match field v "value" with Some (JStr t) => Some (Explorer.parseKV t) | _ => None end
      else Some ∅
  end.

Definition read_peer (v : json) : peer :=
  Peer (text_of (field v "meshIp")) (text_of (field v "state"))
    (match field v "gossipEndpoint" with Some (JStr g) => Some g | _ => None end) (text_of (field v "wormwire")).
(** [data.peers || []] *)
Definition peers_of (v : option json) : list peer := match v with Some (JArr l) => read_peer <$> l | _ => [] end.

Definition health (kv : gmap jsstr jsstr) : jsstr :=
  if bool_decide (kv !! js "cluster_enabled" = Some (js "0")) then js "Standalone"
  else if positive (parseInt (or_text (kv !! js "cluster_dead") (js "0"))) then js "Degraded"
  else js "Healthy".

Definition node_row (i : nat) : row :=
  let z := Z.of_nat i in
  Row (js "node-" ++ show z) (js "127.0.0.1:" ++ show (6389 + z)) (if z =? 0 then js "Leader" else js "Follower").

(** A count that is no integer makes no row. *)
Definition updateClusterTable (kv : gmap jsstr jsstr) : table :=
  if bool_decide (kv !! js "cluster_enabled" = Some (js "0")) then ClusterDisabled
  else NodeRows (match kv_count kv "cluster_nodes" with Some total => node_row <$> seq 0 (Z.to_nat total) | None => [] end).

(** [push], then [shift] of what is too long *)
Definition remember (e : gmap jsstr jsstr * Z) (l : list (gmap jsstr jsstr * Z)) : list (gmap jsstr jsstr * Z) :=
  let l := l ++ [e] in if MAX_HISTORY <? len l then tail l else l.

Definition show_status (now : Z) (data : json) (kv : gmap jsstr jsstr) (p : status_page) : status_page :=
  Page (isConnected p) (connText p) (Some data) (remember (kv, now) (history p))
    (or_text (kv !! js "keys") (js "0")) (or_text (kv !! js "cluster_nodes") (js "1")) (health kv) (updateClusterTable kv)
    (updateFromStatus kv (peers_of (field data "peers")) (mesh p)).

Definition handleStatusMessage (now : Z) (data : json) (p : status_page) : status_page :=
  let p := updateConnectionStatus (not_false (field data "connected")) None p in
  if negb (truthy (field data "connected")) then
    if truthy (field data "failureCount") && at_least_two (field data "failureCount")
    then updateConnectionStatus false (Some (js "Failing over from " ++ text_of (field data "target") ++ js "...")) p
    else p
  else
    match kv_of (field data "response"), kv_of (field data "cluster") with
    | Some statusKV, Some clusterKV =>
        let kv := clusterKV ∪ statusKV in
        let kv := match field data "selfMeshIp" with
                  | Some (JStr ((_ :: _) as ip)) => <[js "mesh_ip" := ip]> kv
                  | _ => kv
                  end in
        show_status now data kv p
    | _, _ =>
        Page (isConnected p) (connText p) (Some data) (history p) (statKeys p) (statNodes p) (statHealth p) (nodesTable p) (mesh p)
    end.

(** The refresh button: what [/api/status] answers, marked as connected *)
Definition refreshed (data : json) : json :=
  JObj (set_field (spread [(js "type", JStr (js "status"))] data) (js "connected", JBool true)).
Definition globalRefresh (now : Z) (data : json) : status_page → status_page := handleStatusMessage now (refreshed data).

Inductive page_event :=
| Message (now : Z) (data : jsstr)
| Refreshed (now : Z) (data : json)
| SocketOpened | SocketClosed.

(** The WebSocket's [onmessage], on a status *)
Definition on_message (now : Z) (data : jsstr) (p : status_page) : status_page :=
  match JSON_parse data with
  | Some v => if says (field v "type") (js "status") then handleStatusMessage now v p else p
  | None => p
  end.

Definition step (e : page_event) (p : status_page) : status_page :=
  match e with
  | Message now data => on_message now data p
  | Refreshed now data => globalRefresh now data p
  | SocketOpened => updateConnectionStatus true None p
  | SocketClosed => updateConnectionStatus false None p
  end.
Definition run (es : list page_event) (p : status_page) : status_page := foldl (λ p e, step e p) p es.
End Page_.

(** ** The page shows what the server sends *)

Definition unit_text (s : jsstr) : Prop := Forall is_unit s.
Definition peer_units (p : peer) : Prop :=
  unit_text (meshIp p) ∧ unit_text (state p) ∧ unit_text (wormwire p) ∧ match gossipEndpoint p with Some g => unit_text g | None => True end.

(** The messages of [pushStatus] *)
Definition connected_message (to : jsstr) (ip : jsstr) (response cluster : WormResponse) (ps : list peer) (known : Z) : json :=
  JObj [(js "type", JStr (js "status")); (js "target", JStr to); (js "selfMeshIp", JStr ip);
        (js "response", response_json response); (js "cluster", response_json cluster);
        (js "peers", JArr (peer_json <$> ps)); (js "knownEndpoints", jnum known); (js "connected", JBool true)].
Definition failed_message (to : jsstr) (failures : Z) : json :=
  JObj [(js "type", JStr (js "status")); (js "target", JStr to); (js "connected", JBool false); (js "failureCount", jnum failures)].

Definition response_units (r : WormResponse) : Prop :=
  match r with bulk v => unit_text v | error m => unit_text m | Protocol.event a b => unit_text a ∧ unit_text b | _ => True end.

Lemma response_ok r : response_units r → json_ok (response_json r).
Proof.
  intros H. unfold response_json. constructor.
  - destruct r; apply (bool_decide_unpack (NoDup _)); by vm_compute.
  - destruct r; repeat (apply Forall_cons; split); try apply Forall_nil_2; cbn [fst snd];
      (split; [by repeat constructor|]); apply ok_str; (exact H || apply H || by repeat constructor).
Qed.

Lemma peer_json_ok p : peer_units p → json_ok (peer_json p).
Proof.
  intros (H1 & H2 & H3 & H4). unfold peer_json. constructor; [apply (bool_decide_unpack (NoDup _)); by vm_compute|].
  repeat (apply Forall_cons; split); try apply Forall_nil_2; cbn [fst snd]; (split; [by repeat constructor|]);
    try (by apply ok_str). destruct (gossipEndpoint p); [by apply ok_str|constructor].
Qed.

Lemma connected_message_ok to ip s c ps known : unit_text to → unit_text ip → response_units s → response_units c → Forall peer_units ps → 0 ≤ known →
  json_ok (connected_message to ip s c ps known).
Proof.
  intros. unfold connected_message. constructor; [apply (bool_decide_unpack (NoDup _)); by vm_compute|].
  repeat (apply Forall_cons; split); try apply Forall_nil_2; cbn [fst snd]; (split; [by repeat constructor|]);
    try (apply ok_str; done || by repeat constructor); try by apply response_ok.
  - apply ok_arr, Forall_fmap. eapply Forall_impl; [eassumption|]. apply peer_json_ok.
  - by apply jnum_ok.
  - constructor.
Qed.

Lemma failed_message_ok to n : unit_text to → 0 ≤ n → json_ok (failed_message to n).
Proof.
  intros. unfold failed_message. constructor; [apply (bool_decide_unpack (NoDup _)); by vm_compute|].
  repeat (apply Forall_cons; split); try apply Forall_nil_2; cbn [fst snd]; (split; [by repeat constructor|]).
  - apply ok_str. by repeat constructor.
  - by apply ok_str.
  - constructor.
  - by apply jnum_ok.
Qed.

Section Theorems.
Context {N : NumberText} (sendable : Z → bool) (String_ : option json → jsstr).

Lemma read_peer_json p : read_peer String_ (peer_json p) = p.
Proof. destruct p as [ip s g w]. by destruct g. Qed.
Lemma peers_of_json ps : peers_of String_ (Some (JArr (peer_json <$> ps))) = ps.
Proof. cbn. induction ps as [|p ps IH]; [done|]. rewrite !fmap_cons, IH. f_equal. apply read_peer_json. Qed.

Lemma relayed c msg type payload d : Relay c msg ∈ (broadcast sendable type payload d).2 →
  msg = stringify (JObj (set_fields [(js "type", JStr (js type))] payload)).
Proof. unfold broadcast. cbn [snd]. by intros (x & [= -> ->] & _)%list_elem_of_fmap. Qed.

Lemma failover_relays_nothing c msg d : Relay c msg ∉ (failoverToNext d).2.
Proof.
  unfold failoverToNext. destruct (next_endpoint _ _) as [ep|]; [|by intros ?%elem_of_nil].
  unfold setupEventSubscription. destruct (eventSocket _); destruct (bool_decide _ || _);
    cbn [snd app]; rewrite ?elem_of_cons, ?elem_of_nil; naive_solver.
Qed.

(** What the server reads of the members: its own address and the others *)
Definition members_read (peersResp : option WormResponse) : jsstr * list peer :=
  match peersResp with
  | Some (bulk ((_ :: _) as v)) => let parsed := parsePeersResponse v in (selfIp parsed, peers parsed)
  | _ => ([], [])
  end.

(** A poll that the server answered, as the page sees it *)
Lemma answered_reaches_page to s cl peersResp d c msg :
  Relay c msg ∈ (pushStatus sendable to (Some (s, cl, peersResp)) d).2 →
  ∃ known, 0 ≤ known ∧
    msg = stringify (connected_message to (members_read peersResp).1 s cl (members_read peersResp).2 known).
Proof.
  unfold pushStatus, members_read. destruct peersResp as [[| | |[|x v]|]|]; intros H%relayed;
    (eexists; split; [|exact H]; apply len_nonneg).
Qed.
Lemma unanswered_reaches_page to d c msg : Relay c msg ∈ (pushStatus sendable to None d).2 →
  msg = stringify (failed_message to (consecutiveFailures d + 1)).
Proof.
  unfold pushStatus. cbv zeta. destruct (broadcast _ _ _ _) as [d1 sent] eqn:E.
  assert (Relay c msg ∈ sent → msg = stringify (failed_message to (consecutiveFailures d + 1))) as Hs.
  { intros H. replace sent with (broadcast sendable "status"
      [(js "target", JStr to); (js "connected", JBool false); (js "failureCount", jnum (consecutiveFailures d + 1))]
      (set_failures (consecutiveFailures d + 1) d)).2 in H by exact (f_equal snd E).
    by apply relayed in H. }
  destruct (_ && _); [|exact Hs]. pose proof (failover_relays_nothing c msg d1) as Hn.
  destruct (failoverToNext d1) as [d2 a]. cbn [snd] in *. intros [H|H]%elem_of_app; [by apply Hs|done].
Qed.

Definition with_ip (ip : jsstr) (kv : gmap jsstr jsstr) : gmap jsstr jsstr := match ip with [] => kv | _ => <[js "mesh_ip" := ip]> kv end.

(** The fields of an answer; only a bulk text has any. *)
Definition fields_of (r : WormResponse) : gmap jsstr jsstr := match r with bulk t => Explorer.parseKV t | _ => ∅ end.

Lemma kv_of_response r : kv_of (Some (response_json r)) = Some (fields_of r).
Proof. by destruct r. Qed.

Lemma page_shows_connected now to ip s cl ps known p :
  handleStatusMessage String_ now (connected_message to ip s cl ps known) p =
  show_status String_ now (connected_message to ip s cl ps known) (with_ip ip (fields_of cl ∪ fields_of s))
    (updateConnectionStatus true None p).
Proof.
  unfold handleStatusMessage.
  change (field (connected_message to ip s cl ps known) "response") with (Some (response_json s)).
  change (field (connected_message to ip s cl ps known) "cluster") with (Some (response_json cl)).
  rewrite !kv_of_response. by destruct ip.
Qed.

Lemma at_least_two_jnum n : 0 ≤ n ≤ 2 ^ 53 → at_least_two (Some (jnum n)) = (2 <=? n).
Proof.
  intros Hn. unfold at_least_two, jnum. rewrite Number_show by done. unfold Qle_bool, inject_Z. cbn.
  rewrite !Z.mul_1_r. done.
Qed.
Lemma truthy_jnum n : 0 < n ≤ 2 ^ 53 → truthy (Some (jnum n)) = true.
Proof.
  intros Hn. unfold truthy, jnum. rewrite Number_show by lia. apply negb_true_iff, not_true_iff_false.
  rewrite Qeq_bool_iff. unfold Qeq. cbn. lia.
Qed.

Lemma page_shows_failure now to n p : 0 < n ≤ 2 ^ 53 →
  handleStatusMessage String_ now (failed_message to n) p =
  updateConnectionStatus false (if 2 <=? n then Some (js "Failing over from " ++ to ++ js "...") else None) p.
Proof.
  intros Hn. unfold handleStatusMessage. change (field (failed_message to n) "connected") with (Some (JBool false)).
  change (field (failed_message to n) "failureCount") with (Some (jnum n)). change (field (failed_message to n) "target") with (Some (JStr to)).
  rewrite truthy_jnum, at_least_two_jnum by lia. cbn [truthy negb andb not_false text_of]. by destruct (2 <=? n).
Qed.

Lemma or_text_show n t : 0 ≤ n → or_text (Some (show n)) t = show n.
Proof. intros Hn. destruct (show_digits n Hn) as (Hs & _). by destruct (show n). Qed.

Lemma positive_count (kv : gmap jsstr jsstr) name n : 0 ≤ n ≤ 2 ^ 53 → kv !! js name = Some (show n) →
  positive (parseInt (or_text (kv !! js name) (js "0"))) = (0 <? n).
Proof.
  intros Hn E. rewrite E. rewrite or_text_show by lia.
  rewrite parseInt_show by done. cbn. unfold Qle_bool, inject_Z. cbn. lia.
Qed.

Lemma kv_count_show kv name n : 0 ≤ n ≤ 2 ^ 53 → kv !! js name = Some (show n) → kv_count kv name = Some n.
Proof.
  intros Hn E. unfold kv_count. rewrite E. rewrite or_text_show by lia.
  rewrite parseInt_show by done. cbn [as_integer]. by rewrite Qfloor_Z, (proj2 (Qeq_bool_iff _ _)).
Qed.

(** What a page with the fields [kv] says of the cluster. *)
Definition cluster_shown (kv : gmap jsstr jsstr) (p : status_page) : Prop :=
  (kv !! js "cluster_enabled" = Some (js "0") → statHealth p = js "Standalone" ∧ nodesTable p = ClusterDisabled) ∧
  (kv !! js "cluster_enabled" ≠ Some (js "0") →
   (∀ dead, 0 ≤ dead ≤ 2 ^ 53 → kv !! js "cluster_dead" = Some (show dead) →
      statHealth p = if 0 <? dead then js "Degraded" else js "Healthy") ∧
   (kv !! js "cluster_dead" = None → statHealth p = js "Healthy") ∧
   (∀ total, 0 ≤ total ≤ 2 ^ 53 → kv !! js "cluster_nodes" = Some (show total) →
      ∃ rows, nodesTable p = NodeRows rows ∧ length rows = Z.to_nat total ∧
        ∀ i r, rows !! i = Some r →
          r = Row (js "node-" ++ show (Z.of_nat i)) (js "127.0.0.1:" ++ show (6389 + Z.of_nat i))
                (if bool_decide (i = 0%nat) then js "Leader" else js "Follower"))).

Lemma cluster_is_shown now data kv p : cluster_shown kv (show_status String_ now data kv p).
Proof.
  unfold cluster_shown, show_status. cbn [statHealth nodesTable]. unfold health, updateClusterTable. split.
  - intros E. by rewrite bool_decide_eq_true_2.
  - intros E. rewrite bool_decide_eq_false_2 by done. split_and!.
    + intros dead Hd Ed. by rewrite (positive_count kv "cluster_dead" dead).
    + intros ->. reflexivity.
    + intros total Ht Et. rewrite (kv_count_show kv "cluster_nodes" total) by done.
      eexists. split; [reflexivity|]. split; [by rewrite length_fmap, length_seq|].
      intros i r Hr. apply list_lookup_fmap_Some in Hr as (j & -> & [-> _]%lookup_seq).
      unfold node_row. cbn [Nat.add]. f_equal. case_bool_decide; destruct (Z.eqb_spec (Z.of_nat i) 0); (done || lia).
Qed.

(** C24: what the page shows follows the server's polls, on any page.  A
    browser that is sent the outcome of a poll the cluster answered, with or
    without a list of members, shows that it is connected, and what the two
    texts say, the cluster's before the status's: the keys and the nodes; the
    health, Standalone without a cluster, otherwise Degraded if a node is
    counted dead and Healthy if none is; a row for every node counted, the
    first the leader; and on the canvas the members the server read; and it
    keeps the fields in its history.  When the cluster did not answer, it is
    disconnected and nothing else changes but the text: on the first failure
    the text only says so, and from the second on it says that the endpoint
    is being left, whether or not there is another one to go to
    ([failing_over_alone]). *)
Theorem page_follows_polls now to outcome d c msg p :
  unit_text to → 0 ≤ consecutiveFailures d < 2 ^ 53 →
  Relay c msg ∈ (pushStatus sendable to outcome d).2 →
  let p' := on_message String_ now msg p in
  match outcome with
  | Some (status, cluster, peersResp) =>
      let '(ip, members) := members_read peersResp in
      response_units status → response_units cluster → unit_text ip → Forall peer_units members →
      let kv := with_ip ip (fields_of cluster ∪ fields_of status) in
      isConnected p' = true ∧ connText p' = js "Connected" ∧
      statKeys p' = or_text (kv !! js "keys") (js "0") ∧ statNodes p' = or_text (kv !! js "cluster_nodes") (js "1") ∧
      cluster_shown kv p' ∧ history p' = remember (kv, now) (history p) ∧
      mesh p' = updateFromStatus kv members (mesh p)
  | None =>
      p' = Page false
             (if 1 <=? consecutiveFailures d then js "Failing over from " ++ to ++ js "..." else js "Disconnected")
             (lastStatus p) (history p) (statKeys p) (statNodes p) (statHealth p) (nodesTable p) (mesh p)
  end.
Proof.
  intros Hto Hf Hin. cbv zeta. destruct outcome as [[[status cluster] peersResp]|].
  - destruct (answered_reaches_page to status cluster peersResp d c msg Hin) as (known & Hk & ->).
    destruct (members_read peersResp) as [ip members]. cbn [fst snd]. intros Hs Hcl Hip Hps. unfold on_message.
    rewrite parse_stringify by by apply connected_message_ok. change (says _ _) with true. cbv iota.
    rewrite page_shows_connected. do 4 (split; [done|]). split; [apply cluster_is_shown|]. split; [done|].
    unfold show_status. cbn [mesh updateConnectionStatus].
    change (field (connected_message ?a ?b ?e ?f ?ps ?g) "peers") with (Some (JArr (peer_json <$> ps))).
    by rewrite peers_of_json.
  - apply unanswered_reaches_page in Hin as ->. unfold on_message. rewrite parse_stringify by (apply failed_message_ok; done || lia).
    change (says _ _) with true. cbv iota. rewrite page_shows_failure by lia.
    replace (2 <=? consecutiveFailures d + 1) with (1 <=? consecutiveFailures d) by lia.
    by destruct (1 <=? consecutiveFailures d).
Qed.
End Theorems.

(** ** The history is bounded *)

Lemma remember_last e l : len l ≤ MAX_HISTORY →
  len (remember e l) ≤ MAX_HISTORY ∧ ∃ k, remember e l = drop k l ++ [e] ∧ (k ≤ 1)%nat.
Proof.
  intros Hl. unfold remember, MAX_HISTORY in *. rewrite len_app. change (len [e]) with 1.
  destruct (Z.ltb_spec 40 (len l + 1)) as [H|H].
  - destruct l as [|x l]; [change (len []) with 0 in H; lia|]. cbn [app tail]. rewrite len_cons in *. rewrite len_app.
    change (len [e]) with 1. split; [lia|]. exists 1%nat. by split; [|lia].
  - rewrite len_app. change (len [e]) with 1. split; [lia|]. exists 0%nat. by split; [|lia].
Qed.

Lemma handle_history String_ now data p : len (history p) ≤ MAX_HISTORY → len (history (handleStatusMessage String_ now data p)) ≤ MAX_HISTORY.
Proof.
  intros H. unfold handleStatusMessage. destruct (negb _); [by destruct (_ && _)|].
  destruct (kv_of (field data "response")), (kv_of (field data "cluster")); try exact H.
  by apply remember_last.
Qed.

Lemma history_bounded String_ es : len (history (run String_ es loaded)) ≤ MAX_HISTORY.
Proof.
  assert (∀ p, len (history p) ≤ MAX_HISTORY → len (history (run String_ es p)) ≤ MAX_HISTORY) as H; [|by apply H].
  induction es as [|e es IH]; intros p Hp; [done|]. apply IH. destruct e as [now data|now data| |]; cbn [step]; try exact Hp.
  - unfold on_message. destruct (JSON_parse data) as [v|]; [|exact Hp]. destruct (says _ _); [by apply handle_history|exact Hp].
  - by apply handle_history.
Qed.

(** The refresh button marks whatever is answered as connected: when the
    database cannot be reached, the page shows a healthy cluster. *)
Lemma refresh_hides_failure {N : NumberText} {E : ErrorTexts} {R : Runtime} String_ now ep e p :
  let p' := globalRefresh String_ now (statusErrorPayload ep e) p in
  connText p' = js "Connected" ∧ statHealth p' = js "Healthy" ∧ statKeys p' = js "0".
Proof.
  unfold statusErrorPayload, diagnostic_fields. generalize (formatConnectionDiagnostic e ep). intros [[code|] err hint];
    unfold globalRefresh, handleStatusMessage, show_status; by vm_compute.
Qed.

(** ** A concrete poll *)

Section Examples.
#[local] Instance no_numbers : NumberText := λ _, [].
#[local] Existing Instance plain_errors.
#[local] Instance no_runtime : Runtime := Build_Runtime (λ _, None) (λ _, []).

Definition watched : dash := set_clients [1] (new_dash (node "a")).
Definition cluster_text : jsstr := js "cluster_enabled=1" ++ [10] ++ js "cluster_nodes=3" ++ [10] ++ js "cluster_dead=1".
Definition poll : WormResponse * WormResponse * option WormResponse :=
  (bulk (js "keys=12"), bulk cluster_text, Some (bulk (peer_list (js "10.99.0.1") 6389 two_members))).
Definition poll_message : jsstr :=
  match (pushStatus (λ _, true) (js "a:6389") (Some poll) watched).2 with Relay _ m :: _ => m | _ => [] end.

Definition peer_unitsb (p : peer) : bool :=
  forallb (λ s : jsstr, bool_decide (Forall is_unit s)) (meshIp p :: state p :: wormwire p :: match gossipEndpoint p with Some g => [g] | None => [] end).
Lemma peer_units_all ps : forallb peer_unitsb ps = true → Forall peer_units ps.
Proof.
  intros H. apply Forall_forall. intros p Hp. rewrite forallb_forall in H. specialize (H p (proj1 (list_elem_of_In _ _) Hp)).
  unfold peer_unitsb in H. unfold peer_units, unit_text. cbn in H. rewrite !andb_true_iff, !bool_decide_eq_true in H.
  destruct H as (H1 & H2 & H3 & H4). split_and!; [done..|]. destruct (gossipEndpoint p); [|done]. cbn in H4.
  by rewrite andb_true_iff, bool_decide_eq_true in H4; destruct H4.
Qed.

Lemma members_of_poll : members_read (Some (bulk (peer_list (js "10.99.0.1") 6389 two_members))) =
  (js "10.99.0.1", [Peer (js "10.99.0.3") (js "alive") (Some (js "192.168.0.4:51821")) (js "connected")]).
Proof. by vm_compute. Qed.

Lemma page_follows_polls_witness :
  Relay 1 poll_message ∈ (pushStatus (λ _, true) (js "a:6389") (Some poll) watched).2 ∧
  let p := on_message (λ _, []) 0 poll_message loaded in
  isConnected p = true ∧ statHealth p = js "Degraded" ∧ length (nodes (mesh p)) = 2%nat.
Proof.
  assert ((pushStatus (λ _, true) (js "a:6389") (Some poll) watched).2 = [Relay 1 poll_message]) as Hacts by by vm_compute.
  assert (Relay 1 poll_message ∈ (pushStatus (λ _, true) (js "a:6389") (Some poll) watched).2) as Hin
    by (rewrite Hacts; by left). split; [exact Hin|].
  assert (unit_text (js "a:6389")) as Hto by (apply (bool_decide_unpack _); by vm_compute).
  assert (0 ≤ consecutiveFailures watched < 2 ^ 53) as Hf by (split; by vm_compute).
  pose proof (page_follows_polls (λ _, true) (λ _, []) 0 (js "a:6389") (Some poll) watched 1 poll_message loaded Hto Hf Hin) as H.
  unfold poll in H. cbv beta iota zeta in H.
  rewrite members_of_poll in H. cbv beta iota in H.
  destruct H as (H1 & _ & _ & _ & [_ H2] & _ & H3); [apply (bool_decide_unpack _); by vm_compute..| |].
  { apply peer_units_all. by vm_compute. }
  cbv zeta. split; [exact H1|]. split; [|vm_compute; reflexivity].
  destruct H2 as [H2 _]; [vm_compute; intros [=]|].
  specialize (H2 1 ltac:(lia) ltac:(vm_compute; reflexivity)). change (0 <? 1) with true in H2. exact H2.
Defined.

(** With a single endpoint known the page says, from the second failure on,
    that it is being left; the server stays with it. *)
Lemma failing_over_alone :
  let '(d, _) := pushStatus (λ _, true) (js "a:6389") None watched in
  let '(d', a) := pushStatus (λ _, true) (js "a:6389") None d in
  match a with
  | [Relay 1 msg] => connText (on_message (λ _, []) 0 msg loaded) = js "Failing over from a:6389..."
  | _ => False
  end ∧ activeEndpoint d' = node "a".
Proof. by vm_compute. Qed.
End Examples.

(** ** Views *)

Definition titles : list (string * string) :=
  [("dashboard", "Dashboard"); ("console", "Console"); ("mesh", "Mesh Topology"); ("cluster", "Cluster Nodes");
   ("events", "Event Stream"); ("deployment", "Deployment")]%string.
Definition title_of (v : jsstr) : jsstr :=
  match base.filter (λ t : string * string, js t.1 = v) titles with t :: _ => js t.2 | [] => js "Dashboard" end.

(** The view that is shown, its title and the canvas *)
Record views := Views { currentView : jsstr; viewTitle : jsstr; canvas_of : canvas }.
Definition switchView (v : jsstr) (w : views) : views :=
  Views v (title_of v) (if bool_decide (v = js "mesh") then start (canvas_of w) else stop (canvas_of w)).

(** The canvas runs just when its view is shown. *)
Lemma canvas_runs_in_view v w : isRunning (canvas_of (switchView v w)) = bool_decide (v = js "mesh").
Proof.
  unfold switchView. cbn [canvas_of]. case_bool_decide; [|done]. unfold start. by destruct (isRunning (canvas_of w)) eqn:E.
Qed.

(** ** Events *)

(** The first event takes the place of the placeholder. *)
Record event_pane := Pane { eventCount : Z; entries : list (jsstr * jsstr * jsstr) }.
Definition handleEventMessage (time channel message : jsstr) (p : event_pane) : event_pane :=
  Pane (eventCount p + 1)
    ((if eventCount p =? 0 then [] else entries p) ++ [(js "[" ++ time ++ js "] ", js "[" ++ channel ++ js "] ", message)]).

(** ** Deployment *)

Module Deployment.
Inductive action := Up | Down.
Record pane := Pane { startDisabled : bool; stopDisabled : bool; deployLogs : jsstr; inflight : list action }.
Definition idle : pane := Pane false false [] [].

(** The request: its body, or the text of the error it ends with *)
Inductive event := Click (a : action) | Answered (a : action) (body : json) | Ended (a : action) (err : jsstr).

Definition command_text (a : action) : jsstr := match a with Up => js "up -d" | Down => js "down" end.
Definition nl : jsstr := [10].

Section Pane_.
Context (String_ : option json → jsstr).

Definition runDeployment (a : action) (p : pane) : pane :=
  Pane true true (js "Running docker compose " ++ command_text a ++ js "..." ++ nl) (a :: inflight p).

(** A template with a number, a text, or what the body lacks *)
Definition printed (v : option json) : jsstr :=
  match v with Some (JStr s) => s | Some (JNum t) => t | None => js "undefined" | _ => String_ v end.

Definition finish (t : jsstr) (p : pane) : pane := Pane false false (deployLogs p ++ t) (tail (inflight p)).

(** A disabled button is not clicked, and what is answered was requested. *)
Definition step (e : event) (p : pane) : pane :=
  match e with
  | Click Up => if startDisabled p then p else runDeployment Up p
  | Click Down => if stopDisabled p then p else runDeployment Down p
  | Answered a body =>
      if bool_decide (inflight p = []) then p else
      finish (nl ++ js "[Exit Code " ++ printed (field body "code") ++ js "]" ++ nl ++ js "STDOUT:" ++ nl ++ printed (field body "stdout") ++
              nl ++ js "STDERR:" ++ nl ++ printed (field body "stderr")) p
  | Ended a err => if bool_decide (inflight p = []) then p else finish (nl ++ js "Error: " ++ err) p
  end.
Definition run (es : list event) (p : pane) : pane := foldl (λ p e, step e p) p es.

(** At most one deployment runs, and both buttons are disabled just while
    one does. *)
Lemma one_deployment es : let p := run es idle in
  (length (inflight p) ≤ 1)%nat ∧ startDisabled p = stopDisabled p ∧ (startDisabled p = true ↔ inflight p ≠ []).
Proof.
  cbv zeta. assert (∀ p, (length (inflight p) ≤ 1)%nat ∧ startDisabled p = stopDisabled p ∧ (startDisabled p = true ↔ inflight p ≠ []) →
    let p := run es p in (length (inflight p) ≤ 1)%nat ∧ startDisabled p = stopDisabled p ∧ (startDisabled p = true ↔ inflight p ≠ [])) as H.
  2: { apply H. by split_and!; [cbn; lia|..]. }
  induction es as [|e es IH]; intros p Hp; [exact Hp|]. apply IH. clear IH.
  destruct p as [b1 b2 t l]. cbn in Hp. destruct Hp as (H1 & -> & H2). destruct b2.
  - destruct l as [|a [|? ?]]; [by destruct (proj1 H2 eq_refl)| |cbn in H1; lia]. destruct e as [[]| |]; cbn; (split_and!; [lia|done|done]).
  - destruct l as [|a l]; [|exfalso; by assert (false = true) by by apply H2]. destruct e as [[]| |]; cbn; (split_and!; [lia|done|done]).
Qed.

(** The status of the answer is not looked at: a deployment that was refused
    is reported as one that ran. *)
Lemma refused_deployment_shown :
  deployLogs (run [Click Up; Answered Up (JObj [(js "error", JStr (js "unauthorized"))])] idle) =
  js "Running docker compose up -d..." ++ nl ++ nl ++ js "[Exit Code undefined]" ++ nl ++ js "STDOUT:" ++ nl ++ js "undefined" ++
  nl ++ js "STDERR:" ++ nl ++ js "undefined".
Proof. by vm_compute. Qed.
End Pane_.
End Deployment.
