(* ===== verification/BenchCli.v ===== *)
(** * Benchmark options ([apps/bun/src/lib/bench/types.ts], [cli.ts])

    The benchmark's options and their command line.  Numeric options are
    validated as they are read: the integer options are integers, the ratios
    rationals (the values of doubles). *)
From Stdlib Require Import QArith Qround.
From S2P Require Import Prelude JsText Number.
#[local] Open Scope Z_scope.

Inductive BenchKind :=
| mixed | read | write | status | cluster_status | banking | spacetime_transfer | exec_transfer.

#[export] Instance BenchKind_eq_dec : EqDecision BenchKind.
Proof. solve_decision. Defined.

(** [Object.keys(SCENARIOS)] *)
Definition availableBenchKinds : list BenchKind :=
  [mixed; read; write; status; cluster_status; banking; spacetime_transfer; exec_transfer].

Definition kind_name (k : BenchKind) : jsstr :=
  match k with
  | mixed => js "mixed" | read => js "read" | write => js "write" | status => js "status"
  | cluster_status => js "cluster-status" | banking => js "banking"
  | spacetime_transfer => js "spacetime-transfer" | exec_transfer => js "exec-transfer"
  end.

Definition kind_of (name : jsstr) : option BenchKind :=
  match list_find (λ k, kind_name k = name) availableBenchKinds with
  | Some (_, k) => Some k
  | None => None
  end.

Record BenchOptions := Options {
  host : jsstr;
  port : Z;
  totalOps : Z;
  concurrency : Z;
  poolSize : Z;
  inflight : Z;
  keyspace : Z;
  readRatio : Q;
  warmupOps : Z;
  timeoutMs : Z;
  valueSize : Z;
  keyPrefix : jsstr;
  tests : list BenchKind;
  bankReadRatio : Q;
  bankTransferRatio : Q;
  bankInitialBalance : Z;
  bankMinAmount : Z;
  bankMaxAmount : Z;
}.

(** The double a decimal literal of the source denotes. *)
Definition double (q : Q) : Q := match to_double q with Fin v => v | _ => 0 end.

Definition BENCH_DEFAULTS : BenchOptions :=
  Options (js "127.0.0.1") 6389 10000 64 64 1 1000 (double 0.8) 1000 5000 128 (js "bench") [mixed]
    (double 0.6) (double 0.25) 100000 1 1000.

Definition set_host v o := Options v (port o) (totalOps o) (concurrency o) (poolSize o)
  (inflight o) (keyspace o) (readRatio o) (warmupOps o) (timeoutMs o) (valueSize o) (keyPrefix
  o) (tests o) (bankReadRatio o) (bankTransferRatio o) (bankInitialBalance o) (bankMinAmount o)
  (bankMaxAmount o).
Definition set_port v o := Options (host o) v (totalOps o) (concurrency o) (poolSize o)
  (inflight o) (keyspace o) (readRatio o) (warmupOps o) (timeoutMs o) (valueSize o) (keyPrefix
  o) (tests o) (bankReadRatio o) (bankTransferRatio o) (bankInitialBalance o) (bankMinAmount o)
  (bankMaxAmount o).
Definition set_totalOps v o := Options (host o) (port o) v (concurrency o) (poolSize o)
  (inflight o) (keyspace o) (readRatio o) (warmupOps o) (timeoutMs o) (valueSize o) (keyPrefix
  o) (tests o) (bankReadRatio o) (bankTransferRatio o) (bankInitialBalance o) (bankMinAmount o)
  (bankMaxAmount o).
Definition set_concurrency v o := Options (host o) (port o) (totalOps o) v (poolSize o)
  (inflight o) (keyspace o) (readRatio o) (warmupOps o) (timeoutMs o) (valueSize o) (keyPrefix
  o) (tests o) (bankReadRatio o) (bankTransferRatio o) (bankInitialBalance o) (bankMinAmount o)
  (bankMaxAmount o).
Definition set_poolSize v o := Options (host o) (port o) (totalOps o) (concurrency o) v
  (inflight o) (keyspace o) (readRatio o) (warmupOps o) (timeoutMs o) (valueSize o) (keyPrefix
  o) (tests o) (bankReadRatio o) (bankTransferRatio o) (bankInitialBalance o) (bankMinAmount o)
  (bankMaxAmount o).
Definition set_inflight v o := Options (host o) (port o) (totalOps o) (concurrency o) (poolSize
  o) v (keyspace o) (readRatio o) (warmupOps o) (timeoutMs o) (valueSize o) (keyPrefix o) (tests
  o) (bankReadRatio o) (bankTransferRatio o) (bankInitialBalance o) (bankMinAmount o)
  (bankMaxAmount o).
Definition set_keyspace v o := Options (host o) (port o) (totalOps o) (concurrency o) (poolSize
  o) (inflight o) v (readRatio o) (warmupOps o) (timeoutMs o) (valueSize o) (keyPrefix o) (tests
  o) (bankReadRatio o) (bankTransferRatio o) (bankInitialBalance o) (bankMinAmount o)
  (bankMaxAmount o).
Definition set_readRatio v o := Options (host o) (port o) (totalOps o) (concurrency o) (poolSize
  o) (inflight o) (keyspace o) v (warmupOps o) (timeoutMs o) (valueSize o) (keyPrefix o) (tests
  o) (bankReadRatio o) (bankTransferRatio o) (bankInitialBalance o) (bankMinAmount o)
  (bankMaxAmount o).
Definition set_warmupOps v o := Options (host o) (port o) (totalOps o) (concurrency o) (poolSize
  o) (inflight o) (keyspace o) (readRatio o) v (timeoutMs o) (valueSize o) (keyPrefix o) (tests
  o) (bankReadRatio o) (bankTransferRatio o) (bankInitialBalance o) (bankMinAmount o)
  (bankMaxAmount o).
Definition set_timeoutMs v o := Options (host o) (port o) (totalOps o) (concurrency o) (poolSize
  o) (inflight o) (keyspace o) (readRatio o) (warmupOps o) v (valueSize o) (keyPrefix o) (tests
  o) (bankReadRatio o) (bankTransferRatio o) (bankInitialBalance o) (bankMinAmount o)
  (bankMaxAmount o).
Definition set_valueSize v o := Options (host o) (port o) (totalOps o) (concurrency o) (poolSize
  o) (inflight o) (keyspace o) (readRatio o) (warmupOps o) (timeoutMs o) v (keyPrefix o) (tests
  o) (bankReadRatio o) (bankTransferRatio o) (bankInitialBalance o) (bankMinAmount o)
  (bankMaxAmount o).
Definition set_keyPrefix v o := Options (host o) (port o) (totalOps o) (concurrency o) (poolSize
  o) (inflight o) (keyspace o) (readRatio o) (warmupOps o) (timeoutMs o) (valueSize o) v (tests
  o) (bankReadRatio o) (bankTransferRatio o) (bankInitialBalance o) (bankMinAmount o)
  (bankMaxAmount o).
Definition set_tests v o := Options (host o) (port o) (totalOps o) (concurrency o) (poolSize o)
  (inflight o) (keyspace o) (readRatio o) (warmupOps o) (timeoutMs o) (valueSize o) (keyPrefix
  o) v (bankReadRatio o) (bankTransferRatio o) (bankInitialBalance o) (bankMinAmount o)
  (bankMaxAmount o).
Definition set_bankReadRatio v o := Options (host o) (port o) (totalOps o) (concurrency o)
  (poolSize o) (inflight o) (keyspace o) (readRatio o) (warmupOps o) (timeoutMs o) (valueSize o)
  (keyPrefix o) (tests o) v (bankTransferRatio o) (bankInitialBalance o) (bankMinAmount o)
  (bankMaxAmount o).
Definition set_bankTransferRatio v o := Options (host o) (port o) (totalOps o) (concurrency o)
  (poolSize o) (inflight o) (keyspace o) (readRatio o) (warmupOps o) (timeoutMs o) (valueSize o)
  (keyPrefix o) (tests o) (bankReadRatio o) v (bankInitialBalance o) (bankMinAmount o)
  (bankMaxAmount o).
Definition set_bankInitialBalance v o := Options (host o) (port o) (totalOps o) (concurrency o)
  (poolSize o) (inflight o) (keyspace o) (readRatio o) (warmupOps o) (timeoutMs o) (valueSize o)
  (keyPrefix o) (tests o) (bankReadRatio o) (bankTransferRatio o) v (bankMinAmount o)
  (bankMaxAmount o).
Definition set_bankMinAmount v o := Options (host o) (port o) (totalOps o) (concurrency o)
  (poolSize o) (inflight o) (keyspace o) (readRatio o) (warmupOps o) (timeoutMs o) (valueSize o)
  (keyPrefix o) (tests o) (bankReadRatio o) (bankTransferRatio o) (bankInitialBalance o) v
  (bankMaxAmount o).
Definition set_bankMaxAmount v o := Options (host o) (port o) (totalOps o) (concurrency o)
  (poolSize o) (inflight o) (keyspace o) (readRatio o) (warmupOps o) (timeoutMs o) (valueSize o)
  (keyPrefix o) (tests o) (bankReadRatio o) (bankTransferRatio o) (bankInitialBalance o)
  (bankMinAmount o) v.

(** ** Reading values *)

Definition requires (flag : jsstr) : exn := Error (flag ++ js " requires a value").

(** [if (!value) throw ...]: a missing or empty value *)
Definition given (flag : jsstr) (value : option jsstr) : res jsstr :=
  match value with Some ((_ :: _) as v) => Ok v | _ => Throw (requires flag) end.

Definition parseIntArg (flag : jsstr) (value : option jsstr) (min : Z) (max : option Z) : res Z :=
  v ← given flag value;
  let range := match max with
               | None => js ">= " ++ show min
               | Some m => js "between " ++ show min ++ js " and " ++ show m
               end in
  match as_integer (Number v) with
  | Some n =>
      if (n <? min) || match max with Some m => m <? n | None => false end
      then Throw (Error (flag ++ js " must be an integer " ++ range)) else Ok n
  | None => Throw (Error (flag ++ js " must be an integer " ++ range))
  end.

Definition parseFloatArg (flag : jsstr) (value : option jsstr) (min max : Z) : res Q :=
  v ← given flag value;
  let bad := Error (flag ++ js " must be a number between " ++ show min ++ js " and " ++ show max) in
  match Number v with
  | Fin q => if Qle_bool (inject_Z min) q && Qle_bool q (inject_Z max) then Ok q else Throw bad
  | _ => Throw bad
  end.

(** [Array.from(new Set(l))]: the first occurrences, in order. *)
Definition uniq (l : list BenchKind) : list BenchKind :=
  foldl (λ acc k, if decide (k ∈ acc) then acc else acc ++ [k]) [] l.

Fixpoint check_kinds (values : list jsstr) : res (list BenchKind) :=
  match values with
  | [] => Ok []
  | v :: values =>
      match kind_of v with
      | None => Throw (Error (js "Unknown test kind: " ++ v))
      | Some k => ks ← check_kinds values; Ok (k :: ks)
      end
  end.

Definition parseKinds (raw : jsstr) : res (list BenchKind) :=
  let values := filter (λ v, v ≠ []) (trim <$> split_on 44 raw) in
  match values with
  | [] => Throw (Error (js "--tests requires at least one test name"))
  | _ => ks ← check_kinds values; Ok (uniq ks)
  end.

(** ** The loop over the arguments *)

Notation parsed := (BenchOptions * list BenchKind)%type.

Definition int_flag (set : Z → BenchOptions → BenchOptions) (arg : jsstr) (next : option jsstr)
    (min : Z) (max : option Z) (p : parsed) : res parsed :=
  n ← parseIntArg arg next min max; Ok (set n p.1, p.2).
Definition ratio_flag (set : Q → BenchOptions → BenchOptions) (arg : jsstr) (next : option jsstr)
    (p : parsed) : res parsed :=
  q ← parseFloatArg arg next 0 1; Ok (set q p.1, p.2).
Definition text_flag (set : jsstr → BenchOptions → BenchOptions) (arg : jsstr)
    (next : option jsstr) (p : parsed) : res parsed :=
  v ← given arg next; Ok (set v p.1, p.2).
Definition tests_flag (arg : jsstr) (next : option jsstr) (p : parsed) : res parsed :=
  v ← given arg next; ks ← parseKinds v; Ok (p.1, p.2 ++ ks).

(** The cases of the [switch] that take a value. *)
Definition flags : list (jsstr * (jsstr → option jsstr → parsed → res parsed)) :=
  [(js "--host", text_flag set_host);
   (js "--port", λ a n, int_flag set_port a n 1 (Some 65535));
   (js "--ops", λ a n, int_flag set_totalOps a n 1 None);
   (js "--concurrency", λ a n, int_flag set_concurrency a n 1 None);
   (js "--pool-size", λ a n, int_flag set_poolSize a n 1 None);
   (js "--inflight", λ a n, int_flag set_inflight a n 1 None);
   (js "--keyspace", λ a n, int_flag set_keyspace a n 1 None);
   (js "--read-ratio", ratio_flag set_readRatio);
   (js "--warmup-ops", λ a n, int_flag set_warmupOps a n 0 None);
   (js "--timeout-ms", λ a n, int_flag set_timeoutMs a n 1 None);
   (js "--value-size", λ a n, int_flag set_valueSize a n 1 None);
   (js "--key-prefix", text_flag set_keyPrefix);
   (js "--bank-read-ratio", ratio_flag set_bankReadRatio);
   (js "--bank-transfer-ratio", ratio_flag set_bankTransferRatio);
   (js "--bank-initial-balance", λ a n, int_flag set_bankInitialBalance a n 0 None);
   (js "--bank-min-amount", λ a n, int_flag set_bankMinAmount a n 1 None);
   (js "--bank-max-amount", λ a n, int_flag set_bankMaxAmount a n 1 None);
   (js "--test", tests_flag);
   (js "--tests", tests_flag)].

Definition flag_of (arg : jsstr) : option (jsstr → option jsstr → parsed → res parsed) :=
  match list_find (λ f, f.1 = arg) flags with Some (_, (_, f)) => Some f | None => None end.

(** [--help] prints the help and exits with status 0. *)
Inductive cli (A : Type) := Run (a : A) | Exit (code : Z).
Arguments Run {A}.
Arguments Exit {A}.

Fixpoint parse_loop (argv : list jsstr) (p : parsed) : res (cli parsed) :=
  match argv with
  | [] => Ok (Run p)
  | arg :: rest =>
      match flag_of arg with
      | Some f =>
          p ← f arg (head rest) p;
          match rest with
          | [] => Ok (Run p)
          | _ :: rest => parse_loop rest p
          end
      | None =>
          if bool_decide (arg = js "--help") || bool_decide (arg = js "-h") then Ok (Exit 0)
          else Throw (Error (js "Unknown argument: " ++ arg))
      end
  end.

(** Whether the double sum of two ratios exceeds one. *)
Definition sum_exceeds_one (a b : Q) : bool :=
  match to_double (a + b) with Fin s => negb (Qle_bool s 1) | _ => true end.

Definition final_checks (o : BenchOptions) : res BenchOptions :=
  if sum_exceeds_one (bankReadRatio o) (bankTransferRatio o)
  then Throw (Error (js "--bank-read-ratio + --bank-transfer-ratio must be <= 1"))
  else if bankMaxAmount o <? bankMinAmount o
  then Throw (Error (js "--bank-max-amount must be >= --bank-min-amount"))
  else if concurrency o <? poolSize o
  then Throw (Error (js "--pool-size must be <= --concurrency"))
  else if inflight o <? 1 then Throw (Error (js "--inflight must be >= 1"))
  else Ok o.

Definition parseBenchArgs (argv : list jsstr) : res (cli BenchOptions) :=
  r ← parse_loop argv (BENCH_DEFAULTS, []);
  match r with
  | Exit code => Ok (Exit code)
  | Run (o, explicitTests) =>
      let o := match explicitTests with [] => o | _ => set_tests (uniq explicitTests) o end in
      o ← final_checks o; Ok (Run o)
  end.

(** ** What a parsed command line satisfies *)

Definition ratio (q : Q) : Prop := (0 <= q)%Q ∧ (q <= 1)%Q.

(** What the flags establish one by one. *)
Record fields_ok (o : BenchOptions) : Prop := FieldsOk {
  fo_host : host o ≠ [];
  fo_prefix : keyPrefix o ≠ [];
  fo_port : 1 ≤ port o ≤ 65535;
  fo_sizes : 1 ≤ totalOps o ∧ 1 ≤ concurrency o ∧ 1 ≤ poolSize o ∧ 1 ≤ inflight o ∧
             1 ≤ keyspace o ∧ 0 ≤ warmupOps o ∧ 1 ≤ timeoutMs o ∧ 1 ≤ valueSize o;
  fo_ratios : ratio (readRatio o) ∧ ratio (bankReadRatio o) ∧ ratio (bankTransferRatio o);
  fo_bank : 0 ≤ bankInitialBalance o ∧ 1 ≤ bankMinAmount o ∧ 1 ≤ bankMaxAmount o;
  fo_tests : tests o ≠ [] ∧ NoDup (tests o);
}.

Lemma given_ok flag value v : given flag value = Ok v → v ≠ [].
Proof. destruct value as [[|c s]|]; [done| |done]. by intros [= <-]. Qed.

Lemma parseIntArg_ok flag value min max n :
  parseIntArg flag value min max = Ok n →
  min ≤ n ∧ match max with Some m => n ≤ m | None => True end.
Proof.
  unfold parseIntArg. destruct (given flag value) as [v|]; [|done]. cbn [mbind res_bind].
  destruct (as_integer (Number v)) as [z|]; [|done].
  destruct (Z.ltb_spec z min); [done|]. destruct max as [m|]; cbn [orb].
  - destruct (Z.ltb_spec m z); [done|]. intros [= <-]. lia.
  - intros [= <-]. lia.
Qed.

Lemma parseFloatArg_ok flag value q : parseFloatArg flag value 0 1 = Ok q → ratio q.
Proof.
  unfold parseFloatArg. destruct (given flag value) as [v|]; [|done]. cbn [mbind res_bind].
  destruct (Number v) as [| |x]; try done.
  destruct (Qle_bool (inject_Z 0) x) eqn:E1; [|done]. destruct (Qle_bool x (inject_Z 1)) eqn:E2; [|done].
  intros [= <-]. by split; apply Qle_bool_iff.
Qed.

Lemma uniq_spec (l acc : list BenchKind) :
  NoDup acc → let r := foldl (λ acc k, if decide (k ∈ acc) then acc else acc ++ [k]) acc l in
  NoDup r ∧ (∀ k, k ∈ r ↔ k ∈ acc ∨ k ∈ l).
Proof.
  revert acc. induction l as [|k l IH]; intros acc Hn; cbn [foldl].
  { split; [done|]. intros k. rewrite elem_of_nil. tauto. }
  case_decide as Hk.
  - destruct (IH acc Hn) as [H1 H2]. split; [done|]. intros x. rewrite H2, elem_of_cons.
    split; [tauto|]. intros [?|[->|?]]; tauto.
  - destruct (IH (acc ++ [k])) as [H1 H2].
    { apply NoDup_app. split_and!; [done| |apply NoDup_singleton].
      intros x Hx ->%list_elem_of_singleton. done. }
    split; [done|]. intros x. rewrite H2, elem_of_app, !elem_of_cons, elem_of_nil. tauto.
Qed.

Lemma uniq_ok l : l ≠ [] → uniq l ≠ [] ∧ NoDup (uniq l).
Proof.
  intros Hl. destruct (uniq_spec l [] (NoDup_nil_2)) as [H1 H2]. split; [|done].
  destruct l as [|k l]; [done|]. intros E. assert (k ∈ uniq (k :: l)) as Hk by (apply H2; right; left).
  rewrite E in Hk. by apply elem_of_nil in Hk.
Qed.

Lemma flag_fields_ok arg f next p p' :
  flag_of arg = Some f → f arg next p = Ok p' → fields_ok p.1 → fields_ok p'.1.
Proof.
  intros Hf Hr Ho. unfold flag_of in Hf.
  destruct (list_find _ flags) as [[i [name f']]|] eqn:E; [|done]. injection Hf as ->.
  apply list_find_Some in E as (E & _). apply list_elem_of_lookup_2 in E. clear i.
  assert (∀ set min max, int_flag set arg next min max p = Ok p' →
    ∃ n, min ≤ n ∧ match max with Some m => n ≤ m | None => True end ∧ p'.1 = set n p.1) as Hint.
  { intros set min max. unfold int_flag. destruct (parseIntArg _ _ _ _) as [n|] eqn:En; [|done].
    intros [= <-]. apply parseIntArg_ok in En as [??]. by exists n. }
  assert (∀ set, ratio_flag set arg next p = Ok p' → ∃ q, ratio q ∧ p'.1 = set q p.1) as Hratio.
  { intros set. unfold ratio_flag. destruct (parseFloatArg _ _ _ _) as [n|] eqn:En; [|done].
    intros [= <-]. apply parseFloatArg_ok in En. by exists n. }
  assert (∀ set, text_flag set arg next p = Ok p' → ∃ v, v ≠ [] ∧ p'.1 = set v p.1) as Htext.
  { intros set. unfold text_flag. destruct (given arg next) as [v|] eqn:En; [|done].
    intros [= <-]. apply given_ok in En. by exists v. }
  assert (tests_flag arg next p = Ok p' → p'.1 = p.1) as Htests.
  { unfold tests_flag. destruct (given arg next) as [v|]; [|done]. cbn [mbind res_bind].
    destruct (parseKinds v); [|done]. by intros [= <-]. }
  destruct Ho as [? ? ? (?&?&?&?&?&?&?&?) (?&?&?) (?&?&?) (?&?)].
  unfold flags in E. repeat (apply elem_of_cons in E as [E|E]; [injection E as -> ->|]);
    [..|by apply elem_of_nil in E].
  all: first [ apply Hint in Hr as (n & ? & ? & ->) | apply Hratio in Hr as (q & ? & ->)
             | apply Htext in Hr as (v & ? & ->) | apply Htests in Hr as -> ];
    split; cbn; split_and?; done || lia.
Qed.

Lemma parse_loop_fields_ok argv p p' :
  parse_loop argv p = Ok (Run p') → fields_ok p.1 → fields_ok p'.1.
Proof.
  remember (length argv) as n eqn:Hn. revert argv p Hn.
  induction (lt_wf n) as [n _ IH]; intros [|arg rest] p Hn Hr Ho; cbn [parse_loop] in Hr.
  { by injection Hr as <-. }
  destruct (flag_of arg) as [f|] eqn:Ef.
  - destruct (f arg (head rest) p) as [p1|] eqn:E1; [|done]. cbn [mbind res_bind] in Hr.
    pose proof (flag_fields_ok _ _ _ _ _ Ef E1 Ho) as H1.
    destruct rest as [|next rest]; [by injection Hr as <-|].
    eapply (IH (length rest)); [cbn in Hn; lia|done|exact Hr|done].
  - destruct (_ || _); done.
Qed.

Lemma defaults_ok : fields_ok BENCH_DEFAULTS.
Proof.
  assert (∀ q, Qle_bool 0 q && Qle_bool q 1 = true → ratio q) as Hr.
  { intros q [H1 H2]%andb_true_iff. by split; apply Qle_bool_iff. }
  split; cbn; split_and?; try done; try lia; try (apply Hr; vm_compute; reflexivity).
  apply NoDup_singleton.
Qed.

(** C40: a command line that is accepted gives options within their documented
    ranges: every size is positive, the port is a port, the ratios lie in
    [0, 1] and their sum is at most one, the amounts are ordered, there are
    at least as many workers as connections, and the tests are distinct and
    not none. *)
Theorem parseBenchArgs_valid argv o :
  parseBenchArgs argv = Ok (Run o) →
  fields_ok o ∧ bankMinAmount o ≤ bankMaxAmount o ∧ poolSize o ≤ concurrency o ∧
  sum_exceeds_one (bankReadRatio o) (bankTransferRatio o) = false.
Proof.
  unfold parseBenchArgs. destruct (parse_loop argv _) as [[[o1 ts]|code]|] eqn:E; try done.
  cbn [mbind res_bind]. set (o2 := match ts with [] => o1 | _ => _ end).
  assert (fields_ok o2) as H2.
  { apply parse_loop_fields_ok in E; [|apply defaults_ok]. cbn in E. unfold o2.
    destruct ts as [|t ts]; [done|]. destruct (uniq_ok (t :: ts)) as [? ?]; [done|].
    destruct E. by split. }
  unfold final_checks. destruct (sum_exceeds_one _ _) eqn:Es; [done|].
  destruct (Z.ltb_spec (bankMaxAmount o2) (bankMinAmount o2)); [done|].
  destruct (Z.ltb_spec (concurrency o2) (poolSize o2)); [done|].
  destruct (Z.ltb_spec (inflight o2) 1); [done|]. by intros [= <-].
Qed.

Definition sample_args : list jsstr :=
  [js "--ops"; js "5e4"; js "--tests"; js "read, banking,read"; js "--bank-read-ratio"; js ".5"].

Lemma parseBenchArgs_valid_witness :
  ∃ o, parseBenchArgs sample_args = Ok (Run o) ∧ totalOps o = 50000 ∧ tests o = [read; banking] ∧
    fields_ok o ∧ poolSize o ≤ concurrency o.
Proof.
  destruct (parseBenchArgs sample_args) as [[o|]|] eqn:E; [|by vm_compute in E..].
  exists o. destruct (parseBenchArgs_valid _ _ E) as (H1 & _ & H2 & _).
  vm_compute in E. injection E as <-. by split_and!.
Defined.
