(* ===== verification/BenchScenarios.v ===== *)
(** * Benchmark scenarios ([apps/bun/src/lib/bench/scenarios.ts])

    Each scenario as the request program of one operation, and what the
    operations do to the accounts they are run on.  The product of a random
    draw and an integer is taken exactly. *)
From Stdlib Require Import QArith Qround.
From stdpp Require Import functions.
From S2P Require Import Prelude Utf8 JsText Number Command Wire Protocol Prog KvServer BenchCli.
#[local] Open Scope Z_scope.

Record WorkContext := Context_ { ctx_options : BenchOptions; valuePayload : jsstr }.

Definition randomInt (maxExclusive : Z) : prog Z :=
  r ← random; Ret (Qfloor (r * inject_Z maxExclusive)).

Definition key_name (o : BenchOptions) (i : Z) : jsstr := keyPrefix o ++ js ":" ++ show i.

Definition nextKey (ctx : WorkContext) : prog jsstr :=
  keyId ← randomInt (keyspace (ctx_options ctx)); Ret (key_name (ctx_options ctx) keyId).

Definition parseBalance (response : WormResponse) : option Z :=
  match response with
  | bulk v =>
      match Number v with
      | Fin q => if Qle_bool 0 q then Some (Qfloor q) else None
      | _ => None
      end
  | _ => None
  end.

Definition randomAmount (ctx : WorkContext) : prog Z :=
  let min := bankMinAmount (ctx_options ctx) in
  let max := bankMaxAmount (ctx_options ctx) in
  if max <=? min then Ret min else n ← randomInt (max - min + 1); Ret (min + n).

Definition is_error (r : WormResponse) : bool := match r with error _ => true | _ => false end.

(** The text of a transfer. *)
Definition transfer_text (from to : jsstr) (amount : Z) : jsstr :=
  js "EXEC transfer " ++ from ++ js " " ++ to ++ js " " ++ show amount.

(** ** The scenarios *)

Definition mixed_command (ctx : WorkContext) : prog jsstr :=
  key ← nextKey ctx;
  r ← random;
  let opIsRead := negb (Qle_bool (readRatio (ctx_options ctx)) r) in
  Ret (if opIsRead then get_text key else set_text key (valuePayload ctx)).

Definition read_command (ctx : WorkContext) : prog jsstr := key ← nextKey ctx; Ret (get_text key).
Definition write_command (ctx : WorkContext) : prog jsstr :=
  key ← nextKey ctx; Ret (set_text key (valuePayload ctx)).

(** [if (to === from) ...]: another draw, which may give [from] again. *)
Definition redraw (ctx : WorkContext) (from to : jsstr) : prog jsstr :=
  if bool_decide (to = from) then
    let keyspace := keyspace (ctx_options ctx) in
    n ← randomInt (keyspace - 1);
    Ret (key_name (ctx_options ctx) (Z.rem (n + 1) keyspace))
  else Ret to.

(** The two writes of a transfer: [true] is ["success"]. *)
Definition debit_credit (from to : jsstr) (fromBal toBal amount : Z) : prog bool :=
  if fromBal <? amount then Ret true else
  debit ← send (set_text from (show (fromBal - amount)));
  if is_error debit then Ret false else
  credit ← send (set_text to (show (toBal + amount)));
  Ret (negb (is_error credit)).

Definition banking_operation (ctx : WorkContext) : prog bool :=
  r ← random;
  source ← nextKey ctx;
  let o := ctx_options ctx in
  if negb (Qle_bool (bankReadRatio o) r) then
    read ← send (get_text source);
    Ret (bool_decide (is_Some (parseBalance read)))
  else
    let transferThreshold := double (bankReadRatio o + bankTransferRatio o) in
    if negb (Qle_bool transferThreshold r) then
      target ← nextKey ctx;
      target ← redraw ctx source target;
      fromRes ← send (get_text source);
      toRes ← send (get_text target);
      match parseBalance fromRes, parseBalance toRes with
      | Some fromBal, Some toBal =>
          amount ← randomAmount ctx; debit_credit source target fromBal toBal amount
      | _, _ => Ret false
      end
    else
      read ← send (get_text source);
      match parseBalance read with
      | None => Ret false
      | Some balance =>
          amount ← randomAmount ctx;
          write ← send (set_text source (show (balance + amount)));
          Ret (negb (is_error write))
      end.

(** The reads and writes of [spacetime-transfer], once its draws are made. *)
Definition spacetime_transfer_of (from to : jsstr) (amount : Z) : prog bool :=
  fromRes ← send (get_text from);
  toRes ← send (get_text to);
  match parseBalance fromRes, parseBalance toRes with
  | Some fromBal, Some toBal => debit_credit from to fromBal toBal amount
  | _, _ => Ret false
  end.

Definition spacetime_operation (ctx : WorkContext) : prog bool :=
  from ← nextKey ctx;
  to ← nextKey ctx;
  to ← redraw ctx from to;
  amount ← randomAmount ctx;
  spacetime_transfer_of from to amount.

Definition exec_transfer_of (from to : jsstr) (amount : Z) : prog bool :=
  res ← send (transfer_text from to amount);
  Ret (match res with
       | error m => bool_decide (m = js "insufficient_funds")
       | _ => true
       end).

Definition exec_transfer_operation (ctx : WorkContext) : prog bool :=
  from ← nextKey ctx;
  to ← nextKey ctx;
  to ← redraw ctx from to;
  amount ← randomAmount ctx;
  exec_transfer_of from to amount.

(** A scenario: whether it needs seeded keys, the seed of a key, and its
    command or its operation.  None has a [classifyResult]. *)
Record BenchScenario := Scenario {
  needsSeed : bool;
  makeCommand : option (WorkContext → prog jsstr);
  runOperation : option (WorkContext → prog bool);
  seedValueForKey : option (WorkContext → jsstr → jsstr);
}.

Definition initial_balance (ctx : WorkContext) (_ : jsstr) : jsstr :=
  show (bankInitialBalance (ctx_options ctx)).

Definition getScenario (kind : BenchKind) : BenchScenario :=
  match kind with
  | mixed => Scenario true (Some mixed_command) None None
  | read => Scenario true (Some read_command) None None
  | write => Scenario false (Some write_command) None None
  | status => Scenario false (Some (λ _, Ret (js "STATUS"))) None None
  | cluster_status => Scenario false (Some (λ _, Ret (js "CLUSTER STATUS"))) None None
  | banking => Scenario true None (Some banking_operation) (Some initial_balance)
  | spacetime_transfer => Scenario true None (Some spacetime_operation) (Some initial_balance)
  | exec_transfer => Scenario true None (Some exec_transfer_operation) (Some initial_balance)
  end.

(** ** Accounts

    A key that holds the text of a balance, under a name every text command
    can carry. *)

Section Accounts.
Context {UD : UnicodeData} {O : Others}.

Definition holds (s : kv) (k : jsstr) (n : Z) : Prop := s !! k = Some (Entry (show n) false).

Lemma transfer_text_sentence f t a :
  transfer_text f t a = sentence [js "EXEC"; js "transfer"; f; t; show a].
Proof. unfold transfer_text, sentence. cbn [join]. by rewrite !app_assoc. Qed.

Lemma serve_get s k n : account k → holds s k n → serve (get_text k) s = (s, Ok (bulk (show n))).
Proof. intros [Hk _] Hs. rewrite serve_get_text by done. unfold get. by rewrite Hs. Qed.

Lemma serve_set s k n m : account k → holds s k n → 0 ≤ m →
  serve (set_text k (show m)) s = (<[k := Entry (show m) false]> s, Ok ok).
Proof.
  intros Hk Hs Hm. apply serve_put; [done|by apply show_word|by apply show_not_worm|].
  unfold is_worm. by rewrite Hs.
Qed.

Lemma serve_transfer s f t a : account f → account t → 0 ≤ a →
  serve (transfer_text f t a) s = let '(s', r) := transfer [f; t; show a] s in (s', Ok r).
Proof.
  intros [Hf _] [Ht _] Ha. pose proof (show_word a Ha). unfold serve.
  rewrite transfer_text_sentence, (parse_render (EXEC (js "transfer") (ArgStr <$> [f; t; show a])));
    [|done|by words|done].
  done.
Qed.

Lemma parseBalance_show n : 0 ≤ n ≤ 2 ^ 53 → parseBalance (bulk (show n)) = Some n.
Proof.
  intros Hn. cbn. rewrite Number_show by done.
  rewrite (proj2 (Qle_bool_iff _ _)) by (unfold Qle; cbn; lia). by rewrite Qfloor_Z.
Qed.

(** What the server's transfer does between two accounts, the same one
    included. *)
Lemma transfer_spec s f t a bf bt :
  holds s f bf → holds s t bt → 0 ≤ bf < 2 ^ 63 → 0 ≤ bt < 2 ^ 63 → 0 < a < 2 ^ 63 →
  transfer [f; t; show a] s =
  if bf <? a then (s, error (js "insufficient_funds"))
  else (<[t := Entry (show (to_i64 (bt + a))) false]> (<[f := Entry (show (bf - a)) false]> s), ok).
Proof.
  intros Hf Ht Hbf Hbt Ha. unfold transfer. cbn [head mbind option_bind].
  rewrite parse_i64_show by lia. destruct (Z.leb_spec a 0); [lia|].
  unfold get_int, get. rewrite Hf, Ht. cbn. rewrite !parse_i64_show by lia.
  destruct (bf <? a); [done|]. unfold set_unsafe, put.
  assert (is_worm s f = false) as -> by (unfold is_worm; by rewrite Hf). cbn [default from_option id].
  assert (is_worm (<[f:=Entry (show (bf - a)) false]> s) t = false) as ->; [|done].
  unfold is_worm. destruct (decide (f = t)) as [->|].
  - by rewrite lookup_insert_eq.
  - rewrite lookup_insert_ne by done. by rewrite Ht.
Qed.

(** C10: run with nothing in between, the four round trips of a client-side
    transfer answer and leave the store as the single server-side [transfer]
    does, funds or not, the two accounts distinct or not. *)
Theorem client_transfer_as_server f t a d s bf bt :
  account f → account t → holds s f bf → holds s t bt →
  0 ≤ bf ≤ 2 ^ 53 → 0 ≤ bt → 0 < a → bt + a ≤ 2 ^ 53 →
  exec serve (spacetime_transfer_of f t a) d s = exec serve (exec_transfer_of f t a) d s ∧
  result serve (spacetime_transfer_of f t a) d s = Ok true.
Proof.
  intros Hf Ht Hsf Hst Hbf Hbt Ha Hsum. unfold result.
  assert (exec serve (exec_transfer_of f t a) d s =
    (Ok true, d, (transfer [f; t; show a] s).1)) as ->.
  { unfold exec_transfer_of. rewrite exec_bind, exec_send, serve_transfer by (done || lia).
    rewrite (transfer_spec s f t a bf bt) by (done || lia). by destruct (bf <? a). }
  enough (exec serve (spacetime_transfer_of f t a) d s =
    (Ok true, d, (transfer [f; t; show a] s).1)) as -> by done.
  rewrite (transfer_spec s f t a bf bt), to_i64_small by (done || lia).
  unfold spacetime_transfer_of. rewrite exec_bind, exec_send, (serve_get s f bf) by done.
  rewrite exec_bind, exec_send, (serve_get s t bt) by done.
  rewrite !parseBalance_show by lia. unfold debit_credit.
  destruct (Z.ltb_spec bf a); [done|].
  rewrite exec_bind, exec_send, (serve_set s f bf) by (done || lia). cbn [is_error].
  set (s' := <[f:=_]> s). assert (∃ n, holds s' t n) as [n Hn].
  { unfold holds, s'. destruct (decide (f = t)) as [->|].
    - rewrite lookup_insert_eq. eauto.
    - rewrite lookup_insert_ne by done. eauto. }
  rewrite exec_bind, exec_send, (serve_set s' t n) by (done || lia). done.
Qed.

(** ** The ledger of all accounts *)

Section Ledger.
Context (ks : list jsstr) (Hks : NoDup ks) (Hacc : Forall account ks).

Definition total (b : jsstr → Z) : Z := foldr Z.add 0 (b <$> ks).
Definition ledger (b : jsstr → Z) (s : kv) : Prop := ∀ k, k ∈ ks → holds s k (b k) ∧ 0 ≤ b k.

Lemma total_insert b k v : k ∈ ks → total (<[k := v]> b) = total b - b k + v.
Proof.
  unfold total. clear Hacc. induction Hks as [|x l Hx Hl IH]; [by intros ?%elem_of_nil|].
  intros [->|Hk]%elem_of_cons; cbn.
  - rewrite fn_lookup_insert. replace (<[x:=v]> b <$> l) with (b <$> l); [lia|].
    apply list_fmap_ext. intros i y Hy. rewrite fn_lookup_insert_ne; [done|].
    intros ->. apply Hx. by eapply list_elem_of_lookup_2.
  - rewrite IH by done. rewrite fn_lookup_insert_ne by (intros ->; done). lia.
Qed.

Lemma total_above b k : (∀ k, k ∈ ks → 0 ≤ b k) → k ∈ ks → b k ≤ total b.
Proof.
  unfold total. clear Hks Hacc. induction ks as [|x l IH]; [by intros _ ?%elem_of_nil|].
  intros Hl Hk. cbn. assert (0 ≤ foldr Z.add 0 (b <$> l)) as H0.
  { assert (∀ y, y ∈ l → 0 ≤ b y) as H by (intros y Hy; apply Hl; by right).
    clear -H. induction l as [|y l IH]; cbn; [done|].
    pose proof (H y (list_elem_of_here _ _)). assert (∀ z, z ∈ l → 0 ≤ b z) as H' by (intros z Hz; apply H; by right).
    specialize (IH H'). lia. }
  pose proof (Hl x (list_elem_of_here _ _)). apply elem_of_cons in Hk as [->|Hk]; [lia|].
  assert (b k ≤ foldr Z.add 0 (b <$> l)); [|lia]. apply IH; [|done]. intros y Hy. apply Hl. by right.
Qed.
Lemma total_bound b s k : ledger b s → k ∈ ks → b k ≤ total b.
Proof. intros Hl. apply total_above. intros y Hy. by apply Hl. Qed.

Lemma ledger_insert b s k v : ledger b s → 0 ≤ v →
  ledger (<[k := v]> b) (<[k := Entry (show v) false]> s).
Proof.
  intros Hl Hv y Hy. unfold holds. destruct (decide (k = y)) as [->|Hne].
  - by rewrite fn_lookup_insert, lookup_insert_eq.
  - rewrite fn_lookup_insert_ne, lookup_insert_ne by done. by apply Hl.
Qed.

(** The texts of transfers between distinct accounts. *)
Definition transfers (text : jsstr) : Prop :=
  ∃ f t a, f ∈ ks ∧ t ∈ ks ∧ f ≠ t ∧ 0 < a < 2 ^ 63 ∧ text = transfer_text f t a.

Definition conserved (T : Z) (s : kv) : Prop := ∃ b, ledger b s ∧ total b = T.

Lemma serve_transfer_conserves T text s :
  T < 2 ^ 63 → transfers text → conserved T s → conserved T (serve text s).1.
Proof.
  intros HT (f & t & a & Hf & Ht & Hne & Ha & ->) (b & Hb & <-).
  rewrite Forall_forall in Hacc. rewrite serve_transfer by (by auto || lia).
  destruct (Hb f Hf) as [Hsf H0f]. destruct (Hb t Ht) as [Hst H0t].
  pose proof (total_bound b s f Hb Hf). pose proof (total_bound b s t Hb Ht).
  rewrite (transfer_spec s f t a (b f) (b t)) by (done || lia).
  destruct (Z.ltb_spec (b f) a); cbn; [by exists b|].
  assert (total (<[t := b t + a]> (<[f := b f - a]> b)) = total b) as Htot.
  { rewrite !total_insert by done. rewrite fn_lookup_insert_ne by done. lia. }
  assert (b t + a ≤ total b) as Hsum.
  { rewrite <- Htot. rewrite <- (fn_lookup_insert (<[f := b f - a]> b) t (b t + a)) at 1. apply total_above; [|done].
    intros k Hk. pose proof (proj2 (Hb k Hk)). unfold insert, fn_insert. repeat case_decide; lia. }
  rewrite to_i64_small by lia. exists (<[t := b t + a]> (<[f := b f - a]> b)). split; [|done].
  apply ledger_insert; [|lia]. apply ledger_insert; [done|lia].
Qed.

(** Whatever the schedule that interleaves them, server-side transfers
    between distinct accounts keep every balance a non-negative number and
    the total of the accounts what it was. *)
Theorem exec_transfers_conserve orders schedule d s T ps' d' s' :
  Forall (λ o : jsstr * jsstr * Z, o.1.1 ∈ ks ∧ o.1.2 ∈ ks ∧ o.1.1 ≠ o.1.2 ∧ 0 < o.2 < 2 ^ 63) orders →
  draws_ok d → T < 2 ^ 63 → conserved T s →
  prun serve schedule ((λ o, exec_transfer_of o.1.1 o.1.2 o.2) <$> orders) d s = (ps', d', s') →
  conserved T s'.
Proof.
  intros Ho Hd HT Hs E. eapply (prun_preserves serve transfers (conserved T)); [|..|exact E]; try done.
  - intros text s0 Ht Hc. by apply serve_transfer_conserves.
  - apply Forall_fmap. eapply Forall_impl; [exact Ho|]. intros [[f t] a]. cbn [fst snd]. intros (Hf & Ht & Hne & Ha).
    apply sends_bind; [|intros r; constructor].
    constructor; [by exists f, t, a|]. intros []; constructor.
Qed.
End Ledger.
End Accounts.

(** ** Concrete runs *)

Section Examples.
#[local] Existing Instance ascii_only.
#[local] Existing Instance no_others.

Definition acc0 : jsstr := js "b:0".
Definition acc1 : jsstr := js "b:1".
Definition bank : kv := {[ acc0 := Entry (js "100") false; acc1 := Entry (js "5") false ]}.
Definition draws_of (q : Q) : draws := Draws (λ _, q) 0 (λ _, 0) 0.
Definition balances (s : kv) : list (option Z) := get_int s <$> [acc0; acc1].

Lemma acc_account : account acc0 ∧ account acc1.
Proof. repeat split; try done; words; by vm_compute. Qed.

Lemma client_transfer_as_server_witness :
  balances (final serve (spacetime_transfer_of acc0 acc1 30) (draws_of 0) bank) = [Some 70; Some 35] ∧
  result serve (spacetime_transfer_of acc0 acc1 30) (draws_of 0) bank = Ok true.
Proof.
  destruct acc_account as [H0 H1].
  destruct (client_transfer_as_server acc0 acc1 30 (draws_of 0) bank 100 5) as [E R];
    [done|done|by vm_compute|by vm_compute|lia..|].
  split; [|exact R]. unfold final. rewrite E. by vm_compute.
Defined.

Definition orders : list (jsstr * jsstr * Z) := [(acc0, acc1, 30); (acc1, acc0, 10)].

Lemma bank_conserved : conserved [acc0; acc1] 105 bank.
Proof.
  exists (λ k, if decide (k = acc0) then 100 else 5). split; [|by vm_compute].
  intros k [->| ->%list_elem_of_singleton]%elem_of_cons; split; by vm_compute.
Qed.

Lemma exec_transfers_conserve_witness :
  ∃ ps d s, prun serve [1; 0]%nat ((λ o, exec_transfer_of o.1.1 o.1.2 o.2) <$> orders)
              (draws_of 0) bank = (ps, d, s) ∧
    balances s = [Some 70; Some 35] ∧ conserved [acc0; acc1] 105 s.
Proof.
  destruct acc_account as [H0 H1].
  destruct (prun _ _ _ _ _) as [[ps d] s] eqn:E. exists ps, d, s. split_and!; [done|..].
  - vm_compute in E. injection E as _ _ <-. by vm_compute.
  - eapply (exec_transfers_conserve [acc0; acc1]); [..|exact E].
    + apply NoDup_cons. split; [|apply NoDup_singleton]. by intros ?%list_elem_of_singleton.
    + by repeat constructor.
    + repeat constructor; cbn [fst snd]; try lia; done.
    + done.
    + lia.
    + apply bank_conserved.
Defined.

Definition small_bank : BenchOptions :=
  set_bankMaxAmount 5 (set_bankMinAmount 5 (set_keyspace 2 (set_keyPrefix (js "b") BENCH_DEFAULTS))).

(** The redraw of the second account may give the first again: the transfer
    then adds the amount to the account it took it from. *)
Lemma self_transfer_creates_money :
  balances (final serve (exec_transfer_operation (Context_ small_bank [])) (draws_of 0.5) bank)
  = [Some 100; Some 10].
Proof. by vm_compute. Qed.

(** Two client-side transfers whose reads and writes interleave do not keep
    the total. *)
Lemma interleaved_client_transfers_drift :
  balances (prun serve [0; 0; 1; 1; 0; 1; 0; 1]%nat
    [spacetime_transfer_of acc0 acc1 5; spacetime_transfer_of acc1 acc0 5] (draws_of 0) bank).2
  = [Some 105; Some 10].
Proof. by vm_compute. Qed.
End Examples.
