(* ===== verification/FinancialBench.v ===== *)
(** * The financial benchmark ([apps/bun/src/bin/financial-bench.ts])

    Transfers between random accounts, as procedures of WormDB, as a Lua
    script of Redis and as separate commands of Redis, with the check of the
    total at the end.  Workers are request programs; Redis is a parameter.
    The product of a random draw and an integer is taken exactly, and so is
    the quotient of operations and workers; times are not modelled. *)
From Stdlib Require Import QArith Qround.
From stdpp Require Import functions.
From S2P Require Import Prelude Utf8 JsText Number Command Wire Protocol Prog KvServer BenchCli BenchScenarios.
#[local] Open Scope Z_scope.

(** The settings, as the integers their texts give *)
Record config := Config {
  NUM_ACCOUNTS : Z; INITIAL_BALANCE : Z; TRANSFER_AMOUNT : Z; TOTAL_OPS : Z; CONCURRENCY : Z; WARMUP_OPS : Z }.

(** The texts of the options; [None] when one is no integer, which the model
    leaves out. *)
Record options := Options {
  accounts : jsstr; initial_balance : jsstr; transfer_amount : jsstr; ops : jsstr; concurrency : jsstr; warmup : jsstr }.
Definition default_options : options :=
  Options (js "100") (js "100000") (js "100") (js "10000") (js "8") (js "500").
Definition read_config (o : options) : option config :=
  n ← as_integer (parseInt (accounts o));
  b ← as_integer (parseInt (initial_balance o));
  a ← as_integer (parseInt (transfer_amount o));
  t ← as_integer (parseInt (ops o));
  c ← as_integer (parseInt (concurrency o));
  w ← as_integer (parseInt (warmup o));
  Some (Config n b a t c w).

Definition acct (i : Z) : jsstr := js "acct:" ++ show i.

(** [Math.ceil(a / b)] *)
Definition ceil_div (a b : Z) : Z := - ((- a) / b).

Inductive outcome := Succeeded | InsufficientFunds | Failed.
#[export] Instance outcome_eq_dec : EqDecision outcome.
Proof. solve_decision. Defined.

Section Bench.
Context (cfg : config).

(** ** Accounts *)

Definition randomAccount : prog Z := randomInt (NUM_ACCOUNTS cfg).

(** [while (to === from) to = randomAccount()]; [None]: still drawing after
    [fuel] draws *)
Fixpoint draw_other (fuel : nat) (from to : Z) : prog (option Z) :=
  if to =? from then
    match fuel with
    | O => Ret None
    | S fuel => to ← randomAccount; draw_other fuel from to
    end
  else Ret (Some to).

Definition randomPair (fuel : nat) : prog (option (jsstr * jsstr)) :=
  from ← randomAccount;
  to ← randomAccount;
  to ← draw_other fuel from to;
  Ret (option_map (λ to, (acct from, acct to)) to).

(** ** WormDB *)

Definition SEED_CONNS : nat := 8.

Fixpoint warm_connections (n : nat) : prog () :=
  match n with O => Ret () | S n => _ ← send (js "STATUS"); warm_connections n end.

(** The loop of a seed connection; an account takes a round, so there are at
    most [NUM_ACCOUNTS] of them. *)
Fixpoint seed_loop (rounds : nat) (i : Z) : prog () :=
  match rounds with
  | O => Ret ()
  | S rounds =>
      if i <? NUM_ACCOUNTS cfg then
        _ ← send (set_text (acct i) (show (INITIAL_BALANCE cfg)));
        seed_loop rounds (i + Z.of_nat SEED_CONNS)
      else Ret ()
  end.
Definition seed_worker (ci : nat) : prog () := seed_loop (Z.to_nat (NUM_ACCOUNTS cfg)) (Z.of_nat ci).

(** The workers of [seedWormDB], once its connections are warm *)
Definition seedWormDB : list (prog ()) := seed_worker <$> seq 0 SEED_CONNS.

Fixpoint warmup_loop (fuel rounds : nat) : prog (option ()) :=
  match rounds with
  | O => Ret (Some ())
  | S rounds =>
      p ← randomPair fuel;
      match p with
      | None => Ret None
      | Some (from, to) =>
          _ ← send (transfer_text from to (TRANSFER_AMOUNT cfg));
          warmup_loop fuel rounds
      end
  end.

Definition classify (resp : WormResponse) : outcome :=
  match resp with
  | ok => Succeeded
  | error m => if bool_decide (m = js "insufficient_funds") then InsufficientFunds else Failed
  | _ => Failed
  end.

Definition transfer_once (from to : jsstr) : prog outcome :=
  catch (resp ← send (transfer_text from to (TRANSFER_AMOUNT cfg)); Ret (classify resp)) (λ _, Ret Failed).

(** What a worker adds to the counters *)
Fixpoint worker_loop (fuel rounds : nat) : prog (option (list outcome)) :=
  match rounds with
  | O => Ret (Some [])
  | S rounds =>
      p ← randomPair fuel;
      match p with
      | None => Ret None
      | Some (from, to) =>
          o ← transfer_once from to;
          rest ← worker_loop fuel rounds;
          Ret (option_map (cons o) rest)
      end
  end.

Definition opsPerWorker : Z := ceil_div (TOTAL_OPS cfg) (CONCURRENCY cfg).
Definition warmupPerWorker : Z := ceil_div (WARMUP_OPS cfg) (CONCURRENCY cfg).
Definition pool_size : nat := Z.to_nat (CONCURRENCY cfg).
Definition warmups (fuel : nat) : list (prog (option ())) :=
  replicate pool_size (warmup_loop fuel (Z.to_nat warmupPerWorker)).
Definition workers (fuel : nat) : list (prog (option (list outcome))) :=
  replicate pool_size (worker_loop fuel (Z.to_nat opsPerWorker)).

(** A sum that meets a text without digits is [NaN], here [None]. *)
Definition add_balance (total : option Z) (text : jsstr) : option Z :=
  t ← total; b ← as_integer (parseInt text); Some (t + b).

Fixpoint verify_loop (rounds : nat) (i : Z) (total : option Z) : prog (option Z) :=
  match rounds with
  | O => Ret total
  | S rounds =>
      r ← send (get_text (acct i));
      verify_loop rounds (i + 1) (match r with bulk v => add_balance total v | _ => total end)
  end.
Definition verify : prog (option Z) := verify_loop (Z.to_nat (NUM_ACCOUNTS cfg)) 0 (Some 0).
Definition expectedTotal : Z := NUM_ACCOUNTS cfg * INITIAL_BALANCE cfg.
Definition passes (totalBalance : option Z) : bool := bool_decide (totalBalance = Some expectedTotal).
End Bench.

Record BenchResult := Result { succeeded : Z; failed : Z; insufficientFunds : Z }.
Definition count (o : outcome) (l : list outcome) : Z := len (base.filter (λ x, x = o) l).
Definition tally (l : list outcome) : BenchResult := Result (count Succeeded l) (count Failed l) (count InsufficientFunds l).
Definition attempted (r : BenchResult) : Z := succeeded r + failed r + insufficientFunds r.

(** [benchWormDB], with the schedules of its four concurrent phases: what its
    workers have come to, and the total read at the end *)
Section Whole.
Context {UD : UnicodeData} {O : Others} (cfg : config).
Definition benchWormDB (fuel : nat) (seeding warming reseeding running : list nat) (d : draws) (s : kv)
    : list (prog (option (list outcome))) * res (option Z) :=
  let '(_, d, s) := prun serve seeding (seedWormDB cfg) d s in
  let '(_, d, s) := prun serve warming (warmups cfg fuel) d s in
  let '(_, d, s) := prun serve reseeding (seedWormDB cfg) d s in
  let '(ps, d, s) := prun serve running (workers cfg fuel) d s in
  (ps, result serve (verify cfg) d s).
End Whole.

(** ** Accounts are distinct keys *)

Section Theorems.
Context {UD : UnicodeData} {O : Others} (cfg : config).
Context (Hn : 0 < NUM_ACCOUNTS cfg) (Hb : 0 ≤ INITIAL_BALANCE cfg).
Context (Ht : expectedTotal cfg ≤ 2 ^ 53) (Ha : 0 < TRANSFER_AMOUNT cfg < 2 ^ 63).

Lemma acct_inj i j : acct i = acct j → i = j.
Proof. intros [= E]. unfold show in E. apply js_inj in E. by apply pretty.pretty_Z_inj in E. Qed.

Lemma acct_account i : 0 ≤ i → account (acct i).
Proof.
  intros Hi. destruct (show_word i Hi) as [_ Hw]. split.
  - split; [done|]. unfold no_space, acct. apply Forall_app. split; [|exact Hw]. by repeat constructor.
  - by apply says_worm_first.
Qed.

Definition keys : list jsstr := acct <$> seqZ 0 (NUM_ACCOUNTS cfg).

Lemma elem_of_keys k : k ∈ keys ↔ ∃ i, k = acct i ∧ 0 ≤ i < NUM_ACCOUNTS cfg.
Proof.
  unfold keys. rewrite list_elem_of_fmap. setoid_rewrite elem_of_seqZ.
  split; intros (i & -> & Hi); exists i; (split; [done|lia]).
Qed.
Lemma keys_NoDup : NoDup keys.
Proof. apply (NoDup_fmap_2_strong acct); [|apply NoDup_seqZ]. intros i j _ _. apply acct_inj. Qed.
Lemma keys_account : Forall account keys.
Proof. apply Forall_forall. intros k (i & -> & Hi)%elem_of_keys. apply acct_account. lia. Qed.

Lemma total_constant l v : foldr Z.add 0 ((λ _ : jsstr, v) <$> l) = len l * v.
Proof. induction l as [|k l IH]; [done|]. rewrite fmap_cons, len_cons. cbn [foldr]. rewrite IH. lia. Qed.

Lemma keys_total : total keys (λ _, INITIAL_BALANCE cfg) = expectedTotal cfg.
Proof.
  unfold total. rewrite total_constant. unfold keys, expectedTotal, len. rewrite length_fmap, length_seqZ. lia.
Qed.

(** ** Seeding *)

Definition unsealed (s : kv) : Prop := ∀ k, k ∈ keys → is_worm s k = false.
Definition initial (s : kv) (k : jsstr) : Prop := holds s k (INITIAL_BALANCE cfg).

(** The program writes the initial balance of each key of [K], and then ends. *)
Inductive writes {A} : list jsstr → prog A → Prop :=
| writes_ret a : writes [] (Ret a)
| writes_send k K f : k ∈ keys → writes K (f (Ok ok)) →
    writes (k :: K) (Send (set_text k (show (INITIAL_BALANCE cfg))) f).

Lemma serve_seed k s : k ∈ keys → unsealed s →
  serve (set_text k (show (INITIAL_BALANCE cfg))) s = (<[k := Entry (show (INITIAL_BALANCE cfg)) false]> s, Ok ok).
Proof.
  intros Hk Hs. pose proof keys_account as Hacc. rewrite Forall_forall in Hacc.
  apply serve_put; [by apply Hacc|by apply show_word|by apply show_not_worm|by apply Hs].
Qed.

Lemma unsealed_insert k v s : unsealed s → unsealed (<[k := Entry v false]> s).
Proof.
  intros Hs k' Hk'. unfold is_worm. destruct (decide (k = k')) as [->|Hne].
  - by rewrite lookup_insert_eq.
  - rewrite lookup_insert_ne by done. by apply Hs.
Qed.

Lemma initial_insert k s k' : initial s k' → initial (<[k := Entry (show (INITIAL_BALANCE cfg)) false]> s) k'.
Proof.
  intros Hs. unfold initial, holds. destruct (decide (k = k')) as [->|]; [by rewrite lookup_insert_eq|].
  by rewrite lookup_insert_ne.
Qed.

Lemma advance_writes {A} K (p : prog A) d s : writes K p → unsealed s →
  ∃ K' p' s', advance serve p d s = (p', d, s') ∧ writes K' p' ∧ unsealed s' ∧
    (∀ k, initial s k → initial s' k) ∧ ∀ k, k ∈ K → k ∈ K' ∨ initial s' k.
Proof.
  intros Hp Hs. destruct Hp as [a|k K f Hk Hf]; cbn [advance].
  - exists [], (Ret a), s. split_and!; auto. constructor.
  - rewrite serve_seed by done. eexists K, _, _. split_and!; [done|done|by apply unsealed_insert|by intros; apply initial_insert|].
    intros k' [->|Hk']%elem_of_cons; [right|by left]. apply lookup_insert_eq.
Qed.

Lemma prun_writes {A} schedule Ks (ps : list (prog A)) d s ps' d' s' :
  Forall2 writes Ks ps → unsealed s → prun serve schedule ps d s = (ps', d', s') →
  ∃ Ks', Forall2 writes Ks' ps' ∧ unsealed s' ∧ (∀ k, initial s k → initial s' k) ∧
    ∀ k, (∃ K, K ∈ Ks ∧ k ∈ K) → (∃ K, K ∈ Ks' ∧ k ∈ K) ∨ initial s' k.
Proof.
  revert Ks ps d s. induction schedule as [|i schedule IH]; intros Ks ps d s Hp Hs E; cbn in E.
  { injection E as <- <- <-. exists Ks. split_and!; auto. }
  destruct (ps !! i) as [p|] eqn:Ep; [|by eapply IH].
  destruct (Forall2_lookup_r _ _ _ _ _ Hp Ep) as (K & HK & Hw).
  destruct (advance_writes K p d s Hw Hs) as (K' & p' & s1 & Eq & Hw' & Hs' & Hi & Hd). rewrite Eq in E.
  destruct (IH (<[i := K']> Ks) _ _ _ (Forall2_insert _ _ _ _ _ _ Hp Hw') Hs' E) as (Ks' & H1 & H2 & H3 & H4).
  exists Ks'. split_and!; [done|done|by intros k Hk; apply H3, Hi|].
  intros k (K0 & HK0 & Hk). apply list_elem_of_lookup in HK0 as [j Hj]. destruct (decide (i = j)) as [->|Hne].
  - rewrite HK in Hj. injection Hj as <-. destruct (Hd k Hk) as [Hk'|Hk']; [|right; by apply H3].
    apply H4. exists K'. split; [|done]. apply list_elem_of_insert. by eapply lookup_lt_Some.
  - apply H4. exists K0. split; [|done]. eapply list_elem_of_lookup_2. rewrite list_lookup_insert_ne by done. exact Hj.
Qed.

(** The accounts a seed connection writes *)
Fixpoint seeds (rounds : nat) (i : Z) : list jsstr :=
  match rounds with
  | 0%nat => []
  | S rounds => if i <? NUM_ACCOUNTS cfg then acct i :: seeds rounds (i + 8) else []
  end.

Lemma seed_loop_writes rounds i : 0 ≤ i → writes (seeds rounds i) (seed_loop cfg rounds i).
Proof.
  revert i. induction rounds as [|rounds IH]; intros i Hi; cbn [seeds seed_loop]; [constructor|].
  destruct (Z.ltb_spec i (NUM_ACCOUNTS cfg)); [|constructor].
  constructor; [apply elem_of_keys; exists i; split; [done|lia]|]. cbn. apply IH. lia.
Qed.

Lemma seeds_reach rounds i m : i + 8 * Z.of_nat m < NUM_ACCOUNTS cfg → (m < rounds)%nat →
  acct (i + 8 * Z.of_nat m) ∈ seeds rounds i.
Proof.
  revert i rounds. induction m as [|m IH]; intros i rounds Hi Hm; (destruct rounds as [|rounds]; [lia|]); cbn [seeds];
    rewrite (proj2 (Z.ltb_lt i (NUM_ACCOUNTS cfg))) by lia.
  - rewrite Z.mul_0_r, Z.add_0_r. by left.
  - right. replace (i + 8 * Z.of_nat (S m)) with (i + 8 + 8 * Z.of_nat m) by lia. apply IH; lia.
Qed.

Lemma seed_loop_within rounds i : within rounds (seed_loop cfg rounds i).
Proof.
  revert i. induction rounds as [|rounds IH]; intros i; cbn [seed_loop]; [constructor|].
  destruct (i <? NUM_ACCOUNTS cfg); [|constructor]. constructor. intros [r|e]; cbn; [apply IH|constructor].
Qed.

(** A schedule that gives each of [n] workers [m] turns *)
Definition fair (n m : nat) (schedule : list nat) : Prop := ∀ i, (i < n)%nat → (m ≤ turns i schedule)%nat.

Lemma seed_workers_write : Forall2 writes ((λ ci, seeds (Z.to_nat (NUM_ACCOUNTS cfg)) (Z.of_nat ci)) <$> seq 0 SEED_CONNS) (seedWormDB cfg).
Proof. unfold seedWormDB. apply Forall2_fmap, Forall_Forall2_diag, Forall_forall. intros ci _. apply seed_loop_writes. lia. Qed.

(** However its connections are interleaved, the seeding ends and leaves the
    initial balance in every account. *)
Lemma seeded schedule d s ps' d' s' : fair SEED_CONNS (Z.to_nat (NUM_ACCOUNTS cfg)) schedule → unsealed s →
  prun serve schedule (seedWormDB cfg) d s = (ps', d', s') →
  Forall ended ps' ∧ unsealed s' ∧ ledger keys (λ _, INITIAL_BALANCE cfg) s'.
Proof.
  intros Hf Hs E. assert (Forall ended ps') as He.
  { eapply (prun_ends serve (λ _, Z.to_nat (NUM_ACCOUNTS cfg))); [| |exact E].
    - intros i p (ci & -> & _)%list_elem_of_lookup_2%list_elem_of_fmap. apply seed_loop_within.
    - intros i Hi. apply Hf. unfold seedWormDB in Hi. by rewrite length_fmap, length_seq in Hi. }
  destruct (prun_writes schedule _ _ d s ps' d' s' seed_workers_write Hs E) as (Ks & Hw & Hu & _ & Hd).
  split_and!; [done|done|]. intros k Hk. split; [|done]. pose proof Hk as (i & -> & Hi)%elem_of_keys.
  destruct (Hd (acct i)) as [(K & HK & Hin)|H]; [|exfalso|exact H].
  - exists (seeds (Z.to_nat (NUM_ACCOUNTS cfg)) (i `mod` 8)). split.
    + apply list_elem_of_fmap. exists (Z.to_nat (i `mod` 8)). pose proof (Z.mod_pos_bound i 8 ltac:(lia)).
      split; [by rewrite Z2Nat.id by lia|]. apply elem_of_seq. unfold SEED_CONNS. lia.
    + pose proof (Z.div_mod i 8 ltac:(lia)) as Hdm. pose proof (Z.div_pos i 8 ltac:(lia) ltac:(lia)).
      replace i with (i `mod` 8 + 8 * Z.of_nat (Z.to_nat (i / 8))) at 1 by (rewrite Z2Nat.id by lia; lia).
      pose proof (Z.mod_pos_bound i 8 ltac:(lia)). apply seeds_reach; lia.
  - apply list_elem_of_lookup in HK as [j Hj]. destruct (Forall2_lookup_l _ _ _ _ _ Hw Hj) as (p & Hp & Hwp).
    rewrite Forall_forall in He. specialize (He p ltac:(by eapply list_elem_of_lookup_2)).
    inversion Hwp; subst; [by apply elem_of_nil in Hin|done].
Qed.

(** ** Transfers *)

(** The transfers of the benchmark are between distinct accounts. *)
Definition ordered (text : jsstr) : Prop :=
  ∃ f t, f ∈ keys ∧ t ∈ keys ∧ f ≠ t ∧ text = transfer_text f t (TRANSFER_AMOUNT cfg).
Definition answered (_ : jsstr) (r : res WormResponse) : Prop := r = Ok ok ∨ r = Ok (error (js "insufficient_funds")).

Lemma serve_ordered t s : ordered t → conserved keys (expectedTotal cfg) s →
  conserved keys (expectedTotal cfg) (serve t s).1 ∧ answered t (serve t s).2.
Proof.
  intros (f & t' & Hf & Ht' & Hne & ->) Hc. split.
  - apply (serve_transfer_conserves keys keys_NoDup keys_account); [lia| |done]. by exists f, t', (TRANSFER_AMOUNT cfg).
  - destruct Hc as (b & Hl & Htot). pose proof keys_account as Hacc. rewrite Forall_forall in Hacc.
    rewrite serve_transfer by (by auto || lia). destruct (Hl f Hf) as [Hsf H0f], (Hl t' Ht') as [Hst H0t].
    pose proof (total_bound keys b s f Hl Hf). pose proof (total_bound keys b s t' Hl Ht').
    rewrite (transfer_spec s f t' _ (b f) (b t')) by (done || lia). unfold answered. destruct (b f <? _); cbn; auto.
Qed.

Notation fine := (safe ordered answered).

Lemma randomAccount_safe : fine (λ i, 0 ≤ i < NUM_ACCOUNTS cfg) (randomAccount cfg).
Proof. constructor. intros q H0 H1. constructor. by apply Qfloor_scaled. Qed.

Lemma draw_other_safe fuel from to : 0 ≤ to < NUM_ACCOUNTS cfg →
  fine (λ x, ∀ t, x = Some t → t ≠ from ∧ 0 ≤ t < NUM_ACCOUNTS cfg) (draw_other cfg fuel from to).
Proof.
  revert to. induction fuel as [|fuel IH]; intros to Hto; cbn [draw_other];
    (destruct (Z.eqb_spec to from); [|constructor; by intros t [= <-]]); [by constructor|].
  eapply safe_bind; [apply randomAccount_safe|]. intros i Hi. by apply IH.
Qed.

Definition distinct_pair (p : option (jsstr * jsstr)) : Prop :=
  ∀ f t, p = Some (f, t) → f ∈ keys ∧ t ∈ keys ∧ f ≠ t.

Lemma randomPair_safe fuel : fine distinct_pair (randomPair cfg fuel).
Proof.
  eapply safe_bind; [apply randomAccount_safe|]. intros i Hi. eapply safe_bind; [apply randomAccount_safe|]. intros j Hj.
  eapply safe_bind; [by apply draw_other_safe|]. intros [t|] H; constructor; intros f t' E; [|done].
  injection E as <- <-. destruct (H t eq_refl) as [Hne Hr]. split_and!; [apply elem_of_keys; eauto..|].
  intros E%acct_inj. congruence.
Qed.

Lemma transfer_once_safe f t : f ∈ keys → t ∈ keys → f ≠ t → fine (λ o, o ≠ Failed) (transfer_once cfg f t).
Proof.
  intros Hf Ht' Hne. constructor; [by exists f, t|]. by intros r [-> | ->]; constructor.
Qed.

Lemma worker_safe fuel rounds :
  fine (λ x, ∀ l, x = Some l → length l = rounds ∧ Failed ∉ l) (worker_loop cfg fuel rounds).
Proof.
  induction rounds as [|rounds IH]; cbn [worker_loop].
  { constructor. intros l [= <-]. split; [done|]. by intros ?%elem_of_nil. }
  eapply safe_bind; [apply randomPair_safe|]. intros [[f t]|] Hp; [|by constructor]. destruct (Hp f t eq_refl) as (Hf & Ht' & Hne).
  eapply safe_bind; [by apply transfer_once_safe|]. intros o Ho. eapply safe_bind; [apply IH|].
  intros [l|] Hl; constructor; intros l' E; [|done]. injection E as <-. destruct (Hl l eq_refl) as [Hlen Hin].
  split; [cbn; lia|]. intros [E|E]%elem_of_cons; [by apply Ho|done].
Qed.

Lemma warmup_safe fuel rounds : fine (λ _, True) (warmup_loop cfg fuel rounds).
Proof.
  induction rounds as [|rounds IH]; cbn [warmup_loop]; [by constructor|].
  eapply safe_bind; [apply randomPair_safe|]. intros [[f t]|] Hp; [|by constructor]. destruct (Hp f t eq_refl) as (Hf & Ht' & Hne).
  constructor; [by exists f, t|]. by intros r [-> | ->].
Qed.

Lemma randomPair_drawing fuel : drawing (randomPair cfg fuel).
Proof.
  assert (drawing (randomAccount cfg)) as Hr by (constructor; intros q; constructor).
  assert (∀ from to, drawing (draw_other cfg fuel from to)) as Hd.
  { intros from. induction fuel as [|n IH]; intros to; cbn [draw_other]; (destruct (to =? from); [|constructor]); [constructor|].
    apply drawing_bind; [exact Hr|]. intros i. apply IH. }
  apply drawing_bind; [exact Hr|]. intros i. apply drawing_bind; [exact Hr|]. intros j.
  apply drawing_bind; [apply Hd|]. constructor.
Qed.

Lemma worker_within fuel rounds : within rounds (worker_loop cfg fuel rounds).
Proof.
  induction rounds as [|rounds IH]; cbn [worker_loop]; [constructor|].
  apply within_drawing; [apply randomPair_drawing|]. intros [[f t]|]; [|constructor].
  constructor. intros r. rewrite <- (Nat.add_0_r rounds) at 1.
  destruct r as [r|e]; (apply within_bind; [exact IH|]); constructor.
Qed.

(** ** The check of the total *)

Lemma exec_verify b n i acc d s : ledger keys b s → total keys b ≤ 2 ^ 53 → 0 ≤ i → i + Z.of_nat n = NUM_ACCOUNTS cfg →
  exec serve (verify_loop n i (Some acc)) d s =
  (Ok (Some (acc + foldr Z.add 0 (b <$> (acct <$> seqZ i (Z.of_nat n))))), d, s).
Proof.
  intros Hl Htot. revert i acc. induction n as [|n IH]; intros i acc Hi E; cbn [verify_loop].
  { cbn. by rewrite Z.add_0_r. }
  assert (acct i ∈ keys) as Hk by (apply elem_of_keys; exists i; split; [done|lia]).
  destruct (Hl _ Hk) as [Hs H0]. pose proof (total_bound keys b s _ Hl Hk).
  rewrite exec_bind, exec_send, (serve_get s (acct i) (b (acct i))) by (done || apply acct_account; lia).
  unfold add_balance. cbn [mbind option_bind]. rewrite parseInt_show by lia. cbn [as_integer].
  rewrite Qfloor_Z, (proj2 (Qeq_bool_iff _ _)) by reflexivity.
  cbn [mbind option_bind]. rewrite IH by lia.
  rewrite (seqZ_cons i) by lia. do 4 f_equal. rewrite !fmap_cons. cbn [foldr]. rewrite Z.add_assoc.
  replace (Z.pred (Z.of_nat (S n))) with (Z.of_nat n) by lia. done.
Qed.

Lemma verify_conserved T d s : T ≤ 2 ^ 53 → conserved keys T s → exec serve (verify cfg) d s = (Ok (Some T), d, s).
Proof.
  intros HT (b & Hl & <-). unfold verify. rewrite (exec_verify b) by (done || lia).
  rewrite Z2Nat.id by lia. done.
Qed.

Lemma conserved_unsealed T s : conserved keys T s → unsealed s.
Proof. intros (b & Hl & _) k Hk. destruct (Hl k Hk) as [Hs _]. unfold is_worm. by rewrite Hs. Qed.

Lemma warm_connections_ok n d s : exec serve (warm_connections n) d s = (Ok tt, d, s).
Proof.
  induction n as [|n IH]; [done|]. cbn [warm_connections]. rewrite exec_bind, exec_send. unfold serve.
  rewrite (parse_render STATUS [js "STATUS"]) by (done || by words). exact IH.
Qed.

(** C23: the WormDB benchmark passes its own check: from any store that has
    none of the accounts write-once, however the seeding, the warm-up, the
    second seeding and the transfers are interleaved and whatever is drawn,
    the total that is read at the end is the expected one, and a worker that
    ends has counted each of its transfers, none as an error.  Given their
    turns the workers end, unless one is still drawing a second account. *)
Theorem financial_run_passes fuel A W B C d s :
  unsealed s → draws_ok d → fair SEED_CONNS (Z.to_nat (NUM_ACCOUNTS cfg)) A → fair SEED_CONNS (Z.to_nat (NUM_ACCOUNTS cfg)) B →
  let '(ps, totalBalance) := benchWormDB cfg fuel A W B C d s in
  (∃ t, totalBalance = Ok t ∧ passes cfg t = true) ∧
  (∀ l, Ret (Some l) ∈ ps → length l = Z.to_nat (opsPerWorker cfg) ∧ Failed ∉ l) ∧
  (fair (pool_size cfg) (Z.to_nat (opsPerWorker cfg)) C → ∀ p, p ∈ ps → p = Ret None ∨ ∃ l, p = Ret (Some l)).
Proof.
  intros Hs Hd HA HB. unfold benchWormDB. destruct (prun serve A _ d s) as [[p1 d1] s1] eqn:E1.
  apply seeded in E1 as E1'; [|done..]. destruct E1' as (_ & _ & Hl1). pose proof (prun_draws serve _ _ _ _ _ _ _ Hd E1) as Hd1.
  assert (∀ s, ledger keys (λ _, INITIAL_BALANCE cfg) s → conserved keys (expectedTotal cfg) s) as Hcons.
  { intros s0 H0. exists (λ _, INITIAL_BALANCE cfg). split; [exact H0|apply keys_total]. }
  destruct (prun serve W _ d1 s1) as [[p2 d2] s2] eqn:E2.
  assert (Forall (safe ordered answered (λ _, True)) (warmups cfg fuel)) as Hwarm by apply Forall_replicate, warmup_safe.
  destruct (prun_safe serve ordered answered _ _ serve_ordered W _ d1 s1 p2 d2 s2 Hwarm Hd1 (Hcons s1 Hl1) E2) as (_ & Hd2 & Hc2 & _).
  destruct (prun serve B _ d2 s2) as [[p3 d3] s3] eqn:E3.
  apply seeded in E3 as E3'; [|done|by eapply conserved_unsealed]. destruct E3' as (_ & _ & Hl3).
  pose proof (prun_draws serve _ _ _ _ _ _ _ Hd2 E3) as Hd3.
  destruct (prun serve C _ d3 s3) as [[ps d4] s4] eqn:E4.
  assert (Forall (safe ordered answered (λ x, ∀ l, x = Some l → length l = Z.to_nat (opsPerWorker cfg) ∧ Failed ∉ l)) (workers cfg fuel))
    as Hwork by apply Forall_replicate, worker_safe.
  destruct (prun_safe serve ordered answered _ _ serve_ordered C _ d3 s3 ps d4 s4 Hwork Hd3 (Hcons s3 Hl3) E4) as (Hps & _ & Hc4 & _).
  split_and!.
  - exists (Some (expectedTotal cfg)). unfold result. rewrite (verify_conserved _ d4 s4 Ht Hc4). split; [done|]. by apply bool_decide_eq_true.
  - intros l Hin. rewrite Forall_forall in Hps. specialize (Hps _ Hin). inversion Hps as [a Ha'| | |]; subst. by apply Ha'.
  - intros HC p Hin. rewrite Forall_forall in Hps. specialize (Hps _ Hin).
    assert (Forall ended ps) as He.
    { eapply (prun_ends serve (λ _, Z.to_nat (opsPerWorker cfg))); [| |exact E4].
      - intros i q [-> _]%lookup_replicate. apply worker_within.
      - intros i Hi. apply HC. unfold workers in Hi. by rewrite length_replicate in Hi. }
    rewrite Forall_forall in He. specialize (He p Hin). inversion Hps as [[l|] _| | |]; subst; [right; eauto|by left|done..].
Qed.
End Theorems.

(** ** Redis

    A store of texts with [GET] and [SET], and scripts that run alone *)

Inductive rprog (A : Type) : Type :=
| RRet (a : A)
| RGet (k : jsstr) (f : option jsstr → rprog A)
| RSet (k v : jsstr) (p : rprog A).
Arguments RRet {A}.
Arguments RGet {A}.
Arguments RSet {A}.

Section Redis.
Context {R : Type} (rget : R → jsstr → option jsstr) (rset : jsstr → jsstr → R → R).

Fixpoint rexec {A} (p : rprog A) (s : R) : A * R :=
  match p with
  | RRet a => (a, s)
  | RGet k f => rexec (f (rget s k)) s
  | RSet k v p => rexec p (rset k v s)
  end.
Definition radvance {A} (p : rprog A) (s : R) : rprog A * R :=
  match p with
  | RRet a => (RRet a, s)
  | RGet k f => (f (rget s k), s)
  | RSet k v p => (p, rset k v s)
  end.
Fixpoint rrun {A} (schedule : list nat) (ps : list (rprog A)) (s : R) : list (rprog A) * R :=
  match schedule with
  | [] => (ps, s)
  | i :: schedule =>
      match ps !! i with
      | None => rrun schedule ps s
      | Some p => let '(p, s) := radvance p s in rrun schedule (<[i := p]> ps) s
      end
  end.

Section Transfers.
Context (cfg : config).

(** [parseInt((await client.get(k)) ?? "0", 10)]; [None] is [NaN]. *)
Definition balance (v : option jsstr) : option Z := as_integer (parseInt (default (js "0") v)).
Definition balance_text (b : option Z) : jsstr := match b with Some b => show b | None => js "NaN" end.

(** The loop body of a worker, after its draws *)
Definition client_transfer (from to : jsstr) : rprog outcome :=
  RGet from (λ v,
    let fromBal := balance v in
    if match fromBal with Some b => b <? TRANSFER_AMOUNT cfg | None => false end then RRet InsufficientFunds else
    RGet to (λ w,
      let toBal := balance w in
      RSet from (balance_text ((λ b, b - TRANSFER_AMOUNT cfg) <$> fromBal))
        (RSet to (balance_text ((λ b, b + TRANSFER_AMOUNT cfg) <$> toBal)) (RRet Succeeded)))).

(** [for (let i = 0; i < NUM_ACCOUNTS; i++) await seedClient.set(...)] *)
Fixpoint redis_seed (rounds : nat) (i : Z) : rprog () :=
  match rounds with
  | 0%nat => RRet ()
  | S rounds => RSet (acct i) (show (INITIAL_BALANCE cfg)) (redis_seed rounds (i + 1))
  end.
Definition seedRedis : rprog () := redis_seed (Z.to_nat (NUM_ACCOUNTS cfg)) 0.

Fixpoint redis_verify (rounds : nat) (i : Z) (total : option Z) : rprog (option Z) :=
  match rounds with
  | 0%nat => RRet total
  | S rounds => RGet (acct i) (λ v, redis_verify rounds (i + 1) (add_balance total (default (js "0") v)))
  end.
Definition verifyRedis : rprog (option Z) := redis_verify (Z.to_nat (NUM_ACCOUNTS cfg)) 0 (Some 0).

(** [TRANSFER_LUA]: Lua's numbers, on integers, are parameters. *)
Context (tonumber : jsstr → option Z) (tostring : Z → jsstr).

Definition TRANSFER_LUA (from_key to_key argv : jsstr) (s : R) : R * (jsstr + ()) :=
  let amount := tonumber argv in
  match rget s from_key ≫= tonumber with
  | None => (s, inl (js "from account not found"))
  | Some from_bal =>
      match rget s to_key ≫= tonumber with
      | None => (s, inl (js "to account not found"))
      | Some to_bal =>
          match amount with
          | None => (s, inl (js "attempt to compare number with nil"))
          | Some amount =>
              if from_bal <? amount then (s, inl (js "insufficient_funds"))
              else (rset to_key (tostring (to_bal + amount)) (rset from_key (tostring (from_bal - amount)) s), inr tt)
          end
      end
  end.

(** [client.send("EVALSHA", ...)] and its [catch] *)
Definition lua_transfer (from to : jsstr) (s : R) : outcome * R :=
  let '(s, r) := TRANSFER_LUA from to (show (TRANSFER_AMOUNT cfg)) s in
  (match r with
   | inr _ => Succeeded
   | inl msg => if includes msg (js "insufficient_funds") then InsufficientFunds else Failed
   end, s).

(** What Lua does on the numbers it prints in full *)
Context (Hnum : ∀ n, 0 ≤ n < 10 ^ 14 → tonumber (show n) = Some n).
Context (Hstr : ∀ n, 0 ≤ n < 10 ^ 14 → tostring n = show n).

Lemma balance_show n : 0 ≤ n < 10 ^ 14 → balance (Some (show n)) = Some n.
Proof.
  intros H. unfold balance. cbn [default from_option id]. rewrite parseInt_show by lia. cbn [as_integer].
  by rewrite Qfloor_Z, (proj2 (Qeq_bool_iff _ _)) by reflexivity.
Qed.

(** Run with nothing in between, the separate commands of a client-side
    transfer count and leave the store as the script does. *)
Theorem redis_client_as_lua from to s bf bt :
  rget s from = Some (show bf) → rget s to = Some (show bt) → 0 ≤ bf → 0 ≤ bt →
  0 < TRANSFER_AMOUNT cfg → bf + TRANSFER_AMOUNT cfg < 10 ^ 14 → bt + TRANSFER_AMOUNT cfg < 10 ^ 14 →
  rexec (client_transfer from to) s = lua_transfer from to s.
Proof.
  intros Hf Ht H1 H2 Ha H3 H4. unfold lua_transfer, TRANSFER_LUA, client_transfer. cbn [rexec].
  rewrite Hf, Ht. cbn [mbind option_bind]. rewrite !balance_show, !Hnum by lia.
  destruct (Z.ltb_spec bf (TRANSFER_AMOUNT cfg)); [done|]. cbn [rexec]. rewrite Ht, balance_show by lia.
  cbn. by rewrite !Hstr by lia.
Qed.

(** *** The total *)

Context (Hget : ∀ k v s, rget (rset k v s) k = Some v).
Context (Hother : ∀ k v s k', k ≠ k' → rget (rset k v s) k' = rget s k').
Context (Hn : 0 < NUM_ACCOUNTS cfg) (Hb : 0 ≤ INITIAL_BALANCE cfg) (Ha : 0 ≤ TRANSFER_AMOUNT cfg).
Context (Ht : expectedTotal cfg + TRANSFER_AMOUNT cfg < 10 ^ 14).

Definition rledger (b : jsstr → Z) (s : R) : Prop := ∀ k, k ∈ keys cfg → rget s k = Some (show (b k)) ∧ 0 ≤ b k.

Lemma rledger_set b k v s : rledger b s → 0 ≤ v → rledger (<[k := v]> b) (rset k (show v) s).
Proof.
  intros Hl Hv y Hy. destruct (decide (k = y)) as [->|Hne].
  - by rewrite fn_lookup_insert, Hget.
  - rewrite fn_lookup_insert_ne, Hother by done. by apply Hl.
Qed.

Lemma lua_transfer_keeps b f t s : f ∈ keys cfg → t ∈ keys cfg → f ≠ t → rledger b s → total (keys cfg) b = expectedTotal cfg →
  let '(o, s') := lua_transfer f t s in
  o ≠ Failed ∧ ∃ b', rledger b' s' ∧ total (keys cfg) b' = expectedTotal cfg.
Proof.
  intros Hf Ht' Hne Hl Htot. unfold lua_transfer, TRANSFER_LUA. destruct (Hl f Hf) as [Ef H0f], (Hl t Ht') as [Et H0t].
  assert (∀ k, k ∈ keys cfg → b k ≤ expectedTotal cfg) as Hle.
  { intros k Hk. rewrite <- Htot. apply total_above; [|done]. intros y Hy. by apply Hl. }
  pose proof (Hle f Hf). pose proof (Hle t Ht').
  rewrite Ef, Et. cbn [mbind option_bind]. rewrite !Hnum by lia.
  destruct (Z.ltb_spec (b f) (TRANSFER_AMOUNT cfg)); [split; [by vm_compute|by exists b]|]. split; [done|].
  rewrite !Hstr by lia. exists (<[t := b t + TRANSFER_AMOUNT cfg]> (<[f := b f - TRANSFER_AMOUNT cfg]> b)). split.
  - apply rledger_set; [|lia]. apply rledger_set; [done|lia].
  - rewrite !total_insert by (done || apply keys_NoDup). rewrite fn_lookup_insert_ne by done. lia.
Qed.

(** The scripts of all workers, in the order Redis runs them *)
Fixpoint lua_transfers (pairs : list (jsstr * jsstr)) (s : R) : list outcome * R :=
  match pairs with
  | [] => ([], s)
  | (f, t) :: pairs => let '(o, s) := lua_transfer f t s in let '(os, s) := lua_transfers pairs s in (o :: os, s)
  end.

Lemma lua_transfers_keep pairs b s : Forall (λ p : jsstr * jsstr, p.1 ∈ keys cfg ∧ p.2 ∈ keys cfg ∧ p.1 ≠ p.2) pairs →
  rledger b s → total (keys cfg) b = expectedTotal cfg →
  let '(os, s') := lua_transfers pairs s in
  Failed ∉ os ∧ ∃ b', rledger b' s' ∧ total (keys cfg) b' = expectedTotal cfg.
Proof.
  intros Hp. revert b s. induction Hp as [|[f t] pairs (Hf & Ht' & Hne) _ IH]; intros b s Hl Htot; cbn [lua_transfers].
  { split; [by intros ?%elem_of_nil|by exists b]. }
  pose proof (lua_transfer_keeps b f t s Hf Ht' Hne Hl Htot) as H. destruct (lua_transfer f t s) as [o s1].
  destruct H as (Ho & b1 & Hl1 & Ht1). specialize (IH b1 s1 Hl1 Ht1). destruct (lua_transfers pairs s1) as [os s2].
  destruct IH as [Hos Hb2]. split; [|done]. by intros [E|E]%elem_of_cons; [apply Ho|apply Hos].
Qed.

Lemma redis_seed_sets n i s : 
  let s' := (rexec (redis_seed n i) s).2 in
  (∀ j, i ≤ j < i + Z.of_nat n → rget s' (acct j) = Some (show (INITIAL_BALANCE cfg))) ∧
  (∀ j, j < i → rget s' (acct j) = rget s (acct j)).
Proof.
  revert i s. induction n as [|n IH]; intros i s; cbn [redis_seed rexec]; [split; [lia|done]|].
  destruct (IH (i + 1) (rset (acct i) (show (INITIAL_BALANCE cfg)) s)) as [H1 H2]. split.
  - intros j Hj. destruct (Z.eqb_spec j i) as [->|]; [|apply H1; lia]. rewrite H2 by lia. apply Hget.
  - intros j Hj. rewrite H2 by lia. apply Hother. intros E%acct_inj. lia.
Qed.

Lemma redis_verify_sum b n i acc s : rledger b s → total (keys cfg) b = expectedTotal cfg → 0 ≤ i → i + Z.of_nat n = NUM_ACCOUNTS cfg →
  rexec (redis_verify n i (Some acc)) s = (Some (acc + foldr Z.add 0 (b <$> (acct <$> seqZ i (Z.of_nat n)))), s).
Proof.
  intros Hl Htot. revert i acc. induction n as [|n IH]; intros i acc Hi E; cbn [redis_verify rexec].
  { cbn. by rewrite Z.add_0_r. }
  assert (acct i ∈ keys cfg) as Hk by (apply elem_of_keys; exists i; split; [done|lia]).
  destruct (Hl _ Hk) as [Hs H0]. assert (b (acct i) ≤ expectedTotal cfg).
  { rewrite <- Htot. apply total_above; [|done]. intros y Hy. by apply Hl. }
  rewrite Hs. unfold add_balance. 
  change (as_integer (parseInt (default (js "0") (Some ?x)))) with (balance (Some x)).
  rewrite balance_show by lia. cbn [mbind option_bind]. rewrite IH by lia.
  rewrite (seqZ_cons i) by lia. rewrite !fmap_cons. cbn [foldr]. rewrite Z.add_assoc.
  by replace (Z.pred (Z.of_nat (S n))) with (Z.of_nat n) by lia.
Qed.

(** After any scripts, in any order, the benchmark of the Lua script
    passes its check of the total and counts no error. *)
Theorem redis_lua_passes pairs s :
  Forall (λ p : jsstr * jsstr, p.1 ∈ keys cfg ∧ p.2 ∈ keys cfg ∧ p.1 ≠ p.2) pairs →
  let '(os, s') := lua_transfers pairs (rexec seedRedis s).2 in
  Failed ∉ os ∧ passes cfg (rexec verifyRedis s').1 = true.
Proof.
  intros Hp. assert (rledger (λ _, INITIAL_BALANCE cfg) (rexec seedRedis s).2) as Hl.
  { intros k (i & -> & Hi)%elem_of_keys. split; [|done]. apply (redis_seed_sets _ 0 s). rewrite Z2Nat.id by lia. lia. }
  pose proof (lua_transfers_keep pairs _ _ Hp Hl (keys_total cfg Hn)) as H.
  destruct (lua_transfers pairs _) as [os s']. destruct H as (Ho & b & Hl' & Htot). split; [done|].
  unfold verifyRedis. rewrite (redis_verify_sum b) by (done || lia). cbn [fst]. apply bool_decide_eq_true. do 1 f_equal.
  rewrite Z2Nat.id, Z.add_0_l by lia. exact Htot.
Qed.
End Transfers.
End Redis.

(** ** Concrete runs *)

Section Examples.
#[local] Existing Instance ascii_only.
#[local] Existing Instance no_others.

Definition two_accounts : config := Config 2 100 30 3 2 1.
(** Draws alternate between the two accounts. *)
Definition alternating : draws := Draws (λ n, if Nat.even n then 0 else 0.5)%Q 0 (λ _, 0) 0.
Definition round_robin (n m : nat) : list nat := concat (replicate m (seq 0 n)).

Lemma alternating_ok : draws_ok alternating.
Proof. intros n. cbn. by destruct (Nat.even n). Qed.

Lemma fair_dec n m l : forallb (λ i, m <=? turns i l)%nat (seq 0 n) = true → fair n m l.
Proof.
  intros H i Hi. rewrite forallb_forall in H. apply Nat.leb_le, H, in_seq. lia.
Qed.

Lemma financial_run_passes_witness : ∃ t,
  (benchWormDB two_accounts 1 (round_robin 8 2) [1; 0]%nat (round_robin 8 2) [0; 1; 1; 0]%nat alternating ∅).2 = Ok t ∧
  passes two_accounts t = true.
Proof.
  assert (unsealed two_accounts ∅) as Hs by by intros k _.
  assert (fair SEED_CONNS (Z.to_nat 2) (round_robin 8 2)) as Hf by by apply fair_dec.
  pose proof (financial_run_passes two_accounts ltac:(done) ltac:(done) ltac:(done) ltac:(done) 1 (round_robin 8 2) [1; 0]%nat
    (round_robin 8 2) [0; 1; 1; 0]%nat alternating ∅ Hs alternating_ok Hf Hf) as H.
  destruct (benchWormDB _ _ _ _ _ _ _ _) as [ps t]. exact (proj1 H).
Defined.

(** The run ends with every worker's transfers counted. *)
Definition counted : list (option (list outcome)) :=
  (λ p, match p with Ret x => x | _ => None end) <$>
  (benchWormDB two_accounts 1 (round_robin 8 2) [] (round_robin 8 2) (round_robin 2 2) alternating ∅).1.
Lemma two_workers_count : counted = [Some [Succeeded; Succeeded]; Some [Succeeded; InsufficientFunds]].
Proof. by vm_compute. Qed.

(** A quotient that is no integer is rounded up for every worker: more
    transfers are made than asked for. *)
Lemma more_than_asked :
  TOTAL_OPS two_accounts = 3 ∧ attempted (tally (concat (omap id counted))) = 4.
Proof. by vm_compute. Qed.

(** With one account the search for a second one never ends. *)
Lemma one_account_never_starts fuel d s : draws_ok d →
  result serve (randomPair (Config 1 100 30 3 2 1) fuel) d s = Ok None.
Proof.
  set (cfg := Config 1 100 30 3 2 1). intros Hd.
  assert (∀ d s, draws_ok d → ∃ d', exec serve (randomAccount cfg) d s = (Ok 0, d', s) ∧ draws_ok d') as Hr.
  { intros d0 s0 H0. exists (next_rnd d0).2. split; [|exact H0]. unfold randomAccount, randomInt. rewrite exec_bind. cbn [exec random next_rnd].
    destruct (H0 (rnd_pos d0)) as [H1 H2]. pose proof (Qfloor_scaled _ 1 H1 H2 ltac:(lia)).
    change (NUM_ACCOUNTS cfg) with 1. by replace (Qfloor (rnd d0 (rnd_pos d0) * inject_Z 1)) with 0 by lia. }
  assert (∀ d s, draws_ok d → ∃ d', exec serve (draw_other cfg fuel 0 0) d s = (Ok None, d', s)) as Hn.
  { induction fuel as [|n IH]; intros d0 s0 H0; cbn [draw_other]; rewrite Z.eqb_refl; [by exists d0|].
    rewrite exec_bind. destruct (Hr d0 s0 H0) as (d' & -> & H'). by apply IH. }
  unfold result, randomPair. rewrite exec_bind. destruct (Hr d s Hd) as (d1 & -> & H1). rewrite exec_bind.
  destruct (Hr d1 s H1) as (d2 & -> & H2). rewrite exec_bind. by destruct (Hn d2 s H2) as (d3 & ->).
Qed.

Definition mget (s : gmap jsstr jsstr) (k : jsstr) : option jsstr := s !! k.
Definition mset (k v : jsstr) (s : gmap jsstr jsstr) : gmap jsstr jsstr := <[k := v]> s.
Definition mbank : gmap jsstr jsstr := {[ acct 0 := js "100"; acct 1 := js "100" ]}.

(** The commands of two client-side transfers, when they interleave, lose one
    of the updates: the total drifts, as the comment of the code says. *)
Lemma redis_clients_drift :
  let '(_, s) := rrun mget mset [0; 0; 1; 1; 0; 1; 0; 1]%nat
    [client_transfer two_accounts (acct 0) (acct 1); client_transfer two_accounts (acct 1) (acct 0)] mbank in
  (rexec mget mset (verifyRedis two_accounts) s).1 = Some 260.
Proof. by vm_compute. Qed.

(** Scripts that print and read the numbers below [10 ^ 14] in full *)
Definition tonumber_ex (t : jsstr) : option Z := as_integer (parseInt t).

Lemma tonumber_show n : 0 ≤ n < 10 ^ 14 → tonumber_ex (show n) = Some n.
Proof. exact (balance_show n). Qed.

Lemma redis_client_as_lua_witness :
  rexec mget mset (client_transfer two_accounts (acct 0) (acct 1)) mbank =
    lua_transfer mget mset two_accounts tonumber_ex show (acct 0) (acct 1) mbank ∧
  (rexec mget mset (client_transfer two_accounts (acct 0) (acct 1)) mbank).1 = Succeeded.
Proof.
  split; [|by vm_compute].
  apply (redis_client_as_lua mget mset two_accounts tonumber_ex show tonumber_show ltac:(done) (acct 0) (acct 1) mbank 100 100);
    (by vm_compute).
Defined.

Lemma redis_lua_passes_witness :
  let '(os, s') := lua_transfers mget mset two_accounts tonumber_ex show [(acct 0, acct 1); (acct 1, acct 0)]
                     (rexec mget mset (seedRedis two_accounts) ∅).2 in
  Failed ∉ os ∧ passes two_accounts (rexec mget mset (verifyRedis two_accounts) s').1 = true.
Proof.
  apply (redis_lua_passes mget mset two_accounts tonumber_ex show tonumber_show ltac:(done)).
  - intros k v s. apply lookup_insert_eq.
  - intros k v s k' Hne. by apply lookup_insert_ne.
  - done.
  - done.
  - done.
  - done.
  - assert (acct 0 ∈ keys two_accounts ∧ acct 1 ∈ keys two_accounts ∧ acct 0 ≠ acct 1) as (H0 & H1 & H2).
    { split_and!; [apply elem_of_keys; exists 0; done|apply elem_of_keys; exists 1; done|by intros ?%acct_inj]. }
    apply Forall_cons_2; [done|]. apply Forall_cons_2; [done|apply Forall_nil_2].
Defined.
End Examples.
