(* ===== verification/BenchRunner.v ===== *)
(** * The benchmark's workload driver ([apps/bun/src/lib/bench/runner.ts])

    [runWorkload] starts [concurrency] workers that share a cursor over the
    operations and each keep at most [inflight] of them in the air.  Its
    state is the shared counters and, per worker, the set [active] and the
    operations its [Promise.race] waits on; its events are an operation that
    settles, the [finally] that removes it from [active] and the worker that
    wakes up.  What an operation answers is part of the event, so the theorems
    hold whatever the server does.  The registration order of the reactions
    (the [finally] first, the race later) makes the removal of an operation
    precede the wake-up it causes. *)
From Stdlib Require Import QArith Qround Sorting.Mergesort Orders.
From stdpp Require Import sorting.
From S2P Require Import Prelude Utf8 JsText Number Command Wire Protocol Prog KvServer BenchCli BenchScenarios.
#[local] Open Scope Z_scope.

(** ** Operations *)

Definition operation (scenario : BenchScenario) (test : BenchKind) (ctx : WorkContext) : prog bool :=
  match runOperation scenario, makeCommand scenario with
  | Some run, _ => run ctx
  | None, Some make =>
      command ← make ctx;
      result ← send command;
      Ret (negb (is_error result))
  | None, None => Raise (Error (js "Scenario '" ++ kind_name test ++ js "' is not executable"))
  end.

(** [classified === "failure"] or the [catch] *)
Definition counts_as_success (outcome : res bool) : bool :=
  match outcome with Ok b => b | Throw _ => false end.

(** ** Workers *)

Record op := Op { index : Z; start : Z; settled : bool }.
Record worker := Worker {
  active : list op;
  racing : option (list Z);  (** the operations raced; [None]: the worker has returned *)
}.
Record workload := Workload {
  cursor : Z;
  succeeded : Z;
  failed : Z;
  latencies : list Z;
  workers : list worker;
}.

#[export] Instance op_eq_dec : EqDecision op.
Proof. solve_decision. Defined.

Section Run.
Context (opCount inflight : Z) (measureLatency : bool).

Definition maxInFlight : Z := Z.max 1 inflight.

(** [launchOne]: the cursor moves even when there is nothing left. *)
Definition launchOne (now : Z) (cursor : Z) (a : list op) : bool * Z * list op :=
  if opCount <=? cursor then (false, cursor + 1, a)
  else (true, cursor + 1, a ++ [Op cursor (if measureLatency then now else 0) false]).

(** [while (active.size < maxInFlight && launchOne()) {}]: each round that
    goes on adds one to the size, so the free places bound the rounds. *)
Fixpoint fill_rounds (n : nat) (now cursor : Z) (a : list op) : Z * list op :=
  match n with
  | O => (cursor, a)
  | S n =>
      let '(launched, cursor, a) := launchOne now cursor a in
      if launched then fill_rounds n now cursor a else (cursor, a)
  end.
Definition fill (now cursor : Z) (a : list op) : Z * list op :=
  fill_rounds (Z.to_nat (maxInFlight - len a)) now cursor a.

(** [while (active.size > 0) await Promise.race(active)]: wait on what is
    active, or return. *)
Definition wait (a : list op) : worker :=
  Worker a (match a with [] => None | _ => Some (index <$> a) end).

Fixpoint start_workers (n : nat) (now : Z) (w : workload) : workload :=
  match n with
  | O => w
  | S n =>
      let '(cursor, a) := fill now (cursor w) [] in
      start_workers n now
        (Workload cursor (succeeded w) (failed w) (latencies w) (workers w ++ [wait a]))
  end.

Definition new_workload (concurrency now : Z) : workload :=
  start_workers (Z.to_nat concurrency) now (Workload 0 0 0 [] []).

(** ** Events *)

Inductive run_event :=
| Settle (worker_id : nat) (index : Z) (outcome : res bool) (now : Z)
| Remove (worker_id : nat) (index : Z)
| Wake (worker_id : nat) (now : Z).

Definition running (i : Z) (o : op) : Prop := index o = i ∧ settled o = false.
Definition finished (i : Z) (o : op) : Prop := index o = i ∧ settled o = true.
#[export] Instance running_dec i o : Decision (running i o).
Proof. unfold running. apply _. Defined.
#[export] Instance finished_dec i o : Decision (finished i o).
Proof. unfold finished. apply _. Defined.

(** Some raced operation has left [active]: the race is decided. *)
Definition decided (w : worker) (raced : list Z) : Prop :=
  Exists (λ i, i ∉ (index <$> active w)) raced.
#[export] Instance decided_dec w raced : Decision (decided w raced).
Proof. unfold decided. apply _. Defined.

(** One event; [None] when it cannot happen. *)
Definition run_step (e : run_event) (w : workload) : option workload :=
  match e with
  | Settle id i outcome now =>
      wk ← workers w !! id;
      '(n, o) ← list_find (running i) (active wk);
      let ok := counts_as_success outcome in
      Some (Workload (cursor w) (succeeded w + if ok then 1 else 0) (failed w + if ok then 0 else 1)
              (latencies w ++ if measureLatency then [now - start o] else [])
              (<[id := Worker (<[n := Op (index o) (start o) true]> (active wk)) (racing wk)]>
                 (workers w)))
  | Remove id i =>
      wk ← workers w !! id;
      '(n, _) ← list_find (finished i) (active wk);
      Some (Workload (cursor w) (succeeded w) (failed w) (latencies w)
              (<[id := Worker (delete n (active wk)) (racing wk)]> (workers w)))
  | Wake id now =>
      wk ← workers w !! id;
      raced ← racing wk;
      if bool_decide (decided wk raced) then
        let '(cursor, a) := fill now (cursor w) (active wk) in
        Some (Workload cursor (succeeded w) (failed w) (latencies w) (<[id := wait a]> (workers w)))
      else None
  end.

Fixpoint run_events (es : list run_event) (w : workload) : option workload :=
  match es with
  | [] => Some w
  | e :: es => w ← run_step e w; run_events es w
  end.

Definition returned (w : workload) : Prop := Forall (λ wk, racing wk = None) (workers w).
End Run.

(** ** Results *)

(** [(p / 100) * sorted.length] for the percentiles the code asks for (50, 95
    and 99), whose rounding does not cross an integer. *)
Definition percentile (sorted : list Z) (p : Z) : Z :=
  match sorted with
  | [] => 0
  | x :: _ =>
      let idx := Z.min (len sorted - 1)
                   (Z.max 0 (Qceiling ((p # 100) * inject_Z (len sorted)) - 1)) in
      default x (sorted !! Z.to_nat idx)
  end.

Record BenchResult := Result {
  r_test : BenchKind; r_attempted : Z; r_succeeded : Z; r_failed : Z; r_elapsedMs : Z;
  r_opsPerSec : Q; r_latMsAvg : Q; r_latMsP50 : Z; r_latMsP95 : Z; r_latMsP99 : Z;
}.

Definition summarize (test : BenchKind) (opCount elapsedMs succeeded failed : Z)
    (latencies : list Z) : BenchResult :=
  let sorted := merge_sort Z.le latencies in
  let sum := foldl Z.add 0 latencies in
  Result test opCount succeeded failed elapsedMs
    (if 0 <? elapsedMs then inject_Z succeeded / inject_Z elapsedMs * 1000 else 0)%Q
    (if 0 <? len latencies then inject_Z sum / inject_Z (len latencies) else 0)%Q
    (percentile sorted 50) (percentile sorted 95) (percentile sorted 99).

(** ** Seeding *)

Fixpoint seed_from (o : BenchOptions) (valueForKey : jsstr → jsstr) (n : nat) (i : Z) : prog unit :=
  match n with
  | O => Ret tt
  | S n =>
      let key := key_name o i in
      response ← send (set_text key (valueForKey key));
      match response with
      | error message => Raise (Error (js "Seed failed on key '" ++ key ++ js "': " ++ message))
      | _ => seed_from o valueForKey n (i + 1)
      end
  end.
Definition seedKeyspace (o : BenchOptions) (valueForKey : jsstr → jsstr) : prog unit :=
  seed_from o valueForKey (Z.to_nat (keyspace o)) 0.

(** ["v".repeat(options.valueSize)] *)
Definition payload (o : BenchOptions) : jsstr := replicate (Z.to_nat (valueSize o)) 118.

(** [if (scenario.needsSeed) ...] of [runBenchmarks] *)
Definition seed (o : BenchOptions) (test : BenchKind) : prog unit :=
  let scenario := getScenario test in
  if needsSeed scenario then
    let seedFn := match seedValueForKey scenario with
                  | Some f => f (Context_ o (payload o))
                  | None => λ _, payload o
                  end in
    seedKeyspace o seedFn
  else Ret tt.

(** ** Sums over lists *)

Definition zsum {A} (f : A → Z) (l : list A) : Z := foldr Z.add 0 (f <$> l).
#[global] Arguments zsum : simpl never.

Section Zsum.
Context {A : Type} (f : A → Z).

Lemma zsum_app l k : zsum f (l ++ k) = zsum f l + zsum f k.
Proof. unfold zsum. induction l as [|x l IH]; cbn in *; lia. Qed.
Lemma zsum_insert l i x y : l !! i = Some x → zsum f (<[i := y]> l) = zsum f l - f x + f y.
Proof.
  unfold zsum. revert i. induction l as [|z l IH]; intros [|i] H; simplify_eq/=; [lia|].
  rewrite (IH i) by done. lia.
Qed.
Lemma zsum_delete l i x : l !! i = Some x → zsum f (delete i l) = zsum f l - f x.
Proof.
  unfold zsum. revert i. induction l as [|z l IH]; intros [|i] H; simplify_eq/=; [lia|].
  unfold delete in *. rewrite (IH i) by done. lia.
Qed.
Lemma zsum_const l c : Forall (λ x, f x = c) l → zsum f l = c * len l.
Proof. unfold zsum. induction 1 as [|x l Hx _ IH]; cbn in *; [by change (len []) with 0; lia|]. rewrite len_cons. lia. Qed.
Lemma zsum_nonneg l : (∀ x, 0 ≤ f x) → 0 ≤ zsum f l.
Proof. intros H. unfold zsum. induction l as [|x l IH]; cbn in *; [done|]. pose proof (H x). lia. Qed.
End Zsum.

(** ** The bookkeeping of a run *)

Section Facts.
Context (opCount inflight : Z) (measureLatency : bool).

Definition unsettled (o : op) : Z := if settled o then 0 else 1.
Definition in_flight (w : workload) : Z := zsum (λ wk, zsum unsettled (active wk)) (workers w).

Definition worker_ok (cursor : Z) (wk : worker) : Prop :=
  len (active wk) ≤ maxInFlight inflight ∧
  match racing wk with
  | None => active wk = [] ∧ opCount ≤ cursor
  | Some raced => raced ≠ []
  end.

Definition accounted (w : workload) : Prop :=
  succeeded w + failed w + in_flight w = Z.min (cursor w) opCount ∧
  len (latencies w) = (if measureLatency then succeeded w + failed w else 0) ∧
  0 ≤ succeeded w ∧ 0 ≤ failed w ∧
  Forall (worker_ok (cursor w)) (workers w).

Lemma fill_rounds_spec n now c a :
  ∃ c' new, fill_rounds opCount measureLatency n now c a = (c', a ++ new) ∧
    c ≤ c' ∧ Z.min c' opCount = Z.min c opCount + len new ∧ len new ≤ Z.of_nat n ∧
    Forall (λ o, settled o = false) new ∧ (n ≠ O → new = [] → opCount ≤ c').
Proof.
  revert c a. induction n as [|n IH]; intros c a; cbn [fill_rounds].
  { exists c, []. rewrite app_nil_r. change (len []) with 0. split_and!; [done|lia..|constructor|done]. }
  unfold launchOne. destruct (Z.leb_spec opCount c).
  { exists (c + 1), []. rewrite app_nil_r. change (len []) with 0. split_and!; [done|lia..|constructor|lia]. }
  set (o := Op c _ false). destruct (IH (c + 1) (a ++ [o])) as (c' & new & -> & H1 & H2 & H3 & H4 & _).
  exists c', (o :: new). rewrite <- app_assoc. split_and!; try len_tac; [done|by constructor|done].
Qed.

Lemma fill_spec now c a :
  ∃ c' new, fill opCount inflight measureLatency now c a = (c', a ++ new) ∧
    c ≤ c' ∧ Z.min c' opCount = Z.min c opCount + len new ∧
    len (a ++ new) ≤ Z.max (len a) (maxInFlight inflight) ∧
    Forall (λ o, settled o = false) new ∧ (a ++ new = [] → opCount ≤ c').
Proof.
  unfold fill. destruct (fill_rounds_spec (Z.to_nat (maxInFlight inflight - len a)) now c a)
    as (c' & new & -> & H1 & H2 & H3 & H4 & H5).
  exists c', new. split_and!; [done|done|done|len_tac|done|].
  intros [-> ->]%app_eq_nil. apply H5; [|done]. change (len []) with 0. unfold maxInFlight. lia.
Qed.

Lemma worker_ok_mono c c' wk : c ≤ c' → worker_ok c wk → worker_ok c' wk.
Proof. unfold worker_ok. intros Hc [H1 H2]. split; [done|]. destruct (racing wk); [done|]. split; [tauto|lia]. Qed.

(** Waiting after a refill. *)
Lemma fill_wait now c a c' a' :
  len a ≤ maxInFlight inflight → fill opCount inflight measureLatency now c a = (c', a') →
  c ≤ c' ∧ worker_ok c' (wait a') ∧ zsum unsettled a' = zsum unsettled a + (Z.min c' opCount - Z.min c opCount).
Proof.
  intros Ha E. destruct (fill_spec now c a) as (c1 & new & E' & H1 & H2 & H3 & H4 & H5).
  rewrite E in E'. injection E' as -> ->. split_and!; [done|..].
  - split; [cbn; lia|]. destruct (a ++ new) eqn:En; cbn; [by auto|done].
  - rewrite zsum_app, (zsum_const _ new 1); [lia|].
    eapply Forall_impl; [exact H4|]. unfold unsettled. by intros o ->.
Qed.

Lemma start_workers_accounted n now w :
  accounted w → accounted (start_workers opCount inflight measureLatency n now w) ∧
  length (workers (start_workers opCount inflight measureLatency n now w)) = (length (workers w) + n)%nat.
Proof.
  revert w. induction n as [|n IH]; intros w Hw; cbn [start_workers]; [split; [done|lia]|].
  destruct (fill _ _ _ now (cursor w) []) as [c a] eqn:E.
  apply fill_wait in E as (H1 & H2 & H3); [|change (len []) with 0; unfold maxInFlight; lia].
  change (zsum unsettled []) with 0 in H3. destruct Hw as (A1 & A2 & A3 & A4 & A5). edestruct IH as [I1 I2].
  2:{ split; [apply I1|]. rewrite I2. cbn. rewrite length_app. cbn. lia. }
  split_and!; cbn; [|done..|].
  - unfold in_flight in *. cbn. rewrite zsum_app. unfold zsum at 3. cbn. lia.
  - apply Forall_app. split; [|by apply Forall_singleton].
    eapply Forall_impl; [exact A5|]. intros wk. by apply worker_ok_mono.
Qed.

Lemma list_find_lookup {A} (P : A → Prop) `{∀ x, Decision (P x)} (l : list A) n x :
  list_find P l = Some (n, x) → l !! n = Some x ∧ P x.
Proof. intros H1%list_find_Some. tauto. Qed.

(** Every event keeps the books. *)
Lemma run_step_accounted e w w' :
  accounted w → run_step opCount inflight measureLatency e w = Some w' → accounted w'.
Proof.
  intros (A1 & A2 & A3 & A4 & A5) E.
  assert (∀ id wk, workers w !! id = Some wk → worker_ok (cursor w) wk) as Hok
    by (intros ? wk Hl; by eapply Forall_lookup_1).
  destruct e as [id i outcome now|id i|id now]; cbn in E;
    apply bind_Some in E as (wk & Hwk & E); destruct (Hok id wk Hwk) as [O1 O2].
  - apply bind_Some in E as ([n o] & [Hn [_ Ho]]%list_find_lookup & [= <-]).
    split_and!; cbn; [..|].
    + unfold in_flight in *. cbn. rewrite (zsum_insert _ _ _ wk) by done. cbn.
      rewrite (zsum_insert _ _ _ o) by done. pose proof (eq_refl : unsettled (Op (index o) (start o) true) = 0).
      assert (unsettled o = 1) by (unfold unsettled; by rewrite Ho).
      destruct (counts_as_success outcome); lia.
    + rewrite len_app. destruct measureLatency; [rewrite len_cons|]; change (len []) with 0;
        destruct (counts_as_success outcome); lia.
    + destruct (counts_as_success outcome); lia.
    + destruct (counts_as_success outcome); lia.
    + apply Forall_insert; [done|]. split; cbn.
      * unfold len. by rewrite length_insert.
      * destruct (racing wk); [done|]. destruct O2 as [O2 _]. by rewrite O2 in Hn.
  - apply bind_Some in E as ([n o] & [Hn [_ Ho]]%list_find_lookup & [= <-]).
    split_and!; cbn; [..|]; try done.
    + unfold in_flight in *. cbn. rewrite (zsum_insert _ _ _ wk) by done. cbn.
      rewrite (zsum_delete _ _ _ o) by done. assert (unsettled o = 0) by (unfold unsettled; by rewrite Ho). lia.
    + apply Forall_insert; [done|]. split; cbn.
      * unfold len in *. rewrite length_delete by eauto. lia.
      * destruct (racing wk); [done|]. destruct O2 as [O2 _]. by rewrite O2 in Hn.
  - apply bind_Some in E as (raced & Hr & E). case_bool_decide; [|done].
    destruct (fill _ _ _ now (cursor w) (active wk)) as [c a] eqn:Ef. injection E as <-.
    apply fill_wait in Ef as (H1 & H2 & H3); [|done]. split_and!; cbn; try done.
    + unfold in_flight in *. cbn. rewrite (zsum_insert _ _ _ wk) by done. cbn. lia.
    + apply Forall_insert; [|done]. eapply Forall_impl; [exact A5|]. intros x. by apply worker_ok_mono.
Qed.

(** *** What is left to do *)

Definition op_weight (o : op) : Z := if settled o then 2 else 3.
Definition stale (wk : worker) : Z :=
  match racing wk with
  | Some raced => if decide (decided wk raced) then 1 else 0
  | None => 0
  end.
Definition worker_weight (wk : worker) : Z := zsum op_weight (active wk) + stale wk.

(** At most three events for each operation not launched yet, as many for
    one in flight, two once it has settled, one wake-up once it is gone. *)
Definition work (w : workload) : Z :=
  3 * (opCount - Z.min (cursor w) opCount) + zsum worker_weight (workers w).

Lemma work_nonneg w : 0 ≤ work w.
Proof.
  unfold work. assert (0 ≤ zsum worker_weight (workers w)); [|lia]. apply zsum_nonneg. intros wk.
  unfold worker_weight, stale. assert (0 ≤ zsum op_weight (active wk)).
  { apply zsum_nonneg. intros o. unfold op_weight. by destruct (settled o). }
  destruct (racing wk); [case_decide; lia|lia].
Qed.

Lemma stale_bounds wk : 0 ≤ stale wk ≤ 1.
Proof. unfold stale. destruct (racing wk); [case_decide; lia|lia]. Qed.

Lemma stale_ids a a' r : index <$> a = index <$> a' → stale (Worker a r) = stale (Worker a' r).
Proof.
  intros E. unfold stale. cbn. destruct r as [raced|]; [|done].
  assert (decided (Worker a (Some raced)) raced ↔ decided (Worker a' (Some raced)) raced)
    by (unfold decided; cbn; by rewrite E).
  repeat case_decide; tauto || done.
Qed.

Lemma stale_wait a : stale (wait a) = 0.
Proof.
  unfold stale, wait. cbn. destruct a as [|o a]; [done|]. rewrite decide_False; [done|].
  unfold decided. cbn [active]. intros (i & Hi & Hn)%Exists_exists. done.
Qed.

Lemma run_step_work e w w' :
  run_step opCount inflight measureLatency e w = Some w' → work w' + 1 ≤ work w.
Proof.
  intros E. destruct e as [id i outcome now|id i|id now]; cbn in E;
    apply bind_Some in E as (wk & Hwk & E).
  - apply bind_Some in E as ([n o] & [Hn [_ Ho]]%list_find_lookup & [= <-]). unfold work. cbn.
    rewrite (zsum_insert _ _ _ wk) by done. unfold worker_weight at 2 3. cbn.
    rewrite (zsum_insert _ _ _ o) by done. assert (op_weight o = 3) by (unfold op_weight; by rewrite Ho).
    pose proof (eq_refl : op_weight (Op (index o) (start o) true) = 2).
    assert (stale (Worker (<[n:=Op (index o) (start o) true]> (active wk)) (racing wk)) = stale wk);
      [|lia].
    destruct wk as [a r]. apply stale_ids. cbn in *.
    rewrite list_fmap_insert, list_insert_id; [done|]. by rewrite list_lookup_fmap, Hn.
  - apply bind_Some in E as ([n o] & [Hn [_ Ho]]%list_find_lookup & [= <-]). unfold work. cbn.
    rewrite (zsum_insert _ _ _ wk) by done. unfold worker_weight at 2 3. cbn.
    rewrite (zsum_delete _ _ _ o) by done. assert (op_weight o = 2) by (unfold op_weight; by rewrite Ho).
    pose proof (stale_bounds wk). pose proof (stale_bounds (Worker (delete n (active wk)) (racing wk))).
    lia.
  - apply bind_Some in E as (raced & Hr & E). case_bool_decide as Hd; [|done].
    destruct (fill_spec now (cursor w) (active wk)) as (c' & new & Ef & H1 & H2 & _ & H4 & _).
    rewrite Ef in E. injection E as <-. unfold work. cbn. rewrite (zsum_insert _ _ _ wk) by done.
    unfold worker_weight at 2 3. rewrite stale_wait. cbn [active wait]. rewrite zsum_app, (zsum_const _ new 3).
    2:{ eapply Forall_impl; [exact H4|]. unfold op_weight. by intros o ->. }
    assert (stale wk = 1) by (unfold stale; rewrite Hr; by rewrite decide_True). lia.
Qed.

(** A run that has not ended can go on. *)
Lemma run_progress w :
  accounted w → ¬ returned w → ∃ e, is_Some (run_step opCount inflight measureLatency e w).
Proof.
  intros (_ & _ & _ & _ & A5) Hr. unfold returned in Hr.
  apply not_Forall_Exists in Hr; [|apply _]. apply Exists_exists in Hr as (wk & Hin & Hr).
  apply list_elem_of_lookup_1 in Hin as [id Hid]. pose proof (Forall_lookup_1 _ _ _ _ A5 Hid) as [_ O2].
  destruct (racing wk) as [raced|] eqn:Er; [|done].
  destruct (active wk) as [|o a] eqn:Ea.
  - exists (Wake id 0). cbn. rewrite Hid. cbn. rewrite Er. cbn. rewrite bool_decide_eq_true_2.
    + destruct (fill _ _ _ _ _ _). eauto.
    + unfold decided. rewrite Ea. destruct raced as [|i raced]; [done|]. left. apply not_elem_of_nil.
  - destruct (settled o) eqn:Es.
    + exists (Remove id (index o)). cbn. rewrite Hid. cbn. rewrite Ea. cbn [list_find].
      rewrite decide_True by done. eauto.
    + exists (Settle id (index o) (Ok true) 0). cbn. rewrite Hid. cbn. rewrite Ea. cbn [list_find].
      rewrite decide_True by done. eauto.
Qed.

Lemma run_events_accounted es w w' :
  accounted w → run_events opCount inflight measureLatency es w = Some w' →
  accounted w' ∧ work w' + len es ≤ work w ∧ length (workers w') = length (workers w).
Proof.
  revert w. induction es as [|e es IH]; intros w Hw E; cbn in E.
  { injection E as <-. change (len []) with 0. split_and!; [done|lia|done]. }
  apply bind_Some in E as (w1 & E1 & E). pose proof (run_step_work _ _ _ E1).
  destruct (IH w1) as (H1 & H2 & H3); [by eapply run_step_accounted|done|].
  split_and!; [done|len_tac|]. rewrite H3.
  destruct e; cbn in E1; apply bind_Some in E1 as (wk & Hwk & E1); apply bind_Some in E1 as (x & Hx & E1).
  - destruct x as [n o]. injection E1 as <-. cbn. by rewrite length_insert.
  - destruct x as [n o]. injection E1 as <-. cbn. by rewrite length_insert.
  - case_bool_decide; [|done]. destruct (fill _ _ _ _ _ _). injection E1 as <-. cbn. by rewrite length_insert.
Qed.

Lemma start_workers_work n now w :
  work (start_workers opCount inflight measureLatency n now w) ≤ work w.
Proof.
  revert w. induction n as [|n IH]; intros w; cbn [start_workers]; [done|].
  destruct (fill_spec now (cursor w) []) as (c' & new & Ef & H1 & H2 & _ & H4 & _). rewrite Ef.
  etrans; [apply IH|]. unfold work. cbn. rewrite zsum_app. unfold zsum at 2. cbn.
  unfold worker_weight at 2. rewrite stale_wait. cbn [active wait].
  rewrite (zsum_const _ new 3); [lia|]. eapply Forall_impl; [exact H4|]. unfold op_weight. by intros o ->.
Qed.

(** The state a run starts from. *)
Lemma new_workload_accounted concurrency now :
  0 ≤ opCount → let w := new_workload opCount inflight measureLatency concurrency now in
  accounted w ∧ work w ≤ 3 * opCount ∧ length (workers w) = Z.to_nat concurrency.
Proof.
  intros Hop. set (w0 := Workload 0 0 0 [] []).
  assert (accounted w0) as H0.
  { split_and!; cbn; try done; [change (in_flight w0) with 0; lia|by destruct measureLatency]. }
  destruct (start_workers_accounted (Z.to_nat concurrency) now w0 H0) as [H1 H2]. split_and!; try done.
  etrans; [apply start_workers_work|]. unfold work. cbn. change (zsum worker_weight []) with 0. lia.
Qed.

(** C13: at every point of a run, whatever its events: the operations that
    succeeded, those that failed and those in flight are exactly the
    operations launched, at most [opCount] of them; no worker has more than
    [max 1 inflight] in flight; and one latency is recorded per settled
    operation when latencies are measured. *)
Theorem run_accounting concurrency now es w :
  0 ≤ opCount →
  run_events opCount inflight measureLatency es
    (new_workload opCount inflight measureLatency concurrency now) = Some w →
  succeeded w + failed w + in_flight w = Z.min (cursor w) opCount ∧
  Forall (λ wk, len (active wk) ≤ Z.max 1 inflight) (workers w) ∧
  len (latencies w) = (if measureLatency then succeeded w + failed w else 0).
Proof.
  intros Hop E. destruct (new_workload_accounted concurrency now Hop) as [H0 _].
  destruct (run_events_accounted _ _ _ H0 E) as [(A1 & A2 & _ & _ & A5) _]. split_and!; [done| |done].
  eapply Forall_impl; [exact A5|]. by intros wk [].
Qed.

(** C39: a run ends: it makes at most three events per operation, it can go on
    as long as a worker has not returned, and when all have returned every
    one of the [opCount] operations has been counted, once. *)
Theorem run_completes concurrency now es w :
  0 ≤ opCount → 1 ≤ concurrency →
  run_events opCount inflight measureLatency es
    (new_workload opCount inflight measureLatency concurrency now) = Some w →
  len es ≤ 3 * opCount ∧
  (¬ returned w → ∃ e, is_Some (run_step opCount inflight measureLatency e w)) ∧
  (returned w → succeeded w + failed w = opCount).
Proof.
  intros Hop Hc E. destruct (new_workload_accounted concurrency now Hop) as (H0 & H1 & H2).
  destruct (run_events_accounted _ _ _ H0 E) as (A & Hw & Hl). split_and!.
  - pose proof (work_nonneg w). lia.
  - by apply run_progress.
  - intros Hr. destruct A as (A1 & _ & _ & _ & A5). rewrite H2 in Hl.
    assert (in_flight w = 0) as Hf.
    { unfold in_flight. rewrite (zsum_const _ _ 0); [lia|]. unfold returned in Hr.
      rewrite Forall_forall in *. intros wk Hwk. destruct (A5 wk Hwk) as [_ O2].
      rewrite (Hr wk Hwk) in O2. by destruct O2 as [-> _]. }
    destruct (workers w) as [|wk l] eqn:Ew; [cbn in Hl; lia|]. unfold returned in Hr. rewrite Ew in Hr.
    inversion A5 as [|? ? [_ O2] _]; subst. inversion Hr as [|? ? Hwk _]; subst.
    rewrite Hwk in O2. lia.
Qed.
End Facts.

(** ** Percentiles *)

(** [v] is the nearest-rank [p]-th percentile of [l]. *)
Definition rank (l : list Z) (p v : Z) : Prop :=
  v ∈ l ∧ p * len l ≤ 100 * len (filter (λ x, x ≤ v) l) ∧ 100 * len (filter (λ x, x < v) l) < p * len l.

Lemma rank_perm l k p v : l ≡ₚ k → rank l p v → rank k p v.
Proof. unfold rank, len. intros E. by rewrite E. Qed.

Lemma filter_none {A} (P : A → Prop) `{∀ x, Decision (P x)} (l : list A) :
  Forall (λ x, ¬ P x) l → filter P l = [].
Proof. induction 1 as [|x l Hx _ IH]; [done|]. by rewrite filter_cons, decide_False, IH. Qed.

Lemma sorted_split (a b : list Z) v :
  Sorted Z.le (a ++ v :: b) → Forall (λ x, x ≤ v) a ∧ Forall (λ x, v ≤ x) b.
Proof.
  intros H. apply Sorted_StronglySorted in H; [|intros ???; lia]. apply StronglySorted_app in H as (Hab & _ & H).
  inversion H as [|? ? _ Hb]; subst. split; [|done].
  apply Forall_forall. intros x Hx. apply Hab; [done|left].
Qed.

Lemma percentile_rank l p : Sorted Z.le l → l ≠ [] → 0 < p ≤ 100 → rank l p (percentile l p).
Proof.
  intros Hs Hne Hp. destruct l as [|x l']; [done|]. set (l := x :: l') in *.
  assert (0 < len l) as Hl by (unfold l; len_tac).
  set (c := Qceiling ((p # 100) * inject_Z (len l))).
  assert (p * len l ≤ 100 * c ∧ 100 * (c - 1) < p * len l) as [C1 C2].
  { unfold c, Qceiling, Qfloor, Qmult, Qopp, inject_Z. cbn [Qnum Qden].
    change (Zpos (100 * 1)) with 100.
    pose proof (Z.div_mod (- (p * len l)) 100 ltac:(lia)).
    pose proof (Z.mod_pos_bound (- (p * len l)) 100 ltac:(lia)). lia. }
  assert (1 ≤ c ≤ len l) as Hc by nia.
  assert (percentile l p = default x (l !! Z.to_nat (c - 1))) as ->.
  { unfold percentile, l. fold l. fold c. do 3 f_equal. lia. }
  destruct (lookup_lt_is_Some_2 l (Z.to_nat (c - 1))) as [v Hv]; [unfold len in *; lia|].
  rewrite Hv. cbn. pose proof (take_drop_middle l _ v Hv) as El.
  set (a := take _ l) in *. set (b := drop _ l) in *.
  assert (len a = c - 1) as Ha by (unfold a; rewrite len_take; lia).
  rewrite <- El in Hs. destruct (sorted_split _ _ _ Hs) as [Sa Sb].
  unfold rank. rewrite <- El at 1 3 4. split_and!.
  - apply elem_of_app. right. left.
  - rewrite filter_app, (filter_all _ a), filter_cons, decide_True by done. len_tac.
  - rewrite filter_app, filter_cons, decide_False, (filter_none _ b), app_nil_r by
      (lia || (eapply Forall_impl; [exact Sb|]; cbn; lia)).
    pose proof (length_filter (λ x, x < v) a). unfold len in *. lia.
Qed.

(** The summary of a run reports as the 50th, 95th and 99th percentiles
    the nearest-rank percentiles of the measured latencies. *)
Theorem summarize_percentiles test opCount elapsedMs succeeded failed l :
  l ≠ [] →
  let r := summarize test opCount elapsedMs succeeded failed l in
  rank l 50 (r_latMsP50 r) ∧ rank l 95 (r_latMsP95 r) ∧ rank l 99 (r_latMsP99 r).
Proof.
  intros Hne. cbn. pose proof (merge_sort_Permutation Z.le l) as Hp.
  assert (∀ p, 0 < p ≤ 100 → rank l p (percentile (merge_sort Z.le l) p)) as H; [|by split_and!; apply H].
  intros p Hp'. apply (rank_perm (merge_sort Z.le l)); [done|]. apply percentile_rank; [|..|done].
  - apply Sorted_merge_sort. intros ??; lia.
  - intros E. rewrite E in Hp. by apply Permutation_nil in Hp.
Qed.

(** ** Seeding fills the key space *)

Section Seeding.
Context {UD : UnicodeData} {O : Others} (o : BenchOptions) (valueForKey : jsstr → jsstr).
Context (Hvalue : ∀ k, word (valueForKey k) ∧ says_worm (valueForKey k) = false).

Definition seedable (s : kv) (k : jsstr) : Prop := account k ∧ is_worm s k = false.
Definition seeded (s : kv) (k : jsstr) : Prop := s !! k = Some (Entry (valueForKey k) false).

Lemma seed_from_fills n i d s :
  (∀ j, i ≤ j < i + Z.of_nat n → seedable s (key_name o j)) →
  ∃ s', exec serve (seed_from o valueForKey n i) d s = (Ok tt, d, s') ∧
    (∀ j, i ≤ j < i + Z.of_nat n → seeded s' (key_name o j)) ∧
    (∀ k, seeded s k → seeded s' k).
Proof.
  revert i s. induction n as [|n IH]; intros i s Hk; cbn [seed_from].
  { exists s. split_and!; [done|lia|done]. }
  destruct (Hk i) as [Ha Hw]; [lia|]. destruct (Hvalue (key_name o i)) as [Hv Hvw].
  rewrite exec_bind, exec_send, serve_put by done.
  set (s1 := <[_ := _]> s). destruct (IH (i + 1) s1) as (s' & E & Hs & Hkeep).
  { intros j Hj. destruct (Hk j) as [Ha' Hw']; [lia|]. split; [done|]. unfold is_worm, s1 in *.
    destruct (decide (key_name o i = key_name o j)) as [E|].
    - by rewrite E, lookup_insert_eq.
    - by rewrite lookup_insert_ne. }
  assert (seeded s1 (key_name o i)) as H1 by apply lookup_insert_eq.
  exists s'. split_and!; [done|..].
  - intros j Hj. destruct (decide (j = i)) as [->|]; [by apply Hkeep|]. apply Hs. lia.
  - intros k Hs'. apply Hkeep. unfold seeded, s1 in *. destruct (decide (key_name o i = k)) as [->|].
    + by rewrite lookup_insert_eq.
    + by rewrite lookup_insert_ne.
Qed.

(** Seeding succeeds on a server whose benchmark keys are not
    write-once, and leaves every key of the key space with its seed value. *)
Theorem seedKeyspace_fills d s :
  (∀ i, 0 ≤ i < keyspace o → seedable s (key_name o i)) →
  result serve (seedKeyspace o valueForKey) d s = Ok tt ∧
  ∀ i, 0 ≤ i < keyspace o → seeded (final serve (seedKeyspace o valueForKey) d s) (key_name o i).
Proof.
  intros Hs. unfold result, final, seedKeyspace.
  destruct (seed_from_fills (Z.to_nat (keyspace o)) 0 d s) as (s' & -> & H & _).
  { intros j Hj. apply Hs. lia. }
  split; [done|]. intros i Hi. apply H. lia.
Qed.
End Seeding.

(** ** Concrete runs *)

Section Examples.
#[local] Existing Instance ascii_only.
#[local] Existing Instance no_others.

(** Two workers of two places each and three operations: the first worker
    takes two, the second one; they settle out of order, one of them fails. *)
Definition sample_events : list run_event :=
  [Settle 1 2 (Ok true) 7; Settle 0 1 (Ok false) 9; Remove 0 1; Wake 0 10; Remove 1 2;
   Settle 0 0 (Ok true) 12; Remove 0 0; Wake 1 12; Wake 0 12].

Lemma run_accounting_witness :
  ∃ w, run_events 3 2 true sample_events (new_workload 3 2 true 2 5) = Some w ∧
    len (latencies w) = succeeded w + failed w ∧ succeeded w = 2 ∧ failed w = 1.
Proof.
  destruct (run_events 3 2 true sample_events (new_workload 3 2 true 2 5)) as [w|] eqn:E; [|by vm_compute in E].
  exists w. destruct (run_accounting 3 2 true 2 5 sample_events w ltac:(lia) E) as (_ & _ & H).
  vm_compute in E. injection E as <-. by split_and!.
Defined.

Lemma run_completes_witness :
  ∃ w, run_events 3 2 true sample_events (new_workload 3 2 true 2 5) = Some w ∧ returned w ∧
    succeeded w + failed w = 3.
Proof.
  destruct (run_events 3 2 true sample_events (new_workload 3 2 true 2 5)) as [w|] eqn:E; [|by vm_compute in E].
  assert (returned w) as Hr by (vm_compute in E; injection E as <-; by repeat constructor).
  exists w. split_and!; [done..|].
  by apply (run_completes 3 2 true 2 5 sample_events w ltac:(lia) ltac:(lia) E).
Defined.

Lemma summarize_percentiles_witness :
  let r := summarize mixed 5 100 4 1 [30; 10; 50; 20; 40] in
  rank [30; 10; 50; 20; 40] 50 30 ∧ r_latMsP50 r = 30 ∧ r_latMsP99 r = 50.
Proof.
  split; [|by vm_compute].
  apply (summarize_percentiles mixed 5 100 4 1 [30; 10; 50; 20; 40]). done.
Defined.

Lemma seedKeyspace_fills_witness :
  let s := final serve (seedKeyspace small_bank (initial_balance (Context_ small_bank []))) (draws_of 0) ∅ in
  s !! acc1 = Some (Entry (js "100000") false).
Proof.
  change (js "100000") with (initial_balance (Context_ small_bank []) acc1).
  change acc1 with (key_name small_bank 1).
  apply (seedKeyspace_fills small_bank (initial_balance (Context_ small_bank []))); [|..|by vm_compute].
  - intros k. split; [apply show_word; by vm_compute|apply show_not_worm; by vm_compute].
  - intros i Hi. change (keyspace small_bank) with 2 in Hi. destruct acc_account as [H0 H1].
    assert (i = 0 ∨ i = 1) as [-> | ->] by lia; by split.
Defined.
End Examples.
