(* ===== verification/Sct.v ===== *)
(** * Capability tokens ([apps/browser/demo/auth-provider.ts])

    The token the chat demo's auth provider mints, byte by byte on a typed
    array, its HTTP handler, and the server's reader of tokens
    ([src/server/auth.zig]) against which the token is checked.  The Ed25519
    signature is a parameter: the signing function of the provider and the
    verification of the server under its configured keys. *)
From Stdlib Require Import QArith Qround.
From S2P Require Import Prelude Utf8 JsText Number TypedArray Command Protocol Wire WireServer Json.
#[local] Open Scope Z_scope.

(** ** Capabilities *)

Definition OP_GET : Z := 0x01.
Definition OP_SET : Z := 0x02.
Definition OP_DELETE : Z := 0x03.
Definition OP_SUBSCRIBE : Z := 0x04.
Definition OP_PUBLISH : Z := 0x05.
Definition OP_EXEC : Z := 0x06.
Definition OP_ALL : Z := 0xff.

Definition MATCH_EXACT : Z := 0x01.
Definition MATCH_PREFIX : Z := 0x02.
Definition MATCH_WILDCARD : Z := 0xff.

Record Capability := Cap { cap_op : Z; cap_match : Z; pattern : jsstr }.

Definition chatCapabilities : list Capability :=
  [ Cap OP_EXEC MATCH_WILDCARD [];
    Cap OP_SUBSCRIBE MATCH_PREFIX (js "chat:");
    Cap OP_SUBSCRIBE MATCH_PREFIX (js "presence:");
    Cap OP_PUBLISH MATCH_PREFIX (js "chat:");
    Cap OP_PUBLISH MATCH_PREFIX (js "presence:");
    Cap OP_GET MATCH_PREFIX (js "chat:") ].

Definition benchmarkCapabilities : list Capability := [Cap OP_ALL MATCH_WILDCARD []].

(** ** Minting *)

(** [view.setUint32] of the two halves of a time in seconds *)
Definition put_time (payload : bytes) (pos t : Z) : res bytes :=
  payload ← setUint32 payload pos (t / 0x100000000);
  setUint32 payload (pos + 4) (t mod 2 ^ 32).

(** [for (const cap of caps)] *)
Fixpoint put_caps (payload : bytes) (pos : Z) (caps : list Capability) : res bytes :=
  match caps with
  | [] => mret payload
  | cap :: caps =>
      let payload := put_byte payload pos (cap_op cap) in
      let payload := put_byte payload (pos + 1) (cap_match cap) in
      let pos := pos + 2 in
      let patBytes := text_encode (pattern cap) in
      payload ← setUint32 payload pos (len patBytes);
      let pos := pos + 4 in
      payload ← set_at payload pos patBytes;
      put_caps payload (pos + len patBytes) caps
  end.

Definition payload_size (sub : bytes) (caps : list Capability) : Z :=
  fold_left (λ n cap, n + (2 + 4 + len (text_encode (pattern cap)))) caps
    (8 + 8 + 4 + len sub + 4 + 1).

Section Provider.
Context (sign : bytes → bytes).

(** [dateNow] is [Date.now()], [rand] is [Math.random()]. *)
Definition encodeSCT (subject : jsstr) (caps : list Capability) (ttlSeconds dateNow : Z) (rand : Q)
    : res bytes :=
  let now := dateNow / 1000 in
  let exp := now + ttlSeconds in
  let jti := Qfloor (rand * inject_Z 0xffffffff) in
  let subBytes := text_encode subject in
  let payloadLen := payload_size subBytes caps in
  let payload := new_u8 payloadLen in
  payload ← put_time payload 0 now;
  payload ← put_time payload 8 exp;
  payload ← setUint32 payload 16 (len subBytes);
  payload ← set_at payload 20 subBytes;
  let pos := 20 + len subBytes in
  payload ← setUint32 payload pos jti;
  let pos := pos + 4 in
  let payload := put_byte payload pos (len caps) in
  payload ← put_caps payload (pos + 1) caps;
  let signature := sign payload in
  let token := new_u8 (payloadLen + 64) in
  token ← set_at token 0 payload;
  set_at token payloadLen signature.

(** ** The HTTP handler *)

Record request := Request { method : jsstr; pathname : jsstr; body : option json }.
Record response := Response { status : Z; content : option json }.

Definition hex (b : bytes) : jsstr := b ≫= λ c, [hex_digit (c / 16); hex_digit (c mod 16)].

(** [x?.trim()]: anything but a string has no [trim]. *)
Definition username_of (v : option json) : res (option jsstr) :=
  match v with
  | None | Some JNull => Ok None
  | Some (JStr s) => Ok (Some (trim s))
  | Some _ => Throw TypeError
  end.

Definition error_body (m : jsstr) : json := JObj [(js "error", JStr m)].

(** The [try] block of the login: [null] where a 400 answers a bad name. *)
Definition login (body : option json) (dateNow : Z) (rand : Q) : res response :=
  match body with
  | None => Throw SyntaxError
  | Some body =>
      u ← prop body (js "username");
      username ← username_of u;
      match username with
      | None | Some [] =>
          mret (Response 400 (Some (error_body (js "username required (max 32 chars)"))))
      | Some username =>
          if 32 <? len username then
            mret (Response 400 (Some (error_body (js "username required (max 32 chars)"))))
          else
            scope ← prop body (js "scope");
            let caps := match scope with
                        | Some (JStr s) => if bool_decide (s = js "benchmark")
                                           then benchmarkCapabilities else chatCapabilities
                        | _ => chatCapabilities
                        end in
            token ← encodeSCT username caps 86400 dateNow rand;
            mret (Response 200 (Some (JObj
              [(js "token", JStr (hex token)); (js "subject", JStr username);
               (js "expiresIn", jnum 86400)])))
      end
  end.

Definition fetch (publicKey : jsstr) (req : request) (dateNow : Z) (rand : Q) : response :=
  if bool_decide (method req = js "OPTIONS") then Response 204 None
  else if bool_decide (pathname req = js "/auth/login") && bool_decide (method req = js "POST") then
    match login (body req) dateNow rand with
    | Ok r => r
    | Throw _ => Response 400 (Some (error_body (js "invalid request")))
    end
  else if bool_decide (pathname req = js "/auth/keys") && bool_decide (method req = js "GET") then
    Response 200 (Some (JObj [(js "publicKey", JStr publicKey)]))
  else Response 404 (Some (error_body (js "not found"))).
End Provider.

(** ** The server's reader *)

Inductive Operation := op_get | op_set | op_delete | op_subscribe | op_publish | op_exec | op_all.
Inductive MatchType := exact | prefix | wildcard.

#[export] Instance Operation_eq_dec : EqDecision Operation.
Proof. solve_decision. Defined.
#[export] Instance MatchType_eq_dec : EqDecision MatchType.
Proof. solve_decision. Defined.

Definition intToOperation (b : Z) : option Operation :=
  match b with
  | 0x01 => Some op_get | 0x02 => Some op_set | 0x03 => Some op_delete | 0x04 => Some op_subscribe
  | 0x05 => Some op_publish | 0x06 => Some op_exec | 0xFF => Some op_all | _ => None
  end.
Definition intToMatchType (b : Z) : option MatchType :=
  match b with 0x01 => Some exact | 0x02 => Some prefix | 0xFF => Some wildcard | _ => None end.

Record capability := Capability_ { op : Operation; match_type : MatchType; pattern_bytes : bytes }.
Record TokenState := Token {
  subject : bytes; iat : Z; exp : Z; jti : Z; capabilities : list capability }.

Inductive AuthError :=
| TokenTooShort | InvalidSignature | MalformedToken | TokenExpired | TokenNotYetValid
| TokenTooLongLived.

Definition matches (cap : capability) (target : bytes) : bool :=
  match match_type cap with
  | wildcard => true
  | exact => bool_decide (pattern_bytes cap = target)
  | prefix => startsWith target (pattern_bytes cap)
  end.

Definition permits (t : TokenState) (o : Operation) (target : bytes) : bool :=
  existsb (λ cap, (bool_decide (op cap = op_all) || bool_decide (op cap = o)) && matches cap target)
    (capabilities t).

Definition of_byte {A} (f : Z → option A) (b : Z) : parser A :=
  match f b with Some a => mret a | None => fail Corruption end.

Fixpoint cap_fields (n : nat) : parser (list capability) :=
  match n with
  | O => mret []
  | S n =>
      o ← int_field 1;
      m ← int_field 1;
      o ← of_byte intToOperation o;
      m ← of_byte intToMatchType m;
      p ← bytes_field;
      r ← cap_fields n;
      mret (Capability_ o m p :: r)
  end.

Definition token_rest : parser (bytes * Z * list capability) :=
  subject ← bytes_field;
  jti ← int_field 4;
  cap_count ← int_field 1;
  caps ← cap_fields (Z.to_nat cap_count);
  mret (subject, jti, caps).

Section Server.
(** [verify sig payload]: the signature is good under a configured key. *)
Context (verify : bytes → bytes → bool).

(** A failing read is [MalformedToken]; the times are checked between the
    reads.  [exp - iat] is a subtraction of [u64]: it wraps around when a
    token expires before it is issued (and stops a server that is built with
    overflow checks); the tokens of the theorems below are not so. *)
Definition verifyAndParse (token : bytes) (now max_age_s : Z) : TokenState + AuthError :=
  if len token <? 64 + 21 then inr TokenTooShort else
  let payload := slice token 0 (len token - 64) in
  let sig := slice_from token (len token - 64) in
  if negb (verify sig payload) then inr InvalidSignature else
  match (iat ← int_field 8; exp ← int_field 8; mret (iat, exp)) payload 0 with
  | ZErr _ => inr MalformedToken
  | ZOk ((iat, exp), pos) =>
      if exp <=? now then inr TokenExpired
      else if now + 60 <? iat then inr TokenNotYetValid
      else if (0 <? max_age_s) && (max_age_s <? (exp - iat) mod 2 ^ 64) then inr TokenTooLongLived
      else match token_rest payload pos with
           | ZErr _ => inr MalformedToken
           | ZOk ((subject, jti, caps), _) => inl (Token subject iat exp jti caps)
           end
  end.
End Server.

(** ** The layout of a token *)

Definition cap_layout (c : Capability) : bytes :=
  [cap_op c mod 256; cap_match c mod 256] ++ lp (text_encode (pattern c)).

Definition sct_payload (sub : bytes) (iat exp jti : Z) (caps : list Capability) : bytes :=
  be_bytes 8 iat ++ be_bytes 8 exp ++ lp sub ++ be_bytes 4 jti ++ [len caps mod 256] ++
  (caps ≫= cap_layout).

(** The bytes of the low word. *)
Lemma low_word_byte t k : 0 ≤ k ≤ 24 → (t mod 2 ^ 32 / 2 ^ k) mod 2 ^ 8 = (t / 2 ^ k) mod 2 ^ 8.
Proof.
  intros Hk. rewrite <- !Z.land_ones, <- !Z.shiftr_div_pow2 by lia. apply Z.bits_inj'. intros i Hi.
  rewrite !Z.land_spec, !Z.shiftr_spec, Z.land_spec, !Z.testbit_ones_nonneg by lia.
  destruct (Z.ltb_spec i 8), (Z.ltb_spec (i + k) 32); try lia; by rewrite ?andb_true_r, ?andb_false_r.
Qed.

(** The high and the low word of a 64-bit integer. *)
Lemma be_bytes_words t : be_bytes 4 (t / 2 ^ 32) ++ be_bytes 4 (t mod 2 ^ 32) = be_bytes 8 t.
Proof.
  pose proof (low_word_byte t 24 ltac:(lia)). pose proof (low_word_byte t 16 ltac:(lia)).
  pose proof (low_word_byte t 8 ltac:(lia)). pose proof (low_word_byte t 0 ltac:(lia)).
  unfold be_bytes. cbn [app Z.of_nat Pos.of_succ_nat Pos.succ].
  rewrite !Z.div_div by lia. repeat apply (f_equal2 cons); done.
Qed.

Lemma put_time_filling n pre t off :
  off = len pre → len pre + 8 ≤ n →
  put_time (filling n pre) off t = Ok (filling n (pre ++ be_bytes 8 t)).
Proof.
  intros -> Hn. unfold put_time. change 0x100000000 with (2 ^ 32). note_len. fill.
  by rewrite <- app_assoc, be_bytes_words.
Qed.

Lemma len_cap_layout c : len (cap_layout c) = 6 + len (text_encode (pattern c)).
Proof. unfold cap_layout. len_tac. Qed.
#[local] Hint Rewrite len_cap_layout : len.

Lemma put_caps_filling n pre off caps :
  off = len pre → len pre + len (caps ≫= cap_layout) ≤ n →
  put_caps (filling n pre) off caps = Ok (filling n (pre ++ (caps ≫= cap_layout))).
Proof.
  revert pre off. induction caps as [|c caps IH]; intros pre off -> Hn; cbn [put_caps].
  { cbn. by rewrite app_nil_r. }
  rewrite bind_cons in *. note_len. cbv zeta.
  rewrite put_byte_filling by len_tac. rewrite put_byte_filling by len_tac.
  rewrite setUint32_filling by len_tac. cbn [mbind res_bind].
  rewrite set_at_filling by len_tac. cbn [mbind res_bind].
  rewrite IH by len_tac. unfold cap_layout at 3, lp. by rewrite <- !app_assoc.
Qed.

Lemma payload_size_spec sub caps :
  payload_size sub caps = 25 + len sub + len (caps ≫= cap_layout).
Proof.
  unfold payload_size. replace (8 + 8 + 4 + len sub + 4 + 1) with (25 + len sub) by lia.
  generalize (25 + len sub). induction caps as [|c caps IH]; intros a; cbn [fold_left].
  { cbn. change (len []) with 0. lia. }
  rewrite IH, bind_cons. len_tac.
Qed.

Section Minted.
Context (sign : bytes → bytes) (Hsign : ∀ p, len (sign p) = 64).

Lemma encodeSCT_layout subject caps ttl dateNow rand :
  encodeSCT sign subject caps ttl dateNow rand =
  let p := sct_payload (text_encode subject) (dateNow / 1000) (dateNow / 1000 + ttl)
             (Qfloor (rand * inject_Z 0xffffffff)) caps in
  Ok (p ++ sign p).
Proof.
  unfold encodeSCT. cbv zeta. rewrite payload_size_spec. note_len.
  rewrite (filling_start (25 + len (text_encode subject) + len (caps ≫= cap_layout))).
  rewrite put_time_filling by len_tac. cbn [mbind res_bind].
  rewrite put_time_filling by len_tac. cbn [mbind res_bind].
  rewrite setUint32_filling by len_tac. cbn [mbind res_bind].
  rewrite set_at_filling by len_tac. cbn [mbind res_bind].
  rewrite setUint32_filling by len_tac. cbn [mbind res_bind].
  rewrite put_byte_filling by len_tac. rewrite put_caps_filling by len_tac. cbn [mbind res_bind].
  set (p := sct_payload _ _ _ _ _).
  assert (len p = 25 + len (text_encode subject) + len (caps ≫= cap_layout)) as Hp.
  { unfold p, sct_payload. len_tac. }
  match goal with |- context [filling ?n ?l] => replace (filling n l) with p end.
  2:{ rewrite filling_done by len_tac. unfold p, sct_payload, lp. by rewrite <- !app_assoc. }
  pose proof (Hsign p). rewrite <- Hp.
  rewrite filling_start, set_at_filling by len_tac. cbn [mbind res_bind].
  rewrite set_at_filling by len_tac. cbn [app]. by rewrite filling_done by len_tac.
Qed.
End Minted.

(** What the server reads of a capability. *)
Definition read_cap (c : Capability) : option capability :=
  o ← intToOperation (cap_op c);
  m ← intToMatchType (cap_match c);
  Some (Capability_ o m (text_encode (pattern c))).

Lemma intToOperation_byte b o : intToOperation b = Some o → b mod 256 = b.
Proof. intros H. apply Z.mod_small. unfold intToOperation in H. repeat case_match; done || lia. Qed.
Lemma intToMatchType_byte b m : intToMatchType b = Some m → b mod 256 = b.
Proof. intros H. apply Z.mod_small. unfold intToMatchType in H. repeat case_match; done || lia. Qed.

Lemma of_byte_ok {A} (f : Z → option A) b a payload pos :
  f b = Some a → of_byte f b payload pos = ZOk (a, pos).
Proof. unfold of_byte. by intros ->. Qed.

Lemma cap_fields_at pre caps caps' pos :
  pos = len pre → mapM read_cap caps = Some caps' →
  Forall (λ c, len (text_encode (pattern c)) < 2 ^ 32) caps →
  cap_fields (length caps) (pre ++ (caps ≫= cap_layout)) pos =
  ZOk (caps', pos + len (caps ≫= cap_layout)).
Proof.
  intros -> H%mapM_Some Hp. revert pre Hp. induction H as [|c c' caps caps' Hc _ IH]; intros pre Hp.
  { cbn. unfold mret, parser_ret. by rewrite Z.add_0_r. }
  inversion Hp as [|? ? Hl Hp']; subst. unfold read_cap in Hc.
  apply bind_Some in Hc as (o & Ho & Hc). apply bind_Some in Hc as (m & Hm & [= <-]).
  rewrite bind_cons. unfold cap_layout at 1. cbn [app length cap_fields].
  rewrite (intToOperation_byte _ _ Ho), (intToMatchType_byte _ _ Hm).
  erewrite parser_bind_ok by (by apply byte_field_at).
  rewrite (cons_middle (cap_op c)), (app_assoc pre). erewrite parser_bind_ok by (apply byte_field_at; len_tac).
  erewrite parser_bind_ok by (by apply of_byte_ok). erewrite parser_bind_ok by (by apply of_byte_ok).
  rewrite (cons_middle (cap_match c)), (app_assoc (pre ++ _)).
  next_field bytes_field_at.
  match goal with |- (_ ≫= _) (?p ++ _) ?q = _ => replace q with (len p) by len_tac end.
  erewrite parser_bind_ok by (by apply IH). unfold mret, parser_ret. do 2 f_equal.
  unfold cap_layout. len_tac.
Qed.

Lemma text_encode_len s : len (text_encode s) ≤ 4 * len s.
Proof.
  assert (∀ cps, len (cps ≫= encode_cp) ≤ 4 * len cps) as H1.
  { induction cps as [|c cps IH]; [done|]. rewrite bind_cons, len_app, len_cons.
    assert (len (encode_cp c) ≤ 4) by (unfold encode_cp; repeat case_ztest; done). lia. }
  assert (len (code_points s) ≤ len s) as H2; [|unfold text_encode; pose proof (H1 (code_points s)); lia].
  induction s as [[|c s] IH] using list_len_ind; [done|].
  destruct (code_points_view c s) as [(d & s' & -> & _ & _ & ->)|[(_ & _ & ->)|(_ & _ & ->)]];
    rewrite !len_cons.
  - pose proof (IH s' ltac:(cbn; lia)). lia.
  - pose proof (IH s ltac:(cbn; lia)). lia.
  - pose proof (IH s ltac:(cbn; lia)). lia.
Qed.

Section Accepted.
Context (sign : bytes → bytes) (verify : bytes → bytes → bool).
Context (Hsign : ∀ p, len (sign p) = 64) (Hverify : ∀ p, verify (sign p) p = true).

(** What the server makes of a payload that is signed, at any time. *)
Definition verdict (st : TokenState) (now max_age : Z) : TokenState + AuthError :=
  if exp st <=? now then inr TokenExpired
  else if now + 60 <? iat st then inr TokenNotYetValid
  else if (0 <? max_age) && (max_age <? exp st - iat st) then inr TokenTooLongLived
  else inl st.

Lemma payload_verdict sub iat exp jti caps caps' now max_age :
  mapM read_cap caps = Some caps' → len caps < 256 →
  len sub < 2 ^ 32 → Forall (λ c, len (text_encode (pattern c)) < 2 ^ 32) caps →
  0 ≤ iat < 2 ^ 64 → 0 ≤ jti < 2 ^ 32 → iat ≤ exp < 2 ^ 64 →
  let p := sct_payload sub iat exp jti caps in
  verifyAndParse verify (p ++ sign p) now max_age = verdict (Token sub iat exp jti caps') now max_age.
Proof.
  intros Hcaps Hn Hsub Hpat Hiat Hj Hexp p. pose proof (Hsign p).
  assert (len p = 25 + len sub + len (caps ≫= cap_layout)) as Hp by (unfold p, sct_payload; len_tac).
  unfold verifyAndParse. rewrite len_app. note_len.
  case_ztest; [lia|]. replace (len p + len (sign p) - 64) with (len p) by lia.
  rewrite slice_app_l, slice_from_app, Hverify by done. cbn [negb].
  assert ((iat ← int_field 8; exp ← int_field 8; mret (iat, exp)) p 0 = ZOk ((iat, exp), 16)) as ->.
  { unfold p, sct_payload. change (be_bytes 8 iat ++ ?r) with ([] ++ be_bytes 8 iat ++ r).
    next_field (int_field_at 8). next_field (int_field_at 8). unfold mret, parser_ret.
    change (256 ^ Z.of_nat 8) with (2 ^ 64). rewrite !Z.mod_small by lia. done. }
  unfold verdict. cbn [Sct.exp Sct.iat]. rewrite (Z.mod_small (exp - iat)) by lia.
  destruct (exp <=? now); [done|]. destruct (now + 60 <? iat); [done|].
  destruct (_ && _); [done|].
  enough (token_rest p 16 = ZOk (sub, jti, caps', len p)) as -> by done.
  unfold token_rest, p, sct_payload. rewrite (app_assoc (be_bytes 8 iat)).
  set (pre := be_bytes 8 iat ++ _). assert (len pre = 16) as Hpre by (unfold pre; len_tac).
  next_field bytes_field_at. next_field (int_field_at 4). cbn [app].
  erewrite parser_bind_ok by (apply byte_field_at; len_tac). rewrite cons_middle, (app_assoc (_ ++ _)).
  rewrite (Z.mod_small (len caps)) by (note_len; lia). replace (Z.to_nat (len caps)) with (length caps) by (unfold len; lia).
  erewrite parser_bind_ok by (apply cap_fields_at; [len_tac|done|done]).
  unfold mret, parser_ret. change (256 ^ Z.of_nat 4) with (2 ^ 32).
  rewrite Z.mod_small by lia. do 2 f_equal. len_tac.
Qed.

Lemma minted_verdict subject caps caps' ttl dateNow rand now max_age :
  mapM read_cap caps = Some caps' → len caps < 256 →
  len (text_encode subject) < 2 ^ 32 → Forall (λ c, len (text_encode (pattern c)) < 2 ^ 32) caps →
  0 ≤ dateNow → (0 <= rand)%Q → (rand < 1)%Q → 0 ≤ ttl → dateNow / 1000 + ttl < 2 ^ 64 →
  ∃ token, encodeSCT sign subject caps ttl dateNow rand = Ok token ∧
    verifyAndParse verify token now max_age =
      verdict (Token (text_encode subject) (dateNow / 1000) (dateNow / 1000 + ttl)
                 (Qfloor (rand * inject_Z 0xffffffff)) caps') now max_age.
Proof.
  intros Hcaps Hn Hsub Hpat H0 Hr0 Hr1 Httl Hexp.
  eexists. split; [by apply encodeSCT_layout|]. cbv zeta.
  pose proof (Qfloor_scaled rand 0xffffffff Hr0 Hr1 ltac:(lia)). assert (0 ≤ dateNow / 1000) by (apply Z.div_pos; lia).
  apply payload_verdict; [done..|lia|lia|lia].
Qed.

(** C12: the server's verdict on every token the provider mints, at every
    time and for every configured maximal age (0: none).  From its expiry on
    the token is refused as expired; more than a minute before it was issued,
    as not yet valid; in between it is accepted if no maximal age is
    configured or its lifetime is within it, and then the subject, the times
    and the capabilities read are those it was minted with; otherwise it is
    refused as too long-lived, as are the provider's default tokens of a day
    by a server with the default hour ([default_token_refused]). *)
Theorem minted_token_verdict subject caps caps' ttl dateNow rand now max_age :
  mapM read_cap caps = Some caps' → len caps < 256 →
  len (text_encode subject) < 2 ^ 32 → Forall (λ c, len (text_encode (pattern c)) < 2 ^ 32) caps →
  0 ≤ dateNow → (0 <= rand)%Q → (rand < 1)%Q → 0 ≤ ttl → dateNow / 1000 + ttl < 2 ^ 64 →
  let issued := dateNow / 1000 in
  ∃ token, encodeSCT sign subject caps ttl dateNow rand = Ok token ∧
    (issued + ttl ≤ now → verifyAndParse verify token now max_age = inr TokenExpired) ∧
    (now < issued + ttl → now + 60 < issued →
       verifyAndParse verify token now max_age = inr TokenNotYetValid) ∧
    (issued - 60 ≤ now < issued + ttl →
       verifyAndParse verify token now max_age =
         if bool_decide (max_age ≤ 0 ∨ ttl ≤ max_age)
         then inl (Token (text_encode subject) issued (issued + ttl)
                     (Qfloor (rand * inject_Z 0xffffffff)) caps')
         else inr TokenTooLongLived).
Proof.
  intros Hcaps Hn Hsub Hpat H0 Hr0 Hr1 Httl Hexp issued.
  destruct (minted_verdict subject caps caps' ttl dateNow rand now max_age) as (token & Ht & Hv); [done..|].
  exists token. split; [done|]. rewrite Hv. fold issued. unfold verdict. cbn [Sct.exp Sct.iat].
  split_and!.
  - intros H. by rewrite (proj2 (Z.leb_le _ _)) by lia.
  - intros H1 H2. rewrite (proj2 (Z.leb_gt _ _)) by lia. by rewrite (proj2 (Z.ltb_lt _ _)) by lia.
  - intros [H1 H2]. rewrite (proj2 (Z.leb_gt _ _)) by lia. rewrite (proj2 (Z.ltb_ge _ _)) by lia.
    destruct (Z.ltb_spec 0 max_age), (Z.ltb_spec max_age (issued + ttl - issued)); cbn [andb];
      case_bool_decide; done || lia.
Qed.

(** The provider's default lifetime against the server's default maximal
    age: refused as long as it has not expired. *)
Lemma default_token_refused subject dateNow rand now :
  len subject < 2 ^ 30 → 0 ≤ dateNow < 2 ^ 63 → (0 <= rand)%Q → (rand < 1)%Q →
  dateNow / 1000 - 60 ≤ now < dateNow / 1000 + 86400 →
  ∃ token, encodeSCT sign subject chatCapabilities 86400 dateNow rand = Ok token ∧
    verifyAndParse verify token now 3600 = inr TokenTooLongLived.
Proof.
  intros Hl Hd Hr0 Hr1 Hnow.
  assert (∃ caps, mapM read_cap chatCapabilities = Some caps) as [caps Hcaps] by (eexists; by vm_compute).
  assert (0 ≤ dateNow / 1000 < 2 ^ 63) by zdivmod. pose proof (text_encode_len subject).
  destruct (minted_verdict subject chatCapabilities caps 86400 dateNow rand now 3600) as (token & Ht & Hv);
    [done|done|lia|by repeat constructor|lia|done|done|lia|lia|].
  exists token. split; [done|]. rewrite Hv. unfold verdict. cbn [Sct.exp Sct.iat].
  rewrite (proj2 (Z.leb_gt _ _)) by lia. rewrite (proj2 (Z.ltb_ge _ _)) by lia.
  replace (dateNow / 1000 + 86400 - dateNow / 1000) with 86400 by lia. done.
Qed.
End Accepted.

(** ** What a chat token allows *)

Definition starts (target : bytes) (s : string) : bool := startsWith target (js s).

Definition chat_allows (o : Operation) (target : bytes) : bool :=
  match o with
  | op_exec => true
  | op_subscribe | op_publish => starts target "chat:" || starts target "presence:"
  | op_get => starts target "chat:"
  | op_set | op_delete | op_all => false
  end.

Lemma chat_caps_read : ∃ caps, mapM read_cap chatCapabilities = Some caps ∧
  ∀ subject iat exp jti o target,
    permits (Token subject iat exp jti caps) o target = chat_allows o target.
Proof.
  eexists. split; [by vm_compute|]. intros subject iat exp jti o target.
  unfold permits, chat_allows, starts, matches. cbn [existsb capabilities op match_type pattern_bytes].
  destruct o; repeat match goal with |- context [bool_decide ?P] =>
    first [rewrite (bool_decide_eq_true_2 P) by done | rewrite (bool_decide_eq_false_2 P) by done] end;
    cbn [orb andb]; by rewrite ?orb_false_r.
Qed.

Section Login.
Context (sign : bytes → bytes) (verify : bytes → bytes → bool).
Context (Hsign : ∀ p, len (sign p) = 64) (Hverify : ∀ p, verify (sign p) p = true).

(** A login with a name of 1 to 32 characters after trimming, and any
    scope but the benchmark's, answers a token in hexadecimal which the server
    accepts for that name and which permits exactly the chat operations:
    procedures, subscribing and publishing under [chat:] and [presence:],
    reading under [chat:]; never a write. *)
Theorem login_mints_chat_token publicKey fields u username scope dateNow rand now :
  prop (JObj fields) (js "username") = Ok (Some (JStr u)) → trim u = username →
  1 ≤ len username ≤ 32 →
  prop (JObj fields) (js "scope") = Ok scope → scope ≠ Some (JStr (js "benchmark")) →
  0 ≤ dateNow < 2 ^ 63 → (0 <= rand)%Q → (rand < 1)%Q →
  dateNow / 1000 ≤ now + 60 → 0 ≤ now < dateNow / 1000 + 86400 →
  ∃ token st,
    fetch sign publicKey (Request (js "POST") (js "/auth/login") (Some (JObj fields))) dateNow rand =
      Response 200 (Some (JObj [(js "token", JStr (hex token)); (js "subject", JStr username);
                                (js "expiresIn", jnum 86400)])) ∧
    verifyAndParse verify token now 86400 = inl st ∧
    subject st = text_encode username ∧ ∀ o target, permits st o target = chat_allows o target.
Proof.
  intros Hu Htrim Hlen Hs Hne Hd Hr0 Hr1 Hskew Hexp.
  destruct chat_caps_read as (caps & Hcaps & Hperm). pose proof (text_encode_len username).
  assert (0 ≤ dateNow / 1000 < 2 ^ 63) by zdivmod.
  destruct (minted_verdict sign verify Hsign Hverify username chatCapabilities caps 86400
    dateNow rand now 86400) as (token & Ht & Hv); [exact Hcaps|reflexivity|lia| |lia|exact Hr0|exact Hr1|lia..|].
  { by repeat constructor. }
  unfold verdict in Hv. cbn [Sct.exp Sct.iat] in Hv.
  rewrite (proj2 (Z.leb_gt _ _)) in Hv by lia. rewrite (proj2 (Z.ltb_ge _ _)) in Hv by lia.
  replace (dateNow / 1000 + 86400 - dateNow / 1000) with 86400 in Hv by lia. cbn [Z.ltb andb] in Hv.
  exists token. eexists. split_and!; [|exact Hv|done|by intros].
  clear Hv Hperm. unfold fetch. rewrite bool_decide_eq_false_2 by done. rewrite !bool_decide_eq_true_2 by done.
  cbn [andb body]. unfold login. rewrite Hu. cbn [mbind res_bind username_of]. rewrite Htrim.
  destruct username as [|c username]; [change (len []) with 0 in Hlen; lia|].
  destruct (Z.ltb_spec 32 (len (c :: username))); [lia|].
  rewrite Hs. cbn [mbind res_bind].
  assert (match scope with
          | Some (JStr s) => if bool_decide (s = js "benchmark") then benchmarkCapabilities
                             else chatCapabilities
          | _ => chatCapabilities end = chatCapabilities) as ->.
  { destruct scope as [[]|]; try done. rewrite bool_decide_eq_false_2; [done|]. by intros ->. }
  by rewrite Ht.
Qed.
End Login.

(** ** Concrete runs: a checksum in place of the signature *)

Definition checksum (p : bytes) : bytes := replicate 64 (foldl Z.add 0 p mod 256).
Definition checksum_ok (sig p : bytes) : bool := bool_decide (sig = checksum p).

Lemma checksum_len p : len (checksum p) = 64.
Proof. unfold checksum. by rewrite len_replicate. Qed.
Lemma checksum_verified p : checksum_ok (checksum p) p = true.
Proof. by apply bool_decide_eq_true. Qed.

Lemma minted_token_verdict_witness :
  ∃ token, encodeSCT checksum (js "ana") [Cap OP_GET MATCH_PREFIX (js "k:")] 60 5000999 0.5 = Ok token ∧
    verifyAndParse checksum_ok token 5030 3600 =
      inl (Token (js "ana") 5000 5060 2147483647 [Capability_ op_get prefix (js "k:")]).
Proof.
  destruct (minted_token_verdict checksum checksum_ok checksum_len checksum_verified (js "ana")
    [Cap OP_GET MATCH_PREFIX (js "k:")] [Capability_ op_get prefix (js "k:")] 60 5000999 0.5 5030 3600)
    as (token & Ht & _ & _ & Hv); [done|done|done|by repeat constructor|done|done|done|done|done|].
  exists token. split; [exact Ht|]. apply Hv. split; [by vm_compute|done].
Defined.

Definition login_fields : list (jsstr * json) :=
  [(js "username", JStr (js " ana ")); (js "scope", JStr (js "chat"))].

Lemma login_mints_chat_token_witness :
  ∃ token st, status (fetch checksum [] (Request (js "POST") (js "/auth/login")
                        (Some (JObj login_fields))) 5000999 0.5) = 200 ∧
    verifyAndParse checksum_ok token 5030 86400 = inl st ∧
    permits st op_get (js "chat:room") = true ∧ permits st op_set (js "chat:room") = false.
Proof.
  destruct (login_mints_chat_token checksum checksum_ok checksum_len checksum_verified [] login_fields
    (js " ana ") (js "ana") (Some (JStr (js "chat"))) 5000999 0.5 5030)
    as (token & st & Hf & Hv & _ & Hp);
    [by vm_compute|by vm_compute|by vm_compute|by vm_compute|discriminate|lia|done|done|by vm_compute
    |by vm_compute|].
  exists token, st. rewrite Hf, !Hp. by split_and!.
Defined.

