(* ===== verification/VectorBench.v ===== *)
(** * The vector benchmark ([bench/vector/src])

    The WormDB adapter ([adapters/wormdb.ts]): what it sends and how it reads
    the results; the metrics ([metrics.ts]); the arguments and the split of
    the queries over the workers ([run.ts]).  A flat array of floats is given
    by its rows, each as its bytes; scores are kept as the JSON numbers they
    arrive as.  The clock is read from a list. *)
From Stdlib Require Import QArith Qround.
From stdpp Require Import sorting.
From S2P Require Import Prelude JsText Number Command Protocol Json Client.
#[local] Open Scope Z_scope.

Definition NAMESPACE : jsstr := js "vec:bench:".
Definition QUERY_NAMESPACE : jsstr := js "vec:benchq:".
Definition BULK_BATCH_SIZE : Z := 256.

Inductive AdapterMode := exact | hnsw | bq | bq_rerank | quantized.
Record AdapterConfig := Config {
  mode : AdapterMode; metric : Metric; cfg_dim : Z; cfg_m : option Z; efConstruction : option Z; asyncInsert : option bool }.

Definition modeArg (m : AdapterMode) : res jsstr :=
  match m with
  | exact => Ok (js "exact")
  | hnsw => Ok (js "auto")
  | bq => Ok (js "bq")
  | bq_rerank => Ok (js "bq_rerank")
  | quantized => Throw (Error (js "wormdb adapter: 'quantized' is a Qdrant-only label; use 'hnsw', 'bq', or 'bq_rerank'"))
  end.

(** ** The adapter, against a server with state [S] *)

Section Adapter.
Context {UD : UnicodeData} {S : Type} (serve : ParsedCommand → S → S * res WormResponse).

(** [client.send(text)] *)
Definition send (text : jsstr) (s : S) : S * res WormResponse :=
  match parseCommand text with Ok c => serve c s | Throw e => (s, Throw e) end.

Definition drop_text (ns : jsstr) : jsstr := js "EXEC vnsdrop " ++ ns ++ js " 1".
Definition setup (s : S) : S * res () :=
  match send (drop_text NAMESPACE) s with
  | (s, Throw e) => (s, Throw e)
  | (s, Ok _) =>
      match send (drop_text QUERY_NAMESPACE) s with
      | (s, Throw e) => (s, Throw e)
      | (s, Ok _) => (s, Ok tt)
      end
  end.

(** The items from [cursor], for the rows given *)
Definition batch_items (tsNow cursor : Z) (rows : list bytes) : list (jsstr * bytes * option Z) :=
  imap (λ i v, (NAMESPACE ++ show (cursor + Z.of_nat i), v, Some tsNow)) rows.

Definition bulk_command (cfg : AdapterConfig) (now tsNow cursor : Z) (rows : list bytes) : ParsedCommand :=
  vbulkinsertNative now (batch_items tsNow cursor rows) (Some false) (Some NAMESPACE) (Some (metric cfg))
    (Some (default false (asyncInsert cfg))).

Definition build_failed (what : jsstr) (r : WormResponse) : exn :=
  Error (what ++ stringify (response_json r)).

(** [while (cursor < N)], over the rows that are left; each round takes at
    least one. *)
Fixpoint build_loop (fuel : nat) (cfg : AdapterConfig) (now tsNow cursor : Z) (rows : list bytes) (s : S)
    : S * res () :=
  match fuel, rows with
  | O, _ | _, [] => (s, Ok tt)
  | Datatypes.S fuel, _ =>
      let batch := take (Z.to_nat BULK_BATCH_SIZE) rows in
      match serve (bulk_command cfg now tsNow cursor batch) s with
      | (s, Throw e) => (s, Throw e)
      | (s, Ok ok) =>
          build_loop fuel cfg now tsNow (cursor + len batch) (drop (Z.to_nat BULK_BATCH_SIZE) rows) s
      | (s, Ok r) =>
          (s, Throw (build_failed (js "vbulkinsert failed at cursor=" ++ show cursor ++ js ": ") r))
      end
  end.

Definition build (cfg : AdapterConfig) (now tsNow : Z) (rows : list bytes) (s : S) : S * res () :=
  match rows with
  | [] => (s, Ok tt)
  | _ =>
      match build_loop (length rows) cfg now tsNow 0 rows s with
      | (s, Throw e) => (s, Throw e)
      | (s, Ok _) =>
          match mode cfg with
          | bq | bq_rerank =>
              match send (js "EXEC vrabitq " ++ NAMESPACE) s with
              | (s, Throw e) => (s, Throw e)
              | (s, Ok (bulk _)) => (s, Ok tt)
              | (s, Ok r) => (s, Throw (build_failed (js "vrabitq failed: ") r))
              end
          | _ => (s, Ok tt)
          end
      end
  end.

Definition query_key (q : Z) : jsstr := QUERY_NAMESPACE ++ show q.
Fixpoint prepareQueries (cfg : AdapterConfig) (now q : Z) (rows : list bytes) (s : S) : S * res () :=
  match rows with
  | [] => (s, Ok tt)
  | row :: rows =>
      match serve (vinsertNative now (query_key q) row
               (VinsertOptions (Some false) (Some QUERY_NAMESPACE) (Some (metric cfg)) None None)) s with
      | (s, Throw e) => (s, Throw e)
      | (s, Ok ok) => prepareQueries cfg now (q + 1) rows s
      | (s, Ok r) => (s, Throw (build_failed (js "query insert failed at q=" ++ show q ++ js ": ") r))
      end
  end.

(** *** Reading results *)

(** An element of an [Int32Array] *)
Definition to_int32 (z : Z) : Z := let m := z mod 2 ^ 32 in if m <? 2 ^ 31 then m else m - 2 ^ 32.

(** [/^vec:bench:(\d+)$/.exec(k)] *)
Definition id_of (k : jsstr) : Z :=
  if startsWith k NAMESPACE then
    match drop (length NAMESPACE) k with
    | (_ :: _) as ds =>
        if forallb is_digit ds then
          match as_integer (Number ds) with Some z => to_int32 z | None => 0 end
        else -1
    | [] => -1
    end
  else -1.

(** One result; a key that is missing reads as ["undefined"]. *)
Definition read_result (v : json) : res (Z * option json) :=
  k ← prop v (js "k");
  score ← prop v (js "s");
  Ok (match k with Some (JStr k) => id_of k | _ => -1 end, score).

Fixpoint read_results (l : list json) : res (list (Z * option json)) :=
  match l with
  | [] => Ok []
  | v :: l => r ← read_result v; rs ← read_results l; Ok (r :: rs)
  end.

Definition search_text (cfg : AdapterConfig) (m : jsstr) (qIdx k : Z) : jsstr :=
  js "EXEC vsearch " ++ query_key qIdx ++ js " " ++ show k ++ js " " ++ NAMESPACE ++ js " " ++
  metric_name (metric cfg) ++ js " 0 " ++ m.

(** [JSON.parse(value) as Array]: what is no array is read through [length]
    and indices; an object is taken to have no field [length]. *)
Definition query (cfg : AdapterConfig) (qIdx k : Z) (s : S) : S * res (list (Z * option json)) :=
  match modeArg (mode cfg) with
  | Throw e => (s, Throw e)
  | Ok m =>
      match send (search_text cfg m qIdx k) s with
      | (s, Throw e) => (s, Throw e)
      | (s, Ok (bulk v)) =>
          (s, match JSON_parse v with
              | Some (JArr l) => read_results l
              | Some JNull => Throw TypeError
              | Some (JStr t) => Ok ((λ _, (-1, None)) <$> t)
              | Some _ => Ok []
              | None => Throw SyntaxError
              end)
      | (s, Ok r) => (s, Throw (build_failed (js "vsearch failed: ") r))
      end
  end.

(** *** Waiting for an asynchronous build *)

(** What follows [pre] in the text *)
Definition after_prefix (pre s : jsstr) : option jsstr :=
  if startsWith s pre then Some (drop (length pre) s) else None.

(** [/"pending"\s*:\s*(\d+)/] at the start of the text: the digits *)
Definition pending_here (s : jsstr) : option jsstr :=
  match after_prefix (34 :: js "pending" ++ [34]) s with
  | Some r =>
      match after_prefix (js ":") (trimStart r) with
      | Some r => match span is_digit (trimStart r) with ([], _) => None | (ds, _) => Some ds end
      | None => None
      end
  | None => None
  end.

(** [.exec(value)]: the leftmost match *)
Fixpoint pending_match (s : jsstr) : option jsstr :=
  match s with
  | [] => None
  | _ :: s' => match pending_here s with Some ds => Some ds | None => pending_match s' end
  end.

(** [pending === 0] *)
Definition drained (v : jsstr) : bool :=
  match pending_match v with Some ds => bool_decide (as_integer (Number ds) = Some 0) | None => true end.

Definition probe_key : jsstr := js "vec:benchq:probe:0".
Definition stats_text : jsstr := js "EXEC vstats " ++ NAMESPACE.
Definition probe_text (m : Metric) : jsstr :=
  js "EXEC vsearch " ++ probe_key ++ js " 1 " ++ NAMESPACE ++ js " " ++ metric_name m ++ js " 0 auto".

(** [parsed.length > 0 && parsed[0].k === expectedKey]; a text has no [k]. *)
Definition top_is (expected : jsstr) (v : jsstr) : res bool :=
  match JSON_parse v with
  | Some (JArr (x :: _)) => k ← prop x (js "k");
      Ok (match k with Some (JStr k) => bool_decide (k = expected) | _ => false end)
  | Some JNull => Throw TypeError
  | Some _ => Ok false
  | None => Throw SyntaxError
  end.

(** One round of the loop: whether the vectors are queryable, with the first
    probe if there is one. *)
Definition poll (cfg : AdapterConfig) (now : Z) (probe : option (Z * bytes)) (s : S) : S * res bool :=
  match send stats_text s with
  | (s, Throw e) => (s, Throw e)
  | (s, Ok (bulk v)) =>
      if drained v then
        match probe with
        | None => (s, Ok true)
        | Some (id, row) =>
            match serve (vinsertNative now probe_key row
                     (VinsertOptions (Some false) (Some QUERY_NAMESPACE) (Some (metric cfg)) None None)) s with
            | (s, Throw e) => (s, Throw e)
            | (s, Ok _) =>
                match send (probe_text (metric cfg)) s with
                | (s, Throw e) => (s, Throw e)
                | (s, Ok (bulk v)) => (s, top_is (NAMESPACE ++ show id) v)
                | (s, Ok _) => (s, Ok false)
                end
            end
        end
      else (s, Ok false)
  | (s, Ok _) => (s, Ok false)
  end.

(** The loop, with what [Bun.nanoseconds] and [Date.now] give in each round;
    [None] when it goes on after the last reading given. *)
Fixpoint wait_loop (cfg : AdapterConfig) (probe : option (Z * bytes)) (timeoutMs deadline : Z) (clock : list (Z * Z)) (s : S)
    : S * option (res ()) :=
  match clock with
  | [] => (s, None)
  | (t, now) :: clock =>
      if t <? deadline then
        match poll cfg now probe s with
        | (s, Throw e) => (s, Some (Throw e))
        | (s, Ok true) => (s, Some (Ok tt))
        | (s, Ok false) => wait_loop cfg probe timeoutMs deadline clock s
        end
      else (s, Some (Throw (Error (js "wormdb waitUntilQueryable: timeout after " ++ show timeoutMs ++ js "ms"))))
  end.

Definition waitUntilQueryable (cfg : AdapterConfig) (probe : option (Z * bytes)) (timeoutMs start : Z) (clock : list (Z * Z)) (s : S)
    : S * option (res ()) :=
  if default false (asyncInsert cfg) then
    wait_loop cfg probe timeoutMs (start + timeoutMs * 1000000) clock s
  else (s, Some (Ok tt)).
End Adapter.

(** ** Metrics *)

(** The double nearest to a number, for the sums and quotients of the
    metrics, which stay far from the largest double. *)
Definition rnd (q : Q) : Q := match to_double (Qred q) with Fin r => r | _ => q end.

Lemma rnd_int q z : (q == inject_Z z)%Q → Z.abs z ≤ 2 ^ 53 → rnd q = inject_Z z.
Proof.
  intros Hq Hz. unfold rnd. replace (Qred q) with (inject_Z z); [by rewrite to_double_int|].
  rewrite (Qred_complete _ _ Hq). pose proof (Qred_int z 1) as E. by rewrite Z.mul_1_r in E.
Qed.

Lemma rnd_le q z : (0 < q)%Q → (q <= inject_Z z)%Q → z ≤ 2 ^ 51 → (rnd q <= inject_Z z)%Q.
Proof.
  intros H0 Hq Hz. pose proof Hq as Hle. rewrite <- (Qred_correct q) in H0, Hq. unfold rnd, to_double. destruct (Qred q) as [n d]. unfold Qlt, Qle in H0, Hq. cbn in H0, Hq.
  cbn [Qnum Qden]. destruct (Z.eqb_spec n 0); [lia|]. rewrite (proj2 (Z.ltb_ge n 0)), Z.abs_eq by lia.
  destruct (round_pos n (Zpos d)) as [v|] eqn:E; [|done].
  apply (round_pos_le n (Zpos d) z v); [lia|lia|lia|done|done].
Qed.

(** The hits of one query (for [k] from one) among the first [k] of its neighbours *)
Definition hits (gt got : list Z) (k : nat) : Z :=
  len (base.filter (λ id, id ∈ take k gt) (take k got)).

Definition recall_sum (predicted : list (list Z)) (neighbors : list Z) (gtK k : nat) : Q :=
  foldl (λ total '(q, got),
    rnd (total + rnd (inject_Z (hits (drop (q * gtK) neighbors) got k) / inject_Z (Z.of_nat k))))%Q
    0%Q (imap pair predicted).

Definition recallAtK (predicted : list (list Z)) (neighbors : list Z) (gtK k : nat) : res Q :=
  match predicted with
  | [] => Ok 0%Q
  | _ =>
      if (gtK <? k)%nat
      then Throw (Error (js "k (" ++ show (Z.of_nat k) ++ js ") > ground-truth K (" ++ show (Z.of_nat gtK) ++ js ")"))
      else Ok (rnd (recall_sum predicted neighbors gtK k / inject_Z (len predicted)))%Q
  end.

Definition percentile (sorted : list Q) (p : Q) : Q :=
  match sorted with
  | [] => 0%Q
  | _ => default 0%Q (sorted !! Z.to_nat (Z.min (len sorted - 1) (Qfloor (rnd (inject_Z (len sorted) * p)%Q))))
  end.

Record LatencySummary := Latency { n : Z; meanMs : Q; p50Ms : Q; p95Ms : Q; p99Ms : Q }.

#[local] Instance Qle_dec_ (a b : Q) : Decision (Qle a b).
Proof. destruct (Qlt_le_dec b a) as [H|H]; [right; by apply Qlt_not_le|by left]. Defined.

Definition summarizeLatencies (latenciesMs : list Q) : LatencySummary :=
  let sorted := merge_sort Qle latenciesMs in
  let sum := foldl (λ s v, rnd (s + v)%Q) 0%Q sorted in
  Latency (len sorted) (rnd (sum / inject_Z (Z.max (len sorted) 1))%Q)
    (percentile sorted (rnd (1 # 2))) (percentile sorted (rnd (95 # 100))) (percentile sorted (rnd (99 # 100))).

(** ** The runner *)

Record Args := Arguments_ {
  a_adapter : jsstr; a_dataset : jsstr; a_mode : jsstr; a_efs : list num; a_concurrency : num;
  a_N : num; a_Q : num; a_topK : num; a_dataDir : jsstr; a_resultsDir : jsstr; a_asyncInsert : bool }.

Definition default_args : Args :=
  Arguments_ (js "wormdb") (js "sift-128-euclidean") (js "exact") (Fin ∘ inject_Z <$> [16; 32; 64; 128; 256])
    (Fin 8%Q) (Fin 0%Q) (Fin 0%Q) (Fin 10%Q) (js "./data") (js "./results") false.

(** [switch (t)] of an option that takes a value *)
Definition set_option (t v : jsstr) (a : Args) : option Args :=
  let '(Arguments_ ad ds md efs cc nn qq tk dd rd asy) := a in
  let is_ o := bool_decide (t = o) in
  if is_ (js "--adapter") then Some (Arguments_ v ds md efs cc nn qq tk dd rd asy)
  else if is_ (js "--dataset") then Some (Arguments_ ad v md efs cc nn qq tk dd rd asy)
  else if is_ (js "--mode") then Some (Arguments_ ad ds v efs cc nn qq tk dd rd asy)
  else if is_ (js "--efs") then Some (Arguments_ ad ds md (Number <$> split_on 44 v) cc nn qq tk dd rd asy)
  else if is_ (js "--concurrency") then Some (Arguments_ ad ds md efs (Number v) nn qq tk dd rd asy)
  else if is_ (js "--N") then Some (Arguments_ ad ds md efs cc (Number v) qq tk dd rd asy)
  else if is_ (js "--Q") then Some (Arguments_ ad ds md efs cc nn (Number v) tk dd rd asy)
  else if is_ (js "--topK") then Some (Arguments_ ad ds md efs cc nn qq (Number v) dd rd asy)
  else if is_ (js "--data-dir") then Some (Arguments_ ad ds md efs cc nn qq tk v rd asy)
  else if is_ (js "--results-dir") then Some (Arguments_ ad ds md efs cc nn qq tk dd v asy)
  else None.
Definition set_async (a : Args) : Args :=
  let '(Arguments_ ad ds md efs cc nn qq tk dd rd _) := a in Arguments_ ad ds md efs cc nn qq tk dd rd true.

(** The loop over [argv]: [argv[++i] ?? ""] *)
Fixpoint parse_from (argv : list jsstr) (a : Args) : Args :=
  match argv with
  | [] => a
  | t :: rest =>
      match rest with
      | [] => match set_option t [] a with
              | Some a => a
              | None => if bool_decide (t = js "--async") then set_async a else a
              end
      | v :: rest' =>
          match set_option t v a with
          | Some a => parse_from rest' a
          | None => parse_from rest (if bool_decide (t = js "--async") then set_async a else a)
          end
      end
  end.
Definition parseArgs (argv : list jsstr) : Args := parse_from argv default_args.

(** The probes: [Math.floor((i * N) / probeCount)] *)
Definition probe_ids (N : Z) : list Z :=
  let probeCount := Z.min 16 N in (λ i, i * N / probeCount) <$> seqZ 0 probeCount.

(** The queries of worker [w] of [C] *)
Definition worker_slice (C Q w : Z) : list Z :=
  base.filter (λ q, q < Q) ((λ i, w + i * C) <$> seqZ 0 ((Q + C - 1) / C)).

(** ** Facts *)

Lemma worker_slice_elem C Q w q : 0 < C → 0 ≤ w < C →
  q ∈ worker_slice C Q w ↔ 0 ≤ q < Q ∧ q mod C = w.
Proof.
  intros HC Hw. unfold worker_slice. rewrite list_elem_of_filter, list_elem_of_fmap. split.
  - intros (Hq & i & -> & Hi%elem_of_seqZ). split; [nia|]. rewrite Z_mod_plus_full. by apply Z.mod_small.
  - intros ((H0 & HQ) & Hm). pose proof (Z.div_mod q C ltac:(lia)) as E. split; [done|].
    exists (q / C). split; [rewrite Z.mul_comm; lia|]. apply elem_of_seqZ. split; [by apply Z.div_pos; lia|].
    apply Z.div_lt_upper_bound; [lia|]. pose proof (Z.div_mod (Q + C - 1) C ltac:(lia)) as E'.
    pose proof (Z.mod_pos_bound (Q + C - 1) C HC). nia.
Qed.

Lemma worker_slice_nodup C Q w : 0 < C → NoDup (worker_slice C Q w).
Proof.
  intros HC. apply NoDup_filter, NoDup_fmap_2; [|apply NoDup_seqZ]. intros i j H. cbn in H. apply (Z.mul_reg_r _ _ C); lia.
Qed.

(** The workers share the queries out: together they run every query
    once. *)
Theorem worker_slices_partition C Q : 0 < C →
  seqZ 0 C ≫= worker_slice C Q ≡ₚ seqZ 0 Q.
Proof.
  intros HC. apply NoDup_Permutation.
  - apply NoDup_bind; [| |apply NoDup_seqZ].
    + intros w1 w2 q H1%elem_of_seqZ H2%elem_of_seqZ Hq1 Hq2.
      apply worker_slice_elem in Hq1 as [_ <-], Hq2 as [_ <-]; by lia || done.
    + intros w _. by apply worker_slice_nodup.
  - apply NoDup_seqZ.
  - intros q. rewrite list_elem_of_bind. setoid_rewrite elem_of_seqZ. split.
    + intros (w & Hq & Hw). apply worker_slice_elem in Hq; lia.
    + intros Hq. exists (q mod C). pose proof (Z.mod_pos_bound q C HC).
      split; [apply worker_slice_elem; lia|lia].
Qed.

(** The rows as the items they become, numbered from [cursor] *)
Definition numbered (tsNow cursor : Z) (rows : list bytes) : list bulk_item :=
  imap (λ i v, BulkItem (NAMESPACE ++ show (cursor + Z.of_nat i)) v tsNow) rows.

Section Build.
Context {UD : UnicodeData} {S : Type} (serve : ParsedCommand → S → S * res WormResponse).

Lemma bulk_command_items cfg now tsNow cursor rows :
  bulk_command cfg now tsNow cursor rows =
  VBULKINSERT NAMESPACE (metric cfg) false (default false (asyncInsert cfg)) (numbered tsNow cursor rows).
Proof.
  unfold bulk_command, vbulkinsertNative, batch_items, numbered. f_equal.
  rewrite fmap_imap. by apply imap_ext.
Qed.

Lemma numbered_app tsNow cursor a b :
  numbered tsNow cursor (a ++ b) = numbered tsNow cursor a ++ numbered tsNow (cursor + len a) b.
Proof.
  unfold numbered. rewrite imap_app. f_equal. apply imap_ext. intros i x _. cbn. unfold len.
  by replace (cursor + Z.of_nat (length a + i)) with (cursor + Z.of_nat (length a) + Z.of_nat i) by lia.
Qed.

(** The rows can be cut into batches. *)
Lemma numbered_batches fuel tsNow cursor rows : (length rows ≤ fuel)%nat →
  ∃ batches, concat batches = numbered tsNow cursor rows ∧
    Forall (λ b, 1 ≤ len b ≤ BULK_BATCH_SIZE) batches.
Proof.
  revert cursor rows. induction fuel as [|fuel IH]; intros cursor rows Hf.
  { destruct rows; [by exists []|cbn in Hf; lia]. }
  destruct rows as [|row rows]; [by exists []|]. set (all := row :: rows) in *.
  set (k := Z.to_nat BULK_BATCH_SIZE).
  destruct (IH (cursor + len (take k all)) (drop k all)) as (bs & Hc & Hb).
  { rewrite length_drop. cbn [length all] in *. unfold k, BULK_BATCH_SIZE. lia. }
  exists (numbered tsNow cursor (take k all) :: bs). split.
  - cbn [concat]. by rewrite Hc, <- numbered_app, take_drop.
  - constructor; [|done]. unfold numbered, len. rewrite length_imap, length_take. cbn [length all].
    unfold k, BULK_BATCH_SIZE. lia.
Qed.

(** What the server is after some batches *)
Definition after (cfg : AdapterConfig) (batches : list (list bulk_item)) (s : S) : S :=
  foldl (λ s b, (serve (VBULKINSERT NAMESPACE (metric cfg) false (default false (asyncInsert cfg)) b) s).1) s batches.

(** The build sends the rows in batches of at most 256, each row once and
    in order under its own number, one batch after the other: all of them
    when it returns, the first ones when it throws. *)
Theorem build_sends_rows fuel cfg now tsNow cursor rows s s' r :
  (length rows ≤ fuel)%nat → build_loop serve fuel cfg now tsNow cursor rows s = (s', r) →
  ∃ batches sent, concat batches = numbered tsNow cursor rows ∧
    Forall (λ b, 1 ≤ len b ≤ BULK_BATCH_SIZE) batches ∧ sent `prefix_of` batches ∧
    s' = after cfg sent s ∧ (r = Ok tt → sent = batches).
Proof.
  revert cursor rows s. induction fuel as [|fuel IH]; intros cursor rows s Hf E.
  { destruct rows; [|cbn in Hf; lia]. injection E as <- <-. by exists [], []. }
  destruct rows as [|row rows]; [injection E as <- <-; by exists [], []|].
  cbn [build_loop] in E. rewrite bulk_command_items in E.
  set (all := row :: rows) in *. set (k := Z.to_nat BULK_BATCH_SIZE) in *.
  assert (1 ≤ len (numbered tsNow cursor (take k all)) ≤ BULK_BATCH_SIZE) as Hsize.
  { unfold numbered, len. rewrite length_imap, length_take. cbn [length all]. unfold k, BULK_BATCH_SIZE. lia. }
  assert (length (drop k all) ≤ fuel)%nat as Hf'.
  { rewrite length_drop. cbn [length all] in *. unfold k, BULK_BATCH_SIZE. lia. }
  assert (concat [numbered tsNow cursor (take k all); numbered tsNow (cursor + len (take k all)) (drop k all)]
    = numbered tsNow cursor all) as Hall.
  { cbn [concat]. by rewrite app_nil_r, <- numbered_app, take_drop. }
  destruct (serve _ s) as [s1 r1] eqn:Es.
  assert (s1 = after cfg [numbered tsNow cursor (take k all)] s) as Hs1 by (unfold after; cbn [foldl]; by rewrite Es).
  assert (∀ e, (s1, Throw e) = (s', r) → ∃ batches sent,
    concat batches = numbered tsNow cursor all ∧ Forall (λ b, 1 ≤ len b ≤ BULK_BATCH_SIZE) batches ∧
    sent `prefix_of` batches ∧ s' = after cfg sent s ∧ (r = Ok tt → sent = batches)) as Hstop.
  { intros e [= <- <-]. destruct (numbered_batches fuel tsNow (cursor + len (take k all)) (drop k all) Hf') as (bs & Hc & Hb).
    exists (numbered tsNow cursor (take k all) :: bs), [numbered tsNow cursor (take k all)].
    split_and!; [cbn [concat]; rewrite Hc, <- numbered_app; by rewrite take_drop|by constructor|by exists bs|done|done]. }
  destruct r1 as [[| | | |]|e]; try by eapply Hstop.
  destruct (IH _ _ _ Hf' E) as (batches & sent & Hc & Hb & [rest ->] & Hs & Hr).
  exists (numbered tsNow cursor (take k all) :: sent ++ rest), (numbered tsNow cursor (take k all) :: sent).
  split_and!; [|by constructor|by exists rest|by rewrite Hs, Hs1|by intros H; rewrite <- (Hr H)].
  cbn [concat]. rewrite Hc, <- numbered_app. by rewrite take_drop.
Qed.
End Build.

(** The wait ends by the deadline, and it succeeds only after a round that
    found the vectors queryable. *)
Section Wait.
Context {UD : UnicodeData} {S : Type} (serve : ParsedCommand → S → S * res WormResponse).

Lemma wait_ends cfg probe timeoutMs start clock s :
  (∃ t, t ∈ clock ∧ start + timeoutMs * 1000000 ≤ t.1) →
  ∃ s' r, waitUntilQueryable serve cfg probe timeoutMs start clock s = (s', Some r) ∧
    (r = Ok tt → asyncInsert cfg = Some true → ∃ now s0, poll serve cfg now probe s0 = (s', Ok true)).
Proof.
  unfold waitUntilQueryable. destruct (asyncInsert cfg) as [[]|]; cbn [default id]; [|naive_solver..].
  generalize (start + timeoutMs * 1000000). intros deadline. revert s.
  induction clock as [|[t now] clock IH]; intros s (u & Hu & Hd); [by apply elem_of_nil in Hu|]. cbn [wait_loop].
  case_ztest; [|naive_solver]. destruct (poll serve cfg now probe s) as [s1 [[]|e]] eqn:E; [naive_solver| |naive_solver].
  apply IH. exists u. apply elem_of_cons in Hu as [->|Hu]; [cbn in Hd; lia|done].
Qed.
End Wait.

(** ** The synthetic data ([datasets.ts]) *)

(** [x >>> 0] and [Math.imul] *)
Definition uint32 (z : Z) : Z := z mod 2 ^ 32.
Definition imul (a b : Z) : Z := uint32 (a * b).

(** One call of the generator: the state, and the numerator of the result
    over [4294967296].  Bits are computed on the unsigned representatives. *)
Definition mulberry32 (t : Z) : Z * Z :=
  let t := uint32 (t + 0x6d2b79f5) in
  let x := imul (Z.lxor t (Z.shiftr t 15)) (Z.lor t 1) in
  let x := Z.lxor x (uint32 (x + imul (Z.lxor x (Z.shiftr x 7)) (Z.lor x 61))) in
  (t, uint32 (Z.lxor x (Z.shiftr x 14))).

Definition rowView {A} (flat : list A) (row dim : nat) : list A := take dim (drop (row * dim) flat).

Lemma mulberry32_range t : 0 ≤ (mulberry32 t).2 < 2 ^ 32.
Proof. apply Z.mod_pos_bound. lia. Qed.

(** The generator goes through all its states before it repeats one. *)
Lemma mulberry32_period t n m : uint32 t = t → Z.of_nat n < 2 ^ 32 → Z.of_nat m < 2 ^ 32 →
  Nat.iter n (λ t, (mulberry32 t).1) t = Nat.iter m (λ t, (mulberry32 t).1) t → n = m.
Proof.
  intros Ht Hn Hm. assert (∀ n, Nat.iter n (λ t, (mulberry32 t).1) t = uint32 (t + Z.of_nat n * 0x6d2b79f5)) as Hit.
  { clear -Ht. intros i. induction i as [|i IH]; cbn [Nat.iter nat_rect]; [by rewrite Z.add_0_r|].
    unfold Nat.iter in IH. rewrite IH. unfold mulberry32, uint32. cbn [fst]. rewrite Zplus_mod_idemp_l. f_equal. lia. }
  rewrite !Hit. unfold uint32. intros E.
  assert ((2 ^ 32 | 0x6d2b79f5 * (Z.of_nat n - Z.of_nat m))) as Hdiv.
  { apply Z.mod_divide; [lia|].
    replace (0x6d2b79f5 * (Z.of_nat n - Z.of_nat m))
      with ((t + Z.of_nat n * 0x6d2b79f5) - (t + Z.of_nat m * 0x6d2b79f5)) by lia.
    by rewrite Zminus_mod, E, Z.sub_diag. }
  apply Z.gauss in Hdiv as [k Hk]; [lia|by vm_compute].
Qed.
