(* ===== verification/VectorTruth.v ===== *)
(** * Ground truth of the vector benchmark ([bench/vector/src])

    The exact neighbours a run is measured against: [recomputeGroundTruth]
    ([run.ts]) and the data sets of [datasets.ts] with their checks.  A flat
    array of floats is given by its rows; the numbers are finite floats, so
    their differences and squares stay far from the largest double ([rnd]),
    while a distance stored as a float may be infinite ([fround]).  [sqrt],
    [log] and [cos], whose results the language leaves to the implementation,
    are parameters, as is the HDF5 library. *)
From Stdlib Require Import QArith Qround Sorted.
From S2P Require Import Prelude JsText Number Command VectorBench.
#[local] Open Scope Z_scope.

(** ** Floats *)

(** [n / d] rounded to the nearest float; [None] when that is infinite *)
Definition float_pos (n d : Z) : option Q :=
  let e0 := Z.log2 n - Z.log2 d in
  let e := if at_least_pow n d e0 then e0 else e0 - 1 in
  let p := Z.max (e - 23) (-149) in
  let '(m, v) := if 0 <=? p
    then let m := round_half_even n (d * 2 ^ p) in (m * 2 ^ p, inject_Z (m * 2 ^ p))
    else let m := round_half_even (n * 2 ^ (- p)) d in
         (m / 2 ^ (- p), Qred (m # Z.to_pos (2 ^ (- p)))) in
  if 2 ^ 128 <=? m then None else Some v.

(** What an element of a [Float32Array] becomes when a number is stored *)
Definition fround (q : Q) : num :=
  let n := Qnum q in
  if n =? 0 then Fin 0
  else match float_pos (Z.abs n) (Zpos (Qden q)) with
       | None => Infinity (n <? 0)
       | Some v => Fin (if n <? 0 then Qopp v else v)
       end.

Lemma fround_number q : fround q ≠ NaN.
Proof. unfold fround. destruct (_ =? _); [done|]. by destruct (float_pos _ _). Qed.

(** ** Stable sorting by distance *)

(** [x - y] is not positive; a difference that is no number counts as zero. *)
Definition not_after (x y : num) : bool :=
  match x, y with
  | Fin p, Fin q => Qle_bool p q
  | NaN, _ | _, NaN => true
  | Infinity a, Infinity b => a || negb b
  | Infinity a, Fin _ => a
  | Fin _, Infinity b => negb b
  end.

Section Nearest.
(** The distances of the vectors by their numbers *)
Context (distances : nat → num).

Fixpoint insert_nearest (i : nat) (l : list nat) : list nat :=
  match l with
  | [] => [i]
  | j :: l' => if not_after (distances i) (distances j) then i :: l else j :: insert_nearest i l'
  end.

(** [.sort((a, b) => distances[a] - distances[b])] of the numbers below [N],
    which is stable *)
Definition ranking (N : nat) : list nat := foldr insert_nearest [] (seq 0 N).

(** One row of neighbours: an index beyond the array reads as zero in an
    [Int32Array]. *)
Definition truth_row (N k : nat) : list Z :=
  (λ i, default 0 (Z.of_nat <$> ranking N !! i)) <$> seq 0 k.

(** [i] ranks before [j] *)
Definition nearer (i j : nat) : Prop :=
  not_after (distances i) (distances j) = true ∧ (not_after (distances j) (distances i) = true → (i < j)%nat).
End Nearest.

(** ** Distances *)

Definition sum_squares (xs : list (Q * Q)) : Q :=
  foldl (λ d '(a, b), let x := rnd (a - b) in rnd (d + rnd (x * x)))%Q 0%Q xs.
Definition sum_products (xs : list (Q * Q)) : Q :=
  foldl (λ d '(a, b), rnd (d + rnd (a * b)))%Q 0%Q xs.

Section Truth.
(** [Math.sqrt] *)
Context (sqrt : Q → Q).

Definition l2_distance (train test : list Q) : num := fround (sum_squares (zip train test)).
Definition cosine_distance (train test : list Q) : num :=
  let dot := sum_products (zip train test) in
  let na := sum_products (zip train train) in
  let nb := sum_products (zip test test) in
  fround (rnd (1 - rnd (dot / rnd (rnd (sqrt na * sqrt nb) + rnd (1 # 10 ^ 12)))))%Q.
Definition distance (metric : Metric) (train test : list Q) : num :=
  match metric with l2 => l2_distance train test | _ => cosine_distance train test end.

(** The distances of all the vectors to one query *)
Definition distances_to (metric : Metric) (train : list (list Q)) (query : list Q) (i : nat) : num :=
  distance metric (default [] (train !! i)) query.

Definition recomputeGroundTruth (metric : Metric) (train test : list (list Q)) (k : nat) : list Z :=
  test ≫= λ query, truth_row (distances_to metric train query) (length train) k.
End Truth.

(** ** Data sets ([datasets.ts]) *)

Record Dataset := MakeDataset {
  ds_name : jsstr; train : list (list Q); test : list (list Q);
  neighbors : list Z; dim : nat; gtK : nat; ds_metric : Metric }.

(** The first [n] rows of a flat array *)
Definition rows {A} (flat : list A) (n dim : nat) : list (list A) := (λ i, rowView flat i dim) <$> seq 0 n.

(** What the HDF5 library reads from a file *)
Record H5 := File {
  trainShape : Z * Z; testShape : Z * Z; neighborsShape : Z * Z;
  trainValue : list Q; testValue : list Q; neighborsValue : list Z }.

Definition of_h5 (name : jsstr) (metric : Metric) (h5 : H5) : res Dataset :=
  let '(N, dim) := trainShape h5 in
  let '(Q, testDim) := testShape h5 in
  let '(nbQ, gtK) := neighborsShape h5 in
  if bool_decide (testDim ≠ dim)
  then Throw (Error (js "train/test dim mismatch: " ++ show dim ++ js " vs " ++ show testDim))
  else if bool_decide (nbQ ≠ Q)
  then Throw (Error (js "neighbors row count (" ++ show nbQ ++ js ") != test Q (" ++ show Q ++ js ")"))
  else
    let d := Z.to_nat dim in
    Ok (MakeDataset name (rows (trainValue h5) (Z.to_nat N) d) (rows (testValue h5) (Z.to_nat Q) d)
          (to_int32 <$> neighborsValue h5) d (Z.to_nat gtK) metric).

(** Names every object has, such as ["constructor"], are left aside. *)
Definition DATASETS : list (jsstr * Metric) :=
  [(js "sift-128-euclidean", l2); (js "glove-100-angular", cosine)].
Definition metric_of (name : jsstr) : option Metric :=
  snd <$> List.find (λ d, bool_decide (d.1 = name)) DATASETS.

(** [Math.PI] and [1e-12], doubles *)
Definition PI : Q := 884279719003555 # 281474976710656.
Definition tiny : Q := rnd (1 # 10 ^ 12).

(** The value of an element of a [Float32Array], for numbers in its range *)
Definition f32 (q : Q) : Q := match fround q with Fin r => r | _ => q end.

Section Load.
(** [Math.sqrt], [Math.log] and [Math.cos] *)
Context (sqrt log cos : Q → Q).

Definition gaussian (t : Z) : Z * Q :=
  let '(t, n1) := mulberry32 t in
  let '(t, n2) := mulberry32 t in
  let r1 := (inject_Z n1 / inject_Z (2 ^ 32))%Q in
  let u1 := if Qle_bool r1 tiny then tiny else r1 in
  let u2 := (inject_Z n2 / inject_Z (2 ^ 32))%Q in
  (t, rnd (sqrt (rnd (- (2) * log u1)) * cos (rnd (rnd (2 * PI) * u2))))%Q.

Fixpoint gaussians (n : nat) (t : Z) : Z * list Q :=
  match n with
  | O => (t, [])
  | S n => let '(t, g) := gaussian t in let '(t, gs) := gaussians n t in (t, f32 g :: gs)
  end.

Definition makeSynthetic (N Q dim : nat) : Dataset :=
  let '(t, tr) := gaussians (N * dim) (uint32 0x1234) in
  let '(_, te) := gaussians (Q * dim) t in
  let train := rows tr N dim in
  let test := rows te Q dim in
  let gtK := 100%nat in
  MakeDataset (js "synthetic") train test
    (test ≫= λ query, truth_row (λ i, l2_distance (default [] (train !! i)) query) N gtK) dim gtK l2.

(** The files there are, the outcome of a download, and the content of a file *)
Context (exists_ : jsstr → bool) (download : jsstr → res ()) (content : jsstr → H5).

Definition loadDataset (name dataDir : jsstr) : res Dataset :=
  if bool_decide (name = js "synthetic-small") then Ok (makeSynthetic 2000 100 128)
  else if bool_decide (name = js "synthetic") then Ok (makeSynthetic 10000 500 128)
  else
    match metric_of name with
    | None => Throw (Error (js "Unknown dataset: " ++ name ++ js " (known: " ++ join (js ", ") DATASETS.*1 ++
                            js ", or synthetic, synthetic-small)"))
    | Some metric =>
        let path := dataDir ++ js "/" ++ name ++ js ".hdf5" in
        _ ← (if exists_ path then Ok tt else download path);
        of_h5 name metric (content path)
    end.
End Load.

(** *** Cutting a set ([run.ts], [main]) *)

(** [a > 0 ? Math.min(a, n) : n]; [None] when that is no whole number *)
Definition limit (a : num) (n : Z) : option Z :=
  match a with
  | Fin q => if Qle_bool q 0 then Some n
             else if Qle_bool (inject_Z n) q then Some n else as_integer a
  | _ => Some n
  end.

Definition with_truth (sqrt : Q → Q) (N Q : nat) (ds : Dataset) : Dataset :=
  let trainSlice := take N (train ds) in
  let testSlice := take Q (test ds) in
  if bool_decide (N < length (train ds) ∨ Q < length (test ds))%nat then
    let gtK := Nat.min 100 N in
    MakeDataset (ds_name ds) trainSlice testSlice
      (recomputeGroundTruth sqrt (ds_metric ds) trainSlice testSlice gtK) (dim ds) gtK (ds_metric ds)
  else MakeDataset (ds_name ds) trainSlice testSlice (neighbors ds) (dim ds) (gtK ds) (ds_metric ds).

(** ** Facts *)

Lemma not_after_total x y : not_after x y = true ∨ not_after y x = true.
Proof.
  destruct x as [|[]|p], y as [|[]|q]; cbn; auto. rewrite !Qle_bool_iff.
  destruct (Qlt_le_dec p q); [left; by apply Qlt_le_weak|by right].
Qed.

Lemma not_after_trans x y z : y ≠ NaN → not_after x y = true → not_after y z = true → not_after x z = true.
Proof.
  intros Hy. destruct x as [|[]|p], y as [|[]|q], z as [|[]|r]; cbn; try done.
  rewrite !Qle_bool_iff. apply Qle_trans.
Qed.

Section Ranking.
Context (distances : nat → num).
Context (numbers : ∀ i, distances i ≠ NaN).
Notation nearer := (nearer distances).

Lemma insert_nearest_perm i l : insert_nearest distances i l ≡ₚ i :: l.
Proof.
  induction l as [|j l IH]; [done|]. cbn [insert_nearest]. destruct (not_after _ _); [done|].
  rewrite IH. apply Permutation_swap.
Qed.

Lemma ranking_from_perm l : foldr (insert_nearest distances) [] l ≡ₚ l.
Proof. induction l as [|i l IH]; [done|]. cbn [foldr]. by rewrite insert_nearest_perm, IH. Qed.

Lemma ranking_perm N : ranking distances N ≡ₚ seq 0 N.
Proof. apply ranking_from_perm. Qed.

(** A vector with a smaller number goes before those as far away as itself. *)
Lemma insert_nearest_sorted i l :
  Forall (λ j, (i < j)%nat) l → StronglySorted nearer l → StronglySorted nearer (insert_nearest distances i l).
Proof.
  intros Hi Hs. induction Hs as [|j l Hs IH Hj]; cbn [insert_nearest]; [by repeat constructor|].
  apply Forall_cons in Hi as [Hij Hi]. destruct (not_after (distances i) (distances j)) eqn:E.
  - constructor; [by constructor|]. constructor; [by split|]. rewrite Forall_forall in Hj, Hi |- *.
    intros k Hk. split; [|intros _; by apply Hi]. eapply not_after_trans; [apply (numbers j)|done|]. by apply Hj.
  - constructor; [by apply IH|]. rewrite insert_nearest_perm. constructor; [|done].
    destruct (not_after_total (distances i) (distances j)) as [H|H]; [congruence|]. split; [done|]. congruence.
Qed.

Lemma ranking_from_sorted l : StronglySorted lt l → StronglySorted nearer (foldr (insert_nearest distances) [] l).
Proof.
  induction 1 as [|i l Hs IH Hi]; [constructor|]. cbn [foldr]. apply insert_nearest_sorted; [|done].
  by rewrite ranking_from_perm.
Qed.

Lemma seq_sorted n m : StronglySorted lt (seq n m).
Proof.
  revert n. induction m as [|m IH]; intros n; cbn; constructor; [done|].
  apply Forall_forall. intros i Hi%elem_of_seq. lia.
Qed.

Lemma ranking_sorted N : StronglySorted nearer (ranking distances N).
Proof. apply ranking_from_sorted, seq_sorted. Qed.

Lemma sorted_app_before (l k : list nat) i j :
  StronglySorted nearer (l ++ k) → i ∈ l → j ∈ k → nearer i j.
Proof.
  induction l as [|x l IH]; intros Hs Hi Hj; [by apply elem_of_nil in Hi|]. cbn in Hs.
  apply StronglySorted_inv in Hs as [Hs Hx]. apply elem_of_cons in Hi as [->|Hi]; [|by apply IH].
  rewrite Forall_forall in Hx. apply Hx. apply elem_of_app. by right.
Qed.

Lemma truth_row_take N k : (k ≤ N)%nat → truth_row distances N k = Z.of_nat <$> take k (ranking distances N).
Proof.
  intros Hk. assert (length (ranking distances N) = N) as HN by (by rewrite ranking_perm, length_seq).
  unfold truth_row. apply list_eq_same_length with k; [|by rewrite length_fmap, length_seq|].
  { rewrite length_fmap, length_take. lia. }
  intros i x y Hi Hx Hy. rewrite list_lookup_fmap, lookup_seq_lt in Hx by done. injection Hx as <-.
  rewrite list_lookup_fmap, lookup_take_lt in Hy by done. cbn.
  destruct (ranking distances N !! i); [|done]. cbn in Hy |- *. congruence.
Qed.
End Ranking.

Lemma length_truth_row d N k : length (truth_row d N k) = k.
Proof. unfold truth_row. by rewrite length_fmap, length_seq. Qed.

(** The rows of a flat array of rows of one length *)
Lemma flat_row {A B} (f : A → list B) (l : list A) k q x :
  (∀ a, length (f a) = k) → l !! q = Some x → take k (drop (q * k) (l ≫= f)) = f x.
Proof.
  intros Hf. revert q. induction l as [|a l IH]; intros q Hq; [done|]. cbn [mbind list_bind].
  destruct q as [|q]; cbn in Hq.
  - injection Hq as ->. rewrite Nat.mul_0_l, drop_0, take_app_le by (by rewrite Hf). by rewrite take_ge by (by rewrite Hf).
  - replace (S q * k)%nat with (length (f a) + q * k)%nat by (rewrite Hf; lia).
    rewrite drop_app_add. by apply IH.
Qed.

Lemma distances_to_numbers sqrt metric train query i : distances_to sqrt metric train query i ≠ NaN.
Proof. unfold distances_to, distance. destruct metric; apply fround_number. Qed.

(** C29: The ground truth of a query is made of its [k] nearest vectors, nearest
    first: [k] different vectors of the set, in order of their distances and
    among equal distances of their numbers, and no vector left out is nearer
    than one of them. *)
Theorem ground_truth_nearest sqrt metric train test k q query :
  test !! q = Some query → (k ≤ length train)%nat →
  let nearer := nearer (distances_to sqrt metric train query) in
  ∃ best, take k (drop (q * k) (recomputeGroundTruth sqrt metric train test k)) = Z.of_nat <$> best ∧
    length best = k ∧ NoDup best ∧ Forall (λ i, (i < length train)%nat) best ∧ StronglySorted nearer best ∧
    ∀ i j, i ∈ best → (j < length train)%nat → j ∉ best → nearer i j.
Proof.
  intros Hq Hk. cbn zeta. set (d := distances_to sqrt metric train query).
  pose proof (distances_to_numbers sqrt metric train query : ∀ i, d i ≠ NaN) as Hd.
  set (all := ranking d (length train)). pose proof (ranking_perm d (length train) : all ≡ₚ _) as Hp.
  pose proof (ranking_sorted d Hd (length train) : StronglySorted _ all) as Hs.
  pose proof (take_drop k all) as Hall. exists (take k all). split_and!.
  - unfold recomputeGroundTruth. rewrite (flat_row _ _ k q query) by (done || (intros; apply length_truth_row)).
    by apply truth_row_take.
  - rewrite length_take, Hp, length_seq. lia.
  - eapply sublist_NoDup; [|apply sublist_take]. rewrite Hp. apply NoDup_seq.
  - apply Forall_take. rewrite Hp. apply Forall_forall. intros i Hi%elem_of_seq. lia.
  - rewrite <- Hall in Hs. clear -Hs. induction (take k all) as [|i l IH]; [constructor|].
    apply StronglySorted_inv in Hs as [Hs Hi]. constructor; [by apply IH|]. by apply Forall_app in Hi as [Hi _].
  - intros i j Hi Hj Hn. eapply (sorted_app_before d (take k all) (drop k all)); [by rewrite Hall|done|].
    assert (j ∈ all) as Hin by (rewrite Hp; apply elem_of_seq; lia). rewrite <- Hall in Hin.
    apply elem_of_app in Hin as [|]; done.
Qed.

Lemma ground_truth_nearest_witness :
  let train := [[0%Q; 0%Q]; [3%Q; 0%Q]; [1%Q; 1%Q]; [0%Q; 3%Q]] in
  let nearer := nearer (distances_to (λ q, q) l2 train [3%Q; 3%Q]) in
  ∃ best, [2; 1; 3] = Z.of_nat <$> best ∧ length best = 3%nat ∧ NoDup best ∧
    Forall (λ i, (i < 4)%nat) best ∧ StronglySorted nearer best ∧
    ∀ i j, i ∈ best → (j < 4)%nat → j ∉ best → nearer i j.
Proof.
  cbn zeta. set (train := [_; _; _; _]).
  assert ([2; 1; 3] = take 3 (drop (1 * 3) (recomputeGroundTruth (λ q, q) l2 train [[0%Q; 0%Q]; [3%Q; 3%Q]] 3))) as -> by (by vm_compute).
  apply (ground_truth_nearest (λ q, q) l2 train [[0%Q; 0%Q]; [3%Q; 3%Q]] 3 1 [3%Q; 3%Q]); [done|cbn; lia].
Defined.

(** The neighbours of a set are its ground truth. *)
Definition truthful (sqrt : Q → Q) (ds : Dataset) : Prop :=
  neighbors ds = recomputeGroundTruth sqrt (ds_metric ds) (train ds) (test ds) (gtK ds) ∧
  (gtK ds ≤ length (train ds))%nat.

(** The set a run is measured on has its ground truth when the set it is cut
    from has, and in any case when something is cut off. *)
Lemma with_truth_truthful sqrt N Q ds : (N ≤ length (train ds))%nat →
  (truthful sqrt ds ∨ (N < length (train ds))%nat ∨ (Q < length (test ds))%nat) →
  truthful sqrt (with_truth sqrt N Q ds).
Proof.
  intros HN H. unfold with_truth. destruct (bool_decide _) eqn:E.
  - split; [done|]. cbn [gtK train]. rewrite length_take. lia.
  - apply bool_decide_eq_false in E. destruct H as [[Hn Hk]|H]; [|tauto].
    rewrite !take_ge by lia. by split.
Qed.

Lemma length_rows {A} (flat : list A) n d : length (rows flat n d) = n.
Proof. unfold rows. by rewrite length_fmap, length_seq. Qed.

Lemma synthetic_truthful sqrt log cos N Q d : (100 ≤ N)%nat → truthful sqrt (makeSynthetic sqrt log cos N Q d).
Proof.
  intros HN. unfold makeSynthetic. destruct (gaussians _ _ _ (N * d) _) as [t tr].
  destruct (gaussians _ _ _ (Q * d) t) as [t' te]. split; cbn; [|by rewrite length_rows].
  unfold recomputeGroundTruth. by rewrite length_rows.
Qed.

(** A data set from a file has as many rows as its shapes say. *)
Lemma of_h5_sizes name metric h5 ds : of_h5 name metric h5 = Ok ds →
  length (train ds) = Z.to_nat (trainShape h5).1 ∧ length (test ds) = Z.to_nat (neighborsShape h5).1 ∧
  Z.to_nat (testShape h5).2 = dim ds.
Proof.
  unfold of_h5. destruct (trainShape h5) as [N d], (testShape h5) as [Q td], (neighborsShape h5) as [nq gk].
  destruct (bool_decide (td ≠ d)) eqn:Ed; [done|]. destruct (bool_decide (nq ≠ Q)) eqn:Eq; [done|].
  apply bool_decide_eq_false, dec_stable in Ed, Eq. intros [= <-]. cbn. by rewrite !length_rows, Ed, Eq.
Qed.

(** *** Exact answers *)

(** What is nearest to a vector among vectors numbered from zero *)
Definition nearest_ids (sqrt : Q → Q) (m : Metric) (rows : list (list Q)) (v : list Q) (k : nat) : list Z :=
  Z.of_nat <$> take k (ranking (distances_to sqrt m rows v) (length rows)).

(** The exact answer to a query of a set *)
Definition exact_answer (sqrt : Q → Q) (m : Metric) (train test : list (list Q)) (topK : Z) (q : nat) : list Z :=
  nearest_ids sqrt m train (default [] (test !! q)) (Z.to_nat topK).

Lemma nearest_ids_range sqrt m rows v k id : id ∈ nearest_ids sqrt m rows v k → 0 ≤ id < len rows.
Proof.
  unfold nearest_ids. rewrite list_elem_of_fmap. intros (i & -> & Hi).
  assert (i ∈ ranking (distances_to sqrt m rows v) (length rows)) as Hr.
  { rewrite <- (take_drop k (ranking _ _)). apply elem_of_app. by left. }
  rewrite ranking_perm in Hr. apply elem_of_seq in Hr. unfold len. lia.
Qed.

(** They fit an [Int32Array]. *)
Lemma nearest_ids_small sqrt m rows v k : len rows < 2 ^ 31 →
  to_int32 <$> nearest_ids sqrt m rows v k = nearest_ids sqrt m rows v k.
Proof.
  intros Hs. rewrite <- (list_fmap_id (nearest_ids _ _ _ _ _)) at 2. apply list_fmap_ext. intros j id Hj.
  apply list_elem_of_lookup_2, nearest_ids_range in Hj. unfold to_int32.
  rewrite Z.mod_small by lia. cbn. by destruct (Z.ltb_spec id (2 ^ 31)); [|lia].
Qed.

(** The exact answers are the first neighbours of the ground truth. *)
Lemma exact_answer_truth sqrt ds topK q : truthful sqrt ds → (q < length (test ds))%nat →
  0 ≤ topK ≤ Z.of_nat (gtK ds) →
  exact_answer sqrt (ds_metric ds) (train ds) (test ds) topK q =
    take (Z.to_nat topK) (drop (q * gtK ds) (neighbors ds)) ∧
  len (exact_answer sqrt (ds_metric ds) (train ds) (test ds) topK q) = topK.
Proof.
  intros [Hn Hg] Hq Hk. destruct (lookup_lt_is_Some_2 _ _ Hq) as [v Hv]. unfold exact_answer, nearest_ids. rewrite Hv. cbn [default].
  split.
  - rewrite <- (Nat.min_l (Z.to_nat topK) (gtK ds)) at 2 by lia. rewrite <- take_take, Hn. unfold recomputeGroundTruth.
    rewrite (flat_row _ _ (gtK ds) q v) by (done || (intros; apply length_truth_row)).
    rewrite truth_row_take by done. rewrite <- fmap_take, take_take. by rewrite Nat.min_l by lia.
  - unfold len. rewrite length_fmap, length_take, ranking_perm, length_seq. lia.
Qed.
