(* ===== verification/Effects.v ===== *)
(** * Computations over a world

    Asynchronous code whose awaited calls change the world and may reject, and
    which reads the clock: [M W A] runs from a world and the number of
    readings made so far, and returns or throws.  [does] states total
    correctness of such computations. *)
From S2P Require Import Prelude.
#[local] Open Scope Z_scope.

(** ** Computations *)

Definition M (W A : Type) : Type := W → nat → res A * W * nat.

#[export] Instance M_ret {W} : MRet (M W) := λ A a w n, (Ok a, w, n).
#[export] Instance M_bind {W} : MBind (M W) := λ A B f p w n,
  let '(r, w, n) := p w n in match r with Ok a => f a w n | Throw e => (Throw e, w, n) end.

Definition lift {W A} (f : W → W * res A) : M W A := λ w n, let '(w, r) := f w in (r, w, n).
Definition of_result {W A} (r : res A) : M W A := λ w n, (r, w, n).

(** A reading of the clock, given by its successive readings *)
Definition read_clock {W} (clock : nat → Z) : M W Z := λ w n, (Ok (clock n), w, S n).

(** [try { m } finally { f }], for an [f] that returns nothing: what it throws
    takes the place of what [m] returned or threw. *)
Definition finally {W A} (m : M W A) (f : M W ()) : M W A := λ w n,
  let '(r, w, n) := m w n in
  let '(r', w, n) := f w n in
  match r' with Ok _ => (r, w, n) | Throw e => (Throw e, w, n) end.

(** [try { m } catch (e) { h(e) }] *)
Definition catch {W A} (m : M W A) (h : exn → M W A) : M W A := λ w n,
  let '(r, w, n) := m w n in
  match r with Ok a => (Ok a, w, n) | Throw e => h e w n end.

Fixpoint each {W A B} (f : A → M W B) (l : list A) : M W (list B) :=
  match l with
  | [] => mret []
  | a :: l => b ← f a; bs ← each f l; mret (b :: bs)
  end.

(** ** Total correctness of computations

    [does m I R]: from a world of [I], [m] returns a value of [R] and leaves a
    world of [I]. *)

Definition does {W A} (m : M W A) (I : W → Prop) (R : A → Prop) : Prop :=
  ∀ w n, I w → ∃ a w' n', m w n = (Ok a, w', n') ∧ I w' ∧ R a.

Section Does.
Context {W : Type} (I : W → Prop).

Lemma does_ret {A} (a : A) (R : A → Prop) : R a → does (mret a) I R.
Proof. intros Ha w n Hw. by exists a, w, n. Qed.

Lemma does_then {A B} (m : M W A) (f : A → M W B) R R' :
  does m I R → (∀ a, R a → does (f a) I R') → does (m ≫= f) I R'.
Proof.
  intros Hm Hf w n Hw. destruct (Hm w n Hw) as (a & w1 & n1 & E & Hw1 & Ha).
  destruct (Hf a Ha w1 n1 Hw1) as (b & w2 & n2 & E2 & Hw2 & Hb). exists b, w2, n2.
  unfold mbind, M_bind. by rewrite E, E2.
Qed.

Lemma does_result {A} (r : res A) a (R : A → Prop) : r = Ok a → R a → does (of_result r) I R.
Proof. intros -> Ha w n Hw. by exists a, w, n. Qed.

Lemma does_lift {A} (f : W → W * res A) (R : A → Prop) :
  (∀ w, I w → ∃ a w', f w = (w', Ok a) ∧ I w' ∧ R a) → does (lift f) I R.
Proof. intros Hf w n Hw. destruct (Hf w Hw) as (a & w' & E & ? & ?). exists a, w', n. unfold lift. by rewrite E. Qed.

Lemma does_each {A B} (f : A → M W B) (l : list A) (P : A → Prop) (R : A → B → Prop) :
  Forall P l → (∀ a, P a → does (f a) I (R a)) → does (each f l) I (Forall2 R l).
Proof.
  intros Hl Hf. induction Hl as [|a l Ha Hl IH]; cbn [each]; [by apply does_ret|].
  eapply does_then; [by apply Hf|]. intros b Hb. eapply does_then; [exact IH|]. intros bs Hbs.
  apply does_ret. by constructor.
Qed.

Lemma does_clock clock : does (read_clock clock) I (λ _, True).
Proof. intros w n Hw. by exists (clock n), w, (S n). Qed.
End Does.
