(* ===== verification/VectorRun.v ===== *)
(** * The vector benchmark's runner ([bench/vector/src/run.ts])

    [Adapter] is the interface of [adapters/base.ts], over the state [W] of
    the world and the fields [H] of an adapter; [main] runs a benchmark
    through it.  [Answering] is what an adapter promises whose commands
    succeed, with whatever its searches find: against it the run measures the
    overlap of what was found with the ground truth, which is full recall
    when the nearest are found.  The Qdrant adapter
    ([adapters/qdrant.ts]) is the second implementation, over the client
    library as a class.  Times measured inside the adapters are left out; the
    clock the runner reads is given by its successive readings. *)
From Stdlib Require Import QArith Qround.
From S2P Require Import Prelude JsText Number Command Protocol Effects VectorBench VectorTruth.
#[local] Open Scope Z_scope.

Notation row := (list Q).

(** ** Adapters ([adapters/base.ts]) *)

Record Adapter (W H : Type) := MakeAdapter {
  adapter_name : jsstr;
  fresh : H;                                                     (** [new ...Adapter(...)] *)
  setup : AdapterConfig → H → W → W * res H;
  connect : AdapterConfig → H → W → W * res H;
  build : H → list row → W → W * res ();
  waitUntilQueryable : H → list Z → list row → Z → W → W * res ();
  prepareQueries : H → list row → W → W * res ();
  setEf : num → H → H;
  query : H → Z → row → Z → W → W * res (list Z);                (** the ids found *)
  teardown : H → W → W * res () }.
Arguments adapter_name {W H}. Arguments fresh {W H}. Arguments setup {W H}. Arguments connect {W H}.
Arguments build {W H}. Arguments waitUntilQueryable {W H}. Arguments prepareQueries {W H}. Arguments setEf {W H}.
Arguments query {W H}. Arguments teardown {W H}.

(** ** Results *)

Record EfResult := MakeEf {
  ef : num; recall : Q; singleLatency : LatencySummary; singleQps : num;
  concurrentQps : num; concurrentLatency : LatencySummary }.

Record RunResult := MakeRun {
  r_adapter : jsstr; r_mode : AdapterMode; r_dataset : jsstr; r_N : Z; r_Q : Z; r_dim : Z; r_topK : Z;
  r_metric : Metric; perEf : list EfResult; notes : list jsstr; outPath : jsstr }.

Definition mode_name (m : AdapterMode) : jsstr :=
  match m with
  | exact => js "exact" | hnsw => js "hnsw" | bq => js "bq" | bq_rerank => js "bq_rerank" | quantized => js "quantized"
  end.

(** [noteFor]; the adapter is WormDB's or another *)
Definition noteFor (wormdb : bool) (m : AdapterMode) (async : bool) : list jsstr :=
  if wormdb then
    (if async then
       [js "HNSW built asynchronously via background worker; insert acks after store+BQ only.";
        js "time-until-queryable measured by polling `vstats.hnsw.pending == 0`."]
     else [js "HNSW built inline during VINSERT; time-until-queryable == 0."]) ++
    [match m with
     | exact => js "exact mode: full-precision brute-force scan. No HNSW, no quantization."
     | hnsw => js "hnsw mode: HNSW graph search + full-precision rerank on top-M candidates. NO quantization."
     | bq => js "bq mode: RaBitQ unbiased estimator scores all bq:* entries; returns top-K directly (NO rerank). Falls back to Hamming prefilter + rerank when RaBitQ params aren't installed."
     | bq_rerank => js "bq_rerank mode: quantized prefilter (RaBitQ estimator if params installed, else Hamming) + full-precision rerank on top-M. Higher recall than bq, more work per query."
     | quantized => js "quantized mode is Qdrant-only; runtime will have rejected this."
     end]
  else
    [js "Qdrant HNSW built asynchronously; time-until-queryable measured via probe-poll.";
     match m with
     | exact | hnsw => js "Full-precision HNSW (no quantization_config on the collection)."
     | quantized => js "scalar(int8) quantization configured; Qdrant does two-pass search with internal rerank."
     | bq | bq_rerank => js "bq / bq_rerank modes are WormDB-only; runtime will have rejected this."
     end].

(** [(n / wallMs) * 1000] *)
Definition per_second (n : Z) (wallMs : Q) : num :=
  if Qeq_bool wallMs 0 then (if n =? 0 then NaN else Infinity (n <? 0))
  else Fin (rnd (rnd (inject_Z n / wallMs) * 1000))%Q.

(** ** A run *)

(** What a run is asked for, its numbers whole *)
Record Plan := MakePlan {
  p_adapter : jsstr; p_config : AdapterConfig; p_data : Dataset; p_label : jsstr; p_resultsDir : jsstr;
  p_efs : list num; p_topK : Z; p_concurrency : nat }.

Definition mode_of (name : jsstr) : option AdapterMode :=
  List.find (λ m, bool_decide (mode_name m = name)) [exact; hnsw; bq; bq_rerank; quantized].

(** How often [for (let w = 0; w < C; w += 1)] runs *)
Definition count (C : num) : option nat :=
  match C with
  | Fin q => Some (Z.to_nat (Qceiling q))
  | NaN | Infinity true => Some 0%nat
  | Infinity false => None
  end.

(** What [main] makes of its arguments and the set loaded; [None] for a mode
    that is none, for numbers that are not whole, and for no [topK]. *)
Definition plan_of (sqrt : Q → Q) (a : Args) (ds : Dataset) : option Plan :=
  N ← limit (a_N a) (len (train ds));
  Q ← limit (a_Q a) (len (test ds));
  m ← mode_of (a_mode a);
  topK ← as_integer (a_topK a);
  guard (1 ≤ topK);;
  _ ← (match a_concurrency a with Fin _ => as_integer (a_concurrency a) | _ => Some 0 end);
  C ← count (a_concurrency a);
  Some (MakePlan (a_adapter a)
          (Config m (ds_metric ds) (Z.of_nat (dim ds)) None None (Some (a_asyncInsert a)))
          (with_truth sqrt (Z.to_nat N) (Z.to_nat Q) ds) (a_dataset a) (a_resultsDir a) (a_efs a) topK C).

Section Main.
Context {W H : Type} (A : Adapter W H).
(** [Bun.nanoseconds()] *)
Context (clock : nat → Z).

Definition elapsed_ms (t0 t1 : Z) : Q := rnd (inject_Z (t1 - t0) / 1000000)%Q.

(** One query of the single-client pass: what was found, and how long it took *)
Definition timed_query (h : H) (topK : Z) (qv : Z * row) : M W (list Z * Q) :=
  tStart ← read_clock clock;
  ids ← lift (query A h qv.1 qv.2 topK);
  t ← read_clock clock;
  mret (ids, elapsed_ms tStart t).

Definition numbered_rows (test : list row) : list (Z * row) := imap (λ i v, (Z.of_nat i, v)) test.

(** *** The concurrent pass

    A worker that runs awaits the answer to the query of its own it sent
    last; [sent] is when it sent it. *)
Record worker := Worker { handle : H; asked : option (Z * row * Z); rest : list (Z * row); took : list Q }.

Definition ask (w : worker) : M W worker :=
  match rest w with
  | [] => mret (Worker (handle w) None [] (took w))
  | qv :: qs => tStart ← read_clock clock; mret (Worker (handle w) (Some (qv, tStart)) qs (took w))
  end.

(** A turn of a worker: its query is answered and it sends the next *)
Definition turn (topK : Z) (w : worker) : M W worker :=
  match asked w with
  | None => mret w
  | Some (q, v, tStart) =>
      _ ← lift (query A (handle w) q v topK);
      t ← read_clock clock;
      ask (Worker (handle w) None (rest w) (took w ++ [elapsed_ms tStart t]))
  end.

(** The turns in the order their answers arrive *)
Fixpoint turns (topK : Z) (schedule : list nat) (ws : list worker) : M W (list worker) :=
  match schedule with
  | [] => mret ws
  | i :: schedule =>
      match ws !! i with
      | None => turns topK schedule ws
      | Some w => w ← turn topK w; turns topK schedule (<[i := w]> ws)
      end
  end.

(** The turns until a worker has no query left *)
Definition work (w : worker) : nat := length (option_list (asked w)) + length (rest w).
Fixpoint finish_in (topK : Z) (n : nat) (w : worker) : M W worker :=
  match n with O => mret w | S n => w ← turn topK w; finish_in topK n w end.

(** [Promise.all(workers)], with the answers as scheduled and then, for the
    queries the schedule leaves, worker by worker *)
Definition concurrent_pass (topK : Z) (schedule : list nat) (ws : list worker) : M W (list Q) :=
  ws ← each ask ws;
  ws ← turns topK schedule ws;
  ws ← each (λ w, finish_in topK (work w) w) ws;
  mret (ws ≫= took).

Definition slice_of (C : nat) (test : list row) (w : nat) : list (Z * row) :=
  (λ q, (q, default [] (test !! Z.to_nat q))) <$> worker_slice (Z.of_nat C) (len test) (Z.of_nat w).

(** One value of [ef]: the single pass, then the concurrent one, with an
    adapter for each worker *)
Definition run_ef (p : Plan) (schedule : list nat) (h : H) (ef : num) : M W EfResult :=
  let ds := p_data p in
  let Q := len (test ds) in
  let h := setEf A ef h in
  singleStart ← read_clock clock;
  answers ← each (timed_query h (p_topK p)) (numbered_rows (test ds));
  singleEnd ← read_clock clock;
  recall ← of_result (recallAtK answers.*1 (neighbors ds) (gtK ds) (Z.to_nat (p_topK p)));
  handles ← each (λ _, h ← lift (connect A (p_config p) (fresh A)); mret (setEf A ef h)) (seq 0 (p_concurrency p));
  concurrentStart ← read_clock clock;
  lats ← concurrent_pass (p_topK p) schedule
           (imap (λ w h, Worker h None (slice_of (p_concurrency p) (test ds) w) []) handles);
  concurrentEnd ← read_clock clock;
  _ ← each (λ h, lift (teardown A h)) handles;
  mret (MakeEf ef recall (summarizeLatencies answers.*2) (per_second Q (elapsed_ms singleStart singleEnd))
          (per_second Q (elapsed_ms concurrentStart concurrentEnd)) (summarizeLatencies lats)).

(** The probes: their numbers and their vectors *)
Definition probe_rows (train : list row) : list row := (λ i, default [] (train !! Z.to_nat i)) <$> probe_ids (len train).

Definition result_path (p : Plan) : jsstr :=
  p_resultsDir p ++ js "/" ++ p_label p ++ js "/" ++ p_adapter p ++ js "-" ++
  mode_name (mode (p_config p)) ++ (if default false (asyncInsert (p_config p)) then js "-async" else []) ++ js ".json".

(** [main], from the set it measures on; [schedules] gives the order of the
    answers in the concurrent pass of each [ef]. *)
Definition main (p : Plan) (schedules : nat → list nat) : M W RunResult :=
  let ds := p_data p in
  h ← lift (setup A (p_config p) (fresh A));
  _ ← lift (build A h (train ds));
  _ ← lift (waitUntilQueryable A h (probe_ids (len (train ds))) (probe_rows (train ds)) 300000);
  _ ← lift (prepareQueries A h (test ds));
  results ← each (λ ie, run_ef p (schedules ie.1) h ie.2) (imap pair (p_efs p));
  _ ← lift (teardown A h);
  mret (MakeRun (adapter_name A) (mode (p_config p)) (p_label p) (len (train ds)) (len (test ds)) (Z.of_nat (dim ds))
          (p_topK p) (ds_metric ds) results
          (noteFor (bool_decide (p_adapter p = js "wormdb")) (mode (p_config p)) (default false (asyncInsert (p_config p)))) (result_path p)).
End Main.

(** ** Adapters that answer *)

(** What an adapter promises whose searches find, for the queries of [test],
    what [Found] allows: every phase succeeds where the one before has left
    the world, and the searches keep it as it is. *)
Class Answering {W H} (A : Adapter W H) (cfg : AdapterConfig) (train test : list row) (topK : Z)
    (start : W → Prop) (Found : nat → list Z → Prop) := {
  blank : H → W → Prop;
  stored : H → W → Prop;
  ready : W → Prop;
  attached : H → Prop;
  setup_blank w : start w → ∃ h w', setup A cfg (fresh A) w = (w', Ok h) ∧ blank h w';
  build_stores h w : blank h w → ∃ w', build A h train w = (w', Ok tt) ∧ stored h w';
  wait_keeps h w : stored h w → ∃ w',
    waitUntilQueryable A h (probe_ids (len train)) (probe_rows train) 300000 w = (w', Ok tt) ∧ stored h w';
  prepare_ready h w : stored h w → ∃ w', prepareQueries A h test w = (w', Ok tt) ∧ ready w' ∧ attached h;
  connect_attaches w : ready w → ∃ h w', connect A cfg (fresh A) w = (w', Ok h) ∧ ready w' ∧ attached h;
  setEf_attached ef h : attached h → attached (setEf A ef h);
  query_finds h q v w : ready w → attached h → test !! q = Some v →
    ∃ w' ids, query A h (Z.of_nat q) v topK w = (w', Ok ids) ∧ ready w' ∧ Found q ids;
  teardown_ok h w : ready w → attached h → ∃ w', teardown A h w = (w', Ok tt) ∧ ready w' }.

(** *** Full recall *)

Lemma hits_all (gt got : list Z) k : got ≡ₚ take k gt → length got = k → hits gt got k = Z.of_nat k.
Proof.
  intros Hp Hk. unfold hits, len. rewrite (take_ge got) by lia. rewrite filter_all; [by rewrite Hk|].
  apply Forall_forall. intros x Hx. by rewrite <- Hp.
Qed.

Lemma recall_sum_full (predicted : list (list Z)) (nb : list Z) (gk k : nat) off total :
  (1 ≤ k)%nat → 0 ≤ total → total + len predicted ≤ 2 ^ 53 →
  (∀ i got, predicted !! i = Some got → hits (drop ((off + i) * gk) nb) got k = Z.of_nat k) →
  foldl (λ total '(q, got),
    rnd (total + rnd (inject_Z (hits (drop (q * gk) nb) got k) / inject_Z (Z.of_nat k))))%Q
    (inject_Z total) (imap (λ i got, ((off + i)%nat, got)) predicted) = inject_Z (total + len predicted).
Proof.
  intros Hk. revert off total. induction predicted as [|got pr IH]; intros off total H0 Hm Hh.
  { cbn. by rewrite Z.add_0_r. }
  rewrite len_cons in Hm. pose proof (len_nonneg pr). cbn [imap foldl]. rewrite (Hh 0%nat got eq_refl).
  assert (¬ inject_Z (Z.of_nat k) == 0)%Q as Hnz by (unfold Qeq; cbn; lia).
  rewrite (rnd_int (inject_Z (Z.of_nat k) / _) 1) by (lia || by apply Qmult_inv_r).
  rewrite (rnd_int _ (total + 1)) by (lia || (rewrite inject_Z_plus; reflexivity)).
  rewrite (imap_ext _ (λ i got, ((S off + i)%nat, got))) by (intros; cbn; f_equal; lia).
  rewrite IH; [f_equal; rewrite len_cons; lia|lia|lia|].
  intros i got' Hi. replace (S off + i)%nat with (off + S i)%nat by lia. by apply Hh.
Qed.

Lemma full_recall (predicted : list (list Z)) (nb : list Z) (gk k : nat) :
  (1 ≤ k ≤ gk)%nat → predicted ≠ [] → len predicted ≤ 2 ^ 53 →
  (∀ i got, predicted !! i = Some got → got ≡ₚ take k (drop (i * gk) nb) ∧ length got = k) →
  recallAtK predicted nb gk k = Ok 1%Q.
Proof.
  intros [Hk Hg] Hne Hm Hp. unfold recallAtK. destruct predicted as [|got pr] eqn:E; [done|]. rewrite <- E in *.
  destruct (Nat.ltb_spec gk k); [lia|]. 
  assert (recall_sum predicted nb gk k = inject_Z (0 + len predicted)) as ->.
  { apply (recall_sum_full predicted nb gk k 0 0); [done|done|lia|].
    intros i got' Hi. destruct (Hp i got' Hi). by apply hits_all. }
  f_equal. rewrite Z.add_0_l. apply (rnd_int _ 1); [|lia]. apply Qmult_inv_r. rewrite E, len_cons. pose proof (len_nonneg pr).
  unfold Qeq. cbn. lia.
Qed.

Section Run.
Context {W H : Type} (A : Adapter W H) (clock : nat → Z) (p : Plan) (start : W → Prop) (Found : nat → list Z → Prop).
Notation ds := (p_data p).
Context {EX : Answering A (p_config p) (train ds) (test ds) (p_topK p) start Found}.
Notation workers := (worker (H := H)).

(** The query is one of the set's. *)
Definition valid (qv : Z * row) : Prop := ∃ q, qv.1 = Z.of_nat q ∧ test ds !! q = Some qv.2.

Definition fine (total : nat) (w : workers) : Prop :=
  attached (Answering := EX) (handle w) ∧ Forall valid (option_list (fst <$> asked w) ++ rest w) ∧
  (length (took w) + work w = total)%nat ∧ (asked w = None → rest w = []).

Lemma does_query h q v : attached (Answering := EX) h → test ds !! q = Some v →
  does (lift (query A h (Z.of_nat q) v (p_topK p))) (ready (Answering := EX)) (Found q).
Proof.
  intros Hh Hv. apply does_lift. intros w Hw.
  destruct (query_finds h q v w Hw Hh Hv) as (w' & ids & E & Hw' & Hi). by exists ids, w'.
Qed.

Lemma does_timed h qv : attached (Answering := EX) h → valid qv →
  does (timed_query A clock h (p_topK p) qv) (ready (Answering := EX)) (λ r, Found (Z.to_nat qv.1) r.1).
Proof.
  intros Hh (q & Hq & Hv). unfold timed_query. eapply does_then; [apply does_clock|]. intros t _.
  rewrite Hq, Nat2Z.id. eapply does_then; [by apply does_query|]. intros ids Hi.
  eapply does_then; [apply does_clock|]. intros t' _. by apply does_ret.
Qed.

(** A worker that has been started or has had a turn is as it should be. *)
Lemma does_ask h qs ts total :
  attached (Answering := EX) h → Forall valid qs → (length ts + length qs = total)%nat →
  does (ask clock (Worker h None qs ts)) (ready (Answering := EX)) (fine total).
Proof.
  intros Hh Hq Ht. unfold ask. cbn [rest handle took]. destruct qs as [|qv qs].
  { apply does_ret. split_and!; [done|by constructor|done|done]. }
  eapply does_then; [apply does_clock|]. intros t _. apply does_ret. destruct qv as [q v].
  split_and!; [done|done|cbn in *; lia|done].
Qed.

Lemma does_turn total w : fine total w →
  does (turn A clock (p_topK p) w) (ready (Answering := EX)) (λ w', fine total w' ∧ work w' = pred (work w)).
Proof.
  destruct w as [h [[[q v] t]|] qs ts]; intros (Hh & Hv & Ht & Hn); unfold turn; cbn [asked handle rest took].
  - cbn in Hv. apply Forall_cons in Hv as [(i & Hq & Hv) Hqs]. cbn in Hq, Hv. subst q.
    eapply does_then; [by apply does_query|]. intros ids _. eapply does_then; [apply does_clock|]. intros t' _.
    unfold ask. cbn [rest handle took]. destruct qs as [|[q2 v2] qs].
    + apply does_ret. split; [|done]. split_and!; [done|by cbn|cbn in *; rewrite length_app; cbn; lia|done].
    + eapply does_then; [apply does_clock|]. intros t2 _. apply does_ret. split; [|done].
      split_and!; [done|done|cbn in *; rewrite length_app; cbn; lia|done].
  - apply does_ret. cbn in *. rewrite (Hn eq_refl) in *. by split_and!.
Qed.

Lemma does_turns schedule totals ws : Forall2 fine totals ws →
  does (turns A clock (p_topK p) schedule ws) (ready (Answering := EX)) (Forall2 fine totals).
Proof.
  revert ws. induction schedule as [|i schedule IH]; intros ws Hws; cbn [turns]; [by apply does_ret|].
  destruct (ws !! i) as [w|] eqn:Ei; [|by apply IH].
  destruct (Forall2_lookup_r _ _ _ _ _ Hws Ei) as (t & Et & Hw).
  eapply does_then; [by apply does_turn|]. intros w' [Hw' _]. apply IH.
  rewrite <- (list_insert_id totals i t) by done. by apply Forall2_insert.
Qed.

Lemma does_finish total n w : fine total w → (work w ≤ n)%nat →
  does (finish_in A clock (p_topK p) n w) (ready (Answering := EX)) (λ w', length (took w') = total).
Proof.
  revert w. induction n as [|n IH]; intros w Hw Hn; cbn [finish_in].
  - apply does_ret. destruct Hw as (_ & _ & Ht & _). lia.
  - eapply does_then; [by apply does_turn|]. intros w' [Hw' Hk]. apply IH; [done|lia].
Qed.

Definition unstarted (w : workers) : Prop :=
  attached (Answering := EX) (handle w) ∧ asked w = None ∧ took w = [] ∧ Forall valid (rest w).

Lemma does_concurrent schedule (ws : list workers) : Forall unstarted ws →
  does (concurrent_pass A clock (p_topK p) schedule ws) (ready (Answering := EX))
    (λ ls, length ls = sum_list (length ∘ rest <$> ws)).
Proof.
  intros Hws. unfold concurrent_pass. eapply does_then.
  { apply does_each with (P := unstarted) (R := λ w w', fine (length (rest w)) w'); [exact Hws|].
    intros [h a qs ts] (Hh & Ha & Ht & Hq). cbn in *. subst. by apply does_ask. }
  intros ws1 H1. eapply does_then.
  { apply (does_turns schedule (length ∘ rest <$> ws)). by apply Forall2_fmap_l. }
  intros ws2 H2. eapply does_then.
  { apply does_each with (P := λ w, ∃ t, fine t w) (R := λ w w', ∀ t, fine t w → length (took w') = t).
    - clear -H2. induction H2; constructor; eauto.
    - intros w [t Hw] u n Hu. destruct (does_finish t (work w) w Hw (le_n _) u n Hu) as (w' & u' & n' & E & Hu' & Hl).
      exists w', u', n'. split_and!; [done|done|]. intros t' Hw'. destruct Hw as (_ & _ & Ht & _), Hw' as (_ & _ & Ht' & _). lia. }
  intros ws3 H3. apply does_ret. clear -H2 H3. revert ws3 H3.
  induction H2 as [|t w ts ws2 Hw _ IH]; intros ws3 H3.
  { apply Forall2_nil_inv_l in H3 as ->. done. }
  apply Forall2_cons_inv_l in H3 as (w' & ws3' & Hw' & H3 & ->). cbn [mbind list_bind]. rewrite length_app.
  rewrite (Hw' t Hw). by rewrite (IH ws3' H3).
Qed.

(** The slices of the workers are the queries of the set, each once. *)
Lemma slice_valid C w : (0 < C)%nat → (w < C)%nat → Forall valid (slice_of C (test ds) w).
Proof.
  intros HC Hw. unfold slice_of. apply Forall_fmap, Forall_forall. intros q Hq.
  apply worker_slice_elem in Hq as [Hq _]; [|lia..]. exists (Z.to_nat q). cbn. split; [lia|].
  destruct (lookup_lt_is_Some_2 (test ds) (Z.to_nat q)) as [v Hv]; [unfold len in Hq; lia|]. by rewrite Hv.
Qed.

Lemma slices_total C : (0 < C)%nat →
  sum_list ((λ w, length (slice_of C (test ds) w)) <$> seq 0 C) = length (test ds).
Proof.
  intros HC. pose proof (worker_slices_partition (Z.of_nat C) (len (test ds)) ltac:(lia)) as Hp.
  apply Permutation_length in Hp. rewrite length_seqZ in Hp. unfold len in Hp at 2. rewrite Nat2Z.id in Hp.
  rewrite <- Hp. unfold seqZ. rewrite Nat2Z.id. unfold slice_of. clear Hp.
  induction (seq 0 C) as [|w l IH]; [done|]. cbn. rewrite length_app, IH, length_fmap. by rewrite Z.add_0_r.
Qed.

Context (Hk : 1 ≤ p_topK p ≤ Z.of_nat (gtK ds)) (Htest : test ds ≠ []) (Hmax : len (test ds) ≤ 2 ^ 53).

Lemma slice_lengths C (hs : list H) :
  (λ w : workers, length (rest w)) <$> imap (λ w h, Worker h None (slice_of C (test ds) w) []) hs =
  (λ w, length (slice_of C (test ds) w)) <$> seq 0 (length hs).
Proof.
  apply list_eq. intros i. rewrite !list_lookup_fmap, list_lookup_imap. destruct (hs !! i) as [h|] eqn:E.
  - by rewrite lookup_seq_lt by by eapply lookup_lt_Some.
  - apply lookup_ge_None in E. by rewrite lookup_seq_ge.
Qed.

Lemma imap_pair_snd {B} (l : list B) : snd <$> imap pair l = l.
Proof. apply list_eq. intros i. rewrite list_lookup_fmap, list_lookup_imap. by destruct (l !! i). Qed.

(** What a run reports for one value of [ef]: the recall of answers that the
    searches gave, one for each query, against the ground truth of the set,
    and as many latencies as there are queries in either pass. *)
Definition measured (e : num) (r : EfResult) : Prop :=
  ef r = e ∧
  (∃ answers, Forall2 Found (seq 0 (length (test ds))) answers ∧
     recallAtK answers (neighbors ds) (gtK ds) (Z.to_nat (p_topK p)) = Ok (recall r)) ∧
  n (singleLatency r) = len (test ds) ∧
  n (concurrentLatency r) = if decide (p_concurrency p = 0%nat) then 0 else len (test ds).

Lemma numbered_valid : Forall valid (numbered_rows (test ds)).
Proof.
  apply Forall_lookup. intros i qv Hi. unfold numbered_rows in Hi. rewrite list_lookup_imap in Hi.
  destruct (test ds !! i) as [v|] eqn:Ev; [|done]. injection Hi as <-. by exists i.
Qed.

Lemma summary_n ls : n (summarizeLatencies ls) = len ls.
Proof. unfold summarizeLatencies, len. cbn. f_equal. apply Permutation_length, sorting.merge_sort_Permutation. Qed.

Lemma does_ef schedule h e : attached (Answering := EX) h →
  does (run_ef A clock p schedule h e) (ready (Answering := EX)) (measured e).
Proof.
  intros Hh. unfold run_ef. eapply does_then; [apply does_clock|]. intros t1 _. eapply does_then.
  { apply does_each with (P := valid) (R := λ qv r, Found (Z.to_nat qv.1) r.1); [exact numbered_valid|]. intros qv Hq. apply does_timed; [by apply setEf_attached|exact Hq]. }
  intros answers Ha. eapply does_then; [apply does_clock|]. intros t2 _.
  assert (length answers = length (test ds)) as Hlen.
  { apply Forall2_length in Ha. unfold numbered_rows in Ha. by rewrite length_imap in Ha. }
  assert (Forall2 Found (seq 0 (length (test ds))) answers.*1) as Hfound.
  { apply Forall2_same_length_lookup_2; [by rewrite length_seq, length_fmap|]. intros i q ids Hi Hids.
    rewrite list_lookup_fmap in Hids. destruct (answers !! i) as [a|] eqn:Ea; [|done]. injection Hids as <-.
    apply lookup_seq in Hi as [-> Hi]. destruct (Forall2_lookup_r _ _ _ _ _ Ha Ea) as (qv & Eq & Hf).
    unfold numbered_rows in Eq. rewrite list_lookup_imap in Eq. destruct (test ds !! i) as [v|]; [|done].
    injection Eq as <-. cbn in Hf. by rewrite Nat2Z.id in Hf. }
  assert (∃ rc, recallAtK answers.*1 (neighbors ds) (gtK ds) (Z.to_nat (p_topK p)) = Ok rc) as [rc Hrc].
  { unfold recallAtK. destruct answers.*1; [by eexists|].
    destruct (Nat.ltb_spec (gtK ds) (Z.to_nat (p_topK p))); [lia|by eexists]. }
  eapply does_then; [eapply does_result with (R := λ r, r = rc); [exact Hrc|done]|].
  intros ? ->. eapply does_then.
  { apply does_each with (P := λ _, True) (R := λ _ h, attached (Answering := EX) h); [by apply Forall_true|]. intros i _.
    eapply does_then.
    - apply (does_lift _ _ (attached (Answering := EX))). intros w Hw. destruct (connect_attaches w Hw) as (h' & w' & ? & ? & ?). by exists h', w'.
    - intros h' Hh'. by apply does_ret, setEf_attached. }
  intros hs Hhs. assert (length hs = p_concurrency p) as Hc by (apply Forall2_length in Hhs; by rewrite length_seq in Hhs).
  eapply does_then; [apply does_clock|]. intros t3 _. eapply does_then.
  { apply does_concurrent. apply Forall_lookup. intros i w Hi. rewrite list_lookup_imap in Hi.
    destruct (hs !! i) as [h'|] eqn:Eh; [|done]. injection Hi as <-. apply lookup_lt_Some in Eh as Hi.
    destruct (Forall2_lookup_r _ _ _ _ _ Hhs Eh) as (? & _ & Hh'). split_and!; [done..|]. cbn [rest]. apply slice_valid; lia. }
  intros ls Hls. eapply does_then; [apply does_clock|]. intros t4 _. eapply does_then.
  { apply does_each with (P := attached (Answering := EX)) (R := λ _ _, True).
    - clear -Hhs. by induction Hhs; constructor.
    - intros h' Hh'. apply does_lift. intros w Hw. destruct (teardown_ok h' w Hw Hh') as (w' & ? & ?). by exists tt, w'. }
  intros _ _. apply does_ret. split; [done|]. split; [by exists answers.*1|]. split; cbn [singleLatency concurrentLatency].
  - rewrite summary_n. unfold len. by rewrite length_fmap, Hlen.
  - rewrite summary_n. unfold len at 1. rewrite Hls. unfold compose. rewrite slice_lengths, Hc.
    destruct (decide _) as [->|HC]; [done|]. by rewrite slices_total by lia.
Qed.

(** Against an adapter whose commands succeed the run ends, whatever the
    order of the answers, and reports for every [ef], in order, the recall of
    what the searches found, with one latency per query of the set in the
    single pass and in the concurrent one. *)
Lemma answering_run schedules w n : start w →
  ∃ r w' n', main A clock p schedules w n = (Ok r, w', n') ∧ Forall2 measured (p_efs p) (perEf r) ∧
    r_N r = len (train ds) ∧ r_Q r = len (test ds).
Proof.
  intros Hw. unfold main.
  destruct (setup_blank w Hw) as (h & w1 & E1 & H1). destruct (build_stores h w1 H1) as (w2 & E2 & H2).
  destruct (wait_keeps h w2 H2) as (w3 & E3 & H3). destruct (prepare_ready h w3 H3) as (w4 & E4 & H4 & Hh).
  assert (does (each (λ ie, run_ef A clock p (schedules ie.1) h ie.2) (imap pair (p_efs p))) (ready (Answering := EX))
            (λ rs, Forall2 measured (p_efs p) rs)) as Hall.
  { intros u m Hu.
    destruct (does_each _ (λ ie, run_ef A clock p (schedules ie.1) h ie.2) (imap pair (p_efs p)) (λ _, True)
                (λ ie, measured ie.2) ltac:(by apply Forall_true) ltac:(intros; by apply does_ef) u m Hu)
      as (rs & u' & m' & E & Hu' & Hrs). exists rs, u', m'. split_and!; [done|done|].
    rewrite <- (imap_pair_snd (p_efs p)). by apply Forall2_fmap_l. }
  destruct (Hall w4 n H4) as (rs & w5 & n5 & E5 & H5 & Hrs). destruct (teardown_ok h w5 H5 Hh) as (w6 & E6 & H6).
  unfold mbind, M_bind, lift. rewrite E1, E2, E3, E4, E5, E6. by eexists _, w6, n5.
Qed.

(** Full recall, when the searches find the ground truth. *)
Definition full (e : num) (r : EfResult) : Prop :=
  ef r = e ∧ recall r = 1%Q ∧ n (singleLatency r) = len (test ds) ∧
  n (concurrentLatency r) = if decide (p_concurrency p = 0%nat) then 0 else len (test ds).

Lemma measured_full e r :
  (∀ q ids, (q < length (test ds))%nat → Found q ids →
     ids ≡ₚ take (Z.to_nat (p_topK p)) (drop (q * gtK ds) (neighbors ds)) ∧ len ids = p_topK p) →
  measured e r → full e r.
Proof.
  intros Hf (He & (answers & Ha & Hr) & H1 & H2). split_and!; [done| |done|done].
  pose proof (Forall2_length _ _ _ Ha) as Hl. rewrite length_seq in Hl.
  rewrite full_recall in Hr; [by injection Hr|lia| |unfold len in *; lia|].
  - intros ->. by destruct (test ds).
  - intros i got Hi. destruct (Forall2_lookup_r _ _ _ _ _ Ha Hi) as (q & [-> Hq]%lookup_seq & Hg).
    destruct (Hf _ _ Hq Hg) as [Hp Hlen]. split; [done|]. unfold len in Hlen. lia.
Qed.
End Run.

(** *** Plans *)

Lemma limit_most a n z : 0 ≤ n → limit a n = Some z → 0 ≤ z ≤ n.
Proof.
  intros Hn. unfold limit. destruct a as [|b|q]; [intros [= <-]; lia..|].
  destruct (Qle_bool q 0) eqn:E0; [intros [= <-]; lia|].
  destruct (Qle_bool (inject_Z n) q) eqn:E1; [intros [= <-]; lia|].
  unfold as_integer. destruct (Qeq_bool q _) eqn:Eq; [|done]. intros [= <-].
  assert (¬ q <= 0)%Q as H0 by (intros H%Qle_bool_iff; congruence).
  assert (¬ inject_Z n <= q)%Q as H1 by (intros H%Qle_bool_iff; congruence).
  apply Qeq_bool_iff in Eq. rewrite Eq in H0, H1. unfold Qle, inject_Z in H0, H1. cbn in H0, H1. lia.
Qed.

(** What a plan measures on *)
Lemma plan_of_inv sqrt a ds p : plan_of sqrt a ds = Some p →
  metric (p_config p) = ds_metric (p_data p) ∧ mode_of (a_mode a) = Some (mode (p_config p)) ∧
  asyncInsert (p_config p) = Some (a_asyncInsert a) ∧ p_efs p = a_efs a ∧
  ∃ N Q, (N ≤ length (train ds))%nat ∧ p_data p = with_truth sqrt N Q ds.
Proof.
  intros Hp. unfold plan_of in Hp.
  apply bind_Some in Hp as (N & HN & Hp). apply bind_Some in Hp as (Q & HQ & Hp). apply bind_Some in Hp as (m & Hm & Hp).
  apply bind_Some in Hp as (k & Hk & Hp). apply bind_Some in Hp as (_ & _ & Hp). apply bind_Some in Hp as (z & Hz & Hp). apply bind_Some in Hp as (C & HC & [= <-]).
  cbn. split_and!; [|done..|].
  - unfold with_truth. by destruct (bool_decide _).
  - exists (Z.to_nat N), (Z.to_nat Q). split; [|done]. apply limit_most in HN; [|apply len_nonneg]. unfold len in HN. lia.
Qed.

(** The set of a plan has its ground truth when the whole set has, or
    something was cut off. *)
Lemma plan_truthful sqrt a ds p : plan_of sqrt a ds = Some p →
  truthful sqrt ds ∨ len (train (p_data p)) < len (train ds) ∨ len (test (p_data p)) < len (test ds) →
  truthful sqrt (p_data p).
Proof.
  intros (_ & _ & _ & _ & N & Q & HN & ->)%plan_of_inv H. apply with_truth_truthful; [done|].
  destruct H as [H|H]; [by left|right]. unfold with_truth in H.
  destruct (bool_decide _) eqn:E; [by apply bool_decide_eq_true in E|]. cbn in H. unfold len in H. rewrite !length_take in H. lia.
Qed.

(** *** What the notes claim *)

(** A search for more than the ground truth has is found out only after all
    queries of the single pass were made. *)
Lemma too_many_asked predicted nb gk k : predicted ≠ [] → (gk < k)%nat →
  recallAtK predicted nb gk k =
  Throw (Error (js "k (" ++ show (Z.of_nat k) ++ js ") > ground-truth K (" ++ show (Z.of_nat gk) ++ js ")")).
Proof. intros Hp Hk. unfold recallAtK. destruct predicted; [done|]. by destruct (Nat.ltb_spec gk k); [|lia]. Qed.
