(* ===== verification/Qdrant.v ===== *)
(** * The Qdrant adapter ([bench/vector/src/adapters/qdrant.ts])

    The adapter over the client library, a class; what the library does with
    a collection is [ExactClient], and from it the adapter is [Answering]. *)
From Stdlib Require Import QArith Qround.
From S2P Require Import Prelude JsText Number Command Protocol Effects VectorBench VectorTruth VectorRun.
#[local] Open Scope Z_scope.

Definition COLLECTION : jsstr := js "vbench".

Definition qdrantMetric (m : Metric) : jsstr :=
  match m with l2 => js "Euclid" | cosine => js "Cosine" | dot => js "Dot" end.

(** The parameters of a collection; [scalar_int8] is its quantization *)
Record CollectionParams := Params {
  size : Z; distance_name : jsstr; hnsw_m : Z; ef_construct : Z; on_disk_payload : bool; scalar_int8 : bool }.

(** [@qdrant/js-client-rest]; a search gives the ids of the points, which
    are the numbers they were stored under. *)
Class QdrantClient (W : Type) := {
  deleteCollection : jsstr → W → W * res ();
  createCollection : jsstr → CollectionParams → W → W * res ();
  upsert : jsstr → list (Z * row) → W → W * res ();
  search : jsstr → row → Z → option num → W → W * res (list Z) }.

Record fields := Fields { cfg : option AdapterConfig; efSearch : num }.

Section Adapter.
Context {W : Type} {QC : QdrantClient W}.

Definition new_fields : fields := Fields None (Fin 64).

Definition q_connect (config : AdapterConfig) (h : fields) (w : W) : W * res fields :=
  (w, Ok (Fields (Some config) (efSearch h))).

Definition collection_params (config : AdapterConfig) : res CollectionParams :=
  let params := Params (cfg_dim config) (qdrantMetric (metric config)) (default 16 (cfg_m config))
                  (default 200 (efConstruction config)) false in
  match mode config with
  | quantized => Ok (params true)
  | bq => Throw (Error (js "qdrant adapter: 'bq' is a WormDB-only label; use 'quantized' (scalar int8) or 'exact'/'hnsw'"))
  | _ => Ok (params false)
  end.

(** The error of the deletion is ignored. *)
Definition q_setup (config : AdapterConfig) (h : fields) (w : W) : W * res fields :=
  let '(w, _) := deleteCollection COLLECTION w in
  match collection_params config with
  | Throw e => (w, Throw e)
  | Ok params =>
      match createCollection COLLECTION params w with
      | (w, Ok _) => (w, Ok (Fields (Some config) (efSearch h)))
      | (w, Throw e) => (w, Throw e)
      end
  end.

Definition BATCH : Z := 512.

(** [for (let i = 0; i < N; i += BATCH)], over the rows from [i]; every
    round takes at least one. *)
Fixpoint upsert_loop (fuel : nat) (i : Z) (rows : list row) (w : W) : W * res () :=
  match fuel, rows with
  | O, _ | _, [] => (w, Ok tt)
  | S fuel, _ =>
      let points := imap (λ j v, (i + Z.of_nat j, v)) (take (Z.to_nat BATCH) rows) in
      match upsert COLLECTION points w with
      | (w, Ok _) => upsert_loop fuel (i + BATCH) (drop (Z.to_nat BATCH) rows) w
      | (w, Throw e) => (w, Throw e)
      end
  end.
Definition q_build (h : fields) (rows : list row) (w : W) : W * res () := upsert_loop (length rows) 0 rows w.

(** The probes that come back as the first of their own search *)
Fixpoint probes_found (probes : list (Z * row)) (w : W) : W * res Z :=
  match probes with
  | [] => (w, Ok 0)
  | (id, v) :: probes =>
      match search COLLECTION v 1 None w with
      | (w, Throw e) => (w, Throw e)
      | (w, Ok ids) =>
          match probes_found probes w with
          | (w, Ok n) => (w, Ok (if bool_decide (hd_error ids = Some id) then 1 + n else n))
          | r => r
          end
      end
  end.

(** The rounds that start before the deadline *)
Fixpoint wait_rounds (rounds : nat) (timeoutMs : Z) (probes : list (Z * row)) (w : W) : W * res () :=
  match rounds with
  | O => (w, Throw (Error (js "Qdrant waitUntilQueryable: timeout after " ++ show timeoutMs ++ js "ms")))
  | S rounds =>
      match probes_found probes w with
      | (w, Throw e) => (w, Throw e)
      | (w, Ok n) => if n =? len probes then (w, Ok tt) else wait_rounds rounds timeoutMs probes w
      end
  end.

Definition q_query (h : fields) (qIdx : Z) (v : row) (k : Z) (w : W) : W * res (list Z) :=
  match search COLLECTION v k (Some (efSearch h)) w with
  | (w, Ok ids) => (w, Ok (to_int32 <$> ids))
  | (w, Throw e) => (w, Throw e)
  end.

(** The adapter; [rounds] is how many rounds the clock allows for a wait. *)
Definition QdrantAdapter (rounds : nat) : Adapter W fields := {|
  adapter_name := js "qdrant";
  fresh := new_fields;
  setup := q_setup;
  connect := q_connect;
  build := q_build;
  waitUntilQueryable := λ _ ids vs timeoutMs, wait_rounds rounds timeoutMs (zip ids vs);
  prepareQueries := λ _ _ w, (w, Ok tt);
  setEf := λ ef h, Fields (cfg h) ef;
  query := q_query;
  teardown := λ _ w, (w, Ok tt) |}.
End Adapter.

(** ** Exact search through the client *)

(** The library and the database behind it: a collection holds what was
    upserted, and its search, made exact, finds the nearest. *)
Class ExactClient (W : Type) {QC : QdrantClient W} (sqrt : Q → Q) (m : Metric) := {
  points : W → option (list (Z * row));
  deleted w : points (deleteCollection COLLECTION w).1 = None;
  created params w : points w = None →
    ∃ w', createCollection COLLECTION params w = (w', Ok tt) ∧ points w' = Some [];
  upserted ps new w : points w = Some ps →
    ∃ w', upsert COLLECTION new w = (w', Ok tt) ∧ points w' = Some (ps ++ new);
  searched rows v k ef w : points w = Some (imap (λ i v, (Z.of_nat i, v)) rows) → 0 ≤ k →
    ∃ w', search COLLECTION v k ef w = (w', Ok (nearest_ids sqrt m rows v (Z.to_nat k))) ∧ points w' = points w }.

Section Exact.
Context {W : Type} {QC : QdrantClient W} (sqrt : Q → Q) (config : AdapterConfig).
Context {EC : ExactClient W sqrt (metric config)}.
Context (train test : list row) (topK : Z) (rounds : nat).
Context (Hmode : mode config ≠ bq) (Hk : 0 ≤ topK) (Hrounds : (0 < rounds)%nat) (Hsmall : len train < 2 ^ 31).

(** Every probe is nearest to itself. *)
Definition own_nearest : Prop := ∀ i v, train !! i = Some v → nearest_ids sqrt (metric config) train v 1 = [Z.of_nat i].
Context (Hown : own_nearest).

Notation numbered := (imap (λ i v, (Z.of_nat i, v)) train).
Notation found := (exact_answer sqrt (metric config) train test topK).

Lemma upsert_stores fuel i rows ps w : (length rows ≤ fuel)%nat → points w = Some ps →
  ∃ w', upsert_loop fuel i rows w = (w', Ok tt) ∧
        points w' = Some (ps ++ imap (λ j v, (i + Z.of_nat j, v)) rows).
Proof.
  revert i rows ps w. induction fuel as [|fuel IH]; intros i rows ps w Hf Hw.
  { destruct rows; [|cbn in Hf; lia]. exists w. cbn. by rewrite app_nil_r. }
  destruct rows as [|v rows]; [exists w; cbn; by rewrite app_nil_r|]. set (all := v :: rows) in *. cbn [upsert_loop].
  replace (match all with [] => (w, Ok tt) | _ => _ end) with
    (match upsert COLLECTION (imap (λ j v, (i + Z.of_nat j, v)) (take (Z.to_nat BATCH) all)) w with
     | (w, Ok _) => upsert_loop fuel (i + BATCH) (drop (Z.to_nat BATCH) all) w
     | (w, Throw e) => (w, Throw e) end) by done.
  destruct (upserted ps (imap (λ j v, (i + Z.of_nat j, v)) (take (Z.to_nat BATCH) all)) w Hw) as (w1 & -> & H1).
  edestruct (IH (i + BATCH) (drop (Z.to_nat BATCH) all)) as (w2 & -> & H2); [|exact H1|].
  { rewrite length_drop. cbn [length all] in *. unfold BATCH. lia. }
  exists w2. split; [done|]. rewrite H2, <- app_assoc. do 2 f_equal.
  destruct (decide (Z.to_nat BATCH ≤ length all)%nat) as [Hl|Hl].
  - rewrite <- (take_drop (Z.to_nat BATCH) all) at 3. rewrite imap_app. f_equal. apply imap_ext. intros j x _. cbn.
    rewrite length_take. f_equal. unfold BATCH in *. lia.
  - rewrite drop_ge, take_ge by lia. cbn. by rewrite app_nil_r.
Qed.

Lemma probes_all probes w : points w = Some numbered → Forall (λ iv, 0 ≤ iv.1 ∧ train !! Z.to_nat iv.1 = Some iv.2) probes →
  ∃ w', probes_found probes w = (w', Ok (len probes)) ∧ points w' = Some numbered.
Proof.
  intros Hw Hp. revert w Hw. induction Hp as [|[id v] probes [H0 Hv] _ IH]; intros w Hw; [by exists w|]. cbn in H0, Hv.
  cbn [probes_found]. destruct (searched train v 1 None w Hw ltac:(lia)) as (w1 & -> & H1). rewrite Hw in H1.
  destruct (IH w1 H1) as (w2 & -> & H2). exists w2. change (Z.to_nat 1) with 1%nat. rewrite (Hown _ _ Hv). cbn.
  rewrite Z2Nat.id by done. rewrite bool_decide_true by done. by rewrite len_cons.
Qed.

Lemma probes_valid : Forall (λ iv, 0 ≤ iv.1 ∧ train !! Z.to_nat iv.1 = Some iv.2) (zip (probe_ids (len train)) (probe_rows train)).
Proof.
  unfold probe_rows. assert (∀ i, i ∈ probe_ids (len train) → 0 ≤ i < len train) as Hi.
  { intros i. unfold probe_ids. rewrite list_elem_of_fmap. intros (j & -> & Hj%elem_of_seqZ).
    split; [apply Z.div_pos; nia|]. apply Z.div_lt_upper_bound; nia. }
  induction (probe_ids (len train)) as [|i l IH]; [done|]. cbn. constructor; [|apply IH; intros; apply Hi; by right]. cbn.
  destruct (Hi i) as [H0 H1]; [by left|]. split; [done|].
  destruct (lookup_lt_is_Some_2 train (Z.to_nat i)) as [v Hv]; [unfold len in H1; lia|]. by rewrite Hv.
Qed.

Lemma wait_ok n timeoutMs w : (0 < n)%nat → points w = Some numbered →
  ∃ w', wait_rounds n timeoutMs (zip (probe_ids (len train)) (probe_rows train)) w = (w', Ok tt) ∧ points w' = Some numbered.
Proof.
  intros Hn Hw. destruct n as [|n]; [lia|]. cbn [wait_rounds].
  destruct (probes_all _ w Hw probes_valid) as (w' & -> & H'). rewrite Z.eqb_refl. by exists w'.
Qed.

(** The adapter is exact when the database is. *)
#[export] Instance qdrant_exact :
  Answering (QdrantAdapter rounds) config train test topK (λ _, True) (λ q ids, ids ≡ₚ found q).
Proof.
  refine {| blank := λ h w, points w = Some [];
            stored := λ h w, points w = Some numbered;
            ready := λ w, points w = Some numbered;
            attached := λ _, True |}.
  - intros w _. cbn. unfold q_setup. pose proof (deleted w) as Hd. destruct (deleteCollection COLLECTION w) as [w1 r]. cbn in Hd.
    assert (∃ ps, collection_params config = Ok ps) as [ps ->] by (unfold collection_params; destruct (mode config); eauto; done).
    destruct (created ps w1 Hd) as (w2 & -> & H2). by eexists _, w2.
  - intros h w Hw. cbn. unfold q_build. destruct (upsert_stores (length train) 0 train [] w (le_n _) Hw) as (w' & -> & H').
    exists w'. split; [done|]. rewrite H'. f_equal.
  - intros h w Hw. by apply wait_ok.
  - intros h w Hw. by exists w.
  - intros w Hw. by eexists _, w.
  - done.
  - intros h q v w Hw _ Hv. cbn. unfold q_query.
    destruct (searched train v topK (Some (efSearch h)) w Hw Hk) as (w' & -> & H'). rewrite nearest_ids_small by done.
    eexists w', _. split; [done|]. split; [by rewrite H'|]. unfold exact_answer. by rewrite Hv.
  - intros h w Hw _. by exists w.
Defined.
End Exact.

(** A run over an exact database measures full recall. *)
Lemma qdrant_run {W} {QC : QdrantClient W} sqrt (p : Plan) {EC : ExactClient W sqrt (metric (p_config p))}
    rounds clock schedules w n :
  metric (p_config p) = ds_metric (p_data p) → mode (p_config p) ≠ bq → (0 < rounds)%nat →
  own_nearest sqrt (p_config p) (train (p_data p)) → truthful sqrt (p_data p) →
  1 ≤ p_topK p ≤ Z.of_nat (gtK (p_data p)) → test (p_data p) ≠ [] →
  len (train (p_data p)) < 2 ^ 31 → len (test (p_data p)) ≤ 2 ^ 53 →
  ∃ r w' n', main (QdrantAdapter rounds) clock p schedules w n = (Ok r, w', n') ∧ Forall2 (full p) (p_efs p) (perEf r).
Proof.
  intros Hm Hb Hr Hown Ht Hk Hne Htr Hte. assert (0 ≤ p_topK p) as Hk0 by lia.
  pose proof (qdrant_exact sqrt (p_config p) (train (p_data p)) (test (p_data p)) (p_topK p) rounds Hb Hk0 Hr Htr Hown) as EX.
  destruct (answering_run _ clock p _ _ (EX := EX) Hk schedules w n I) as (r & w' & n' & E & H & _).
  exists r, w', n'. split; [done|]. eapply Forall2_impl; [exact H|]. intros e x Hx.
  eapply measured_full; [..|exact Hx]; [done..|]. intros q ids Hq Hi.
  destruct (exact_answer_truth sqrt (p_data p) (p_topK p) q) as [H1 H2]; [done..|lia|].
  rewrite Hm in Hi. rewrite <- H1. split; [done|]. unfold len in *. by rewrite Hi.
Qed.

(** ** Modes of the other adapter *)

(** The runner's notes say [bq_rerank] is rejected: it runs, as [hnsw]. *)
Lemma bq_rerank_runs_as_hnsw metric dim m efc async :
  collection_params (Config bq_rerank metric dim m efc async) = collection_params (Config hnsw metric dim m efc async).
Proof. done. Qed.

(** [bq] is rejected when the collection is already deleted. *)
Lemma bq_deletes_first {W} {QC : QdrantClient W} config h w : mode config = bq →
  (q_setup config h w).1 = (deleteCollection COLLECTION w).1 ∧ ∃ e, (q_setup config h w).2 = Throw e.
Proof.
  intros Hm. unfold q_setup, collection_params. destruct (deleteCollection COLLECTION w) as [w' r]. rewrite Hm. split; [done|]. by eexists.
Qed.
