(* ===== verification/WormVectors.v ===== *)
(** * A benchmark run over WormDB ([bench/vector/src])

    The adapter of [VectorBench] as an implementation of the runner's
    interface, and the run of the whole benchmark over a server whose
    procedures succeed: [VectorServer] is that they do, on the commands they
    are sent and the JSON they answer, and says nothing of which vectors a
    search finds, in any mode. *)
From Stdlib Require Import QArith Qround.
From S2P Require Import Prelude JsText Number Command Protocol Json Client Effects VectorBench VectorTruth VectorRun.
From stdpp Require pretty.
From S2P Require KvServer.
#[local] Open Scope Z_scope.

Section Adapter.
Context {UD : UnicodeData} {S : Type} (serve : ParsedCommand → S → S * res WormResponse).
(** [floatsToBytes]: the bytes of an array of floats in memory *)
Context (floatsToBytes : row → bytes).
(** [Date.now()] when vectors are sent, and the readings of the clock and of
    [Date.now()] in a wait; after these its deadline has passed. *)
Context (now : Z) (start : Z) (clock : list (Z * Z)).

(** A method of an adapter that has no client *)
Definition with_config {A} (h : option AdapterConfig) (f : AdapterConfig → S → S * res A) (s : S) : S * res A :=
  match h with Some cfg => f cfg s | None => (s, Throw TypeError) end.

Definition timed_out (timeoutMs : Z) : exn :=
  Error (js "wormdb waitUntilQueryable: timeout after " ++ show timeoutMs ++ js "ms").

Definition WormdbAdapter : Adapter S (option AdapterConfig) := {|
  adapter_name := js "wormdb";
  fresh := None;
  setup := λ cfg _ s,
    match VectorBench.setup serve s with (s, Ok _) => (s, Ok (Some cfg)) | (s, Throw e) => (s, Throw e) end;
  connect := λ cfg _ s, (s, Ok (Some cfg));
  build := λ h rows, with_config h (λ cfg, VectorBench.build serve cfg now now (floatsToBytes <$> rows));
  waitUntilQueryable := λ h ids vs timeoutMs, with_config h (λ cfg s,
    match VectorBench.waitUntilQueryable serve cfg (head (zip ids (floatsToBytes <$> vs))) timeoutMs start clock s with
    | (s, Some r) => (s, r)
    | (s, None) => (s, Throw (timed_out timeoutMs))
    end);
  prepareQueries := λ h rows, with_config h (λ cfg, VectorBench.prepareQueries serve cfg now 0 (floatsToBytes <$> rows));
  setEf := λ _ h, h;
  query := λ h qIdx _ k, with_config h (λ cfg s,
    match VectorBench.query serve cfg qIdx k s with
    | (s, Ok found) => (s, Ok found.*1)
    | (s, Throw e) => (s, Throw e)
    end);
  teardown := λ h, with_config h (λ _ s, (s, Ok tt)) |}.
End Adapter.

(** ** Servers whose procedures succeed *)

Definition exec_drop (ns : jsstr) : ParsedCommand := EXEC (js "vnsdrop") (ArgStr <$> [ns; js "1"]).
Definition exec_quantize : ParsedCommand := EXEC (js "vrabitq") (ArgStr <$> [NAMESPACE]).
Definition exec_search (key : jsstr) (k : Z) (m : Metric) (mode : jsstr) : ParsedCommand :=
  EXEC (js "vsearch") (ArgStr <$> [key; show k; NAMESPACE; metric_name m; js "0"; mode]).

(** [indexed] are the vectors under [vec:bench:], numbered from zero, and
    [queries] those under [vec:benchq:]; both know a vector by its floats.
    [Found rows v k] are the lists of numbers that a search for [k] near [v]
    among [rows] may answer in the mode at hand: any relation, for the exact
    mode as for an approximate one, of any length. *)
Class VectorServer {S : Type} (serve : ParsedCommand → S → S * res WormResponse)
    (floatsToBytes : row → bytes) (m : Metric) (mode : jsstr) (Found : list row → row → Z → list Z → Prop) := {
  indexed : S → option (list row);
  queries : S → gmap jsstr row;
  vectors_dropped s : ∃ s' r, serve (exec_drop NAMESPACE) s = (s', Ok r) ∧ indexed s' = Some [];
  queries_dropped s : ∃ s' r, serve (exec_drop QUERY_NAMESPACE) s = (s', Ok r) ∧ indexed s' = indexed s;
  vectors_inserted s rows new ts : indexed s = Some rows →
    ∃ s', serve (VBULKINSERT NAMESPACE m false false (numbered ts (len rows) (floatsToBytes <$> new))) s = (s', Ok ok) ∧
          indexed s' = Some (rows ++ new);
  vectors_quantized s rows : indexed s = Some rows → rows ≠ [] →
    ∃ s' text, serve exec_quantize s = (s', Ok (bulk text)) ∧ indexed s' = Some rows;
  query_inserted s q v ts : 0 ≤ q →
    ∃ s', serve (VINSERT (query_key q) (floatsToBytes v) false QUERY_NAMESPACE m ts false) s = (s', Ok ok) ∧
          indexed s' = indexed s ∧ queries s' = <[query_key q := v]> (queries s);
  vectors_searched s rows q v k : indexed s = Some rows → 0 ≤ q → queries s !! query_key q = Some v → 1 ≤ k →
    ∃ s' text hits ids, serve (exec_search (query_key q) k m mode) s = (s', Ok (bulk text)) ∧
      JSON_parse text = Some (JArr hits) ∧
      Forall2 (λ id hit, prop hit (js "k") = Ok (Some (JStr (NAMESPACE ++ show id)))) ids hits ∧
      Forall (λ id, 0 ≤ id < len rows) ids ∧ Found rows v k ids ∧
      indexed s' = indexed s ∧ queries s' = queries s }.

Section Serving.
Context {UD : UnicodeData} {S : Type} (serve : ParsedCommand → S → S * res WormResponse).
Context (floatsToBytes : row → bytes) (now start : Z) (clock : list (Z * Z)).
Context (cfg : AdapterConfig) (word_of_mode : jsstr) (Found : list row → row → Z → list Z → Prop).
Context {ES : VectorServer serve floatsToBytes (metric cfg) word_of_mode Found}.
Context (train test : list row) (topK : Z).
Context (Hmode : modeArg (mode cfg) = Ok word_of_mode) (Hsync : default false (asyncInsert cfg) = false).
Context (Hk : 1 ≤ topK) (Hsmall : len train < 2 ^ 31).

Notation numbered ts cursor rows := (VectorBench.numbered ts cursor (floatsToBytes <$> rows)).
Notation adapter := (WormdbAdapter serve floatsToBytes now start clock).

(** *** The text commands *)

Lemma send_exec p args s : word p → Forall word args →
  send serve (sentence (js "EXEC" :: p :: args)) s = serve (EXEC p (ArgStr <$> args)) s.
Proof.
  intros Hp Ha. unfold send. rewrite (parse_render (EXEC p (ArgStr <$> args)) (js "EXEC" :: p :: args)); [done| |words|done].
  cbn [render]. assert (mapM (λ a, match a with ArgStr s => Some s | ArgBytes _ => None end) (ArgStr <$> args) = Some args) as ->; [|done].
  clear Ha. induction args as [|a args IH]; [done|]. cbn. by rewrite IH.
Qed.

Lemma drop_ok ns s : word ns → send serve (drop_text ns) s = serve (exec_drop ns) s.
Proof.
  intros Hn. unfold exec_drop. rewrite <- send_exec; [|words..]. f_equal.
Qed.

Lemma key_word q : 0 ≤ q → word (query_key q).
Proof.
  intros Hq. destruct (KvServer.show_word q Hq) as [_ Hw]. split; [done|]. unfold query_key. apply Forall_app. split; [|done].
  by repeat constructor.
Qed.

Lemma search_ok q k s : 0 ≤ q → 0 ≤ k →
  send serve (search_text cfg word_of_mode q k) s = serve (exec_search (query_key q) k (metric cfg) word_of_mode) s.
Proof.
  intros Hq Hk'. unfold exec_search. rewrite <- send_exec.
  - f_equal.
  - words.
  - pose proof (key_word q Hq). pose proof (KvServer.show_word k Hk').
    assert (word word_of_mode) by (destruct (mode cfg); [..|done]; injection Hmode as <-; words).
    words. destruct (metric cfg); words.
Qed.

Lemma quantize_ok s : send serve (js "EXEC vrabitq " ++ NAMESPACE) s = serve exec_quantize s.
Proof. unfold exec_quantize. rewrite <- send_exec; [|words..]. f_equal. Qed.

(** *** The answers *)

Lemma id_of_key id : 0 ≤ id < 2 ^ 31 → id_of (NAMESPACE ++ show id) = id.
Proof.
  intros Hid. unfold id_of. rewrite startsWith_app, drop_app_length.
  destruct (show_digits id ltac:(lia)) as (Hne & Hd & _). destruct (show id) as [|d ds] eqn:E; [done|]. rewrite <- E in *.
  replace (forallb is_digit (show id)) with true.
  2: { symmetry. apply List.forallb_forall. intros c Hc%list_elem_of_In. rewrite Forall_forall in Hd. by apply Hd. }
  rewrite Number_show by lia. unfold as_integer. rewrite Qfloor_Z.
  rewrite (proj2 (Qeq_bool_iff _ _)) by reflexivity. unfold to_int32. rewrite Z.mod_small by lia. cbn zeta.
  destruct (Z.ltb_spec id (2 ^ 31)); [|lia]. done.
Qed.

Lemma read_hits ids hits : Forall (λ id, 0 ≤ id < 2 ^ 31) ids →
  Forall2 (λ id hit, prop hit (js "k") = Ok (Some (JStr (NAMESPACE ++ show id)))) ids hits →
  ∃ rs, read_results hits = Ok rs ∧ rs.*1 = ids.
Proof.
  intros Hr H. revert Hr. induction H as [|id hit ids hits Hh _ IH]; intros Hr; [by exists []|].
  apply Forall_cons in Hr as [Hid Hr]. destruct (IH Hr) as (rs & E & <-). cbn [read_results]. unfold read_result. rewrite Hh.
  cbn [mbind res_bind]. destruct hit as [| | | | |fs]; try done. cbn [prop mbind res_bind]. rewrite id_of_key by done.
  rewrite E. by eexists.
Qed.

(** *** The phases *)

Lemma bulk_numbered ts cursor rows :
  bulk_command cfg now ts cursor rows = VBULKINSERT NAMESPACE (metric cfg) false false (VectorBench.numbered ts cursor rows).
Proof. by rewrite bulk_command_items, Hsync. Qed.

Lemma build_stores_rows fuel rows done_ s : (length rows ≤ fuel)%nat → indexed (VectorServer := ES) s = Some done_ →
  ∃ s', build_loop serve fuel cfg now now (len done_) (floatsToBytes <$> rows) s = (s', Ok tt) ∧
        indexed (VectorServer := ES) s' = Some (done_ ++ rows).
Proof.
  revert rows done_ s. induction fuel as [|fuel IH]; intros rows dn s Hf Hs.
  { destruct rows; [|cbn in Hf; lia]. exists s. by rewrite app_nil_r. }
  destruct rows as [|v rows]; [exists s; by rewrite app_nil_r|]. set (all := v :: rows) in *.
  cbn [build_loop fmap list_fmap all]. rewrite bulk_numbered.
  set (k := Z.to_nat BULK_BATCH_SIZE) in *. change (floatsToBytes v :: (floatsToBytes <$> rows)) with (floatsToBytes <$> all).
  rewrite <- fmap_take, <- fmap_drop.
  destruct (vectors_inserted s dn (take k all) now Hs) as (s1 & -> & H1).
  destruct (IH (drop k all) (dn ++ take k all) s1) as (s2 & E & H2); [|done|].
  { rewrite length_drop. cbn [length all] in *. unfold k, BULK_BATCH_SIZE. lia. }
  exists s2. rewrite len_app in E. unfold len at 2. rewrite length_fmap. unfold len in E at 2. rewrite E. split; [done|].
  by rewrite H2, <- app_assoc, take_drop.
Qed.

(** The queries from [q] are stored. *)
Definition staged (s : S) : Prop := ∀ q v, test !! q = Some v → queries (VectorServer := ES) s !! query_key (Z.of_nat q) = Some v.

Lemma prepare_stores rows q s : 0 ≤ q →
  ∃ s', VectorBench.prepareQueries serve cfg now q (floatsToBytes <$> rows) s = (s', Ok tt) ∧
    indexed (VectorServer := ES) s' = indexed (VectorServer := ES) s ∧
    (∀ i v, rows !! i = Some v → queries (VectorServer := ES) s' !! query_key (q + Z.of_nat i) = Some v) ∧
    (∀ i, 0 ≤ i < q → queries (VectorServer := ES) s' !! query_key i = queries (VectorServer := ES) s !! query_key i).
Proof.
  revert q s. induction rows as [|v rows IH]; intros q s Hq; [by exists s|].
  cbn [fmap list_fmap VectorBench.prepareQueries]. unfold vinsertNative. cbn [o_worm o_namespace o_metric o_timestamp o_async default].
  destruct (query_inserted s q v now Hq) as (s1 & E & H1 & H2). unfold id. rewrite E.
  destruct (IH (q + 1) s1 ltac:(lia)) as (s2 & E2 & H3 & H4 & H5). exists s2.
  assert (∀ i j, 0 ≤ i → 0 ≤ j → query_key i = query_key j → i = j) as Hinj.
  { intros i j Hi Hj Hij. apply app_inv_head in Hij. apply js_inj in Hij. by apply (inj pretty.pretty) in Hij. }
  split_and!; [exact E2|by rewrite H3| |].
  - intros [|i] w Hw; cbn in Hw.
    + injection Hw as ->. rewrite H5 by lia. rewrite H2. replace (q + Z.of_nat 0) with q by lia. by rewrite lookup_insert_eq.
    + replace (q + Z.of_nat (Datatypes.S i)) with (q + 1 + Z.of_nat i) by lia. by apply H4.
  - intros i Hi. rewrite H5, H2 by lia. rewrite lookup_insert_ne; [done|]. intros Hij%Hinj; lia.
Qed.

(** The adapter answers over such a server, with what the searches find. *)
Definition found (q : nat) (ids : list Z) : Prop := Found train (default [] (test !! q)) topK ids.

#[export] Instance worm_answers :
  Answering adapter cfg train test topK (λ _, True) found.
Proof.
  refine {| blank := λ h s, h = Some cfg ∧ indexed (VectorServer := ES) s = Some [];
            stored := λ h s, h = Some cfg ∧ indexed (VectorServer := ES) s = Some train;
            ready := λ s, indexed (VectorServer := ES) s = Some train ∧ staged s;
            attached := λ h, h = Some cfg |}.
  - intros s _. cbn. unfold VectorBench.setup. rewrite drop_ok by words.
    destruct (vectors_dropped s) as (s1 & r1 & -> & H1). rewrite drop_ok by words.
    destruct (queries_dropped s1) as (s2 & r2 & -> & H2). eexists _, s2. split; [done|]. by rewrite H2.
  - intros h s [-> Hs]. cbn. unfold VectorBench.build. destruct train as [|v rows] eqn:E; [by exists s|]. rewrite <- E in *.
    destruct (build_stores_rows (length (floatsToBytes <$> train)) train [] s) as (s1 & E1 & H1); [by rewrite length_fmap|done|].
    change (len (@nil row)) with 0 in E1. rewrite E1.
    assert (∃ s2 text, serve exec_quantize s1 = (s2, Ok (bulk text)) ∧ indexed (VectorServer := ES) s2 = Some train) as (s2 & text & Eq & H2).
    { apply (vectors_quantized s1 train H1). by rewrite E. }
    rewrite quantize_ok, Eq. replace (floatsToBytes <$> train) with (floatsToBytes v :: (floatsToBytes <$> rows)) by (by rewrite E).
    destruct (mode cfg); (by exists s1) || (by exists s2).
  - intros h s [-> Hs]. cbn. unfold VectorBench.waitUntilQueryable. rewrite Hsync. by exists s.
  - intros h s [-> Hs]. cbn. destruct (prepare_stores test 0 s ltac:(lia)) as (s1 & -> & H1 & H2 & _). exists s1.
    split_and!; [done|by rewrite H1|done|done].
  - intros s Hs. by eexists _, s.
  - done.
  - intros h q v s [Hs Hst] -> Hv. cbn. unfold VectorBench.query. rewrite Hmode.
    rewrite search_ok by lia.
    destruct (vectors_searched s train (Z.of_nat q) v topK Hs ltac:(lia) (Hst q v Hv) Hk)
      as (s1 & text & hits & ids & -> & -> & Hh & Hr & Hf & H1 & H2).
    destruct (read_hits ids hits) as (rs & -> & Hrs); [|exact Hh|].
    { eapply Forall_impl; [exact Hr|]. intros id Hid. cbv beta in Hid. lia. }
    eexists s1, _. split; [done|]. rewrite Hrs. unfold found. rewrite Hv. cbn. split_and!; [by rewrite H1| |done].
    intros q' v' Hv'. rewrite H2. by apply Hst.
  - intros h s Hs ->. by exists s.
Defined.
End Serving.

(** ** The whole run *)

(** The answers to the queries by number are the answers to the queries. *)
Lemma found_answers Found train test topK answers :
  Forall2 (found Found train test topK) (seq 0 (length test)) answers →
  Forall2 (λ v ids, Found train v topK ids) test answers.
Proof.
  intros H. pose proof (Forall2_length _ _ _ H) as Hl. rewrite length_seq in Hl.
  apply Forall2_same_length_lookup_2; [done|]. intros i v ids Hv Hi.
  destruct (Forall2_lookup_r _ _ _ _ _ H Hi) as (q & [-> _]%lookup_seq & Hf). unfold found in Hf. cbn [Nat.add] in Hf. by rewrite Hv in Hf.
Qed.

(** C27: what the vector benchmark reports of WormDB is what it measured.
    Over a server whose procedures succeed, whatever vectors its searches
    find, for every mode the adapter supports, inserting synchronously, a run
    ends, whatever the order of the concurrent answers, and reports for every
    [ef] asked for, in order, the recall at [topK] of answers the searches
    gave, one for each query of the set in order, against the ground truth,
    and a latency for every query in both passes.  If the searches can only
    find the [topK] nearest, and the set has its true ground truth or was cut
    and so has had it recomputed, every recall reported is one. *)
Theorem worm_run_measures {UD : UnicodeData} {S : Type} (serve : ParsedCommand → S → S * res WormResponse)
    floatsToBytes now start clock nanoseconds sqrt a ds p schedules s n mode_word Found
    {ES : VectorServer serve floatsToBytes (ds_metric (p_data p)) mode_word Found} :
  plan_of sqrt a ds = Some p → modeArg (mode (p_config p)) = Ok mode_word → a_asyncInsert a = false →
  1 ≤ p_topK p ≤ Z.of_nat (gtK (p_data p)) →
  len (train (p_data p)) < 2 ^ 31 →
  let data := p_data p in
  ∃ r s' n', main (WormdbAdapter serve floatsToBytes now start clock) nanoseconds p schedules s n = (Ok r, s', n') ∧
    r_N r = len (train data) ∧ r_Q r = len (test data) ∧
    Forall2 (λ e res, ef res = e ∧
      (∃ answers, Forall2 (λ v ids, Found (train data) v (p_topK p) ids) (test data) answers ∧
         recallAtK answers (neighbors data) (gtK data) (Z.to_nat (p_topK p)) = Ok (recall res)) ∧
      VectorBench.n (singleLatency res) = len (test data) ∧
      VectorBench.n (concurrentLatency res) = if decide (p_concurrency p = 0%nat) then 0 else len (test data))
      (a_efs a) (perEf r) ∧
    (truthful sqrt ds ∨ len (train data) < len (train ds) ∨ len (test data) < len (test ds) →
     test data ≠ [] → len (test data) ≤ 2 ^ 53 →
     (∀ v ids, v ∈ test data → Found (train data) v (p_topK p) ids →
        ids ≡ₚ nearest_ids sqrt (ds_metric data) (train data) v (Z.to_nat (p_topK p))) →
     Forall (λ res, recall res = 1%Q) (perEf r)).
Proof.
  intros Hp Hm Hs Hk Htr. destruct (plan_of_inv _ _ _ _ Hp) as (Hmetric & _ & Hasync & <- & _).
  rewrite <- Hmetric in ES.
  assert (default false (asyncInsert (p_config p)) = false) as Hsync by (by rewrite Hasync, Hs).
  pose proof (worm_answers serve floatsToBytes now start clock (p_config p) mode_word Found (train (p_data p)) (test (p_data p)) (p_topK p)
                Hm Hsync ltac:(lia) Htr) as EX.
  destruct (answering_run _ nanoseconds p _ _ (EX := EX) Hk schedules s n I) as (r & s' & n' & E & H & HN & HQ).
  exists r, s', n'. split; [exact E|]. split; [exact HN|]. split; [exact HQ|]. split.
  - eapply Forall2_impl; [exact H|]. intros e res (H1 & (answers & Ha & Hr) & H2 & H3).
    split; [done|]. split; [|done]. exists answers. split; [|done]. by apply found_answers.
  - intros Ht Hne Hte Hex. pose proof (plan_truthful _ _ _ _ Hp Ht) as Htruth.
    apply Forall_forall. intros res Hres. apply list_elem_of_lookup in Hres as [i Hi].
    destruct (Forall2_lookup_r _ _ _ _ _ H Hi) as (e & _ & He).
    refine (proj1 (proj2 (measured_full _ p _ _ (EX := EX) Hk Hne Hte e res _ He))).
    intros q ids Hq Hf. destruct (exact_answer_truth sqrt (p_data p) (p_topK p) q) as [T1 T2]; [done..|lia|].
    unfold exact_answer in T1, T2. unfold found in Hf. destruct (lookup_lt_is_Some_2 _ _ Hq) as [v Hv].
    rewrite Hv in T1, T2, Hf. cbn [default] in T1, T2, Hf.
    pose proof (Hex v ids (list_elem_of_lookup_2 _ _ _ Hv) Hf) as Hi'. rewrite <- T1. split; [done|].
    unfold len in *. by rewrite Hi'.
Qed.

(** *** A server in memory, with the limits of [vsearch] *)

Module Toy.

(** Vectors as bytes, the bits of their encoding *)
Fixpoint bits (p : positive) : bytes :=
  match p with xI p => 1 :: bits p | xO p => 0 :: bits p | xH => [] end.
Fixpoint of_bits (l : bytes) : positive :=
  match l with [] => xH | b :: l => if b =? 1 then xI (of_bits l) else xO (of_bits l) end.
Lemma of_bits_bits p : of_bits (bits p) = p.
Proof. induction p as [p IH|p IH|]; cbn; [by rewrite IH..|done]. Qed.

Definition floatsToBytes (v : row) : bytes := bits (encode ((λ q, (Qnum q, Qden q)) <$> v)).
Definition floats (b : bytes) : row :=
  match decode (A := list (Z * positive)) (of_bits b) with Some v => (λ '(n, d), n # d) <$> v | None => [] end.
Lemma floats_bytes v : floats (floatsToBytes v) = v.
Proof.
  unfold floats, floatsToBytes. rewrite of_bits_bits, decode_encode, <- list_fmap_compose.
  rewrite <- (list_fmap_id v) at 2. apply list_fmap_ext. by intros i [n d] _.
Qed.

Record state := State { vectors : option (list row); asked_for : gmap jsstr row }.

(** [top_k] of [vsearch]: zero stands for ten, and more than a hundred for a
    hundred. *)
Definition top_k (k : Z) : Z := Z.min (if k =? 0 then 10 else k) 100.

Definition hit (id : Z) : json := JObj [(js "k", JStr (NAMESPACE ++ show id)); (js "s", jnum 0)].

Definition serve (sqrt : Q → Q) (m : Metric) (c : ParsedCommand) (s : state) : state * res WormResponse :=
  match c with
  | EXEC p (ArgStr a :: args) =>
      if bool_decide (p = js "vnsdrop") then
        (if bool_decide (a = NAMESPACE) then State (Some []) (asked_for s) else State (vectors s) ∅, Ok ok)
      else if bool_decide (p = js "vrabitq") then (s, Ok (bulk []))
      else
        match args, vectors s, asked_for s !! a with
        | ArgStr k :: _, Some rows, Some v =>
            (s, Ok (bulk (stringify (JArr (hit <$> nearest_ids sqrt m rows v (Z.to_nat (top_k (dec k))))))))
        | _, _, _ => (s, Ok (error (js "not found")))
        end
  | VBULKINSERT _ _ _ _ items => (State (option_map (λ rows, rows ++ (floats ∘ bi_vector <$> items)) (vectors s)) (asked_for s), Ok ok)
  | VINSERT key v _ _ _ _ _ => (State (vectors s) (<[key := floats v]> (asked_for s)), Ok ok)
  | _ => (s, Ok ok)
  end.

Lemma hit_ok id : 0 ≤ id → json_ok (hit id).
Proof.
  intros Hid. unfold hit. destruct (show_digits id Hid) as (_ & Hd & _).
  constructor; [by vm_compute; repeat constructor; set_solver|].
  repeat (apply Forall_cons; split); [| |done]; (split; [by repeat constructor|]); cbn [snd].
  - constructor. apply Forall_app. split; [by repeat constructor|].
    eapply Forall_impl; [exact Hd|]. intros c Hc. unfold is_digit in Hc. unfold is_unit. lia.
  - by apply jnum_ok.
Qed.

#[export] Instance toy_serves sqrt m mode :
  VectorServer (serve sqrt m) floatsToBytes m mode (λ rows v k ids, ids = nearest_ids sqrt m rows v (Z.to_nat (top_k k))).
Proof.
  refine {| indexed := vectors; queries := asked_for |}.
  - intros s. by eexists _, _.
  - intros s. by eexists _, _.
  - intros s rows new ts Hs. eexists. split; [done|]. cbn. rewrite Hs. cbn. do 2 f_equal.
    apply list_eq. intros i. rewrite list_lookup_fmap. unfold numbered. rewrite list_lookup_imap, list_lookup_fmap.
    destruct (new !! i) as [v|]; [|done]. cbn. by rewrite floats_bytes.
  - intros s rows Hs _. by eexists _, _.
  - intros s q v ts Hq. eexists. split; [done|]. cbn. by rewrite floats_bytes.
  - intros s rows q v k Hs Hq Hv Hk. unfold exec_search. cbn [fmap list_fmap serve].
    rewrite (bool_decide_eq_false_2 (js "vsearch" = js "vnsdrop")) by done.
    rewrite (bool_decide_eq_false_2 (js "vsearch" = js "vrabitq")) by done. rewrite Hs, Hv.
    destruct (show_digits k ltac:(lia)) as (_ & _ & ->). eexists s, _, _, _. split; [done|]. split; [|split; [|split; [|done]]].
    + apply parse_stringify. constructor. apply Forall_fmap, Forall_forall. intros id Hid%nearest_ids_range. apply hit_ok. lia.
    + apply Forall2_fmap_r, Forall_Forall2_diag, Forall_forall. intros id _. done.
    + apply Forall_forall. intros id. apply nearest_ids_range.
Qed.

(** Three vectors and two queries *)
Definition data : Dataset :=
  MakeDataset (js "toy") [[0%Q; 0%Q]; [3%Q; 0%Q]; [1%Q; 1%Q]] [[1%Q; 0%Q]; [3%Q; 1%Q]] [0; 2; 1; 1; 2; 0] 2 3 l2.
Definition arguments : Args := parseArgs
  [js "--mode"; js "exact"; js "--efs"; js "16,32"; js "--concurrency"; js "2"; js "--topK"; js "2"].
End Toy.

Lemma worm_run_measures_witness : ∃ r s' n',
  main (WormdbAdapter (UD := KvServer.ascii_only) (Toy.serve (λ q, q) l2) Toy.floatsToBytes 0 0 []) Z.of_nat
    (default (MakePlan [] (Config exact l2 0 None None None) Toy.data [] [] [] 0 0%nat) (plan_of (λ q, q) Toy.arguments Toy.data))
    (λ _, [1; 0; 1]%nat) (Toy.State None ∅) 0%nat = (Ok r, s', n') ∧
  Forall (λ res, recall res = 1%Q) (perEf r) ∧ len (perEf r) = 2.
Proof.
  destruct (plan_of (λ q, q) Toy.arguments Toy.data) as [p|] eqn:Hp; [|by vm_compute in Hp]. cbn [default id].
  assert (p_data p = Toy.data ∧ p_topK p = 2 ∧ mode (p_config p) = exact) as (Hd & Hk & Hm) by (vm_compute in Hp; by injection Hp as <-).
  assert (truthful (λ q, q) Toy.data) as Ht by (split; [by vm_compute|cbn; lia]).
  set (Found := λ rows v k ids, ids = nearest_ids (λ q, q) l2 rows v (Z.to_nat (Toy.top_k k))).
  assert (VectorServer (Toy.serve (λ q, q) l2) Toy.floatsToBytes (ds_metric (p_data p)) (js "exact") Found) as ES.
  { rewrite Hd. apply Toy.toy_serves. }
  destruct (worm_run_measures (UD := KvServer.ascii_only) (Toy.serve (λ q, q) l2) Toy.floatsToBytes 0 0 [] Z.of_nat (λ q, q)
              Toy.arguments Toy.data p (λ _, [1; 0; 1]%nat) (Toy.State None ∅) 0%nat (js "exact") Found
              (ES := ES)) as (r & s' & n' & E & _ & _ & H & Hfull).
  - exact Hp.
  - by rewrite Hm.
  - done.
  - rewrite Hd, Hk. by vm_compute.
  - rewrite Hd. by vm_compute.
  - exists r, s', n'. split; [exact E|]. split.
    + apply Hfull; [by left|by rewrite Hd|rewrite Hd; by vm_compute|].
      intros v ids _ ->. rewrite Hk, Hd. done.
    + apply Forall2_length in H. unfold len. rewrite <- H. by vm_compute.
Defined.

(** A search for more than a hundred finds a hundred at most: no run that asks
    for more measures full recall. *)
Lemma toy_clamps sqrt m rows v k : 100 < k → len (nearest_ids sqrt m rows v (Z.to_nat (Toy.top_k k))) ≤ 100.
Proof.
  intros Hk. unfold Toy.top_k. destruct (Z.eqb_spec k 0); [lia|]. rewrite Z.min_r by lia.
  unfold nearest_ids, len. rewrite length_fmap, length_take. lia.
Qed.
