(* ===== verification/SecurityScript.v ===== *)
(** * The security test script ([scripts/test-security.ts])

    The script speaks the wire protocol with encoders of its own: its frames,
    tokens and WebSocket frames, the [Peer] that reads the server's answers
    from a socket, the fixture that runs a server around a test, and the run
    of the tests.  [readWsFrame] and [sendWsFrame] of [src/server/gateway.zig]
    are the other end of its WebSocket.  The tests themselves are sequences of
    requests to a live server and are not modelled. *)
From S2P Require Import Prelude Utf8 TypedArray JsText Command Protocol Wire WireServer Sct Effects.
From S2P Require WireTheorems.
#[local] Open Scope Z_scope.

(** ** Encoders *)

(** [writeUInt32BE], [writeBigUInt64BE] and [writeUInt16BE] refuse what does
    not fit. *)
Definition write_uint (n : nat) (v : Z) : res bytes :=
  if (0 <=? v) && (v <? 256 ^ Z.of_nat n) then Ok (be_bytes n v) else Throw RangeError.

Definition u32 (n : Z) : res bytes := write_uint 4 n.
Definition field (b : bytes) : res bytes := n ← u32 (len b); Ok (n ++ b).
Definition frame (id : Z) (payload : bytes) : res bytes :=
  n ← u32 (len payload); Ok ([id mod 256] ++ n ++ payload).

Section Token.
Context (sign : bytes → bytes).

(** A capability as it is listed: the one target given as a buffer is made of
    a text. *)
Definition cap_field (c : Capability) : res bytes :=
  f ← field (text_encode (pattern c)); Ok ([cap_op c mod 256; cap_match c mod 256] ++ f).
Fixpoint cap_list (caps : list Capability) : res bytes :=
  match caps with
  | [] => Ok []
  | c :: caps => b ← cap_field c; bs ← cap_list caps; Ok (b ++ bs)
  end.

Definition token (caps : list Capability) (ttl dateNow : Z) : res bytes :=
  let now := dateNow / 1000 in
  iat ← write_uint 8 now;
  exp ← write_uint 8 (now + ttl);
  sub ← field (text_encode (js "regression"));
  jti ← u32 1;
  list ← cap_list caps;
  let payload := (iat ++ exp) ++ sub ++ jti ++ [len caps mod 256] ++ list in
  Ok (payload ++ sign payload).

Definition admin : list Capability := [Cap 255 255 []].
Definition scoped : list Capability := [Cap 2 2 (js "tenant:"); Cap 1 2 (js "tenant:")].
End Token.

Definition set (key value : jsstr) : res bytes :=
  k ← field (text_encode key); v ← field (text_encode value); frame 2 ([0] ++ k ++ v).

(** The frames of the tests, as the commands they stand for *)
Fixpoint fields (l : list bytes) : res bytes :=
  match l with [] => Ok [] | b :: l => f ← field b; fs ← fields l; Ok (f ++ fs) end.
Definition script_frame (c : ParsedCommand) : option (res bytes) :=
  match c with
  | GET k => Some (f ← field (text_encode k); frame 1 f)
  | SET k v false => Some (set k v)
  | STATUS => Some (frame 4 [])
  | SUB ch None => Some (f ← field (text_encode ch); frame 6 f)
  | PUB ch m => Some (f ← fields [text_encode ch; text_encode m]; frame 8 f)
  | EXEC p args => Some (f ← field (text_encode p); n ← u32 (len args); fs ← fields (encode_arg <$> args); frame 9 (f ++ n ++ fs))
  | _ => None
  end.

(** [wsFrame]: six or eight bytes of header, the last four the mask, zero *)
Definition wsFrame (data : bytes) (opcode : Z) : res bytes :=
  let n := len data in
  if n <? 126 then Ok ([Z.lor 0x80 opcode; Z.lor 0x80 n; 0; 0; 0; 0] ++ data)
  else l ← write_uint 2 n; Ok ([Z.lor 0x80 opcode; Z.lor 0x80 126] ++ l ++ [0; 0; 0; 0] ++ data).

(** ** [Peer] *)

(** What happens to the socket: data, its end, or the deadline of the read *)
Inductive arrival := Data (d : bytes) | Closed | Expired.
Record Peer := MakePeer { data : bytes; closed : bool }.

(** [read(n)]; [None] while it waits. *)
Fixpoint read (n : Z) (events : list arrival) (p : Peer) : option (res bytes * list arrival * Peer) :=
  if n <=? len (data p) then
    Some (Ok (take (Z.to_nat n) (data p)), events, MakePeer (drop (Z.to_nat n) (data p)) (closed p))
  else if closed p then
    Some (Throw (Error (js "closed with " ++ show (len (data p)) ++ js "/" ++ show n ++ js " bytes")), events, p)
  else
    match events with
    | [] => None
    | Data d :: events => read n events (MakePeer (data p ++ d) (closed p))
    | Closed :: events => read n events (MakePeer (data p) true)
    | Expired :: events => Some (Throw (Error (js "read timed out")), events, p)
    end.

(** Reads in a row *)
Definition reading (A : Type) : Type := list arrival → Peer → option (res A * list arrival * Peer).
#[export] Instance reading_ret : MRet reading := λ A a events p, Some (Ok a, events, p).
#[export] Instance reading_bind : MBind reading := λ A B f m events p,
  match m events p with
  | Some (Ok a, events, p) => f a events p
  | Some (Throw e, events, p) => Some (Throw e, events, p)
  | None => None
  end.

Definition response : reading (Z * bytes) :=
  h ← read 5;
  body ← read (be_value 0 (slice h 1 5));
  mret (byte_at h 0, body).

(** The code of an empty payload is undefined. *)
Definition wsResponse : reading (option Z * bytes) :=
  h ← read 2;
  let size := Z.land (byte_at h 1) 127 in
  size ← (if size =? 126 then b ← read 2; mret (be_value 0 b) else mret size : reading Z);
  size ← (if size =? 127 then b ← read 8; mret (be_value 0 b) else mret size : reading Z);
  payload ← read size;
  mret (head payload, drop 5 payload).

(** ** The other end of the WebSocket ([src/server/gateway.zig]) *)

Fixpoint unmask (i : nat) (mask payload : bytes) : bytes :=
  match payload with
  | [] => []
  | b :: payload => Z.lxor b (nth (i mod 4) mask 0) :: unmask (S i) mask payload
  end.

Definition split_at (n : Z) (input : bytes) : option (bytes * bytes) :=
  if n <=? len input then Some (take (Z.to_nat n) input, drop (Z.to_nat n) input) else None.

(** The opcode, the payload and the rest of the input *)
Definition readWsFrame (input : bytes) : option (Z * bytes * bytes) :=
  '(header, input) ← split_at 2 input;
  let opcode := Z.land (byte_at header 0) 0x0F in
  let masked := negb (Z.land (byte_at header 1) 0x80 =? 0) in
  let payload_len := Z.land (byte_at header 1) 0x7F in
  '(payload_len, input) ←
    (if payload_len =? 126 then '(ext, input) ← split_at 2 input; Some (be_value 0 ext, input)
     else if payload_len =? 127 then '(ext, input) ← split_at 8 input; Some (be_value 0 ext, input)
     else Some (payload_len, input));
  if 16 * 1024 * 1024 <? payload_len then None else
  '(mask_key, input) ← (if masked then split_at 4 input else Some ([], input));
  '(buf, input) ← split_at payload_len input;
  Some (opcode, if masked then unmask 0 mask_key buf else buf, input).

Definition sendWsFrame (opcode : Z) (payload : bytes) : bytes :=
  let n := len payload in
  [Z.lor 0x80 opcode] ++
  (if n <? 126 then [n] else if n <=? 65535 then 126 :: be_bytes 2 n else 127 :: be_bytes 8 n) ++ payload.

(** ** Facts *)

Lemma write_uint_ok n v : 0 ≤ v < 256 ^ Z.of_nat n → write_uint n v = Ok (be_bytes n v).
Proof. intros [H0 H1]. unfold write_uint. destruct (Z.leb_spec 0 v); [|lia]. by destruct (Z.ltb_spec v (256 ^ Z.of_nat n)); [|lia]. Qed.
Lemma field_ok b : len b < 2 ^ 32 → field b = Ok (lp b).
Proof. intros Hb. unfold field, u32. rewrite write_uint_ok; [done|]. note_len. change (256 ^ Z.of_nat 4) with (2 ^ 32). lia. Qed.
Lemma frame_ok id p : 0 ≤ id < 256 → len p < 2 ^ 32 → frame id p = Ok (frame_of id p).
Proof.
  intros Hid Hp. unfold frame, u32. rewrite write_uint_ok; [|note_len; change (256 ^ Z.of_nat 4) with (2 ^ 32); lia].
  cbn [mbind res_bind app]. by rewrite Z.mod_small.
Qed.
Lemma fields_ok l : Forall (λ b, len b < 2 ^ 32) l → fields l = Ok (l ≫= lp).
Proof.
  induction 1 as [|b l Hb _ IH]; [done|]. cbn [fields]. rewrite field_ok, IH by done. done.
Qed.

(** *** Frames *)

(** The frames the script writes are those of the client. *)
Lemma script_frame_client c r f : script_frame c = Some r → encodeCommandFrame c = Ok f → r = Ok f.
Proof.
  intros Hr Hf. rewrite layout in Hf. unfold framed in Hf. case_ztest_in Hf; [done|]. injection Hf as <-.
  unfold MAX_PAYLOAD in *.
  destruct c as [k| |ch [f|]| | | | |k v []|ch m|p args| |]; try done; injection Hr as <-; cbn [payload_of fst snd] in *;
    unfold encodeUtf8 in *; autorewrite with len in *; note_len.
  - rewrite field_ok by lia. cbn [mbind res_bind]. by rewrite frame_ok by len_tac.
  - rewrite field_ok by lia. cbn [mbind res_bind]. rewrite app_nil_r. by rewrite frame_ok by len_tac.
  - by rewrite frame_ok by len_tac.
  - unfold set. rewrite !field_ok by lia. cbn [mbind res_bind]. by rewrite frame_ok by len_tac.
  - rewrite !field_ok by lia. cbn [mbind res_bind]. rewrite app_nil_r. by rewrite frame_ok by len_tac.
  - pose proof (len_args_le (encode_arg <$> args)) as Ha. autorewrite with len in Ha.
    pose proof (args_layout args) as E.
    rewrite E in Ha. note_len.
    rewrite field_ok by lia. unfold u32. rewrite write_uint_ok by (change (256 ^ Z.of_nat 4) with (2 ^ 32); lia).
    rewrite fields_ok.
    2: { apply Forall_forall. intros b Hb. pose proof (len_lp_le b _ Hb) as Hl. rewrite E in Hl. autorewrite with len in Hl. lia. }
    cbn [mbind res_bind]. rewrite E. by rewrite frame_ok by len_tac.
Qed.

Lemma script_auth token f : encodeAuth token = Ok f → (t ← field token; frame 12 t) = Ok f.
Proof.
  unfold encodeAuth, writeUint32BE. cbv zeta. note_len. fill. rewrite writeFrame_spec. unfold framed.
  rewrite filling_done by len_tac. change (([] ++ ?a) ++ ?b) with (a ++ b). fold (lp token).
  case_ztest; [done|]. unfold MAX_PAYLOAD in *. intros E. injection E as E. rewrite <- E. clear E. autorewrite with len in *.
  rewrite field_ok by lia. cbn [mbind res_bind]. by rewrite frame_ok by len_tac.
Qed.

(** *** Tokens *)

Lemma cap_list_ok caps : Forall (λ c, len (text_encode (pattern c)) < 2 ^ 32) caps → cap_list caps = Ok (caps ≫= cap_layout).
Proof.
  induction 1 as [|c caps Hc _ IH]; [done|]. cbn [cap_list]. unfold cap_field. rewrite field_ok by done.
  cbn [mbind res_bind]. by rewrite IH.
Qed.

Section Accepted.
Context (sign : bytes → bytes) (verify : bytes → bytes → bool).
Context (Hsign : ∀ p, len (sign p) = 64) (Hverify : ∀ p, verify (sign p) p = true).

(** The server accepts the tokens of the script and reads in them the
    capabilities listed. *)
Lemma script_token_accepted caps caps' ttl dateNow now max_age :
  mapM read_cap caps = Some caps' → len caps < 256 →
  Forall (λ c, len (text_encode (pattern c)) < 2 ^ 32) caps →
  0 ≤ dateNow → 0 < ttl → dateNow / 1000 ≤ now + 60 → 0 ≤ now < dateNow / 1000 + ttl → dateNow / 1000 + ttl < 2 ^ 64 →
  (max_age = 0 ∨ ttl ≤ max_age) →
  ∃ t, token sign caps ttl dateNow = Ok t ∧
    verifyAndParse verify t now max_age =
      inl (Token (text_encode (js "regression")) (dateNow / 1000) (dateNow / 1000 + ttl) 1 caps').
Proof.
  intros Hc Hn Hp Hd Httl Hs Hnow Hexp Hage. assert (0 ≤ dateNow / 1000) by (apply Z.div_pos; lia).
  eexists. split.
  { unfold token. rewrite !(write_uint_ok 8) by (change (256 ^ Z.of_nat 8) with (2 ^ 64); lia).
    rewrite (field_ok (text_encode (js "regression"))) by (by vm_compute). unfold u32. rewrite (write_uint_ok 4) by done.
    rewrite cap_list_ok by done. cbn [mbind res_bind]. rewrite <- app_assoc. reflexivity. }
  pose proof (payload_verdict sign verify Hsign Hverify (text_encode (js "regression")) (dateNow / 1000) (dateNow / 1000 + ttl) 1
    caps caps' now max_age Hc Hn ltac:(by vm_compute) Hp ltac:(lia) ltac:(lia) ltac:(lia)) as Hv. cbn zeta in Hv.
  unfold sct_payload in Hv. etransitivity; [exact Hv|]. unfold verdict. cbn [exp iat].
  destruct (Z.leb_spec (dateNow / 1000 + ttl) now); [lia|]. destruct (Z.ltb_spec (now + 60) (dateNow / 1000)); [lia|].
  destruct (Z.ltb_spec 0 max_age); [|done]. by destruct (Z.ltb_spec max_age (dateNow / 1000 + ttl - dateNow / 1000)); [lia|].
Qed.
End Accepted.

(** *** The WebSocket *)

Lemma mask_bit n : 0 ≤ n < 128 → Z.land (Z.lor 0x80 n) 0x7F = n ∧ (Z.land (Z.lor 0x80 n) 0x80 =? 0) = false.
Proof.
  intros Hn. assert (Forall (λ n, Z.land (Z.lor 0x80 n) 0x7F = n ∧ (Z.land (Z.lor 0x80 n) 0x80 =? 0) = false) (seqZ 0 128)) as H.
  { apply (bool_decide_unpack _). by vm_compute. }
  rewrite Forall_forall in H. apply H, elem_of_seqZ. lia.
Qed.
Lemma low_bits n : 0 ≤ n < 128 → Z.land n 127 = n.
Proof. intros Hn. change 127 with (Z.ones 7). rewrite Z.land_ones by lia. by apply Z.mod_small. Qed.
Lemma opcode_bits o : 0 ≤ o < 16 → Z.land (Z.lor 0x80 o) 0x0F = o.
Proof.
  intros Ho. assert (Forall (λ o, Z.land (Z.lor 0x80 o) 0x0F = o) (seqZ 0 16)) as H by (apply (bool_decide_unpack _); by vm_compute).
  rewrite Forall_forall in H. apply H, elem_of_seqZ. lia.
Qed.

Lemma unmask_zero i p : unmask i [0; 0; 0; 0] p = p.
Proof.
  revert i. induction p as [|b p IH]; intros i; [done|]. cbn [unmask]. rewrite IH.
  assert (nth (i mod 4) [0; 0; 0; 0] 0 = 0) as ->; [|by rewrite Z.lxor_0_r].
  destruct (i mod 4)%nat as [|[|[|[|n]]]]; try done. by destruct n.
Qed.

Lemma split_at_app n a b : n = len a → split_at n (a ++ b) = Some (a, b).
Proof.
  intros ->. unfold split_at. rewrite len_app. note_len. destruct (Z.leb_spec (len a) (len a + len b)); [|lia].
  unfold len. by rewrite Nat2Z.id, take_app_length, drop_app_length.
Qed.

(** The gateway reads what the script writes on a WebSocket. *)
Lemma gateway_reads data opcode f rest : 0 ≤ opcode < 16 → wsFrame data opcode = Ok f →
  readWsFrame (f ++ rest) = Some (opcode, data, rest).
Proof.
  intros Ho Hf. unfold wsFrame in Hf. note_len. destruct (Z.ltb_spec (len data) 126).
  - assert (f = [Z.lor 0x80 opcode; Z.lor 0x80 (len data)] ++ [0; 0; 0; 0] ++ data) as -> by (by injection Hf as <-).
    rewrite <- !app_assoc. unfold readWsFrame.
    destruct (mask_bit (len data)) as [Hl Hm]; [lia|].
    rewrite split_at_app by done. cbn [mbind option_bind]. change (byte_at [?a; ?b] 1) with b. change (byte_at [?a; ?b] 0) with a.
    rewrite opcode_bits, Hl, Hm by done. cbn [negb]. destruct (Z.eqb_spec (len data) 126); [lia|].
    destruct (Z.eqb_spec (len data) 127); [lia|]. cbn [mbind option_bind].
    destruct (Z.ltb_spec (16 * 1024 * 1024) (len data)); [lia|].
    rewrite split_at_app by done. cbn [mbind option_bind]. rewrite split_at_app by done. cbn [mbind option_bind]. by rewrite unmask_zero.
  - unfold write_uint in Hf. destruct (Z.leb_spec 0 (len data)); [|lia]. change (256 ^ Z.of_nat 2) with 65536 in Hf.
    destruct (Z.ltb_spec (len data) 65536); [|done].
    assert (f = [Z.lor 0x80 opcode; Z.lor 0x80 126] ++ be_bytes 2 (len data) ++ [0; 0; 0; 0] ++ data) as -> by (by injection Hf as <-).
    rewrite <- !app_assoc. unfold readWsFrame.
    destruct (mask_bit 126) as [Hl Hm]; [lia|].
    rewrite split_at_app by done. cbn [mbind option_bind]. change (byte_at [?a; ?b] 1) with b. change (byte_at [?a; ?b] 0) with a.
    rewrite opcode_bits, Hl, Hm by done. cbn [negb Z.eqb Pos.eqb].
    rewrite split_at_app by (by rewrite len_be_bytes). cbn [mbind option_bind]. rewrite be_value_bytes, Z.mod_small by done.
    destruct (Z.ltb_spec (16 * 1024 * 1024) (len data)); [lia|].
    rewrite split_at_app by done. cbn [mbind option_bind]. rewrite split_at_app by done. cbn [mbind option_bind]. by rewrite unmask_zero.
Qed.

(** *** Reading *)

(** However what comes is cut, [read] takes its next bytes, and the rest
    stays for the reads that follow. *)
Lemma read_any_segmentation chunks more d a rest : d ++ concat chunks = a ++ rest →
  ∃ chunks' d', read (len a) ((Data <$> chunks) ++ more) (MakePeer d false) = Some (Ok a, (Data <$> chunks') ++ more, MakePeer d' false) ∧
    d' ++ concat chunks' = rest.
Proof.
  revert d. induction chunks as [|c chunks IH]; intros d E.
  - exists [], rest. cbn [concat] in E. rewrite app_nil_r in E. subst d. cbn [fmap list_fmap app]. 
    assert (∀ ev, read (len a) ev (MakePeer (a ++ rest) false) = Some (Ok a, ev, MakePeer rest false)) as H.
    { intros ev. assert (len a <=? len (a ++ rest) = true) as Hl by (rewrite len_app; note_len; apply Z.leb_le; lia).
      destruct ev; cbn [read data]; rewrite Hl; cbn [closed]; unfold len; by rewrite Nat2Z.id, take_app_length, drop_app_length. }
    split; [apply H|]. by rewrite app_nil_r.
  - cbn [fmap list_fmap app read data closed]. destruct (Z.leb_spec (len a) (len d)) as [Hl|Hl].
    + exists (c :: chunks), (drop (length a) d). unfold len. rewrite Nat2Z.id. unfold len in Hl.
      assert (take (length a) d = a) as Ha.
      { pose proof (f_equal (take (length a)) E) as E'. rewrite take_app_le, take_app_length in E' by lia. done. }
      rewrite Ha. split; [done|]. pose proof (f_equal (drop (length a)) E) as E'.
      rewrite drop_app_le, drop_app_length in E' by lia. done.
    + apply IH. cbn [concat] in E. by rewrite <- app_assoc.
Qed.

Lemma read_from n a chunks more d rest : n = len a → d ++ concat chunks = a ++ rest →
  ∃ chunks' d', read n ((Data <$> chunks) ++ more) (MakePeer d false) = Some (Ok a, (Data <$> chunks') ++ more, MakePeer d' false) ∧
    d' ++ concat chunks' = rest.
Proof. intros ->. apply read_any_segmentation. Qed.

(** The next field of what comes, of length [n] *)
Ltac next_read n a :=
  match goal with E : ?d ++ concat ?cs = a ++ ?r |- context [read n ((Data <$> ?cs) ++ ?more) (MakePeer ?d false)] =>
    let cs' := fresh "cs" in let d' := fresh "d" in let E' := fresh "E" in let R := fresh "R" in
    destruct (read_from n a cs more d r) as (cs' & d' & R & E'); [|exact E|rewrite R; clear R E]
  end.

(** [response()] reads a frame. *)
Lemma response_reads chunks more d c p rest : len p < 2 ^ 32 → d ++ concat chunks = frame_of c p ++ rest →
  ∃ chunks' d', response ((Data <$> chunks) ++ more) (MakePeer d false) = Some (Ok (c, p), (Data <$> chunks') ++ more, MakePeer d' false) ∧
    d' ++ concat chunks' = rest.
Proof.
  intros Hp E. note_len.
  assert (d ++ concat chunks = ([c] ++ be_bytes 4 (len p)) ++ p ++ rest) as E' by (rewrite E; unfold frame_of; cbn; by rewrite <- app_assoc).
  clear E. unfold response. unfold mbind, reading_bind.
  next_read 5 ([c] ++ be_bytes 4 (len p)); [by rewrite len_app, len_be_bytes|].
  rewrite <- (app_nil_r ([c] ++ _)), <- app_assoc, slice_mid by (rewrite ?len_be_bytes; done).
  rewrite be_value_bytes, Z.mod_small by (change (256 ^ Z.of_nat 4) with (2 ^ 32); lia).
  next_read (len p) p; [done|]. by eexists _, _.
Qed.

(** [wsResponse()] reads a WebSocket frame of the gateway, but one of 127
    bytes. *)
Lemma wsResponse_reads chunks more d out rest : len out ≠ 127 → len out < 2 ^ 63 →
  d ++ concat chunks = sendWsFrame 2 out ++ rest →
  ∃ chunks' d', wsResponse ((Data <$> chunks) ++ more) (MakePeer d false) =
      Some (Ok (head out, drop 5 out), (Data <$> chunks') ++ more, MakePeer d' false) ∧
    d' ++ concat chunks' = rest.
Proof.
  intros H127 Hmax E. note_len. unfold sendWsFrame in E. unfold wsResponse, mbind, reading_bind, mret, reading_ret.
  destruct (Z.ltb_spec (len out) 126).
  - assert (d ++ concat chunks = [130; len out] ++ out ++ rest) as E' by (by rewrite E). clear E.
    next_read 2 [130; len out]; [done|]. change (byte_at [130; len out] 1) with (len out). rewrite low_bits by lia.
    destruct (Z.eqb_spec (len out) 126); [lia|]. destruct (Z.eqb_spec (len out) 127); [lia|].
    next_read (len out) out; [done|]. by eexists _, _.
  - destruct (Z.leb_spec (len out) 65535).
    + assert (d ++ concat chunks = [130; 126] ++ be_bytes 2 (len out) ++ out ++ rest) as E' by (rewrite E; cbn; by rewrite <- app_assoc).
      clear E. next_read 2 [130; 126]; [done|]. change (Z.land (byte_at [130; 126] 1) 127) with 126. cbn [Z.eqb Pos.eqb].
      next_read 2 (be_bytes 2 (len out)); [by rewrite len_be_bytes|].
      rewrite be_value_bytes, Z.mod_small by (change (256 ^ Z.of_nat 2) with 65536; lia).
      destruct (Z.eqb_spec (len out) 127); [lia|]. next_read (len out) out; [done|]. by eexists _, _.
    + assert (d ++ concat chunks = [130; 127] ++ be_bytes 8 (len out) ++ out ++ rest) as E' by (rewrite E; cbn; by rewrite <- app_assoc).
      clear E. next_read 2 [130; 127]; [done|]. change (Z.land (byte_at [130; 127] 1) 127) with 127. cbn [Z.eqb Pos.eqb].
      next_read 8 (be_bytes 8 (len out)); [by rewrite len_be_bytes|].
      rewrite be_value_bytes, Z.mod_small by (change (256 ^ Z.of_nat 8) with (2 ^ 64); lia).
      next_read (len out) out; [done|]. by eexists _, _.
Qed.

(** A response of 127 bytes is misread: the length that comes in the two bytes
    after the header is taken for the mark of an eight-byte length, and the
    script waits for more than there is. *)
Lemma ws_127_misread : ∃ out, writeResponse (RespValue (Some (replicate 122 120))) = ZOk out ∧ len out = 127 ∧
  wsResponse [Data (sendWsFrame 2 out)] (MakePeer [] false) = None.
Proof. eexists. split; [done|]. split; by vm_compute. Qed.

(** A request of 65536 bytes cannot be written. *)
Lemma ws_long_request opcode : wsFrame (replicate 65536 0) opcode = Throw RangeError.
Proof.
  unfold wsFrame. rewrite len_replicate. change (Z.of_nat 65536) with 65536. cbn [Z.ltb Z.compare Pos.compare Pos.compare_cont].
  unfold write_uint. by change (256 ^ Z.of_nat 2) with 65536.
Qed.

(** *** An exchange over the WebSocket *)

(** C28: What the security script sends over a WebSocket the gateway reads as
    the command it encodes, and what the server answers, however the stream is
    cut, the script reads as the code and the body of the response, unless the
    answer has exactly 127 bytes. *)
Theorem ws_exchange c r f g resp out chunks more rest tail :
  script_frame c = Some r → encodeCommandFrame c = Ok f → wsFrame f 2 = Ok g →
  writeResponse resp = ZOk out → Forall (λ d, len d < 2 ^ 32) (WireTheorems.response_fields resp) → len out ≠ 127 →
  concat chunks = sendWsFrame 2 out ++ tail →
  r = Ok f ∧ readWsFrame (g ++ rest) = Some (2, f, rest) ∧
  readFrame f = ZOk (server_command c, []) ∧
  ∃ code body chunks' d, out = frame_of code body ∧
    decodeResponse code body = Ok (WireTheorems.client_response resp) ∧
    wsResponse ((Data <$> chunks) ++ more) (MakePeer [] false) =
      Some (Ok (Some code, body), (Data <$> chunks') ++ more, MakePeer d false) ∧
    d ++ concat chunks' = tail.
Proof.
  intros Hs Hf Hg Hw Hl Hn Hc. split; [by eapply script_frame_client|]. split; [by apply gateway_reads|]. split.
  { rewrite <- (app_nil_r f). rewrite layout in Hf. apply WireTheorems.framed_ok in Hf as [-> Hp].
    destruct (parse_payload _ Hp) as (id & pos & Hid & Hparse). by eapply WireTheorems.readFrame_of. }
  destruct (WireTheorems.writeResponse_frame _ _ Hw Hl) as (code & p & -> & Hp & _ & Hd).
  destruct (wsResponse_reads chunks more [] (frame_of code p) tail) as (cs & d & E & Ht); [done| |done|].
  { unfold frame_of. len_tac. }
  exists code, p, cs, d. split_and!; [done|done| |done]. rewrite E. unfold frame_of. cbn [head].
  do 4 f_equal.
Qed.

Lemma ws_exchange_witness :
  let f := frame_of 2 ([0] ++ lp (text_encode (js "tenant:k")) ++ lp (text_encode (js "value"))) in
  let out := frame_of 3 (text_encode (js "auth required")) in
  let g := [0x82; 0x80 + len f; 0; 0; 0; 0] ++ f in
  let chunks := [[0x82]; len out :: take 3 out; drop 3 out] in
  set (js "tenant:k") (js "value") = Ok f ∧
  readWsFrame (g ++ [1; 2]) = Some (2, f, [1; 2]) ∧
  readFrame f = ZOk (SSet (text_encode (js "tenant:k")) (text_encode (js "value")) false, []) ∧
  ∃ code body chunks' d, out = frame_of code body ∧ decodeResponse code body = Ok (error (js "auth required")) ∧
    wsResponse ((Data <$> chunks) ++ [Closed]) (MakePeer [] false) =
      Some (Ok (Some code, body), (Data <$> chunks') ++ [Closed], MakePeer d false) ∧
    d ++ concat chunks' = [].
Proof.
  cbv zeta. apply (ws_exchange (SET (js "tenant:k") (js "value") false) _ _ _ (RespErr (text_encode (js "auth required"))) _
    [[0x82]; _; _] [Closed] [1; 2] []).
  - reflexivity.
  - by vm_compute.
  - by vm_compute.
  - by vm_compute.
  - repeat constructor.
  - by vm_compute.
  - by vm_compute.
Defined.

(** ** Running the tests *)

(** The tests whose names have the text of the third argument in them *)
Definition selected {A} (filter : option jsstr) (tests : list (jsstr * A)) : list (jsstr * A) :=
  match filter with
  | Some (_ :: _ as t) => base.filter (λ x, includes x.1 t = true) tests
  | _ => tests
  end.

Record report := Report { passed : list jsstr; failed : list jsstr; exitCode : Z }.

Section Tests.
Context {W : Type}.

(** The loop: a test that throws is counted, and the next one runs. *)
Fixpoint run_tests (tests : list (jsstr * M W ())) : M W (list jsstr * list jsstr) :=
  match tests with
  | [] => mret ([], [])
  | (name, fn) :: tests =>
      ok ← catch (_ ← fn; mret true) (λ _, mret false);
      r ← run_tests tests;
      mret (if ok : bool then (name :: r.1, r.2) else (r.1, name :: r.2))
  end.

Definition run_selected (filter : option jsstr) (tests : list (jsstr * M W ())) : M W report :=
  match selected filter tests with
  | [] => of_result (Throw (Error (js "test filter matched nothing")))
  | sel => r ← run_tests sel; mret (Report r.1 r.2 (match r.2 with [] => 0 | _ => 1 end))
  end.

(** *** The fixture ([withServer]) *)

(** What the script does to its host: a fixture directory, whether a server
    runs in it, and the logs read from it *)
Record host := Host { dir : bool; child : bool; world : W }.

(** A free port, the writing of the configuration, a start of the server (it
    throws when the server is not ready in time), and the removal of the
    directory; what happens in the world is theirs.  [with_logs] adds the
    server's logs to an error. *)
Context (port : M W Z) (writeConfig : Z → Z → M W ()) (ready : M W ()) (removed : M W ()) (with_logs : exn → exn).

Definition inside {A} (m : M W A) : M host A := λ h n,
  let '(r, w, n) := m (world h) n in (r, Host (dir h) (child h) w, n).
Definition set_dir (b : bool) : M host () := λ h n, (Ok tt, Host b (child h) (world h), n).
Definition set_child (b : bool) : M host () := λ h n, (Ok tt, Host (dir h) b (world h), n).

(** [child.kill(); await exited] *)
Definition kill : M host () := set_child false.
Definition restart : M host () := _ ← kill; _ ← set_child true; inside ready.

Definition withServer (action : Z → Z → M host () → M host ()) : M host () :=
  _ ← set_dir true;
  tcp ← inside port;
  ws ← inside port;
  _ ← inside (writeConfig tcp ws);
  _ ← set_child true;
  finally (_ ← inside ready; catch (action tcp ws restart) (λ e, of_result (Throw (with_logs e))))
    (_ ← kill; _ ← inside removed; set_dir false).

(** *** Facts *)

(** The script exits with zero exactly when every test it selected passed. *)
Lemma run_tests_counts tests w n r w' n' : run_tests tests w n = (Ok r, w', n') → r.1 ++ r.2 ≡ₚ tests.*1.
Proof.
  revert w n r w' n'. induction tests as [|[name fn] tests IH]; intros w n r w' n' E; [by injection E as <- _ _|].
  cbn [run_tests] in E. unfold mbind, M_bind, catch, mret, M_ret in E. destruct (fn w n) as [[[[]|e] w1] n1] eqn:Ef.
  - destruct (run_tests tests w1 n1) as [[[r1|e] w2] n2] eqn:Er; [|done]. injection E as <- _ _. cbn. by rewrite (IH _ _ _ _ _ Er).
  - destruct (run_tests tests w1 n1) as [[[r1|e'] w2] n2] eqn:Er; [|done]. injection E as <- _ _. cbn.
    rewrite <- Permutation_middle. by rewrite (IH _ _ _ _ _ Er).
Qed.

Lemma run_tests_ends tests w n : ∃ r w' n', run_tests tests w n = (Ok r, w', n').
Proof.
  revert w n. induction tests as [|[name fn] tests IH]; intros w n; [by eexists _, _, _|].
  cbn [run_tests]. unfold mbind, M_bind, catch, mret, M_ret. destruct (fn w n) as [[[[]|e] w1] n1];
    destruct (IH w1 n1) as (r & w2 & n2 & ->); by eexists _, _, _.
Qed.

Lemma exit_code filter tests w n : selected filter tests ≠ [] →
  ∃ r w' n', run_selected filter tests w n = (Ok r, w', n') ∧ passed r ++ failed r ≡ₚ (selected filter tests).*1 ∧
    (exitCode r = 0 ↔ passed r ≡ₚ (selected filter tests).*1).
Proof.
  intros Hne. unfold run_selected. destruct (run_tests_ends (selected filter tests) w n) as (r & w' & n' & E).
  destruct (selected filter tests) as [|t sel] eqn:Es; [done|]. rewrite <- Es in *.
  pose proof (run_tests_counts _ _ _ _ _ _ E) as Hp. exists (Report r.1 r.2 (match r.2 with [] => 0 | _ => 1 end)), w', n'.
  split; [unfold mbind, M_bind; by rewrite E|]. cbn. split; [done|]. split.
  - intros Hx. destruct r.2; [|done]. by rewrite app_nil_r in Hp.
  - intros Hx. rewrite <- Hp in Hx. apply Permutation_length in Hx. rewrite length_app in Hx. destruct r.2; [done|]. cbn in Hx. lia.
Qed.

Lemma cleanup (m : M host ()) h n r h' n' : (∀ w n, ∃ w' n', removed w n = (Ok tt, w', n')) →
  finally m (_ ← kill; _ ← inside removed; set_dir false) h n = (r, h', n') → child h' = false ∧ dir h' = false.
Proof.
  intros Hrm E. unfold finally in E. destruct (m h n) as [[r1 h1] n1].
  destruct (Hrm (world h1) n1) as (w2 & n2 & Er).
  unfold mbind, M_bind, kill, inside, set_dir, set_child in E. cbn in E. rewrite Er in E. by injection E as _ <- _.
Qed.

(** Whatever the test does, no server is left running, and the directory goes
    with it. *)
Lemma fixture_cleans action h n r h' n' : withServer action h n = (r, h', n') →
  (∀ w n, ∃ w' n', removed w n = (Ok tt, w', n')) →
  (child h' = child h ∧ dir h' = true) ∨ (child h' = false ∧ dir h' = false).
Proof.
  intros E Hrm. unfold withServer in E.
  unfold mbind at 1 2 3 4 5, M_bind at 1 2 3 4 5, set_dir at 1, inside at 1 2 3, set_child at 1 in E. cbn -[finally] in E.
  destruct (port (world h) n) as [[[tcp|e] w1] n1]; [|injection E as _ <- _; by left]. cbn -[finally] in E.
  destruct (port w1 n1) as [[[ws|e] w2] n2]; [|injection E as _ <- _; by left]. cbn -[finally] in E.
  destruct (writeConfig tcp ws w2 n2) as [[[[]|e] w3] n3]; [|injection E as _ <- _; by left]. cbn -[finally] in E.
  right. by eapply cleanup.
Qed.
End Tests.
Arguments host : clear implicits.

(** When no port is found the directory stays. *)
Lemma fixture_leaks : ∃ h',
  (withServer (W := ()) (of_result (Throw (Error []))) (λ _ _, mret tt) (mret tt) (mret tt) id (λ _ _ _, mret tt)
    (Host false false tt) 0%nat).1.2 = h' ∧ dir h' = true.
Proof. by eexists. Qed.
