(* ===== verification/Argv.v ===== *)
(** * Options of a command line

    The loop over [argv] that the scripts share: an option takes the next
    argument, [""] past the end; [other] is what any other argument does. *)
From S2P Require Import Prelude.

Fixpoint parse_with {A} (option_of : jsstr → option (jsstr → A → A)) (other : jsstr → A → A) (argv : list jsstr) (a : A) : A :=
  match argv with
  | [] => a
  | t :: rest =>
      match option_of t with
      | Some f => match rest with [] => f [] a | v :: rest => parse_with option_of other rest (f v a) end
      | None => parse_with option_of other rest (other t a)
      end
  end.

(** An option and its argument, wherever they stand among pairs of this form *)
Lemma parse_with_pair {A} (option_of : jsstr → option (jsstr → A → A)) other t v f rest a :
  option_of t = Some f → parse_with option_of other (t :: v :: rest) a = parse_with option_of other rest (f v a).
Proof. intros H. cbn. by rewrite H. Qed.
