(* ===== verification/Embedder.v ===== *)
(** * The hash embedder ([examples/agent-memory/fixtures/embedder.ts])

    A text becomes a vector: its words are hashed into buckets with a sign,
    and the counts are scaled to length one.  Counts are kept as integers,
    exact as floats while a text has fewer than [2 ^ 24] words; [Math.sqrt]
    is a parameter.  For even dimensions the sign turns out to be decided by
    the bucket. *)
From Stdlib Require Import QArith.
From S2P Require Import Prelude Utf8 JsText Number VectorBench VectorTruth.
#[local] Open Scope Z_scope.

Definition FNV_OFFSET : Z := 2166136261.
Definition FNV_PRIME : Z := 16777619.
Definition U32_MASK : Z := 0xffffffff.

Definition fnv_step (h b : Z) : Z := Z.land (Z.lxor h b * FNV_PRIME) U32_MASK.
Definition fnv1a (seed : Z) (bs : bytes) : Z := foldl fnv_step seed bs.

(** ** Words *)

Definition word_char (c : Z) : bool := ((97 <=? c) && (c <=? 122)) || is_digit c.

(** The pieces between the characters that are in no word; with the empty
    ones dropped these are the pieces [split(/[^a-z0-9]+/)] leaves. *)
Fixpoint pieces (cur s : jsstr) : list jsstr :=
  match s with
  | [] => [cur]
  | c :: s => if word_char c then pieces (cur ++ [c]) s else cur :: pieces [] s
  end.

Section Embedder.
Context {UD : UnicodeData}.
Context (sqrt : Q → Q).

Definition tokenize (text : jsstr) : list jsstr :=
  base.filter (λ t, t ≠ []) (pieces [] (toLowerCase text)).

(** ** Vectors *)

Definition bucket (dim : Z) (token : jsstr) : Z := fnv1a FNV_OFFSET (text_encode token) mod dim.
Definition sign (token : jsstr) : Z :=
  if Z.land (fnv1a (Z.lxor FNV_OFFSET 0x9e3779b9) (text_encode token)) 1 =? 0 then 1 else -1.

Definition add_token (dim : Z) (vec : list Z) (token : jsstr) : list Z :=
  alter (λ x, x + sign token) (Z.to_nat (bucket dim token)) vec.

(** The counts, for a dimension from one *)
Definition counts (dim : Z) (tokens : list jsstr) : list Z :=
  match tokens with
  | [] => 1 :: replicate (Z.to_nat (dim - 1)) 0
  | _ => foldl (add_token dim) (replicate (Z.to_nat dim) 0) tokens
  end.

Definition norm (vec : list Z) : Z := foldl (λ n x, n + x * x) 0 vec.

Definition normalize (vec : list Z) : list Q :=
  let inv := (if 0 <? norm vec then rnd (1 / sqrt (inject_Z (norm vec))) else 0)%Q in
  (λ x, f32 (rnd (inject_Z x * inv)%Q)) <$> vec.

Definition embed (text : jsstr) (dim : option Z) : list Q :=
  let dim := default 128 dim in normalize (counts dim (tokenize text)).

Definition embedderId (dim : option Z) : jsstr :=
  js "hash-fnv1a.dim-" ++ show (default 128 dim) ++ js ".v1".
End Embedder.

(** ** Words *)

Lemma pieces_app w cur s : Forall (λ c, word_char c = true) w → pieces cur (w ++ s) = pieces (cur ++ w) s.
Proof.
  intros Hw. revert cur. induction Hw as [|c w Hc _ IH]; intros cur; [by rewrite app_nil_r|].
  cbn [app pieces]. rewrite Hc, IH. by rewrite <- app_assoc.
Qed.

Definition plain_word (w : jsstr) : Prop := w ≠ [] ∧ Forall (λ c, word_char c = true) w.
#[export] Instance plain_word_dec w : Decision (plain_word w).
Proof. unfold plain_word. apply _. Defined.

(** A unit below 128 that is no capital *)
Definition plain_unit (c : Z) : Prop := 0 ≤ c < 128 ∧ ¬ 65 <= c <= 90.

Lemma word_char_plain c : word_char c = true → plain_unit c.
Proof. unfold word_char, is_digit, plain_unit. lia. Qed.

Lemma lower_plain {UD : UnicodeData} s : Forall plain_unit s → toLowerCase s = s.
Proof.
  intros Hs. unfold toLowerCase. rewrite iterate_ascii by (eapply Forall_impl; [exact Hs|]; unfold plain_unit; cbn; lia).
  unfold units. induction Hs as [|c s Hc _ IH]; [done|]. destruct Hc as [Hr Hu].
  cbn [mbind list_bind]. unfold lower_cp at 1. replace (c <? 128) with true by lia.
  replace ((65 <=? c) && (c <=? 90)) with false by lia. cbn [app mbind list_bind].
  unfold units_of_cp at 1. replace (c <? 0x10000) with true by lia. cbn [app]. f_equal. exact IH.
Qed.

Lemma join_plain ws : Forall plain_word ws → Forall plain_unit (join (js " ") ws).
Proof.
  induction 1 as [|w ws [_ Hw] _ IH]; [constructor|].
  assert (Forall plain_unit w) as H1 by (eapply Forall_impl; [exact Hw|]; intros; by apply word_char_plain).
  destruct ws; [done|]. rewrite join_cons2. apply Forall_app. split; [done|].
  apply Forall_app. split; [|done]. change (js " ") with [32]. apply Forall_singleton. unfold plain_unit. lia.
Qed.

Lemma pieces_join ws : Forall plain_word ws → ws ≠ [] → pieces [] (join (js " ") ws) = ws.
Proof.
  induction 1 as [|w ws [_ Hw] _ IH]; [done|]. intros _. destruct ws as [|w' ws].
  - rewrite <- (app_nil_r (join _ [w])). by rewrite pieces_app.
  - rewrite join_cons2, pieces_app by done. change (js " ") with [32]. cbn [app pieces]. unfold word_char, is_digit.
    cbn [Z.leb Z.compare andb orb]. f_equal. by apply IH.
Qed.

(** A text of lower-case words separated by spaces has these words. *)
Lemma tokenize_join {UD : UnicodeData} ws : Forall plain_word ws → tokenize (join (js " ") ws) = ws.
Proof.
  intros Hws. unfold tokenize. rewrite lower_plain by by apply join_plain.
  destruct ws as [|w ws]; [done|]. rewrite pieces_join by done. apply filter_all.
  eapply Forall_impl; [exact Hws|]. by intros ? [? _].
Qed.

(** ** Hashes *)

Lemma fnv1a_range seed bs : 0 ≤ seed < 2 ^ 32 → 0 ≤ fnv1a seed bs < 2 ^ 32.
Proof.
  unfold fnv1a. revert seed. induction bs as [|b bs IH]; intros seed Hs; [done|]. apply IH. unfold fnv_step.
  change U32_MASK with (Z.ones 32). rewrite Z.land_ones by lia. apply Z.mod_pos_bound. lia.
Qed.

(** The low bit of a step is that of its two inputs: the prime is odd. *)
Lemma fnv_step_odd h b : Z.odd (fnv_step h b) = xorb (Z.odd h) (Z.odd b).
Proof.
  unfold fnv_step. rewrite <- !Z.bit0_odd, Z.land_spec. change (Z.testbit U32_MASK 0) with true. rewrite andb_true_r, Z.bit0_odd.
  rewrite Z.odd_mul. change (Z.odd FNV_PRIME) with true. rewrite andb_true_r, <- Z.bit0_odd. apply Z.lxor_spec.
Qed.

Lemma fnv1a_odd seed bs : Z.odd (fnv1a seed bs) = xorb (Z.odd seed) (Z.odd (fnv1a 0 bs)).
Proof.
  assert (∀ h h', xorb (Z.odd (fnv1a h bs)) (Z.odd (fnv1a h' bs)) = xorb (Z.odd h) (Z.odd h')) as H.
  { unfold fnv1a. induction bs as [|b bs IH]; intros h h'; [done|]. cbn [foldl]. rewrite IH, !fnv_step_odd.
    by destruct (Z.odd h), (Z.odd h'), (Z.odd b). }
  specialize (H seed 0). change (Z.odd 0) with false in H. revert H. by destruct (Z.odd _), (Z.odd _), (Z.odd seed).
Qed.

Lemma odd_mod_even a d : 0 < d → Z.even d = true → Z.odd (a mod d) = Z.odd a.
Proof.
  intros Hd He. rewrite Z.mod_eq by lia. rewrite Z.odd_sub, Z.odd_mul.
  assert (Z.odd d = false) as -> by by rewrite <- Z.negb_even, He. by destruct (Z.odd a).
Qed.

Section Theorems.
Context {UD : UnicodeData}.

Lemma bucket_range dim token : 0 < dim → 0 ≤ bucket dim token < dim.
Proof. intros. by apply Z.mod_pos_bound. Qed.

(** With an even number of buckets the second hash says nothing the first
    does not: the sign of a word is that of its bucket's parity. *)
Theorem sign_follows_bucket dim token : 0 < dim → Z.even dim = true →
  sign token = if Z.odd (bucket dim token) then 1 else -1.
Proof.
  intros Hd He. unfold bucket, sign. rewrite odd_mod_even by done.
  set (h := fnv1a _ _) at 1. change (Z.land h 1) with (Z.land h (Z.ones 1)).
  rewrite Z.land_ones by lia. change (2 ^ 1) with 2. rewrite Zmod_odd. subst h.
  rewrite (fnv1a_odd FNV_OFFSET), (fnv1a_odd (Z.lxor _ _)). by destruct (Z.odd (fnv1a 0 _)).
Qed.

(** *** Counts *)

(** How often the words fall in bucket [i], each with its sign *)
Lemma count_at dim tokens vec i x : 0 < dim → vec !! i = Some x →
  foldl (add_token dim) vec tokens !! i =
  Some (foldr (λ t s, (if bool_decide (bucket dim t = Z.of_nat i) then sign t else 0) + s) x tokens).
Proof.
  intros Hd. revert vec x. induction tokens as [|t tokens IH]; intros vec x Hx; [done|]. cbn [foldl foldr].
  pose proof (bucket_range dim t Hd).
  assert (add_token dim vec t !! i = Some (x + if bool_decide (bucket dim t = Z.of_nat i) then sign t else 0)) as H1.
  { unfold add_token. case_bool_decide as E.
    - rewrite E, Nat2Z.id, list_lookup_alter_eq, Hx. done.
    - rewrite list_lookup_alter_ne by lia. rewrite Hx. f_equal. lia. }
  rewrite (IH _ _ H1). f_equal. generalize (if bool_decide (bucket dim t = Z.of_nat i) then sign t else 0). clear.
  intros y. induction tokens as [|u tokens IH]; cbn [foldr]; [lia|]. rewrite IH. lia.
Qed.

Lemma sum_perm {A} (f : A → Z) (x : Z) (l l' : list A) : l ≡ₚ l' →
  foldr (λ a s, f a + s) x l = foldr (λ a s, f a + s) x l'.
Proof. induction 1; cbn [foldr]; lia. Qed.

Lemma add_tokens_length dim tokens vec : length (foldl (add_token dim) vec tokens) = length vec.
Proof.
  revert vec. induction tokens as [|t tokens IH]; intros vec; [done|]. cbn [foldl]. rewrite IH. apply length_alter.
Qed.

Lemma counts_length dim tokens : 0 < dim → length (counts dim tokens) = Z.to_nat dim.
Proof.
  intros Hd. unfold counts. destruct tokens; [cbn; rewrite length_replicate; lia|].
  by rewrite add_tokens_length, length_replicate.
Qed.

Lemma counts_perm dim ts ts' : 0 < dim → ts ≡ₚ ts' → counts dim ts = counts dim ts'.
Proof.
  intros Hd Hp. unfold counts. destruct ts as [|t ts].
  { by apply Permutation_nil in Hp as ->. }
  destruct ts' as [|t' ts']; [by apply Permutation_sym, Permutation_nil in Hp|].
  apply list_eq_same_length with (n := Z.to_nat dim); [by rewrite add_tokens_length, length_replicate..|].
  intros i x y Hi Hx Hy. erewrite count_at in Hx by (done || by apply lookup_replicate_2).
  erewrite count_at in Hy by (done || by apply lookup_replicate_2). simplify_eq.
  by apply (sum_perm (λ t, if bool_decide (bucket dim t = Z.of_nat i) then sign t else 0)).
Qed.

(** The vector of a text is that of the bag of its words: any two orders of
    the same words, and so two different texts, have the same vector. *)
Theorem embed_bag_of_words sqrt dim ws ws' : 0 < default 128 dim → Forall plain_word ws → ws ≡ₚ ws' →
  embed sqrt (join (js " ") ws) dim = embed sqrt (join (js " ") ws') dim.
Proof.
  intros Hd Hw Hp. unfold embed. rewrite !tokenize_join by (done || by rewrite <- Hp).
  by rewrite (counts_perm _ _ _ Hd Hp).
Qed.

(** *** Cancellation *)

Definition mass (vec : list Z) : Z := foldr (λ x s, Z.abs x + s) 0 vec.

Lemma mass_alter f vec i x : vec !! i = Some x → mass (alter f i vec) = mass vec - Z.abs x + Z.abs (f x).
Proof.
  revert i. induction vec as [|y vec IH]; intros [|i] Hi; [done..| |]; cbn in Hi; simplify_eq.
  - cbn. lia.
  - change (mass (alter f (S i) (y :: vec))) with (Z.abs y + mass (alter f i vec)). rewrite IH by done. change (mass (y :: vec)) with (Z.abs y + mass vec). lia.
Qed.

(** In odd places what is counted is positive, in even ones negative. *)
Definition parted (vec : list Z) : Prop := ∀ i x, vec !! i = Some x → if Z.odd (Z.of_nat i) then 0 ≤ x else x ≤ 0.

Lemma add_parted dim vec t : 0 < dim → Z.even dim = true → length vec = Z.to_nat dim → parted vec →
  parted (add_token dim vec t) ∧ mass (add_token dim vec t) = mass vec + 1.
Proof.
  intros Hd He Hl Hp. pose proof (bucket_range dim t Hd) as Hb.
  destruct (lookup_lt_is_Some_2 vec (Z.to_nat (bucket dim t)) ltac:(lia)) as [x Hx].
  pose proof (Hp _ _ Hx) as Hs. rewrite Z2Nat.id in Hs by lia. unfold add_token. rewrite sign_follows_bucket with (dim := dim) by done.
  split.
  - intros i y Hy. destruct (decide (i = Z.to_nat (bucket dim t))) as [->|Hn].
    + rewrite list_lookup_alter_eq, Hx in Hy. cbn in Hy. simplify_eq. rewrite Z2Nat.id by lia. destruct (Z.odd _); lia.
    + rewrite list_lookup_alter_ne in Hy by done. by apply Hp.
  - rewrite (mass_alter _ _ _ _ Hx). destruct (Z.odd _); lia.
Qed.

Lemma counts_parted dim tokens vec : 0 < dim → Z.even dim = true → length vec = Z.to_nat dim → parted vec →
  mass (foldl (add_token dim) vec tokens) = mass vec + len tokens.
Proof.
  intros Hd He. revert vec. induction tokens as [|t tokens IH]; intros vec Hl Hp; [change (len []) with 0; cbn [foldl]; lia|].
  cbn [foldl]. destruct (add_parted dim vec t Hd He Hl Hp) as [Hp' Hm].
  rewrite IH by (done || unfold add_token; by rewrite length_alter). rewrite Hm, len_cons. lia.
Qed.

Lemma mass_zeros n : mass (replicate n 0) = 0.
Proof. induction n as [|n IH]; [done|]. cbn [replicate mass foldr]. fold (mass (replicate n 0)). by rewrite IH. Qed.

(** With an even number of buckets words never cancel: the counts sum up, in
    absolute value, to the number of words. *)
Theorem counts_mass dim tokens : 0 < dim → Z.even dim = true → tokens ≠ [] → mass (counts dim tokens) = len tokens.
Proof.
  intros Hd He Hn. unfold counts. destruct tokens as [|t ts]; [done|].
  rewrite counts_parted, mass_zeros; [lia|done..|by rewrite length_replicate|].
  intros i x [-> _]%lookup_replicate_1. by destruct (Z.odd _).
Qed.

Lemma norm_mass vec : mass vec ≤ norm vec.
Proof.
  assert (∀ n, n + mass vec ≤ foldl (λ n x, n + x * x) n vec) as H; [|apply (H 0)].
  induction vec as [|x vec IH]; intros n; [cbn; lia|]. cbn [foldl]. cbn [mass foldr]. fold (mass vec).
  specialize (IH (n + x * x)). nia.
Qed.

(** So no text has the zero vector, which has no cosine. *)
Corollary embed_nonzero dim text : 0 < dim → Z.even dim = true → 1 ≤ norm (counts dim (tokenize text)).
Proof.
  intros Hd He. pose proof (norm_mass (counts dim (tokenize text))) as Hn. destruct (tokenize text) as [|t ts] eqn:E.
  - change (mass (counts dim [])) with (1 + mass (replicate (Z.to_nat (dim - 1)) 0)) in Hn. rewrite mass_zeros in Hn. lia.
  - rewrite counts_mass in Hn by done. rewrite len_cons in Hn. pose proof (len_nonneg ts). lia.
Qed.
End Theorems.

Section Examples.
#[local] Instance ascii_data : UnicodeData := {| upper_other := λ c, [c]; lower_other := λ c, [c] |}.

(** With an odd number they can. *)
Example odd_dim_cancels : counts 1 (tokenize (js "a b")) = [0].
Proof. vm_compute. reflexivity. Qed.

Lemma sign_follows_bucket_witness : sign (js "kyoto") = if Z.odd (bucket 128 (js "kyoto")) then 1 else -1.
Proof. apply (sign_follows_bucket 128); [lia|reflexivity]. Defined.

Lemma counts_mass_witness : mass (counts 8 [js "gion"; js "kyoto"; js "gion"]) = 3.
Proof. apply (counts_mass 8 [js "gion"; js "kyoto"; js "gion"]); [lia|reflexivity|done]. Defined.

Lemma embed_bag_of_words_witness :
  embed (λ q, q) (js "rust async") None = embed (λ q, q) (js "async rust") None ∧ js "rust async" ≠ js "async rust".
Proof.
  split; [|done].
  apply (embed_bag_of_words (λ q, q) None [js "rust"; js "async"] [js "async"; js "rust"]); [done| |constructor].
  apply (bool_decide_unpack _). vm_compute. exact I.
Defined.
End Examples.
