(* ===== verification/MemStore.v ===== *)
(** * The agent-memory procedures of the server ([src/procedures/memory.zig])

    [mem_init], [mem_add] and [mem_drop] on what the server stores of a
    namespace: its configuration, its vector index (the metric, and the
    dimension the first vector fixes) and its documents.  A document is its
    body ([mem:<ns>:<id>], absent in a namespace of vectors only), its
    metadata ([...:meta], always mutable) and its vector with the quantised
    copy of it ([vec:mem:...], [bq:vec:mem:...]); names exclude the colon, so
    the keys of two documents are apart.  Decay times are read and not kept.
    [mem_query], [mem_stats] and the test for a decay time are parameters. *)
From S2P Require Import Prelude JsText Command Protocol Json Mem.
#[local] Open Scope Z_scope.

Record document := Doc { body : option jsstr; vector : bytes; meta : jsstr; immutable : bool }.
Record namespace := NS {
  config : option (jsstr * Metric * bool);                       (** embedder, metric, vectors only *)
  index : option (Metric * option Z);
  docs : gmap jsstr document }.
Abbreviation store := (gmap jsstr namespace).

Definition at_ns (s : store) (ns : jsstr) : namespace := default (NS None None ∅) (s !! ns).

(** ** Names *)

Definition isSafeToken (c : Z) : bool :=
  ((97 <=? c) && (c <=? 122)) || ((65 <=? c) && (c <=? 90)) || ((48 <=? c) && (c <=? 57)) ||
  (c =? 45) || (c =? 95) || (c =? 46) || (c =? 47).
Definition valid_token (max : Z) (s : jsstr) : bool := (1 <=? len s) && (len s <=? max) && forallb isSafeToken s.
Definition validateNs : jsstr → bool := valid_token 64.
Definition validateDocId : jsstr → bool := valid_token 256.
Definition validateEmbedderId : jsstr → bool := valid_token 128.

Definition metric_fromStr (s : jsstr) : option Metric :=
  List.find (λ m, bool_decide (metric_name m = s)) [cosine; dot; l2].

Definition parseMemInitVectorOnlyFlag (s : jsstr) : option bool :=
  if bool_decide (s ∈ [js "vector_only"; js "vector_only=true"; js "vector_only=1"; js "true"; js "1"]) then Some true
  else if bool_decide (s ∈ [js "vector_only=false"; js "vector_only=0"; js "false"; js "0"]) then Some false
  else None.

(** The answer, or the error message *)
Abbreviation failed text := (error (js text)).

Section Procedures.
Context (parseDecayTauHours : jsstr → bool).

(** [getOrCreate], which keeps the metric of an index *)
Definition getOrCreate (m : Metric) (i : option (Metric * option Z)) : option (Metric * option Z) :=
  match i with
  | None => Some (m, None)
  | Some (m', d) => if bool_decide (m' = m) then Some (m', d) else None
  end.

(** The options after the metric: the flag, and whether a time is given *)
Fixpoint init_options (opts : list jsstr) (vector_only tau : bool) : option (bool * bool) :=
  match opts with
  | [] => Some (vector_only, tau)
  | o :: opts =>
      match parseMemInitVectorOnlyFlag o with
      | Some v => init_options opts v tau
      | None => if parseDecayTauHours o then init_options opts vector_only true else None
      end
  end.

Definition configure (n : namespace) (cfg : jsstr * Metric * bool) : namespace * WormResponse :=
  match getOrCreate (cfg.1.2) (index n) with
  | None => (n, failed "mem_init: registry error: MetricMismatch")
  | i => (NS (Some cfg) i (docs n), ok)
  end.

Definition memInit (embedder metric_str : jsstr) (opts : list jsstr) (n : namespace) : namespace * WormResponse :=
  if negb (validateEmbedderId embedder)
  then (n, failed "mem_init: embedder_id must be 1..128 bytes, chars in [A-Za-z0-9._/-]")
  else match metric_fromStr metric_str with
  | None => (n, failed "mem_init: unknown metric (cosine|dot|l2)")
  | Some m =>
    match init_options opts false false with
    | None => (n, failed "mem_init: unknown option (expected <decay_tau_hours> or vector_only=true|false)")
    | Some (vector_only, tau) =>
      match config n with
      | Some (e', m', v') =>
          if bool_decide (e' ≠ embedder) then (n, failed "mem_init: embedder_id differs from existing namespace config")
          else if bool_decide (m' ≠ m) then (n, failed "mem_init: metric differs from existing namespace config")
          else if bool_decide (v' ≠ vector_only) then (n, failed "mem_init: vector_only differs from existing namespace config")
          else if tau then configure n (embedder, m, vector_only) else (n, ok)
      | None => configure n (embedder, m, vector_only)
      end
    end
  end.

(** [applyVinsert] and the writes after it: a vector of the wrong size or
    dimension is refused first, then a write over an immutable document.
    Empty metadata leaves what is there. *)
Definition memAdd_vector (a : server_add) (metric : Metric) (vector_only : bool) (n : namespace) : namespace * WormResponse :=
  let bytes := len (sa_embedding a) in
  let dim := bytes / 4 in
  let old := docs n !! sa_id a in
  if (bytes =? 0) || negb (bytes mod 4 =? 0)
  then (n, failed "mem_add: embedding must be non-empty f32 bytes (len multiple of 4)")
  else if match index n with Some (_, Some d) => negb (dim =? d) | _ => false end
  then (n, failed "mem_add: embedding dim does not match the namespace")
  else if default false (immutable <$> old)
  then (n, failed "mem_add: doc_id already exists (WORM; drop namespace to replace)")
  else
    let i := match index n with
             | None => Some (metric, Some dim)
             | Some (m, d) => if bool_decide (m = metric) then Some (m, Some (default dim d)) else Some (m, d)
             end in
    let d := Doc (if vector_only then old ≫= body else Some (sa_text a)) (sa_embedding a)
               (match sa_meta a with [] => default [] (meta <$> old) | m => m end) (sa_worm a) in
    (NS (config n) i (<[sa_id a := d]> (docs n)), ok).

Definition memAdd (args : list arg) (n : namespace) : namespace * WormResponse :=
  let metric := match config n with Some (_, m, _) => m | None => cosine end in
  let vector_only := match config n with Some (_, _, v) => v | None => false end in
  match mem_add vector_only args with
  | None => (n, failed "mem_add requires: <ns> <doc_id> <text> <embedding> [<meta_json>] [<worm>] [<embedder_id>]")
  | Some a =>
      if negb (validateDocId (sa_id a)) then (n, failed "mem_add: invalid doc_id")
      else match sa_embedder a with
      | None => memAdd_vector a metric vector_only n
      | Some e =>
          if negb (validateEmbedderId e) then (n, failed "mem_add: invalid embedder_id")
          else match config n with
          | Some (e', _, _) =>
              if bool_decide (e' ≠ e)
              then (n, error (js "mem_add: embedder mismatch (config=" ++ e' ++ js ", requested=" ++ e ++ js ")"))
              else memAdd_vector a metric vector_only n
          | None => memAdd_vector a metric vector_only n
          end
      end
  end.

(** *** [mem_drop]

    The counters are [usize]; [safe] says whether the build checks them, as
    the debug build does, where one below zero ends the server: [None]. *)
Context (safe : bool).

Definition usub (a b : Z) : option Z := if b <=? a then Some (a - b) else if safe then None else Some (a - b + 2 ^ 64).
Definition uadd (a b : Z) : option Z :=
  if a + b <? 2 ^ 64 then Some (a + b) else if safe then None else Some ((a + b) mod 2 ^ 64).

Definition count_docs (p : document → bool) (n : namespace) : Z := Z.of_nat (base.size (base.filter (λ d, p d.2 = true) (docs n))).
Definition has_body (d : document) : bool := bool_decide (is_Some (body d)).

(** What stays under the three prefixes: immutable documents without their
    metadata *)
Definition remains (n : namespace) : gmap jsstr document :=
  (λ d, Doc (body d) (vector d) [] true) <$> base.filter (λ d, immutable d.2 = true) (docs n).

(** The keys under the three prefixes and those of them that are skipped *)
Definition drop_keys (n : namespace) : list (Z * Z) :=
  let all := count_docs (λ _, true) n in
  let worm := count_docs immutable n in
  [(count_docs has_body n + count_docs (λ d, negb (bool_decide (meta d = []))) n,
    count_docs (λ d, immutable d && has_body d) n);
   (all, worm); (all, worm)].

(** [total_deleted += keys - skipped_worm], where [skipped_worm] counts over
    all the prefixes so far *)
Fixpoint drop_count (keys : list (Z * Z)) (total skipped : Z) : option (Z * Z) :=
  match keys with
  | [] => Some (total, skipped)
  | (n, s) :: keys =>
      let skipped := skipped + s in
      d ← usub n skipped;
      total ← uadd total d;
      drop_count keys total skipped
  end.

Definition drop_json (ns : jsstr) (dropped : bool) (deleted skipped : Z) : json :=
  JObj [(js "namespace", JStr ns); (js "index_dropped", JBool dropped); (js "deleted", jnum deleted);
        (js "skipped_worm", jnum skipped); (js "errors", jnum 0)].

Definition memDrop (ns : jsstr) (n : namespace) : namespace * option WormResponse :=
  match drop_count (drop_keys n) 0 0 with
  | None => (NS (config n) None (remains n), None)
  | Some (deleted, skipped) =>
      (NS None None (remains n),
       Some (bulk (stringify (drop_json ns (bool_decide (is_Some (index n))) deleted skipped))))
  end.

(** *** The server *)

Context (mem_query_json : server_query → store → json) (mem_stats_json : jsstr → store → json).
Context (other : ParsedCommand → store → store * res WormResponse).

Definition on_ns (s : store) (ns : jsstr) (r : namespace * WormResponse) : store * res WormResponse :=
  (<[ns := r.1]> s, Ok r.2).

Definition procedure (p : jsstr) (args : list arg) (s : store) : store * res WormResponse :=
  match text_arg args 0 with
  | None => (s, Ok (error (p ++ js " requires: <ns>")))
  | Some ns =>
      if negb (validateNs ns) then (s, Ok (error (p ++ js ": invalid ns")))
      else if bool_decide (p = js "mem_init") then
        match text_arg args 1, text_arg args 2 with
        | Some e, Some m => on_ns s ns (memInit e m (omap (λ a, match a with ArgStr t => Some t | _ => None end) (list.drop 3 args)) (at_ns s ns))
        | _, _ => (s, Ok (failed "mem_init requires: <ns> <embedder_id> <metric> [<decay_tau_hours>]"))
        end
      else if bool_decide (p = js "mem_add") then on_ns s ns (memAdd args (at_ns s ns))
      else if bool_decide (p = js "mem_drop") then
        let '(n, r) := memDrop ns (at_ns s ns) in
        (<[ns := n]> s, match r with Some r => Ok r | None => Throw ClientConnectionClosedError end)
      else if bool_decide (p = js "mem_stats") then (s, Ok (bulk (stringify (mem_stats_json ns s))))
      else if bool_decide (p = js "mem_query") then
        (s, Ok (match mem_query args with
                | Some q => bulk (stringify (mem_query_json q s))
                | None => failed "mem_query requires: <ns> <embedding> <k>"
                end))
      else other (EXEC p args) s
  end.

Definition serve (c : ParsedCommand) (s : store) : store * res WormResponse :=
  match c with EXEC p args => procedure p args s | c => other c s end.
End Procedures.

(** ** Dropping *)

Section Dropping.
Context (safe : bool).

Lemma count_docs_all p n : map_Forall (λ _ d, p d = true) (docs n) → count_docs p n = count_docs (λ _, true) n.
Proof.
  intros H. unfold count_docs. do 2 f_equal. apply map_filter_ext. intros i x Hx. cbn. split; [done|]. intros _. by apply (H i).
Qed.

Lemma count_docs_same p q n : map_Forall (λ _ d, p d = q d) (docs n) → count_docs p n = count_docs q n.
Proof. intros H. unfold count_docs. do 2 f_equal. apply map_filter_ext. intros i x Hx. cbn. by rewrite (H i x Hx). Qed.

Lemma count_docs_bound p n : 0 ≤ count_docs p n ≤ Z.of_nat (base.size (docs n)).
Proof.
  unfold count_docs. split; [lia|]. apply inj_le. rewrite <- !size_dom. apply subseteq_size, dom_filter_subseteq.
Qed.

Lemma count_docs_true n : count_docs (λ _, true) n = Z.of_nat (base.size (docs n)).
Proof.
  unfold count_docs. do 2 f_equal. apply map_filter_id. done.
Qed.

Lemma drop_count_safe N m w : 0 ≤ w ≤ N → 0 ≤ m ≤ N → N < 2 ^ 60 →
  is_Some (drop_count true [(N + m, w); (N, w); (N, w)] 0 0) ↔ 3 * w ≤ N.
Proof.
  intros Hw Hm HN. unfold drop_count, usub, uadd. destruct (Z.leb_spec (0 + w) (N + m)); [|lia]. cbn [mbind option_bind].
  replace (0 + (N + m - (0 + w)) <? 2 ^ 64) with true by lia. cbn [mbind option_bind].
  destruct (Z.leb_spec (0 + w + w) N); cbn [mbind option_bind]; [|split; [by intros [? ?]|lia]].
  replace (0 + (N + m - (0 + w)) + (N - (0 + w + w)) <? 2 ^ 64) with true by lia. cbn [mbind option_bind].
  destruct (Z.leb_spec (0 + w + w + w) N); cbn [mbind option_bind]; [|split; [by intros [? ?]|lia]].
  replace (_ <? 2 ^ 64) with true by lia. cbn [mbind option_bind]. split; [lia|by eexists].
Qed.

(** A server that checks its arithmetic answers [mem_drop] only when at least
    two thirds of the documents are not write-once: the keys skipped under
    one prefix are subtracted again from the keys of the next. *)
Theorem drop_answers ns n : safe = true → map_Forall (λ _ d, has_body d = true) (docs n) →
  Z.of_nat (base.size (docs n)) < 2 ^ 60 →
  is_Some (memDrop safe ns n).2 ↔ 3 * count_docs immutable n ≤ Z.of_nat (base.size (docs n)).
Proof.
  intros -> Hb Hsize. rewrite <- (drop_count_safe _ (count_docs (λ d, negb (bool_decide (meta d = []))) n));
    [|apply count_docs_bound..|done].
  unfold memDrop, drop_keys. rewrite (count_docs_all _ _ Hb), count_docs_true.
  rewrite (count_docs_same (λ d, immutable d && has_body d) immutable) by (intros i d Hd; by rewrite (Hb i d Hd), andb_true_r).
  destruct (drop_count _ _ _ _) as [[deleted skipped]|]; split; by intros [? ?] || done.
Qed.

(** A drop keeps the bodies and vectors of write-once documents, and takes
    their metadata, the other documents, the configuration and the index. *)
Lemma drop_keeps ns n id d : docs n !! id = Some d → immutable d = true →
  docs (memDrop safe ns n).1 !! id = Some (Doc (body d) (vector d) [] true) ∧ index (memDrop safe ns n).1 = None.
Proof.
  intros Hd Hi. unfold memDrop. assert (remains n !! id = Some (Doc (body d) (vector d) [] true)) as Hr.
  { unfold remains. rewrite lookup_fmap_Some. exists d. split; [done|]. by apply map_lookup_filter_Some. }
  destruct (drop_count safe (drop_keys n) 0 0) as [[deleted skipped]|]; by cbn.
Qed.
End Dropping.
