(* ===== verification/AgentFixtures.v ===== *)
(** * The session fixtures ([examples/agent-memory/fixtures/sessions.ts])

    The sessions that the agent-memory demo ingests, and the chunk made of
    each turn with its identifier and its metadata. *)
From stdpp Require pretty.
From S2P Require Import Prelude Utf8 JsText Number Json MemStore.
#[local] Open Scope Z_scope.

Inductive role := user | assistant.
Record SessionTurn := Turn { turn_role : role; content : jsstr }.
Record Session := Session_ { session_id : jsstr; date : jsstr; tags : list jsstr; turns : list SessionTurn }.

(** A literal of the source, whose text is UTF-8 *)
Definition text (s : string) : jsstr := text_decode (js s).

Definition SESSIONS : list Session :=
  [Session_ (js "s-alice-01") (js "2026-01-14") [js "travel"; js "planning"]
     [Turn user (text "I'm thinking about a trip to Kyoto in April.");
       Turn assistant (text "April is cherry blossom season in Kyoto — expect crowds at Philosopher's Path and Arashiyama.");
       Turn user (text "Should I book ryokan accommodations in advance?");
       Turn assistant (text "Yes, traditional ryokans book out months ahead during sakura. Gion district tends to fill first.")];
   Session_ (js "s-alice-02") (js "2026-01-21") [js "travel"; js "food"]
     [Turn user (text "What kaiseki restaurants would you recommend in Kyoto?");
       Turn assistant (text "Kikunoi and Hyotei are classics. Kikunoi Honten has a more traditional multi-course experience.");
       Turn user (text "Any vegetarian-friendly options?");
       Turn assistant (text "Shojin ryori at temple restaurants like Shigetsu at Tenryu-ji is entirely vegetarian and grounded in Zen tradition.")];
   Session_ (js "s-bob-01") (js "2026-02-03") [js "coding"; js "rust"]
     [Turn user (text "How do I express sum types in Rust?");
       Turn assistant (text "Use `enum` — Rust enums are full algebraic data types with variants that can carry data.");
       Turn user (text "And pattern matching?");
       Turn assistant (text "`match` is exhaustive over variants and also works on tuples, references, and slice patterns.")];
   Session_ (js "s-bob-02") (js "2026-02-10") [js "coding"; js "rust"; js "async"]
     [Turn user (text "I'm confused about async cancellation in Tokio.");
       Turn assistant (text "Dropping a future cancels it. `tokio::select!` drops the losing branch, which can leave resources in weird states.");
       Turn user (text "How do I ensure cleanup runs?");
       Turn assistant (text "Structure cleanup in Drop impls, or use `tokio::spawn` with an explicit cancellation token from `tokio-util`.")];
   Session_ (js "s-carol-01") (js "2026-03-02") [js "health"; js "sleep"]
     [Turn user (text "I've been waking up at 3am every night for a week.");
       Turn assistant (text "Cortisol spikes can cause early-morning wakings, often triggered by stress, alcohol, or evening blood-sugar dips.");
       Turn user (text "I did cut caffeine after noon but no improvement.");
       Turn assistant (text "Caffeine has a 5-7h half-life so that helps, but try a small protein snack before bed — it stabilizes glucose overnight.")];
   Session_ (js "s-carol-02") (js "2026-03-09") [js "health"; js "exercise"]
     [Turn user (text "I'm starting to train for a half marathon in October.");
       Turn assistant (text "Good window — aim for base-building through June with mostly zone 2 runs, then add tempo and intervals from July.");
       Turn user (text "How many days a week should I run?");
       Turn assistant (text "Four is a solid starting point for a first half: two easy, one long, one tempo. Rest days matter for adaptation.")];
   Session_ (js "s-dave-01") (js "2026-03-18") [js "music"; js "piano"]
     [Turn user (text "I want to learn Rachmaninoff's Prelude in C# minor.");
       Turn assistant (text "It's deceptively technical — the chord stretches in the middle section are demanding. Build up to it with easier preludes first.");
       Turn user (text "What are reasonable preparatory pieces?");
       Turn assistant (text "Chopin's Prelude in E minor and Rachmaninoff's own Op. 23 No. 4 in D major are good stepping stones for voicing and control.")];
   Session_ (js "s-dave-02") (js "2026-04-01") [js "music"; js "theory"]
     [Turn user (text "Why do jazz players talk about ii-V-I so much?");
       Turn assistant (text "It's the most common cadential progression in tonal jazz — the ii-V sets up tension that resolves to the I. Nearly every standard has it.");
       Turn user (text "Is there an equivalent in modal jazz?");
       Turn assistant (text "Modal jazz often avoids functional cadences entirely — think of So What, which stays on one mode for long stretches and uses fourth-based voicings.")]].

Record Chunk := MakeChunk { doc_id : jsstr; chunk_text : jsstr; chunk_meta : json }.

Definition role_name (r : role) : jsstr := match r with user => js "user" | assistant => js "assistant" end.

Definition meta_of (s : Session) (i : nat) (t : SessionTurn) : json :=
  JObj [(js "session_id", JStr (session_id s)); (js "session_date", JStr (date s));
        (js "session_tags", JArr (JStr <$> tags s)); (js "turn_index", jnum (Z.of_nat i));
        (js "role", JStr (role_name (turn_role t)))].

Definition chunk_id (s : Session) (i : nat) : jsstr := session_id s ++ js "-t" ++ show (Z.of_nat i).
Definition flatten (sessions : list Session) : list Chunk :=
  sessions ≫= λ s, imap (λ i t, MakeChunk (chunk_id s i) (content t) (meta_of s i t)) (turns s).

(** ** Identifiers *)

Lemma show_no_t n c : 0 ≤ n → c ∈ show n → c ≠ 116.
Proof.
  intros Hn Hc. destruct (show_digits n Hn) as (_ & Hd & _). rewrite Forall_forall in Hd. specialize (Hd _ Hc).
  unfold is_digit in Hd. lia.
Qed.

Lemma show_inj n m : show n = show m → n = m.
Proof. unfold show. intros E%js_inj. by apply (inj pretty.pretty) in E. Qed.

(** What stands before the last occurrence of a unit *)
Lemma last_unit (c : Z) (a b x y : jsstr) : c ∉ x → c ∉ y → a ++ c :: x = b ++ c :: y → a = b ∧ x = y.
Proof.
  intros Hx Hy E. destruct (app_eq_app _ _ _ _ E) as (l & [[-> El]|[-> El]]).
  - destruct l as [|d l]; [cbn in El; simplify_eq; by rewrite app_nil_r|]. cbn in El. simplify_eq.
    exfalso. apply Hy. apply elem_of_app. right. apply elem_of_cons. by left.
  - destruct l as [|d l]; [cbn in El; simplify_eq; by rewrite app_nil_r|]. cbn in El. simplify_eq.
    exfalso. apply Hx. apply elem_of_app. right. apply elem_of_cons. by left.
Qed.

Lemma chunk_id_inj s s' i j : chunk_id s i = chunk_id s' j → session_id s = session_id s' ∧ i = j.
Proof.
  assert (∀ n, 116 ∉ show (Z.of_nat n)) as Hs by (intros n Hn; by apply (show_no_t (Z.of_nat n) 116 (Nat2Z.is_nonneg n) Hn)).
  unfold chunk_id. change (js "-t") with ([45] ++ [116]). rewrite <- !app_assoc, !app_assoc. intros E.
  rewrite <- !(app_assoc _ [116]) in E. destruct (last_unit 116 _ _ _ _ (Hs i) (Hs j) E) as [E1 E2].
  apply (inj (.++ [45])) in E1. split; [done|]. by apply Nat2Z.inj, show_inj.
Qed.

(** Chunks of different turns have different identifiers. *)
Lemma flatten_ids_distinct sessions : NoDup (session_id <$> sessions) → NoDup (doc_id <$> flatten sessions).
Proof.
  induction sessions as [|s sessions IH]; [constructor|]. cbn [fmap list_fmap]. intros [Hs Hr]%NoDup_cons.
  unfold flatten. cbn [mbind list_bind]. fold (flatten sessions). rewrite fmap_app. apply NoDup_app. split_and!.
  - apply NoDup_alt. intros i j x. rewrite !list_lookup_fmap, !list_lookup_imap, !fmap_Some.
    intros (c & (t & _ & ->)%fmap_Some & ->) (c' & (t' & _ & ->)%fmap_Some & E). cbn in E. by apply chunk_id_inj in E as [_ ->].
  - intros x (c & -> & (i & t & -> & _)%elem_of_lookup_imap)%list_elem_of_fmap. cbn.
    intros (c' & E & (s' & Hc & Hs')%list_elem_of_bind)%list_elem_of_fmap.
    apply elem_of_lookup_imap in Hc as (j & t' & -> & _). cbn in E. apply chunk_id_inj in E as [E _].
    apply Hs. rewrite E. by apply list_elem_of_fmap_2.
  - by apply IH.
Qed.

Lemma flatten_ids_distinct_witness : NoDup (doc_id <$> flatten SESSIONS) ∧ length (flatten SESSIONS) = 32%nat.
Proof.
  split; [|vm_compute; reflexivity]. apply (flatten_ids_distinct SESSIONS).
  apply (bool_decide_unpack _). vm_compute. exact I.
Defined.

Lemma SESSIONS_ids_valid : Forall (λ c, validateDocId (doc_id c) = true) (flatten SESSIONS).
Proof. apply (bool_decide_unpack _). vm_compute. exact I. Qed.
