(* ===== verification/AgentScripts.v ===== *)
(** * The agent-memory scripts ([examples/agent-memory/client])

    [ingest.ts], [query.ts] and [bench.ts] as computations ([Effects]) over
    what [sendCommand] does to a server: the calls are those of [Mem], with
    the vectors of [Embedder] and the documents of [AgentFixtures].  What is
    printed is returned; [num_text] is [String] of a number.  The theorems run
    them against the procedures of [MemStore]. *)
From Stdlib Require Import QArith Qround Sorted.
From stdpp Require Import sorting.
From S2P Require Import Prelude Utf8 JsText Number Command Protocol Json Argv Effects VectorBench VectorTruth Embedder Mem MemStore AgentFixtures.
#[local] Open Scope Z_scope.

(** ** Arguments *)

Record IngestArgs := Ingest { i_ns : jsstr; i_reset : bool; i_host : jsstr; i_port : num }.
Definition ingest_option (t : jsstr) : option (jsstr → IngestArgs → IngestArgs) :=
  if bool_decide (t = js "--ns") then Some (λ v a, Ingest v (i_reset a) (i_host a) (i_port a))
  else if bool_decide (t = js "--reset") then None
  else if bool_decide (t = js "--host") then Some (λ v a, Ingest (i_ns a) (i_reset a) v (i_port a))
  else if bool_decide (t = js "--port") then Some (λ v a, Ingest (i_ns a) (i_reset a) (i_host a) (Number v))
  else None.
Definition ingest_parseArgs (argv : list jsstr) : IngestArgs :=
  parse_with ingest_option
    (λ t a, if bool_decide (t = js "--reset") then Ingest (i_ns a) true (i_host a) (i_port a) else a)
    argv (Ingest (js "demo") false (js "127.0.0.1") (Fin 6389)).

Record QueryArgs := MakeQuery {
  q_ns : jsstr; q_k : num; q_lambda : num; q_filter : option jsstr; q_host : jsstr; q_port : num; positional : list jsstr }.
Definition query_option (t : jsstr) : option (jsstr → QueryArgs → QueryArgs) :=
  if bool_decide (t = js "--ns") then Some (λ v '(MakeQuery ns k l f h p w), MakeQuery v k l f h p w)
  else if bool_decide (t = js "-k" ∨ t = js "--k") then Some (λ v '(MakeQuery ns k l f h p w), MakeQuery ns (Number v) l f h p w)
  else if bool_decide (t = js "--lambda") then Some (λ v '(MakeQuery ns k l f h p w), MakeQuery ns k (Number v) f h p w)
  else if bool_decide (t = js "--filter") then Some (λ v '(MakeQuery ns k l f h p w), MakeQuery ns k l (Some v) h p w)
  else if bool_decide (t = js "--host") then Some (λ v '(MakeQuery ns k l f h p w), MakeQuery ns k l f v p w)
  else if bool_decide (t = js "--port") then Some (λ v '(MakeQuery ns k l f h p w), MakeQuery ns k l f h (Number v) w)
  else None.
Definition query_parseArgs (argv : list jsstr) : QueryArgs :=
  parse_with query_option (λ t '(MakeQuery ns k l f h p w), MakeQuery ns k l f h p (w ++ [t])) argv
    (MakeQuery (js "demo") (Fin 5) (Fin 0) None (js "127.0.0.1") (Fin 6389) []).
Definition q_text (a : QueryArgs) : jsstr := join (js " ") (positional a).

Record BenchArgs := MakeBench {
  b_ns : jsstr; b_n : num; b_queries : num; b_dim : num; b_k : num; b_host : jsstr; b_port : num }.
Definition bench_option (t : jsstr) : option (jsstr → BenchArgs → BenchArgs) :=
  if bool_decide (t = js "--ns") then Some (λ v '(MakeBench ns n q d k h p), MakeBench v n q d k h p)
  else if bool_decide (t = js "--n") then Some (λ v '(MakeBench ns n q d k h p), MakeBench ns (Number v) q d k h p)
  else if bool_decide (t = js "--queries") then Some (λ v '(MakeBench ns n q d k h p), MakeBench ns n (Number v) d k h p)
  else if bool_decide (t = js "--dim") then Some (λ v '(MakeBench ns n q d k h p), MakeBench ns n q (Number v) k h p)
  else if bool_decide (t = js "-k") then Some (λ v '(MakeBench ns n q d k h p), MakeBench ns n q d (Number v) h p)
  else if bool_decide (t = js "--host") then Some (λ v '(MakeBench ns n q d k h p), MakeBench ns n q d k v p)
  else if bool_decide (t = js "--port") then Some (λ v '(MakeBench ns n q d k h p), MakeBench ns n q d k h (Number v))
  else None.
Definition bench_parseArgs (argv : list jsstr) : BenchArgs :=
  parse_with bench_option (λ _ a, a) argv
    (MakeBench (js "bench") (Fin 2000) (Fin 200) (Fin 128) (Fin 10) (js "127.0.0.1") (Fin 6389)).

(** ** The synthetic corpus *)

Definition vocab : list jsstr := js <$>
  ["kyoto"; "cherry"; "ryokan"; "kaiseki"; "shojin"; "arashiyama"; "gion";
   "rust"; "async"; "tokio"; "enum"; "match"; "cancel"; "spawn";
   "piano"; "prelude"; "chopin"; "rachmaninoff"; "modal"; "cadence"; "voicing";
   "cortisol"; "caffeine"; "protein"; "marathon"; "tempo"; "zone";
   "vector"; "embedding"; "cosine"; "recall"; "index"; "hnsw";
   "atlantic"; "pacific"; "current"; "gulf"; "polar"; "tropic";
   "novel"; "prose"; "verse"; "sonnet"; "metaphor"; "allegory"]%string.

Definition lcg (state : Z) : Z := uint32 (imul state 1664525 + 1013904223).

Fixpoint draw_words (n : nat) (state : Z) : Z * list jsstr :=
  match n with
  | O => (state, [])
  | S n =>
      let state := lcg state in
      let '(end_, words) := draw_words n state in
      (end_, default [] (vocab !! Z.to_nat (state mod len vocab)) :: words)
  end.

Definition padStart (width : Z) (c : Z) (s : jsstr) : jsstr := replicate (Z.to_nat (width - len s)) c ++ s.

Record synth := Synth { synth_id : jsstr; words : list jsstr }.
Definition synth_text (d : synth) : jsstr := join (js " ") (words d).
Definition synth_doc (i : Z) (state : Z) : Z * synth :=
  let state := lcg state in
  let '(state, words) := draw_words (Z.to_nat (3 + state mod 6)) state in
  (state, Synth (js "d-" ++ padStart 6 48 (show i)) words).

Fixpoint synth_from (n : nat) (i : Z) (state : Z) : list synth :=
  match n with
  | O => []
  | S n => let '(state, d) := synth_doc i state in d :: synth_from n (i + 1) state
  end.
Definition synthCorpus (n : nat) : list synth := synth_from n 0 (uint32 0x9e3779b9).

(** *** Its lengths *)

Lemma lcg_odd s : Z.odd (lcg s) = negb (Z.odd s).
Proof.
  unfold lcg, imul, uint32. rewrite odd_mod_even, Z.odd_add, odd_mod_even, Z.odd_mul by done.
  rewrite andb_true_r. by destruct (Z.odd s).
Qed.

Lemma draw_words_odd n s : Z.odd (draw_words n s).1 = xorb (Z.odd s) (Nat.odd n).
Proof.
  revert s. induction n as [|n IH]; intros s; [cbn; by rewrite xorb_false_r|]. cbn [draw_words].
  specialize (IH (lcg s)). destruct (draw_words n (lcg s)) as [e ws]. cbn [fst] in *. rewrite IH, lcg_odd, Nat.odd_succ, <- Nat.negb_odd.
  by destruct (Z.odd s), (Nat.odd n).
Qed.

Lemma draw_words_vocab n s : length (draw_words n s).2 = n ∧ Forall (.∈ vocab) (draw_words n s).2.
Proof.
  revert s. induction n as [|n IH]; intros s; [done|]. cbn [draw_words]. specialize (IH (lcg s)).
  destruct (draw_words n (lcg s)) as [e ws]. destruct IH as [Hl Hf]. cbn [fst snd length] in *. split; [by rewrite Hl|]. constructor; [|done].
  pose proof (Z.mod_pos_bound (lcg s) (len vocab) ltac:(done)) as Hm.
  destruct (lookup_lt_is_Some_2 vocab (Z.to_nat (lcg s mod len vocab))) as [w Hw]; [unfold len in *; lia|].
  rewrite Hw. by apply list_elem_of_lookup_2 in Hw.
Qed.

Lemma synth_doc_odd i s : Z.odd s = true →
  Z.odd (synth_doc i s).1 = true ∧ length (words (synth_doc i s).2) ∈ [3; 5; 7]%nat ∧ Forall (.∈ vocab) (words (synth_doc i s).2).
Proof.
  intros Hs. unfold synth_doc. set (k := Z.to_nat (3 + lcg s mod 6)).
  assert (Nat.odd k = true ∧ k ∈ [3; 5; 7]%nat) as [Hk Hin].
  { pose proof (Z.mod_pos_bound (lcg s) 6 ltac:(lia)) as Hb. assert (Z.odd (lcg s mod 6) = false) as Ho by by rewrite odd_mod_even, lcg_odd, Hs.
    unfold k. rewrite !elem_of_cons. assert (lcg s mod 6 ∈ [0; 1; 2; 3; 4; 5]) as Hc by (rewrite !elem_of_cons; lia).
    rewrite !elem_of_cons, elem_of_nil in Hc.
    destruct Hc as [E|[E|[E|[E|[E|[E|[]]]]]]]; rewrite E in *; first [discriminate Ho|split; [done|by eauto]]. }
  pose proof (draw_words_odd k (lcg s)) as Ho. destruct (draw_words_vocab k (lcg s)) as [Hl Hv].
  destruct (draw_words k (lcg s)) as [e ws]. cbn in *. rewrite Ho, lcg_odd, Hs, Hk, Hl. done.
Qed.

(** The generator's low bit alternates, and so a document never has four, six
    or eight words, although [3 + lcg() % 6] is to draw from three to eight. *)
Theorem synth_lengths n : Forall (λ d, length (words d) ∈ [3; 5; 7]%nat ∧ Forall (.∈ vocab) (words d)) (synthCorpus n).
Proof.
  unfold synthCorpus. assert (∀ i s, Z.odd s = true →
    Forall (λ d, length (words d) ∈ [3; 5; 7]%nat ∧ Forall (.∈ vocab) (words d)) (synth_from n i s)) as H; [|by apply H].
  induction n as [|n IH]; intros i s Hs; [constructor|]. cbn [synth_from].
  destruct (synth_doc_odd i s Hs) as (Ho & Hl & Hv). destruct (synth_doc i s) as [s' d]. constructor; [done|by apply IH].
Qed.

(** *** Its identifiers *)

Lemma dec_zeros n s : dec (replicate n 48 ++ s) = dec s.
Proof. unfold dec, digits_value. rewrite foldl_app. f_equal. induction n as [|n IH]; [done|]. cbn [replicate foldl]. done. Qed.

Lemma padded_inj w i j : 0 ≤ i → 0 ≤ j → padStart w 48 (show i) = padStart w 48 (show j) → i = j.
Proof.
  intros Hi Hj E. apply (f_equal dec) in E. unfold padStart in E. rewrite !dec_zeros in E.
  destruct (show_digits i Hi) as (_ & _ & Hdi). destruct (show_digits j Hj) as (_ & _ & Hdj). lia.
Qed.

Lemma synth_from_ids n i s : 0 ≤ i → synth_id <$> synth_from n i s = (λ j, js "d-" ++ padStart 6 48 (show j)) <$> seqZ i (Z.of_nat n).
Proof.
  revert i s. induction n as [|n IH]; intros i s Hi; [done|]. rewrite Nat2Z.inj_succ, <- Z.add_1_r, Z.add_comm, seqZ_app by lia.
  cbn [synth_from]. unfold synth_doc at 1. destruct (draw_words _ _) as [s' ws]. cbn [fmap list_fmap synth_id]. rewrite IH by lia. done.
Qed.

Lemma synthCorpus_length n : length (synthCorpus n) = n.
Proof.
  unfold synthCorpus. rewrite <- (length_fmap synth_id), synth_from_ids, length_fmap, length_seqZ by lia. lia.
Qed.

(** The documents have different identifiers. *)
Lemma synth_ids_distinct n : NoDup (synth_id <$> synthCorpus n).
Proof.
  unfold synthCorpus. rewrite synth_from_ids by lia. apply NoDup_fmap_2_strong; [|apply NoDup_seqZ].
  intros i j Hi%elem_of_seqZ Hj%elem_of_seqZ E%(inj (js "d-" ++.)). apply (padded_inj 6); lia || done.
Qed.

(** ** The scripts *)

Record line := Line { line_score : jsstr; session_tag : json; line_role : json; line_doc : json }.

(** [x?.name ?? d] of a value that may be absent *)
Definition optional_prop (x : option json) (name : jsstr) (d : json) : json :=
  match x with
  | Some (JObj _ as o) => match prop o name with Ok (Some JNull) | Ok None | Throw _ => d | Ok (Some v) => v end
  | _ => d
  end.

(** What is printed of a hit; a score that is no number has no
    [toFixed], and the others keep their text. *)
Definition hit_line (h : json) : res line :=
  meta ← prop h (js "meta");
  score ← prop h (js "score");
  doc ← prop h (js "doc");
  match score with
  | Some (JNum s) =>
      Ok (Line s (optional_prop meta (js "session_id") (JStr (js "?"))) (optional_prop meta (js "role") (JStr (js "?")))
            (match doc with None | Some JNull => JStr [] | Some d => d end))
  | _ => Throw TypeError
  end.

(** [v.map(...)], and [for (const x of v)], which takes a string too *)
Definition array (v : json) : res (list json) := match v with JArr l => Ok l | _ => Throw TypeError end.
Definition iterated (v : json) : res (list json) :=
  match v with
  | JArr l => Ok l
  | JStr s => Ok ((λ c, JStr (units_of_cp c)) <$> iterate s)
  | _ => Throw TypeError
  end.

(** *** The recall of [bench.ts] *)

Section Recall.
Context (sqrt : Q → Q).

Definition cosine_of (a b : list Q) : Q :=
  let d := rnd (sqrt (sum_products (zip a a)) * sqrt (sum_products (zip b b)))%Q in
  if Qeq_bool d 0 then 0%Q else rnd (sum_products (zip a b) / d)%Q.

Record embedded := Embedded { e_id : jsstr; e_text : jsstr; vec : list Q }.

(** [scored.sort((a, b) => b.score - a.score)], which is stable, cut to [k] *)
Definition truth (docs : list embedded) (q : list Q) (k : nat) : list jsstr :=
  let score i := cosine_of q (default [] (vec <$> docs !! i)) in
  omap (λ i, e_id <$> docs !! i) (take k (ranking (λ i, Fin (- score i)%Q) (length docs))).

(** How many of the different ids found are in the truth *)
Definition intersect (truth : list jsstr) (got : list (option json)) : Z :=
  len (base.filter (.∈ truth) (remove_dups (omap (λ v, match v with Some (JStr id) => Some id | _ => None end) got))).

(** [totalIntersect / totalExpected] *)
Definition recall_of (totalIntersect totalExpected : Z) : num :=
  if totalExpected =? 0 then NaN else Fin (rnd (inject_Z totalIntersect / inject_Z totalExpected))%Q.
End Recall.

Definition percentile_of (sorted : list Z) (p : Q) : Z :=
  default 0 (sorted !! Z.to_nat (Z.min (len sorted - 1) (Qfloor (rnd (inject_Z (len sorted) * p)%Q)))).

Section Scripts.
Context {UD : UnicodeData} (sqrt : Q → Q) (floatsToBytes : list Q → bytes) (num_text : num → jsstr).
Context {S : Type} (sendCommand : ParsedCommand → S → S * res WormResponse) (close : S → S).
(** [performance.now()] *)
Context (clock : nat → Z).

(** A method of [MemClient] *)
Definition mem_ok (proc : jsstr) (args : list arg) : M S () :=
  resp ← lift (sendCommand (EXEC proc args)); of_result (unwrapOk resp proc).
Definition mem_json (proc : jsstr) (args : list arg) : M S json :=
  resp ← lift (sendCommand (EXEC proc args)); of_result (text ← unwrapValue resp proc; parse_json text).

Definition closing {A} (m : M S A) : M S A := finally m (lift (λ s, (close s, Ok tt))).

Definition add_chunk (ns : jsstr) (c : Chunk) : M S () :=
  mem_ok (js "mem_add") (add_args ns (doc_id c) (chunk_text c) (floatsToBytes (embed sqrt (chunk_text c) None))
    (Add (Some (chunk_meta c)) (Some true) None)).

(** [if (args.reset)] *)
Definition reset (a : IngestArgs) : M S () :=
  if i_reset a
  then drop ← mem_json (js "mem_drop") [ArgStr (i_ns a)]; _ ← of_result (prop drop (js "deleted")); mret tt
  else mret tt.

(** [ingest.ts]: how many chunks, in what time, and the statistics *)
Definition ingest (a : IngestArgs) (sessions : list Session) : M S (nat * Z * json) :=
  closing (
    _ ← reset a;
    _ ← mem_ok (js "mem_init") (ArgStr <$> init_args (i_ns a) (embedderId None) (Some cosine) None);
    let chunks := flatten sessions in
    t0 ← read_clock clock;
    _ ← each (add_chunk (i_ns a)) chunks;
    t1 ← read_clock clock;
    stats ← mem_json (js "mem_stats") [ArgStr (i_ns a)];
    mret (length chunks, t1 - t0, stats)).

(** [query.ts]: [None] is the usage, and exit code 2 *)
Definition query_script (a : QueryArgs) : M S (option (list line)) :=
  match q_text a with
  | [] => mret None
  | text =>
      closing (
        let qvec := floatsToBytes (embed sqrt text None) in
        hits ← mem_json (js "mem_query") ([ArgStr (q_ns a); ArgBytes qvec; ArgStr (num_text (q_k a))] ++
          (ArgStr <$> query_tail (Query (Some (num_text (q_lambda a))) None (Some (js "140")) (q_filter a))));
        hits ← of_result (iterated hits);
        lines ← of_result (mapM hit_line hits);
        mret (Some lines))
  end.

(** [bench.ts], for whole numbers of documents, queries and results; [rng]
    gives the documents drawn as queries. *)
Record BenchPlan := Plan { p_ns : jsstr; p_n : nat; p_queries : nat; p_dim : Z; p_k : nat }.
Record Summary := MakeSummary {
  s_docs : Z; ingest_time : Z; p50 : Z; p95 : Z; p99 : Z; s_recall : num; s_index : option json }.

Definition preEmbedded (n : nat) (dim : Z) : list embedded :=
  (λ d, Embedded (synth_id d) (synth_text d) (embed sqrt (synth_text d) (Some dim))) <$> synthCorpus n.

Definition add_embedded (ns : jsstr) (d : embedded) : M S () :=
  mem_ok (js "mem_add") (add_args ns (e_id d) (e_text d) (floatsToBytes (vec d)) (Add None (Some true) None)).

(** One timed query: how long it took and what it found *)
Definition timed (ns : jsstr) (k : nat) (docs : list embedded) (qi : nat) : M S (Z * json) :=
  q ← of_result (match docs !! qi with Some q => Ok q | None => Throw TypeError end);
  t0 ← read_clock clock;
  hits ← mem_json (js "mem_query") (query_args ns (floatsToBytes (vec q)) (Z.of_nat k) (Query None None (Some (js "-1")) None));
  t1 ← read_clock clock;
  mret (t1 - t0, hits).

(** The ids in common for one query *)
Definition compare (docs : list embedded) (k : nat) (qh : nat * json) : res Z :=
  q ← match docs !! qh.1 with Some q => Ok q | None => Throw TypeError end;
  hits ← array qh.2;
  got ← mapM (λ h, prop h (js "id")) hits;
  Ok (intersect (truth sqrt docs (vec q) k) got).

Definition bench (p : BenchPlan) (rng : nat → nat) : M S Summary :=
  closing (
    _ ← mem_json (js "mem_drop") [ArgStr (p_ns p)];
    _ ← mem_ok (js "mem_init") (ArgStr <$> init_args (p_ns p) (embedderId (Some (p_dim p))) (Some cosine) None);
    let docs := preEmbedded (p_n p) (p_dim p) in
    tIngest0 ← read_clock clock;
    _ ← each (add_embedded (p_ns p)) docs;
    tIngest ← read_clock clock;
    let queryIdxs := rng <$> seq 0 (p_queries p) in
    answers ← each (timed (p_ns p) (p_k p) docs) queryIdxs;
    let latencies := merge_sort Z.le answers.*1 in
    common ← of_result (mapM (compare docs (p_k p)) (zip queryIdxs answers.*2));
    stats ← mem_json (js "mem_stats") [ArgStr (p_ns p)];
    hnsw ← of_result (prop stats (js "hnsw"));
    mret (MakeSummary (len docs) (tIngest - tIngest0)
            (percentile_of latencies (rnd (1 # 2))) (percentile_of latencies (rnd (95 # 100)))
            (percentile_of latencies (rnd (99 # 100)))
            (recall_of (foldr Z.add 0 common) (len queryIdxs * Z.of_nat (p_k p))) hnsw)).
End Scripts.

(** ** Over the procedures of the server *)

Section Server.
Context {UD : UnicodeData} (sqrt : Q → Q) (floatsToBytes : list Q → bytes) (num_text : num → jsstr) (clock : nat → Z).
Context (tau : jsstr → bool) (safe : bool).
Context (mem_query_json : server_query → store → json) (mem_stats_json : jsstr → store → json).
Context (other : ParsedCommand → store → store * res WormResponse).

Notation serve := (MemStore.serve tau safe mem_query_json mem_stats_json other).
Notation mem_ok := (mem_ok serve).
Notation mem_json := (mem_json serve).
(** Closing the connection leaves the store as it is. *)
Notation keep := (λ s : store, s).

(** *** Adding documents *)

Record item := Item { it_id : jsstr; it_text : jsstr; it_bytes : bytes; it_meta : option json }.
Definition add_item (ns : jsstr) (i : item) : M store () :=
  mem_ok (js "mem_add") (add_args ns (it_id i) (it_text i) (it_bytes i) (Add (it_meta i) (Some true) None)).
Definition doc_of (i : item) : document :=
  Doc (Some (it_text i)) (it_bytes i) (match it_meta i with Some m => stringify m | None => [] end) true.
Definition stored (D : gmap jsstr document) (items : list item) : gmap jsstr document :=
  foldl (λ D i, <[it_id i := doc_of i]> D) D items.

Lemma stored_lookup_ne D items id : id ∉ it_id <$> items → stored D items !! id = D !! id.
Proof.
  unfold stored. revert D. induction items as [|i items IH]; intros D Hid; [done|]. cbn [foldl fmap list_fmap] in *.
  apply not_elem_of_cons in Hid as [Hn Hid]. rewrite IH by done. by apply lookup_insert_ne.
Qed.

Lemma stored_lookup D items i : NoDup (it_id <$> items) → i ∈ items → stored D items !! it_id i = Some (doc_of i).
Proof.
  unfold stored. revert D. induction items as [|j items IH]; intros D Hd Hi; [by apply elem_of_nil in Hi|].
  cbn [foldl fmap list_fmap] in *. apply NoDup_cons in Hd as [Hj Hd]. apply elem_of_cons in Hi as [->|Hi]; [|by apply IH].
  fold (stored (<[it_id j := doc_of j]> D) items). rewrite stored_lookup_ne by done. apply lookup_insert_eq.
Qed.

Lemma add_args_read ns i :
  mem_add false (add_args ns (it_id i) (it_text i) (it_bytes i) (Add (it_meta i) (Some true) None)) =
  Some (SrvAdd ns (it_id i) (it_text i) (it_bytes i) (meta (doc_of i)) true None).
Proof. destruct i as [id t b [m|]]; reflexivity. Qed.

Lemma at_ns_insert s ns n : at_ns (<[ns := n]> s) ns = n.
Proof. unfold at_ns. by rewrite lookup_insert_eq. Qed.

Lemma serve_add ns i s : validateNs ns = true →
  serve (EXEC (js "mem_add") (add_args ns (it_id i) (it_text i) (it_bytes i) (Add (it_meta i) (Some true) None))) s =
  on_ns s ns (memAdd (add_args ns (it_id i) (it_text i) (it_bytes i) (Add (it_meta i) (Some true) None)) (at_ns s ns)).
Proof. intros Hns. unfold MemStore.serve, procedure. cbn [text_arg add_args app lookup list_lookup]. by rewrite Hns. Qed.

(** The namespace as [mem_init] leaves it, with the documents given *)
Definition opened (embedder : jsstr) (d : option Z) (D : gmap jsstr document) : namespace :=
  NS (Some (embedder, cosine, false)) (Some (cosine, d)) D.
Definition good_item (dim : Z) (i : item) : Prop := validateDocId (it_id i) = true ∧ len (it_bytes i) = 4 * dim.

Lemma memAdd_fresh embedder d D ns dim i : good_item dim i → 0 < dim → (d = None ∨ d = Some dim) → D !! it_id i = None →
  memAdd (add_args ns (it_id i) (it_text i) (it_bytes i) (Add (it_meta i) (Some true) None)) (opened embedder d D) =
  (opened embedder (Some dim) (<[it_id i := doc_of i]> D), ok).
Proof.
  intros [Hid Hlen] Hd Hdim HD. unfold memAdd. cbn [config opened]. rewrite add_args_read. cbn [sa_id sa_embedder].
  rewrite Hid. cbn [negb]. unfold memAdd_vector. cbn [sa_embedding sa_id sa_text sa_meta sa_worm index opened docs config].
  rewrite Hlen, HD, (Z.mul_comm 4), Z.mod_mul, Z.div_mul by lia. replace (dim * 4 =? 0) with false by lia. cbn [orb negb].
  assert (match d with Some d => negb (dim =? d) | None => false end = false) as ->.
  { destruct Hdim as [->| ->]; [done|]. by rewrite Z.eqb_refl. }
  rewrite bool_decide_eq_true_2 by done. cbn [default fmap option_fmap option_map from_option id].
  assert (default dim d = dim) as -> by by destruct Hdim as [->| ->].
  unfold opened. do 3 f_equal. unfold doc_of. f_equal. by destruct (it_meta i) as [m|]; cbn; [destruct (stringify m)|].
Qed.

Lemma adds_ok ns embedder d D dim items s n : validateNs ns = true → 0 < dim → (d = None ∨ d = Some dim) →
  Forall (good_item dim) items → NoDup (it_id <$> items) → Forall (λ i, D !! it_id i = None) items →
  at_ns s ns = opened embedder d D →
  ∃ s' d' us, each (add_item ns) items s n = (Ok us, s', n) ∧ at_ns s' ns = opened embedder d' (stored D items) ∧
    (d' = None ∨ d' = Some dim).
Proof.
  intros Hns Hdim Hd Hg. revert d D s Hd. induction Hg as [|i items Hi Hg IH]; intros d D s Hd Hn HD Hs; [by exists s, d, []|].
  apply NoDup_cons in Hn as [Hni Hn]. apply Forall_cons in HD as [HDi HD].
  assert (add_item ns i s n = (Ok tt, <[ns := opened embedder (Some dim) (<[it_id i := doc_of i]> D)]> s, n)) as E.
  { unfold add_item, AgentScripts.mem_ok, mbind, M_bind, lift. rewrite serve_add, Hs by done.
    rewrite (memAdd_fresh embedder d D ns dim) by done. done. }
  destruct (IH (Some dim) (<[it_id i := doc_of i]> D) (<[ns := opened embedder (Some dim) (<[it_id i := doc_of i]> D)]> s))
    as (s' & d' & us & E2 & Hs' & Hd'); [by right|done| |by apply at_ns_insert|].
  { apply Forall_forall. intros j Hj. rewrite Forall_forall in HD. rewrite lookup_insert_ne; [by apply HD|].
    intros Ej. apply Hni. rewrite Ej. by apply list_elem_of_fmap_2. }
  exists s', d', (tt :: us). split; [|done]. cbn [each]. unfold mbind, M_bind. rewrite E, E2. done.
Qed.

(** A document that is there and write-once refuses the addition. *)
Lemma memAdd_vector_refused a m v n D : docs n !! sa_id a = Some D → immutable D = true →
  ∃ e, memAdd_vector a m v n = (n, error e).
Proof.
  intros HD Hi. unfold memAdd_vector. rewrite HD. cbn [fmap option_fmap option_map default from_option id]. rewrite Hi.
  repeat case_match; by eexists.
Qed.

Lemma memAdd_refused n ns i D : docs n !! it_id i = Some D → immutable D = true →
  ∃ e, memAdd (add_args ns (it_id i) (it_text i) (it_bytes i) (Add (it_meta i) (Some true) None)) n = (n, error e).
Proof.
  intros HD Hi. unfold memAdd. destruct (match config n with Some (_, _, v) => v | None => false end).
  { assert (mem_add true (add_args ns (it_id i) (it_text i) (it_bytes i) (Add (it_meta i) (Some true) None)) = None) as -> by done.
    by eexists. }
  rewrite add_args_read. destruct (negb _); [by eexists|]. by apply (memAdd_vector_refused _ _ _ _ D).
Qed.

(** *** Ingesting *)

Definition item_of (c : Chunk) : item :=
  Item (doc_id c) (chunk_text c) (floatsToBytes (embed sqrt (chunk_text c) None)) (Some (chunk_meta c)).

Lemma each_fmap {W A B C} (f : B → M W C) (g : A → B) l : each (λ a, f (g a)) l = each f (g <$> l).
Proof. induction l as [|a l IH]; [done|]. cbn [each fmap list_fmap]. by rewrite IH. Qed.

Lemma add_chunks ns cs : each (add_chunk sqrt floatsToBytes serve ns) cs = each (add_item ns) (item_of <$> cs).
Proof. apply (each_fmap (add_item ns) item_of). Qed.

Lemma embed_length text dim : 0 < default 128 dim → len (embed sqrt text dim) = default 128 dim.
Proof.
  intros Hd. unfold embed, normalize, len. rewrite length_fmap, counts_length by done. lia.
Qed.

(** The vectors are floats of four bytes. *)
Context (four_bytes : ∀ v, len (floatsToBytes v) = 4 * len v).
Context (stats_ok : ∀ ns s, json_ok (mem_stats_json ns s)).

Lemma mem_json_of proc args s s' v n : json_ok v → serve (EXEC proc args) s = (s', Ok (bulk (stringify v))) →
  mem_json proc args s n = (Ok v, s', n).
Proof.
  intros Hv E. unfold AgentScripts.mem_json, mbind, M_bind, lift, of_result. rewrite E. cbn [unwrapValue mbind res_bind].
  unfold parse_json. by rewrite parse_stringify.
Qed.

Lemma stats_reply ns s n : validateNs ns = true → mem_json (js "mem_stats") [ArgStr ns] s n = (Ok (mem_stats_json ns s), s, n).
Proof. intros Hns. apply mem_json_of; [done|]. unfold MemStore.serve, procedure. cbn [text_arg lookup list_lookup]. by rewrite Hns. Qed.

Lemma serve_init ns e opts s : validateNs ns = true →
  serve (EXEC (js "mem_init") (ArgStr <$> (ns :: e :: js "cosine" :: opts))) s =
  on_ns s ns (memInit tau e (js "cosine") opts (at_ns s ns)).
Proof.
  intros Hns. unfold MemStore.serve, procedure. cbn [text_arg fmap list_fmap lookup list_lookup]. rewrite Hns. cbn [negb].
  rewrite bool_decide_eq_true_2 by done. do 2 f_equal. unfold list.drop. cbn [list.drop skipn].
  induction opts as [|o opts IH]; [done|]. cbn. by rewrite IH.
Qed.

Lemma token_units max s : valid_token max s = true → Forall is_unit s.
Proof.
  unfold valid_token. intros [_ H]%andb_true_iff. apply Forall_forall. intros c Hc. apply list_elem_of_In in Hc.
  rewrite List.forallb_forall in H. specialize (H c Hc). unfold isSafeToken, is_unit in *. lia.
Qed.

Lemma drop_json_ok ns b d k : validateNs ns = true → 0 ≤ d → 0 ≤ k → json_ok (drop_json ns b d k).
Proof.
  intros Hns%token_units Hd Hk. constructor; [apply (bool_decide_unpack _); vm_compute; exact I|].
  repeat (apply Forall_cons; split); try apply Forall_nil_2; cbn; split; try by apply jnum_ok.
  all: try by constructor. all: by repeat constructor.
Qed.

Lemma serve_drop ns s : validateNs ns = true →
  serve (EXEC (js "mem_drop") [ArgStr ns]) s =
  let '(n, r) := memDrop safe ns (at_ns s ns) in
  (<[ns := n]> s, match r with Some r => Ok r | None => Throw ClientConnectionClosedError end).
Proof. intros Hns. unfold MemStore.serve, procedure. cbn [text_arg lookup list_lookup]. by rewrite Hns. Qed.

Definition unused : namespace := NS None None ∅.

Lemma drop_unused ns : memDrop safe ns unused = (unused, Some (bulk (stringify (drop_json ns false 0 0)))).
Proof. unfold memDrop. by destruct safe. Qed.

Notation ingest := (ingest sqrt floatsToBytes serve keep clock).
Notation eid := (embedderId None).

(** The drop of an unused namespace and the set-up of one *)
Lemma drop_step ns s n : validateNs ns = true → at_ns s ns = unused →
  ∃ s' v, mem_json (js "mem_drop") [ArgStr ns] s n = (Ok v, s', n) ∧ at_ns s' ns = unused ∧ ∃ d, prop v (js "deleted") = Ok (Some d).
Proof.
  intros Hns Hs. exists (<[ns := unused]> s), (drop_json ns false 0 0). split_and!.
  - apply mem_json_of; [by apply drop_json_ok|]. by rewrite serve_drop, Hs, drop_unused.
  - apply at_ns_insert.
  - by eexists.
Qed.

Lemma init_step ns e s n : validateNs ns = true → validateEmbedderId e = true → at_ns s ns = unused →
  mem_ok (js "mem_init") (ArgStr <$> init_args ns e (Some cosine) None) s n =
  (Ok tt, <[ns := opened e None ∅]> s, n).
Proof.
  intros Hns He Hs. unfold AgentScripts.mem_ok, mbind, M_bind, lift. change (init_args ns e (Some cosine) None) with [ns; e; js "cosine"].
  rewrite serve_init, Hs by done. unfold memInit. by rewrite He.
Qed.

Definition ids_of (sessions : list Session) : list jsstr := doc_id <$> flatten sessions.
Definition stored_chunk (c : Chunk) : document :=
  Doc (Some (chunk_text c)) (floatsToBytes (embed sqrt (chunk_text c) None)) (stringify (chunk_meta c)) true.

Lemma stored_chunks cs id d : NoDup (doc_id <$> cs) →
  stored ∅ (item_of <$> cs) !! id = Some d ↔ ∃ c, c ∈ cs ∧ id = doc_id c ∧ d = stored_chunk c.
Proof.
  intros Hn. assert (it_id <$> (item_of <$> cs) = doc_id <$> cs) as Hid by by rewrite <- list_fmap_compose.
  split.
  - intros Hd. destruct (decide (id ∈ it_id <$> (item_of <$> cs))) as [Hin|Hin].
    + rewrite <- list_fmap_compose in Hin. apply list_elem_of_fmap in Hin as (c & -> & Hc). exists c. split_and!; [done..|].
      cbn in Hd. change (doc_id c) with (it_id (item_of c)) in Hd. rewrite stored_lookup in Hd; [by simplify_eq|by rewrite Hid|by apply list_elem_of_fmap_2].
    + by rewrite stored_lookup_ne in Hd.
  - intros (c & Hc & -> & ->). change (doc_id c) with (it_id (item_of c)). rewrite stored_lookup; [done|by rewrite Hid|by apply list_elem_of_fmap_2].
Qed.

(** C31: ingesting into a namespace not yet used, with or without [--reset],
    succeeds, and afterwards the namespace holds the chunks of the sessions,
    each under its identifier with its text, its vector and its metadata,
    and nothing else. *)
Theorem ingest_stores a sessions s n : validateNs (i_ns a) = true → NoDup (session_id <$> sessions) →
  Forall (λ id, validateDocId id = true) (ids_of sessions) → at_ns s (i_ns a) = unused →
  ∃ t stats s' n', ingest a sessions s n = (Ok (length (flatten sessions), t, stats), s', n') ∧
    ∀ id d, docs (at_ns s' (i_ns a)) !! id = Some d ↔ ∃ c, c ∈ flatten sessions ∧ id = doc_id c ∧ d = stored_chunk c.
Proof.
  intros Hns Hse Hids Hs. set (ns := i_ns a) in *. pose proof (flatten_ids_distinct sessions Hse) as Hn.
  assert (∃ s1, reset serve a s n = (Ok tt, s1, n) ∧ at_ns s1 ns = unused) as (s1 & E1 & Hs1).
  { unfold reset. fold ns. destruct (i_reset a); [|by exists s]. destruct (drop_step ns s n Hns Hs) as (s1 & v & E & Hs1 & d & Hd).
    exists s1. unfold mbind, M_bind, of_result. by rewrite E, Hd. }
  pose proof (init_step ns eid s1 n Hns eq_refl Hs1) as E2.
  destruct (adds_ok ns eid None ∅ 128 (item_of <$> flatten sessions) (<[ns := opened eid None ∅]> s1) (S n))
    as (s3 & d' & us & E3 & Hs3 & _); [done|done|by left| | |by apply Forall_forall|by apply at_ns_insert|].
  { apply Forall_fmap, Forall_forall. intros c Hc. split; cbn.
    - rewrite Forall_forall in Hids. apply Hids. by apply list_elem_of_fmap_2.
    - rewrite four_bytes, embed_length; done. }
  { by rewrite <- list_fmap_compose. }
  exists (clock (S n) - clock n), (mem_stats_json ns s3), s3, (S (S n)). split.
  - unfold AgentScripts.ingest, closing, finally, mbind, M_bind. fold ns. rewrite E1. rewrite E2. unfold read_clock at 1.
    rewrite add_chunks, E3. unfold read_clock. by rewrite stats_reply.
  - intros id d. rewrite Hs3. cbn [docs opened]. by apply stored_chunks.
Qed.

(** *** Ingesting again *)

Lemma reset_keeps a s n : validateNs (i_ns a) = true → ∃ r s', reset serve a s n = (r, s', n) ∧
  ∀ id d, docs (at_ns s (i_ns a)) !! id = Some d → immutable d = true →
    docs (at_ns s' (i_ns a)) !! id = Some (Doc (body d) (vector d) (if i_reset a then [] else meta d) true).
Proof.
  intros Hns. unfold reset. destruct (i_reset a).
  2: { exists (Ok tt), s. split; [done|]. intros id [b v m i] Hd Hi. cbn in *. by rewrite Hd, Hi. }
  unfold AgentScripts.mem_json, mbind, M_bind, lift, of_result. rewrite serve_drop by done.
  pose proof (λ id d, drop_keeps safe (i_ns a) (at_ns s (i_ns a)) id d) as Hk.
  destruct (memDrop safe (i_ns a) (at_ns s (i_ns a))) as [nn r]. cbn [fst] in Hk.
  assert (∀ id d, docs (at_ns s (i_ns a)) !! id = Some d → immutable d = true →
    docs (at_ns (<[i_ns a := nn]> s) (i_ns a)) !! id = Some (Doc (body d) (vector d) [] true)) as H.
  { intros id d Hd Hi. rewrite at_ns_insert. by apply Hk. }
  destruct r as [r|]; [|by eexists _, _].
  destruct (unwrapValue r _) as [text|e]; cbn [mbind res_bind]; [|by eexists _, _].
  destruct (parse_json text) as [v|e]; [|by eexists _, _]. by destruct (prop v _); eexists _, _.
Qed.

Lemma memInit_docs e m opts n : docs (memInit tau e m opts n).1 = docs n.
Proof.
  unfold memInit, configure. repeat case_match; try done.
Qed.

Lemma init_keeps ns e s n : validateNs ns = true →
  ∃ r s', mem_ok (js "mem_init") (ArgStr <$> init_args ns e (Some cosine) None) s n = (r, s', n) ∧
    docs (at_ns s' ns) = docs (at_ns s ns).
Proof.
  intros Hns. unfold AgentScripts.mem_ok, mbind, M_bind, lift. change (init_args ns e (Some cosine) None) with [ns; e; js "cosine"].
  rewrite serve_init by done. cbn. eexists _, _. split; [done|]. rewrite at_ns_insert. apply memInit_docs.
Qed.

Lemma adds_refused ns i items s n d : validateNs ns = true → docs (at_ns s ns) !! it_id i = Some d → immutable d = true →
  ∃ e s', each (add_item ns) (i :: items) s n = (Throw e, s', n) ∧ docs (at_ns s' ns) = docs (at_ns s ns).
Proof.
  intros Hns Hd Hi. destruct (memAdd_refused (at_ns s ns) ns i d Hd Hi) as [e He].
  assert (add_item ns i s n = (Throw (MemError (js "mem_add") e), <[ns := at_ns s ns]> s, n)) as E.
  { unfold add_item, AgentScripts.mem_ok, mbind, M_bind, lift. rewrite serve_add by done. by rewrite He. }
  cbn [each]. unfold mbind, M_bind. rewrite E. eexists _, _. split; [done|]. by rewrite at_ns_insert.
Qed.

(** Where the first chunk is already stored, as after any run of the script,
    a run fails, with [--reset] too: dropping a namespace spares the
    write-once documents, and these are what the script adds.  All it does
    is to take their metadata. *)
Theorem reingest_refused a sessions c cs s n d : validateNs (i_ns a) = true → flatten sessions = c :: cs →
  docs (at_ns s (i_ns a)) !! doc_id c = Some d → immutable d = true →
  ∃ e s' n', ingest a sessions s n = (Throw e, s', n') ∧
    ∀ id d, docs (at_ns s (i_ns a)) !! id = Some d → immutable d = true →
      docs (at_ns s' (i_ns a)) !! id = Some (Doc (body d) (vector d) (if i_reset a then [] else meta d) true).
Proof.
  intros Hns Hc Hd Hi. destruct (reset_keeps a s n Hns) as (r1 & s1 & E1 & H1).
  destruct (init_keeps (i_ns a) eid s1 n Hns) as (r2 & s2 & E2 & H2).
  destruct (adds_refused (i_ns a) (item_of c) (item_of <$> cs) s2 (S n)
    (Doc (body d) (vector d) (if i_reset a then [] else meta d) true) Hns) as (e & s3 & E3 & H3); [|done|].
  { rewrite H2. by apply (H1 _ _ Hd Hi). }
  unfold AgentScripts.ingest, closing, finally, mbind, M_bind. rewrite E1. destruct r1 as [[]|e1]; [|by eexists _, _, _].
  rewrite E2. destruct r2 as [[]|e2].
  2: { eexists _, s2, _. split; [done|]. intros id d' Hd' Hi'. rewrite H2. by apply H1. }
  unfold read_clock at 1. rewrite Hc, add_chunks. cbn [fmap list_fmap]. rewrite E3. eexists _, s3, _. split; [done|].
  intros id d' Hd' Hi'. rewrite H3, H2. by apply H1.
Qed.
(** *** The benchmark *)

Lemma truth_ids docs q k : truth sqrt docs q k = (λ i, default [] (e_id <$> docs !! i)) <$>
  take k (ranking (λ i, Fin (- cosine_of sqrt q (default [] (vec <$> docs !! i)))%Q) (length docs)).
Proof.
  unfold truth. assert (Forall (λ i, i < length docs)%nat
    (take k (ranking (λ i, Fin (- cosine_of sqrt q (default [] (vec <$> docs !! i)))%Q) (length docs)))) as H.
  { apply Forall_take. rewrite ranking_perm. apply Forall_forall. intros i. rewrite elem_of_seq. lia. }
  revert H. generalize (take k (ranking (λ i, Fin (- cosine_of sqrt q (default [] (vec <$> docs !! i)))%Q) (length docs))).
  intros l. induction 1 as [|i l Hi _ IH]; [done|]. destruct (lookup_lt_is_Some_2 docs i Hi) as [d Hd].
  cbn [omap list_omap fmap list_fmap]. rewrite Hd. cbn [fmap option_fmap option_map default from_option id]. by rewrite IH.
Qed.

Lemma truth_good docs q k : NoDup (e_id <$> docs) →
  NoDup (truth sqrt docs q k) ∧ len (truth sqrt docs q k) = Z.min (Z.of_nat k) (len docs).
Proof.
  intros Hd. rewrite truth_ids. set (l := take k _).
  assert (NoDup l ∧ Forall (λ i, i < length docs)%nat l ∧ len l = Z.min (Z.of_nat k) (len docs)) as (Hl & Hb & Hn).
  { pose proof (ranking_perm (λ i, Fin (- cosine_of sqrt q (default [] (vec <$> docs !! i)))%Q) (length docs)) as Hp. unfold l. split_and!.
    - eapply sublist_NoDup; [|apply sublist_take]. rewrite Hp. apply NoDup_seq.
    - apply Forall_take. rewrite Hp. apply Forall_forall. intros i. rewrite elem_of_seq. lia.
    - unfold len. rewrite length_take, Hp, length_seq. lia. }
  split; [|unfold len in *; by rewrite length_fmap].
  apply NoDup_fmap_2_strong; [|done]. intros i j Hi Hj E. rewrite Forall_forall in Hb.
  destruct (lookup_lt_is_Some_2 docs i (Hb i Hi)) as [d Hd1]. destruct (lookup_lt_is_Some_2 docs j (Hb j Hj)) as [d' Hd2].
  rewrite Hd1, Hd2 in E. cbn in E. eapply (NoDup_lookup _ i j (e_id d) Hd); rewrite list_lookup_fmap; [by rewrite Hd1|by rewrite Hd2, E].
Qed.

(** No document left out of the truth is more similar than one in it. *)
Lemma truth_best docs q k d d' : NoDup (e_id <$> docs) → d ∈ docs → d' ∈ docs →
  e_id d ∈ truth sqrt docs q k → e_id d' ∉ truth sqrt docs q k → (cosine_of sqrt q (vec d') <= cosine_of sqrt q (vec d))%Q.
Proof.
  intros Hn Hd Hd'. rewrite truth_ids.
  set (far := λ i, Fin (- cosine_of sqrt q (default [] (vec <$> docs !! i)))%Q). set (l := ranking far (length docs)).
  apply list_elem_of_lookup in Hd as [i Hi]. apply list_elem_of_lookup in Hd' as [j Hj].
  assert (∀ m x, docs !! m = Some x → e_id x ∈ ((λ i, default [] (e_id <$> docs !! i)) <$> take k l) → m ∈ take k l) as Hin.
  { intros m x Hm Hx. apply list_elem_of_fmap in Hx as (m' & E & Hm'). assert (m' ∈ l) as Hl.
    { rewrite <- (take_drop k l). apply elem_of_app. by left. }
    unfold l in Hl. rewrite ranking_perm in Hl. apply elem_of_seq in Hl.
    destruct (lookup_lt_is_Some_2 docs m') as [x' Hx']; [lia|]. rewrite Hx' in E. cbn in E.
    rewrite (NoDup_lookup _ m m' (e_id x) Hn); [done|by rewrite list_lookup_fmap, Hm|by rewrite list_lookup_fmap, Hx', E]. }
  intros Hti Htj. pose proof (Hin i d Hi Hti) as H1. assert (j ∈ list.drop k l) as H2.
  { assert (j ∈ l) as Hl. { unfold l. rewrite ranking_perm. apply elem_of_seq. apply lookup_lt_Some in Hj. lia. }
    rewrite <- (take_drop k l) in Hl. apply elem_of_app in Hl as [Hl|Hl]; [|done]. exfalso. apply Htj.
    apply list_elem_of_fmap. exists j. split; [by rewrite Hj|done]. }
  pose proof (ranking_sorted far ltac:(done) (length docs)) as Hs. fold l in Hs. rewrite <- (take_drop k l) in Hs.
  destruct (sorted_app_before _ _ _ i j Hs H1 H2) as [Hf _]. unfold far in Hf. rewrite Hi, Hj in Hf. cbn in Hf.
  apply Qle_bool_iff in Hf. apply Qopp_le_compat in Hf. by rewrite !Qopp_involutive in Hf.
Qed.

(** The code counts the different ids found that are in the truth: those of
    the truth that were found. *)
Definition overlap (truth ids : list jsstr) : Z := len (base.filter (.∈ ids) truth).

Lemma intersect_overlap truth ids : NoDup truth → intersect truth ((λ id, Some (JStr id)) <$> ids) = overlap truth ids.
Proof.
  intros Hn. unfold intersect, overlap.
  assert (omap (λ v, match v with Some (JStr id) => Some id | _ => None end) ((λ id, Some (JStr id)) <$> ids) = ids) as ->.
  { clear. induction ids as [|id ids IH]; [done|]. cbn. by rewrite IH. }
  unfold len. f_equal. apply Permutation_length, NoDup_Permutation.
  - apply NoDup_filter, NoDup_remove_dups.
  - by apply NoDup_filter.
  - intros x. rewrite !list_elem_of_filter, elem_of_remove_dups. tauto.
Qed.

Lemma overlap_most truth ids : 0 ≤ overlap truth ids ≤ len truth ∧ (truth ⊆ ids → overlap truth ids = len truth).
Proof.
  unfold overlap, len. split; [pose proof (length_filter (.∈ ids) truth); lia|].
  intros H. rewrite filter_all; [done|]. apply Forall_forall. intros x Hx. by apply H.
Qed.

Notation bench := (bench sqrt floatsToBytes serve keep clock).
Notation docs_of p := (preEmbedded sqrt (p_n p) (p_dim p)).

(** The namespace that the benchmark fills *)
Definition filled (p : BenchPlan) : gmap jsstr document :=
  stored ∅ ((λ d, Item (e_id d) (e_text d) (floatsToBytes (vec d)) None) <$> docs_of p).

(** The ids [mem_query] answers in a store for the vector of a document: the
    nearest or others, in any number and order, repeated or not *)
Definition found (p : BenchPlan) (s : store) (d : embedded) (ids : list jsstr) : Prop := ∃ hits,
  mem_query_json (SrvQuery (p_ns p) (floatsToBytes (vec d)) (show (Z.of_nat (p_k p))) (js "0") None (Some (js "-1")) None) s = JArr hits ∧
  Forall2 (λ h id, prop h (js "id") = Ok (Some (JStr id))) hits ids.

(** The form of the answers: an array of objects with an id each *)
Definition answers_ids (p : BenchPlan) : Prop := ∀ s d, docs (at_ns s (p_ns p)) = filled p → d ∈ docs_of p →
  ∃ hits ids, mem_query_json (SrvQuery (p_ns p) (floatsToBytes (vec d)) (show (Z.of_nat (p_k p))) (js "0") None (Some (js "-1")) None) s = JArr hits ∧
    json_ok (JArr hits) ∧ Forall2 (λ h id, prop h (js "id") = Ok (Some (JStr id))) hits ids.

Lemma ids_of_hits hits ids : Forall2 (λ h id, prop h (js "id") = Ok (Some (JStr id))) hits ids →
  mapM (λ h, prop h (js "id")) hits = Ok ((λ id, Some (JStr id)) <$> ids).
Proof. induction 1 as [|h id hits ids Hh _ IH]; [done|]. cbn [mapM fmap list_fmap]. rewrite Hh. cbn [mbind res_bind]. by rewrite IH. Qed.

Lemma preEmbedded_ids n dim : e_id <$> preEmbedded sqrt n dim = synth_id <$> synthCorpus n.
Proof. unfold preEmbedded. by rewrite <- list_fmap_compose. Qed.

Notation truth_of p d := (truth sqrt (docs_of p) (vec d) (p_k p)).

(** What one query finds and what comparing it gives *)
Definition measured_query (p : BenchPlan) (s : store) (qi : nat) (hits : json) : Prop := ∃ d ids, docs_of p !! qi = Some d ∧
  found p s d ids ∧ compare sqrt (docs_of p) (p_k p) (qi, hits) = Ok (overlap (truth_of p d) ids).

Lemma does_timed_query p s : answers_ids p → validateNs (p_ns p) = true → docs (at_ns s (p_ns p)) = filled p →
  ∀ qi, (qi < length (docs_of p))%nat → does (timed floatsToBytes serve clock (p_ns p) (p_k p) (docs_of p) qi) (λ w, w = s)
    (λ a, measured_query p s qi a.2).
Proof.
  intros He Hns HI qi Hqi. destruct (lookup_lt_is_Some_2 _ _ Hqi) as [d Hd]. unfold timed.
  eapply does_then; [by apply (does_result _ _ d (λ d', d' = d)); [rewrite Hd|]|]. intros ? ->.
  eapply does_then; [apply does_clock|]. intros t0 _.
  eapply (does_then _ _ _ (λ hits, measured_query p s qi hits)).
  - intros w n ->. destruct (He s d HI (list_elem_of_lookup_2 _ _ _ Hd)) as (hits & ids & Hq & Hok & Hh).
    exists (JArr hits), s, n. split; [|split; [done|]].
    + apply mem_json_of; [done|]. unfold MemStore.serve, procedure. cbn [text_arg query_args app lookup list_lookup]. rewrite Hns. by rewrite <- Hq.
    + exists d, ids. split; [done|]. split; [by exists hits|].
      unfold compare. cbn [fst snd]. rewrite Hd. cbn [mbind res_bind array]. rewrite (ids_of_hits _ _ Hh). cbn [mbind res_bind].
      rewrite intersect_overlap; [done|]. apply truth_good. rewrite preEmbedded_ids. apply synth_ids_distinct.
  - intros hits Hh. eapply does_then; [apply does_clock|]. intros t1 _. by apply does_ret.
Qed.

Lemma add_all ns ds : each (add_embedded floatsToBytes serve ns) ds =
  each (add_item ns) ((λ d, Item (e_id d) (e_text d) (floatsToBytes (vec d)) None) <$> ds).
Proof. apply (each_fmap (add_item ns) (λ d, Item (e_id d) (e_text d) (floatsToBytes (vec d)) None)). Qed.

(** The ids in common, of what was found for the documents drawn *)
Definition in_common (p : BenchPlan) (idxs : list nat) (finds : list (list jsstr)) : Z :=
  foldr Z.add 0 (zip_with (λ qi ids, overlap (default [] ((λ d, truth_of p d) <$> docs_of p !! qi)) ids) idxs finds).

Lemma in_common_cons p qi d idxs ids finds : docs_of p !! qi = Some d →
  in_common p (qi :: idxs) (ids :: finds) = overlap (truth_of p d) ids + in_common p idxs finds.
Proof. intros Hd. unfold in_common. cbn [zip_with foldr]. by rewrite Hd. Qed.

Lemma compare_all p s idxs (answers : list (Z * json)) : Forall2 (λ qi a, measured_query p s qi a.2) idxs answers →
  ∃ finds l, mapM (compare sqrt (docs_of p) (p_k p)) (zip idxs answers.*2) = Ok l ∧
    Forall2 (λ qi ids, ∃ d, docs_of p !! qi = Some d ∧ found p s d ids) idxs finds ∧ foldr Z.add 0 l = in_common p idxs finds.
Proof.
  induction 1 as [|qi a idxs answers (d & ids & Hd & Hf & Hc) _ (finds & l & E & HF & Hs)]; [by exists [], []|].
  exists (ids :: finds), (overlap (truth_of p d) ids :: l). split; [|split].
  - cbn [fmap list_fmap zip zip_with mapM]. rewrite Hc. cbn [mbind res_bind]. by rewrite E.
  - constructor; [by exists d|done].
  - by rewrite (in_common_cons _ _ _ _ _ _ Hd), <- Hs.
Qed.

Lemma in_common_most p idxs finds : Forall (λ qi, (qi < p_n p)%nat) idxs → length idxs = length finds →
  let most := len idxs * Z.min (Z.of_nat (p_k p)) (Z.of_nat (p_n p)) in
  0 ≤ in_common p idxs finds ≤ most ∧
  (Forall2 (λ qi ids, ∀ d, docs_of p !! qi = Some d → truth_of p d ⊆ ids) idxs finds → in_common p idxs finds = most).
Proof.
  assert (length (docs_of p) = p_n p) as Hl by by unfold preEmbedded; rewrite length_fmap, synthCorpus_length.
  intros Hi. revert finds. induction Hi as [|qi idxs Hqi Hi IH]; intros [|ids finds]; try done. intros [= Hn].
  destruct (IH finds Hn) as [IHb IHf]. destruct (lookup_lt_is_Some_2 (docs_of p) qi) as [d Hd]; [lia|].
  assert (len (truth_of p d) = Z.min (Z.of_nat (p_k p)) (Z.of_nat (p_n p))) as Ht.
  { rewrite (proj2 (truth_good (docs_of p) (vec d) (p_k p) ltac:(rewrite preEmbedded_ids; apply synth_ids_distinct))). unfold len. by rewrite Hl. }
  pose proof (overlap_most (truth_of p d) ids) as [Hb Hf]. cbn zeta in *. rewrite (in_common_cons _ _ _ _ _ _ Hd), len_cons, Z.mul_add_distr_r.
  rewrite Ht in Hb, Hf. split; [lia|]. intros (Hh & Ht')%Forall2_cons. specialize (IHf Ht'). rewrite (Hf (Hh d Hd)). lia.
Qed.

(** C30: the benchmark, from a namespace not yet used, stores its documents,
    succeeds and reports as its recall what it measured, whatever the
    searches find: the number of the [k] most similar documents that were
    found, over all the queries drawn, by [k] for each of them.  It is full
    recall when every search finds them all and there are as many documents as
    results are asked for; with fewer documents, what is found is divided by
    [k] all the same.  From the server it is assumed that [mem_query] answers
    a list of objects that have an id, and [mem_stats] one that is not
    null. *)
Theorem bench_recall p rng s n : validateNs (p_ns p) = true → validateEmbedderId (embedderId (Some (p_dim p))) = true → 0 < p_dim p →
  Forall (λ id, validateDocId id = true) (synth_id <$> synthCorpus (p_n p)) → at_ns s (p_ns p) = unused →
  answers_ids p → (∀ ns s, mem_stats_json ns s ≠ JNull) → (∀ i, (rng i < p_n p)%nat) →
  let N := Z.of_nat (p_n p) in let k := Z.of_nat (p_k p) in let Q := Z.of_nat (p_queries p) in
  let idxs := rng <$> seq 0 (p_queries p) in
  ∃ sum s' n' finds, bench p rng s n = (Ok sum, s', n') ∧ s_docs sum = N ∧ docs (at_ns s' (p_ns p)) = filled p ∧
    Forall2 (λ qi ids, ∃ d, docs_of p !! qi = Some d ∧ found p s' d ids) idxs finds ∧
    s_recall sum = recall_of (in_common p idxs finds) (Q * k) ∧ 0 ≤ in_common p idxs finds ≤ Q * Z.min k N ∧
    (Forall2 (λ qi ids, ∀ d, docs_of p !! qi = Some d → truth_of p d ⊆ ids) idxs finds →
     s_recall sum = recall_of (Q * Z.min k N) (Q * k) ∧ (1 ≤ Q → 1 ≤ k ≤ N → s_recall sum = Fin 1)).
Proof.
  intros Hns He Hdim Hids Hs Hex Hst Hrng N k Q idxs. set (ns := p_ns p) in *.
  destruct (drop_step ns s n Hns Hs) as (s1 & v & E1 & Hs1 & _).
  pose proof (init_step ns _ s1 n Hns He Hs1) as E2.
  set (items := (λ d, Item (e_id d) (e_text d) (floatsToBytes (vec d)) None) <$> docs_of p).
  assert (it_id <$> items = synth_id <$> synthCorpus (p_n p)) as Hitems.
  { unfold items, preEmbedded. by rewrite <- !list_fmap_compose. }
  destruct (adds_ok ns (embedderId (Some (p_dim p))) None ∅ (p_dim p) items (<[ns := opened (embedderId (Some (p_dim p))) None ∅]> s1) (S n))
    as (s3 & d' & us & E3 & Hs3 & _); [done|done|by left| |by rewrite Hitems; apply synth_ids_distinct|by apply Forall_forall|by apply at_ns_insert|].
  { apply Forall_forall. intros i Hi. split.
    - rewrite Forall_forall in Hids. apply Hids. rewrite <- Hitems. by apply list_elem_of_fmap_2.
    - unfold items, preEmbedded in Hi. rewrite <- list_fmap_compose in Hi. apply list_elem_of_fmap in Hi as (c & -> & _). cbn.
      by rewrite four_bytes, embed_length. }
  assert (docs (at_ns s3 ns) = filled p) as Hfill by by rewrite Hs3.
  assert (Forall (λ qi, (qi < p_n p)%nat) idxs) as Hlt by (apply Forall_fmap, Forall_forall; intros i _; apply Hrng).
  assert (len (docs_of p) = N) as HN by by unfold len, preEmbedded; rewrite length_fmap, synthCorpus_length.
  destruct (does_each (λ w, w = s3) (timed floatsToBytes serve clock ns (p_k p) (docs_of p)) idxs
    (λ qi, (qi < length (docs_of p))%nat) (λ qi a, measured_query p s3 qi a.2)) with (w := s3) (n := S (S n)) as (answers & s4 & n4 & E4 & -> & Ha).
  { eapply Forall_impl; [exact Hlt|]. intros qi Hqi. cbv beta in Hqi. unfold len, N in HN. lia. }
  { by apply does_timed_query. }
  { done. }
  destruct (compare_all _ _ _ _ Ha) as (finds & l & E5 & Hf & Hl).
  destruct (prop (mem_stats_json ns s3) (js "hnsw")) as [hnsw|e] eqn:E6.
  2: { destruct (mem_stats_json ns s3) eqn:E7; try done. by destruct (Hst ns s3). }
  eexists _, s3, n4, finds. split.
  { unfold AgentScripts.bench, closing, finally, mbind, M_bind. fold ns. rewrite E1, E2. unfold read_clock at 1. rewrite add_all. fold items.
    rewrite E3. unfold read_clock at 1. fold idxs. rewrite E4. unfold of_result at 1. rewrite E5. rewrite stats_reply by done. unfold of_result. rewrite E6. done. }
  cbn [s_docs s_recall]. rewrite Hl. destruct (in_common_most p idxs finds Hlt (Forall2_length _ _ _ Hf)) as [Hb Hfull]. cbn zeta in Hb, Hfull.
  assert (len idxs = Q) as HQl by (unfold len, idxs; by rewrite length_fmap, length_seq). rewrite HQl in Hb, Hfull. fold k N in Hb, Hfull.
  fold idxs; rewrite HQl; fold k; split; [exact HN|]. split; [exact Hfill|]. split; [exact Hf|]. split; [reflexivity|]. split; [exact Hb|]. intros Hall. rewrite (Hfull Hall). split; [done|].
  intros HQ Hk. rewrite Z.min_l by lia. unfold recall_of. replace (Q * k =? 0) with false by nia. f_equal.
  rewrite (rnd_int _ 1); [done| |lia]. apply Qmult_inv_r. intros H. unfold Qeq in H. cbn in H. nia.
Qed.
End Server.

Section Examples.
#[local] Instance ascii_units : UnicodeData := {| upper_other := λ c, [c]; lower_other := λ c, [c] |}.

(** Four bytes a float, an empty search and no statistics *)
Definition zero_bytes (v : list Q) : bytes := replicate (4 * length v) 0.
Notation run safe := (ingest (λ q, q) zero_bytes
  (MemStore.serve (λ _, false) safe (λ _ _, JArr []) (λ _ _, JObj []) (λ _ s, (s, Ok ok))) (λ s, s) Z.of_nat).
Notation demo := (Ingest (js "demo") true (js "127.0.0.1") (Fin 6389)).

Lemma zero_bytes_four v : len (zero_bytes v) = 4 * len v.
Proof. unfold zero_bytes, len. rewrite length_replicate. lia. Qed.

Lemma ingest_stores_witness : ∃ t stats s' n', run true demo SESSIONS ∅ 0%nat = (Ok (32%nat, t, stats), s', n').
Proof.
  destruct (ingest_stores (λ q, q) zero_bytes Z.of_nat (λ _, false) true (λ _ _, JArr []) (λ _ _, JObj []) (λ _ s, (s, Ok ok))
    zero_bytes_four (λ _ _, ok_obj [] (NoDup_nil_2) (Forall_nil_2 _)) demo SESSIONS ∅ 0%nat)
    as (t & stats & s' & n' & E & _).
  - reflexivity.
  - apply (bool_decide_unpack _). vm_compute. exact I.
  - apply (bool_decide_unpack _). vm_compute. exact I.
  - reflexivity.
  - exists t, stats, s', n'. rewrite E. by replace (length (flatten SESSIONS)) with 32%nat by (vm_compute; reflexivity).
Defined.

(** The first chunk of the sessions, ingested before *)
Definition ingested : store :=
  {[ js "demo" := NS None None {[ js "s-alice-01-t0" := Doc (Some (js "text")) [0; 0; 0; 0] (js "{}") true ]} ]}.

Lemma reingest_refused_witness : ∃ e s' n', run false demo SESSIONS ingested 0%nat = (Throw e, s', n') ∧
  docs (at_ns s' (js "demo")) !! js "s-alice-01-t0" = Some (Doc (Some (js "text")) [0; 0; 0; 0] [] true).
Proof.
  destruct (reingest_refused (λ q, q) zero_bytes Z.of_nat (λ _, false) false (λ _ _, JArr []) (λ _ _, JObj []) (λ _ s, (s, Ok ok))
    demo SESSIONS _ _ ingested 0%nat (Doc (Some (js "text")) [0; 0; 0; 0] (js "{}") true) eq_refl eq_refl eq_refl eq_refl)
    as (e & s' & n' & E & H).
  exists e, s', n'. split; [exact E|]. exact (H (js "s-alice-01-t0") (Doc (Some (js "text")) [0; 0; 0; 0] (js "{}") true) eq_refl eq_refl).
Defined.

Definition one_hit : json := JArr [JObj [(js "id", JStr (js "d-000000"))]].

Lemma one_hit_ok : json_ok one_hit.
Proof.
  constructor. apply Forall_singleton. constructor; [apply (bool_decide_unpack _); vm_compute; exact I|].
  apply Forall_singleton. split; [by repeat constructor|]. constructor. by repeat constructor.
Qed.

(** A server that finds the first document *)
Lemma bench_recall_witness : ∃ sum s' n', bench (λ q, q) zero_bytes
    (MemStore.serve (λ _, false) true (λ _ _, one_hit) (λ _ _, JObj []) (λ _ s, (s, Ok ok))) (λ s, s) Z.of_nat
    (Plan (js "bench") 1 1 8 1) (λ _, 0%nat) ∅ 0%nat = (Ok sum, s', n') ∧ s_recall sum = Fin 1.
Proof.
  destruct (bench_recall (λ q, q) zero_bytes Z.of_nat (λ _, false) true (λ _ _, one_hit) (λ _ _, JObj []) (λ _ s, (s, Ok ok))
    zero_bytes_four (λ _ _, ok_obj [] (NoDup_nil_2) (Forall_nil_2 _)) (Plan (js "bench") 1 1 8 1) (λ _, 0%nat) ∅ 0%nat)
    as (sum & s' & n' & finds & E & _ & _ & Hf & _ & _ & H).
  - reflexivity.
  - reflexivity.
  - reflexivity.
  - apply (bool_decide_unpack _). vm_compute. exact I.
  - reflexivity.
  - intros s d _ Hd. exists [JObj [(js "id", JStr (js "d-000000"))]], [js "d-000000"].
    split_and!; [done|apply one_hit_ok|by repeat constructor].
  - done.
  - intros _. cbn. lia.
  - exists sum, s', n'. split; [exact E|]. apply H; [|cbn; lia|cbn; lia].
    eapply Forall2_impl; [exact Hf|]. intros qi ids (d & _ & hits & Eh & Hh) d' _. unfold one_hit in Eh. injection Eh as <-.
    apply Forall2_cons_inv_l in Hh as (id & ids' & Hid & Hn & ->). apply Forall2_nil_inv_l in Hn as ->. cbn in Hid. injection Hid as <-.
    rewrite truth_ids. intros x Hx. change (x ∈ [js "d-000000"]) in Hx. exact Hx.
Defined.
End Examples.
