(* ===== verification/LoadScripts.v ===== *)
(** * Scripts that load a server ([apps/bun/src/bin])

    [vinsert-diagnostic.ts], [set-baseline.ts] and [async-parallel-test.ts]
    write many keys through several clients, each with its share of the
    numbers, and a client sends its share in batches whose calls are in flight
    together.  [inserter] is one client's loop; [fan_out] runs them with the
    answers in any order.  The clients' own queues and sockets are those of
    [Client]; what the server does with one command is [send_one].  Only the
    diagnostic uses the times of single calls; the other two scripts run the
    same loop and drop them. *)
From Stdlib Require Import QArith Qround.
From stdpp Require Import sorting.
From S2P Require Import Prelude JsText Number Command Protocol Json Argv Prog KvServer Effects VectorBench VectorTruth VectorRun AgentFixtures.
From S2P Require Client.
#[local] Open Scope Z_scope.

(** ** Shares *)

(** [Array.from({ length: N }, (_, i) => i).filter((i) => i % C === w)] *)
Definition share (N C w : Z) : list Z := base.filter (λ i, i mod C = w) (seqZ 0 N).

Lemma share_elem N C w i : i ∈ share N C w ↔ 0 ≤ i < N ∧ i mod C = w.
Proof. unfold share. rewrite list_elem_of_filter, elem_of_seqZ. naive_solver lia. Qed.

(** Over all the clients the shares are the numbers, each once. *)
Lemma shares_partition N C : 0 < C → seqZ 0 C ≫= share N C ≡ₚ seqZ 0 N.
Proof.
  intros HC. apply NoDup_Permutation; [|apply NoDup_seqZ|].
  - apply NoDup_bind; [| |apply NoDup_seqZ].
    + intros w w' i _ _ [_ <-]%share_elem [_ <-]%share_elem. done.
    + intros w _. unfold share. apply NoDup_filter, NoDup_seqZ.
  - intros i. rewrite list_elem_of_bind. split.
    + intros (w & [H _]%share_elem & _). by apply elem_of_seqZ.
    + intros H. exists (i mod C). rewrite share_elem. rewrite elem_of_seqZ in *. pose proof (Z.mod_pos_bound i C HC). lia.
Qed.

Lemma concat_bind {A B} (f : A → list B) l : concat (f <$> l) = l ≫= f.
Proof. induction l as [|a l IH]; [done|]. cbn [fmap list_fmap concat]. by rewrite bind_cons, IH. Qed.

Lemma concat_shares_elem N C : 0 < C → ∀ i, i ∈ concat (share N C <$> seqZ 0 C) ↔ 0 ≤ i < N.
Proof. intros HC i. rewrite concat_bind, shares_partition, elem_of_seqZ by done. lia. Qed.

(** ** Pipelined clients *)

(** A client's loop: the batch in flight with the times its calls were made,
    the answers so far, the numbers still to send, the times taken *)
Record inserter := Inserter {
  sent : list Z; starts : list Z; answers : list (res WormResponse); later : list Z; took : list Z; failure : option exn }.

Section Pipelined.
Context {S : Type} (send_one : Z → S → S * res WormResponse) (clock : nat → Z).
(** What is thrown on an answer that is no success *)
Context (refused : Z → WormResponse → option exn).
Context (depth : nat).

Definition failure_of (i : Z) (r : res WormResponse) : option exn :=
  match r with Ok r => refused i r | Throw e => Some e end.

(** The next batch, if any *)
Definition launch (idxs took : list Z) : M S inserter :=
  starts ← each (λ _, read_clock clock) (take depth idxs);
  mret (Inserter (take depth idxs) starts [] (drop depth idxs) took None).

(** The loop over the answers of a batch *)
Fixpoint settle (idxs starts : list Z) (answers : list (res WormResponse)) (took : list Z) : M S (list Z * option exn) :=
  match idxs, starts, answers with
  | i :: idxs, t0 :: starts, r :: answers =>
      match failure_of i r with
      | Some e => mret (took, Some e)
      | None => t ← read_clock clock; settle idxs starts answers (took ++ [t - t0])
      end
  | _, _, _ => mret (took, None)
  end.

(** The server answers the next call in flight; with the last one the batch
    is settled and the next one sent. *)
Definition turn (w : inserter) : M S inserter :=
  match failure w, sent w !! length (answers w) with
  | None, Some i =>
      r ← lift (λ s, let '(s, r) := send_one i s in (s, Ok r));
      let answers := answers w ++ [r] in
      if bool_decide (length answers < length (sent w))%nat
      then mret (Inserter (sent w) (starts w) answers (later w) (took w) None)
      else
        tf ← settle (sent w) (starts w) answers (took w);
        match tf.2 with
        | Some e => mret (Inserter [] [] [] (later w) tf.1 (Some e))
        | None => launch (later w) tf.1
        end
  | _, _ => mret w
  end.

Definition pending (w : inserter) : list Z := drop (length (answers w)) (sent w) ++ later w.

Fixpoint turns (schedule : list nat) (ws : list inserter) : M S (list inserter) :=
  match schedule with
  | [] => mret ws
  | j :: schedule =>
      match ws !! j with
      | None => turns schedule ws
      | Some w => w ← turn w; turns schedule (<[j := w]> ws)
      end
  end.

Fixpoint finish_in (n : nat) (w : inserter) : M S inserter :=
  match n with O => mret w | Datatypes.S n => w ← turn w; finish_in n w end.

(** [Promise.all] over the clients: the answers come in the order of the
    schedule, and then client by client.  The failure thrown is that of the
    first client that has one. *)
Definition fan_out (shares : list (list Z)) (schedule : list nat) : M S (list Z) :=
  ws ← each (λ idxs, launch idxs []) shares;
  ws ← turns schedule ws;
  ws ← each (λ w, finish_in (length (pending w)) w) ws;
  match omap failure ws with
  | [] => mret (ws ≫= took)
  | e :: _ => of_result (Throw e)
  end.
End Pipelined.

(** ** Every number is written *)

(** What a server promises whose answer to the write of a number stores that
    number's value under its key *)
Class Stores {S V : Type} (send_one : Z → S → S * res WormResponse) (refused : Z → WormResponse → option exn)
    (key : Z → jsstr) (value : Z → V) (dom : Z → Prop) := {
  contents : S → gmap jsstr V;
  fit : S → Prop;
  stores i s : dom i → fit s → ∃ s' r, send_one i s = (s', r) ∧ failure_of refused i r = None ∧ fit s' ∧
    contents s' = <[key i := value i]> (contents s) }.

Section Stored.
Context {S V : Type} (send_one : Z → S → S * res WormResponse) (refused : Z → WormResponse → option exn).
Context (key : Z → jsstr) (value : Z → V) (dom : Z → Prop) {ST : Stores send_one refused key value dom}.
Context (clock : nat → Z) (depth : nat) (Hdepth : (1 ≤ depth)%nat) (key_inj : ∀ i j, dom i → dom j → key i = key j → i = j).

Notation turn := (turn send_one clock refused depth).
Notation turns := (turns send_one clock refused depth).
Notation launch := (launch clock depth).
Notation contents := (contents (Stores := ST)).
Notation fit := (fit (Stores := ST)).

Definition good (w : inserter) : Prop :=
  failure w = None ∧ length (starts w) = length (sent w) ∧
  ((length (answers w) < length (sent w))%nat ∨ sent w = [] ∧ later w = []) ∧
  (∀ k i r, sent w !! k = Some i → answers w !! k = Some r → failure_of refused i r = None) ∧ Forall dom (pending w).

(** The numbers a client has to do with, those settled included *)
Definition total (w : inserter) : nat := (length (took w) + length (sent w) + length (later w))%nat.

Lemma launch_good idxs tk (s : S) n : Forall dom idxs → ∃ w n', launch idxs tk s n = (Ok w, s, n') ∧
  good w ∧ pending w = idxs ∧ total w = (length tk + length idxs)%nat.
Proof.
  intros Hdom. destruct (does_each (λ s', s' = s) (λ _ : Z, read_clock clock) (take depth idxs) (λ _, True) (λ _ _, True)) with (w := s) (n := n)
    as (ts & s1 & n1 & E & -> & Hts); [by apply Forall_true|intros; apply does_clock|done|].
  apply Forall2_length in Hts. exists (Inserter (take depth idxs) ts [] (drop depth idxs) tk None), n1. split_and!.
  - unfold LoadScripts.launch, mbind, M_bind. by rewrite E.
  - split_and!; [done|done| |by intros|unfold pending; cbn; by rewrite drop_0, take_drop]. cbn. destruct idxs as [|i idxs]; [right; by rewrite drop_nil, take_nil|left].
    destruct depth; [lia|cbn; lia].
  - unfold pending. cbn. by rewrite drop_0, take_drop.
  - unfold total. cbn. rewrite <- Nat.add_assoc, <- length_app, take_drop. done.
Qed.

Lemma settle_passes idxs : ∀ ts (rs : list (res WormResponse)) tk (s : S) n, length ts = length idxs → length rs = length idxs →
  (∀ k i r, idxs !! k = Some i → rs !! k = Some r → failure_of refused i r = None) →
  ∃ tk' n', settle clock refused idxs ts rs tk s n = (Ok (tk', None), s, n') ∧ length tk' = (length tk + length idxs)%nat.
Proof.
  induction idxs as [|i idxs IH]; intros [|t0 ts] [|r rs] tk s n Ht Hr Hok; try done; [exists tk, n; split; [done|cbn; lia]|].
  cbn [settle]. rewrite (Hok 0%nat i r eq_refl eq_refl).
  destruct (IH ts rs (tk ++ [clock n - t0]) s (Datatypes.S n)) as (tk' & n' & E & Hl); [cbn in *; lia..| |].
  { intros k i' r' Hi Hr'. by apply (Hok (Datatypes.S k)). }
  exists tk', n'. split; [exact E|]. rewrite Hl, length_app. cbn. lia.
Qed.

Lemma turn_good w s n : good w → fit s → ∃ w' s' n', turn w s n = (Ok w', s', n') ∧ good w' ∧ fit s' ∧ total w' = total w ∧
  ((pending w = [] ∧ pending w' = [] ∧ contents s' = contents s) ∨
   ∃ i, pending w = i :: pending w' ∧ contents s' = <[key i := value i]> (contents s)).
Proof.
  intros Hg Hs. pose proof Hg as (Hf & Hst & Hn & Hok & Hdom). unfold LoadScripts.turn. rewrite Hf.
  destruct (sent w !! length (answers w)) as [i|] eqn:Ei.
  2: { apply lookup_ge_None in Ei. destruct Hn as [?|[E1 E2]]; [lia|]. exists w, s, n. split_and!; [done..|]. left. unfold pending. by rewrite E1, E2, drop_nil. }
  pose proof (lookup_lt_Some _ _ _ Ei) as Hlt. assert (pending w = i :: drop (Datatypes.S (length (answers w))) (sent w) ++ later w) as Hp.
  { unfold pending. by rewrite (drop_S _ _ _ Ei). }
  rewrite Hp in Hdom. apply Forall_cons in Hdom as [Hi Hdom].
  destruct (stores i s Hi Hs) as (s' & r & E & Hr & Hs' & Hc). unfold mbind, M_bind, lift. rewrite E.
  assert (∀ k j q, sent w !! k = Some j → (answers w ++ [r]) !! k = Some q → failure_of refused j q = None) as Hok'.
  { intros k j q Hj [Hq|[Hk Hq]]%lookup_app_Some; [by eapply Hok|]. apply list_lookup_singleton_Some in Hq as [Hk0 <-].
    replace k with (length (answers w)) in Hj by lia. by simplify_eq. }
  case_bool_decide as Hlast; rewrite length_app in Hlast; cbn in Hlast.
  - eexists _, s', n. split; [done|]. split_and!; [split_and!; [done|done|left; cbn; rewrite length_app; cbn; lia|done|]|done|done|].
    { unfold pending. cbn. rewrite length_app. cbn. by rewrite Nat.add_1_r. }
    right. exists i. split; [|done]. rewrite Hp. unfold pending. cbn. rewrite length_app. cbn. by rewrite Nat.add_1_r.
  - destruct (settle_passes (sent w) (starts w) (answers w ++ [r]) (took w) s' n) as (tk' & n1 & E1 & Hl); [done|rewrite length_app; cbn; lia|done|].
    rewrite E1. cbn [snd fst]. destruct (launch_good (later w) tk' s' n1 ltac:(by apply Forall_app in Hdom as [_ ?])) as (w' & n2 & E2 & Hg' & Hp' & Ht').
    exists w', s', n2. split_and!; [done..| |].
    + rewrite Ht', Hl. unfold total. lia.
    + right. exists i. split; [|done]. rewrite Hp, Hp', drop_ge by lia. done.
Qed.

(** *** Runs *)

(** Of the numbers [all], those not yet written are pending with a client;
    other keys are as they were. *)
Definition writing (base : gmap jsstr V) (all : list Z) (todo : list Z) (s : S) : Prop :=
  fit s ∧ Forall dom all ∧ (∀ i, i ∈ todo → i ∈ all) ∧
  (∀ i, i ∈ all → contents s !! key i = Some (value i) ∨ i ∈ todo) ∧
  (∀ k, (∀ i, i ∈ all → k ≠ key i) → contents s !! k = base !! k).

Lemma writing_step base all todo todo' i s s' : writing base all todo s → todo ≡ₚ i :: todo' → fit s' →
  contents s' = <[key i := value i]> (contents s) → writing base all todo' s'.
Proof.
  intros (_ & Hdom & Hin & Hw & Hk) Hp Hs' Hc. rewrite Forall_forall in Hdom. assert (∀ j, j ∈ todo ↔ j = i ∨ j ∈ todo') as Ht by (intros j; by rewrite Hp, elem_of_cons).
  assert (i ∈ all) as Hi by (apply Hin, Ht; by left). split_and!; [done|by apply Forall_forall| | |].
  - intros j Hj. apply Hin, Ht. by right.
  - intros j Hj. rewrite Hc. destruct (decide (j = i)) as [->|Hne]; [left; apply lookup_insert_eq|].
    rewrite lookup_insert_ne by (intros E; apply key_inj in E; [done|by apply Hdom..]). destruct (Hw j Hj) as [?|[->|?]%Ht]; [by left|done|by right].
  - intros k Hn. rewrite Hc, lookup_insert_ne; [by apply Hk|]. intros <-. by apply (Hn i).
Qed.

Lemma writing_same base all todo s s' : writing base all todo s → fit s' → contents s' = contents s → writing base all todo s'.
Proof. intros (_ & Hdom & Hin & Hw & Hk) Hs' Hc. unfold writing. by rewrite Hc. Qed.

(** What one client's turn does among the others' *)
Lemma turn_writing base all w rest s n : good w → writing base all (pending w ++ rest) s →
  ∃ w' s' n', turn w s n = (Ok w', s', n') ∧ good w' ∧ total w' = total w ∧ writing base all (pending w' ++ rest) s' ∧
    length (pending w') = pred (length (pending w)).
Proof.
  intros Hg Hw. pose proof Hw as [Hs _]. destruct (turn_good w s n Hg Hs) as (w' & s' & n' & E & Hg' & Hs' & Ht & Hc).
  exists w', s', n'. split_and!; [done..| |].
  - destruct Hc as [(Hp & Hp' & Hc)|(i & Hp & Hc)].
    + rewrite Hp'. rewrite Hp in Hw. by eapply writing_same.
    + rewrite Hp in Hw. eapply (writing_step _ _ _ _ i); [exact Hw|reflexivity|done|exact Hc].
  - destruct Hc as [(-> & -> & _)|(i & -> & _)]; done.
Qed.

Lemma turns_writing base all schedule : ∀ ws s n, Forall good ws → writing base all (ws ≫= pending) s →
  ∃ ws' s' n', turns schedule ws s n = (Ok ws', s', n') ∧ Forall good ws' ∧ total <$> ws' = total <$> ws ∧
    writing base all (ws' ≫= pending) s'.
Proof.
  induction schedule as [|j schedule IH]; intros ws s n Hg Hw; cbn [LoadScripts.turns]; [by exists ws, s, n|].
  destruct (ws !! j) as [w|] eqn:Ej; [|by apply IH].
  pose proof (take_drop_middle _ _ _ Ej) as Hsplit.
  assert (∀ v, <[j := v]> ws = take j ws ++ v :: drop (Datatypes.S j) ws) as Hins.
  { intros v. rewrite insert_take_drop by by eapply lookup_lt_Some. done. }
  assert (∀ v, (take j ws ++ v :: drop (Datatypes.S j) ws) ≫= pending ≡ₚ pending v ++ ((take j ws ++ drop (Datatypes.S j) ws) ≫= pending)) as Hperm.
  { intros v. rewrite !bind_app, bind_cons. by rewrite Permutation_app_swap_app. }
  rewrite Forall_forall in Hg. pose proof (list_elem_of_lookup_2 _ _ _ Ej) as Hin.
  assert (∀ l l' s, l ≡ₚ l' → writing base all l s → writing base all l' s) as Hwp.
  { intros l l' s0 Hl (H1 & H0 & H2 & H3 & H4). split_and!; [done|done| | |done]; intros i Hi; [apply H2; by rewrite Hl|].
    destruct (H3 i Hi) as [?|?]; [by left|right; by rewrite <- Hl]. }
  destruct (turn_writing base all w ((take j ws ++ drop (Datatypes.S j) ws) ≫= pending) s n) as (w' & s1 & n1 & E & Hg' & Ht & Hw' & _); [by apply Hg| |].
  { rewrite <- Hsplit in Hw. by eapply Hwp; [apply Hperm|]. }
  unfold mbind at 1, M_bind at 1. rewrite E. destruct (IH (<[j := w']> ws) s1 n1) as (ws' & s2 & n2 & E2 & Hg2 & Ht2 & Hw2).
  - apply Forall_insert; [by apply Forall_forall|done].
  - rewrite Hins. by eapply Hwp; [symmetry; apply Hperm|].
  - exists ws', s2, n2. split_and!; [done..| |done]. rewrite Ht2, list_fmap_insert, Ht. apply list_insert_id.
    by rewrite list_lookup_fmap, Ej.
Qed.

Lemma finish_writing base all rest m : ∀ w s n, good w → writing base all (pending w ++ rest) s → (length (pending w) ≤ m)%nat →
  ∃ w' s' n', finish_in send_one clock refused depth m w s n = (Ok w', s', n') ∧ good w' ∧ total w' = total w ∧ pending w' = [] ∧
    writing base all rest s'.
Proof.
  induction m as [|m IH]; intros w s n Hg Hw Hm; cbn [finish_in].
  - exists w, s, n. assert (pending w = []) as Hp by (apply nil_length_inv; lia). rewrite Hp in *. by split_and!.
  - destruct (turn_writing base all w rest s n Hg Hw) as (w1 & s1 & n1 & E & Hg1 & Ht1 & Hw1 & Hl).
    unfold mbind, M_bind. rewrite E. destruct (IH w1 s1 n1 Hg1 Hw1 ltac:(lia)) as (w' & s' & n' & E2 & Hg' & Ht' & Hp & Hw').
    exists w', s', n'. rewrite Ht', Ht1. by split_and!.
Qed.

Lemma launch_all shares (s : S) n : Forall dom (concat shares) → ∃ ws n', each (λ idxs, launch idxs []) shares s n = (Ok ws, s, n') ∧
  Forall good ws ∧ ws ≫= pending = concat shares ∧ sum_list (total <$> ws) = length (concat shares).
Proof.
  revert n. induction shares as [|idxs shares IH]; intros n Hdom; cbn [each]; [by exists [], n|].
  apply Forall_app in Hdom as [Hd Hdom].
  destruct (launch_good idxs [] s n Hd) as (w & n1 & E & Hg & Hp & Ht). destruct (IH n1 Hdom) as (ws & n2 & E2 & Hg2 & Hp2 & Ht2).
  exists (w :: ws), n2. unfold mbind, M_bind. rewrite E. unfold mbind, M_bind in E2. rewrite E2. split_and!; [done|by constructor| |].
  - rewrite bind_cons, Hp, Hp2. done.
  - cbn. rewrite Ht, Ht2, length_app. done.
Qed.

Lemma finish_all base all : ∀ ws s n, Forall good ws → writing base all (ws ≫= pending) s →
  ∃ ws' s' n', each (λ w, finish_in send_one clock refused depth (length (pending w)) w) ws s n = (Ok ws', s', n') ∧
    Forall good ws' ∧ Forall (λ w, pending w = []) ws' ∧ total <$> ws' = total <$> ws ∧ writing base all [] s'.
Proof.
  induction ws as [|w ws IH]; intros s n Hg Hw; cbn [each]; [by exists [], s, n|].
  apply Forall_cons in Hg as [Hgw Hg]. rewrite bind_cons in Hw.
  destruct (finish_writing base all (ws ≫= pending) (length (pending w)) w s n Hgw Hw ltac:(done)) as (w1 & s1 & n1 & E & Hg1 & Ht1 & Hp1 & Hw1).
  destruct (IH s1 n1 Hg Hw1) as (ws2 & s2 & n2 & E2 & Hg2 & Hp2 & Ht2 & Hw2).
  exists (w1 :: ws2), s2, n2. unfold mbind, M_bind. rewrite E. unfold mbind, M_bind in E2. rewrite E2.
  split_and!; [done|by constructor|by constructor| |done]. cbn [fmap list_fmap]. by rewrite Ht1, Ht2.
Qed.

(** However the answers arrive, a fan-out ends, takes one time per number, has
    written every number's value under its key, and nothing else. *)
Theorem fan_out_writes shares schedule s n : fit s → Forall dom (concat shares) → ∃ lats s' n',
  fan_out send_one clock refused depth shares schedule s n = (Ok lats, s', n') ∧ length lats = length (concat shares) ∧ fit s' ∧
  (∀ i, i ∈ concat shares → contents s' !! key i = Some (value i)) ∧
  (∀ k, (∀ i, i ∈ concat shares → k ≠ key i) → contents s' !! k = contents s !! k).
Proof.
  intros Hs Hdom. destruct (launch_all shares s n Hdom) as (ws & n1 & E1 & Hg1 & Hp1 & Ht1).
  assert (writing (contents s) (concat shares) (ws ≫= pending) s) as Hw1 by (rewrite Hp1; split_and!; [done|done|done|by right|done]).
  destruct (turns_writing _ _ schedule ws s n1 Hg1 Hw1) as (ws2 & s2 & n2 & E2 & Hg2 & Ht2 & Hw2).
  destruct (finish_all _ _ ws2 s2 n2 Hg2 Hw2) as (ws3 & s3 & n3 & E3 & Hg3 & Hp3 & Ht3 & Hf & _ & _ & Hall & Hframe).
  exists (ws3 ≫= took), s3, n3. split_and!; [| |done| |done].
  - unfold fan_out, mbind, M_bind. rewrite E1, E2, E3. assert (omap failure ws3 = []) as ->; [|done].
    clear -Hg3. induction Hg3 as [|w ws (Hf & _) _ IH]; [done|]. cbn. by rewrite Hf.
  - rewrite <- Ht1, <- Ht2, <- Ht3. clear -Hg3 Hp3. induction Hg3 as [|w ws (_ & _ & Hn & _ & _) _ IH]; [done|].
    apply Forall_cons in Hp3 as [Hp Hp3]. cbn [fmap list_fmap sum_list sum_list_with foldr]. rewrite bind_cons, length_app, (IH Hp3).
    unfold pending in Hp. apply app_nil in Hp as [Hp Hl]. unfold total. destruct Hn as [Hn|[-> _]].
    + apply (f_equal length) in Hp. rewrite length_drop in Hp. cbn in Hp. lia.
    + rewrite Hl. cbn. lia.
  - intros i Hi. by destruct (Hall i Hi) as [?|?%elem_of_nil].
Qed.
End Stored.

(** ** The scripts *)

(** One client's share, or all the numbers where there is one client *)
Definition shares_of (N : Z) (clients : nat) : list (list Z) :=
  if bool_decide (clients = 1%nat) then [seqZ 0 N] else share N (Z.of_nat clients) <$> seqZ 0 (Z.of_nat clients).

Lemma shares_of_all N clients : (1 ≤ clients)%nat → concat (shares_of N clients) ≡ₚ seqZ 0 N.
Proof.
  intros Hc. unfold shares_of. case_bool_decide; [cbn; by rewrite app_nil_r|].
  rewrite concat_bind. apply shares_partition. lia.
Qed.

(** *** [vinsert-diagnostic.ts] *)

Record DiagArgs := MakeDiag { d_host : jsstr; d_port : num; d_N : num; d_dim : num }.
Definition diag_option (t : jsstr) : option (jsstr → DiagArgs → DiagArgs) :=
  if bool_decide (t = js "--host") then Some (λ v a, MakeDiag v (d_port a) (d_N a) (d_dim a))
  else if bool_decide (t = js "--port") then Some (λ v a, MakeDiag (d_host a) (Number v) (d_N a) (d_dim a))
  else if bool_decide (t = js "--N") then Some (λ v a, MakeDiag (d_host a) (d_port a) (Number v) (d_dim a))
  else if bool_decide (t = js "--dim") then Some (λ v a, MakeDiag (d_host a) (d_port a) (d_N a) (Number v))
  else None.
Definition diag_parseArgs (argv : list jsstr) : DiagArgs :=
  parse_with diag_option (λ _ a, a) argv (MakeDiag (js "127.0.0.1") (Fin 6389) (Fin 20000) (Fin 128)).

Section Data.
(** [Math.sqrt], [Math.log], [Math.cos] and [Math.sin] *)
Context (sqrt log cos sin : Q → Q).

(** The two numbers of one round of Box and Muller *)
Definition gaussian_pair (t : Z) : Z * list Q :=
  let '(t, n1) := mulberry32 t in
  let '(t, n2) := mulberry32 t in
  let r1 := (inject_Z n1 / inject_Z (2 ^ 32))%Q in
  let u1 := if Qle_bool r1 tiny then tiny else r1 in
  let u2 := (inject_Z n2 / inject_Z (2 ^ 32))%Q in
  let mag := sqrt (rnd (- (2) * log u1)%Q) in
  let x := rnd (rnd (2 * PI) * u2)%Q in
  (t, [f32 (rnd (mag * cos x)); f32 (rnd (mag * sin x))]%Q).

Fixpoint gaussian_pairs (n : nat) (t : Z) : list Q :=
  match n with O => [] | S n => let '(t, g) := gaussian_pair t in g ++ gaussian_pairs n t end.

(** [generateData]: of an odd count the last second number is left out. *)
Definition generateData (N dim : nat) : list (list Q) :=
  rows (take (N * dim) (gaussian_pairs (Nat.div2 (N * dim + 1)) (uint32 0xbeef))) N dim.
End Data.

Lemma gaussian_pairs_length sqrt log cos sin n t : length (gaussian_pairs sqrt log cos sin n t) = (2 * n)%nat.
Proof.
  revert t. induction n as [|n IH]; intros t; [done|]. cbn [gaussian_pairs].
  destruct (gaussian_pair sqrt log cos sin t) as [t' g] eqn:E. rewrite length_app, IH.
  assert (length g = 2%nat) as ->; [|lia]. unfold gaussian_pair in E. destruct (mulberry32 t) as [t1 n1], (mulberry32 t1) as [t2 n2]. by simplify_eq.
Qed.

(** The data has a row of [dim] numbers for each vector. *)
Lemma generateData_shape sqrt log cos sin N dim :
  length (generateData sqrt log cos sin N dim) = N ∧ Forall (λ v, length v = dim) (generateData sqrt log cos sin N dim).
Proof.
  unfold generateData. split; [apply length_rows|]. unfold rows. apply Forall_fmap, Forall_forall. intros i [_ Hi]%elem_of_seq. cbn.
  unfold rowView. rewrite length_take, length_drop, length_take, gaussian_pairs_length.
  assert (N * dim ≤ 2 * Nat.div2 (N * dim + 1))%nat as Hh.
  { pose proof (Nat.div2_odd (N * dim + 1)) as H. destruct (Nat.odd _); cbn [Nat.b2n] in H; lia. }
  nia.
Qed.

Definition vinsertCmd (key : jsstr) (vec : bytes) (namespace : jsstr) (metric : Metric) (now : Z) : ParsedCommand :=
  VINSERT key vec false namespace metric now false.

(** [name.replace(/[^a-z0-9]/gi, "")] *)
Definition alphanumeric (c : Z) : bool :=
  ((97 <=? c) && (c <=? 122)) || ((65 <=? c) && (c <=? 90)) || is_digit c.
Definition diag_ns (name : jsstr) : jsstr := js "vec:diag:" ++ base.filter (λ c, alphanumeric c = true) name ++ js ":".

Record Strategy := MakeStrategy { s_name : jsstr; clients : nat; s_depth : nat }.
#[export] Instance Strategy_eq_dec : EqDecision Strategy.
Proof. solve_decision. Defined.
Definition strategies : list Strategy :=
  [MakeStrategy (js "seq") 1 1; MakeStrategy (js "pipe8") 1 8; MakeStrategy (js "pipe64") 1 64;
   MakeStrategy (js "pipe256") 1 256; MakeStrategy (js "par4-seq") 4 1; MakeStrategy (js "par8-seq") 8 1;
   MakeStrategy (js "par8-pipe8") 8 8; MakeStrategy (js "par16-seq") 16 1].

Record Result := MakeResult { r_name : jsstr; wall : Z; vps : num; p50Of : option Z; p99Of : option Z }.

(** [(N / wallMs) * 1000] of a time in nanoseconds *)
Definition rate (N : Z) (ns : Z) : num := per_second N (rnd (inject_Z ns / 1000000)%Q).
(** [sorted[Math.floor(sorted.length * p)]] *)
Definition at_fraction (sorted : list Z) (p : Q) : option Z := sorted !! Z.to_nat (Qfloor (rnd (inject_Z (len sorted) * p)%Q)).

(** The positions of the two percentiles are in the list, unless it is empty. *)
Lemma at_fraction_some l p : p = rnd (1 # 2) ∨ p = rnd (99 # 100) → l ≠ [] → len l ≤ 2 ^ 51 → is_Some (at_fraction l p).
Proof.
  intros Hp Hl Hn. apply lookup_lt_is_Some. assert (1 ≤ len l) as H1 by (destruct l; [done|unfold len; cbn; lia]).
  assert (Qfloor (rnd (inject_Z (len l) * p)) ≤ len l - 1); [|unfold len in *; lia].
  assert (0 < p ∧ p <= 991 # 1000)%Q as [Hp0 Hp1] by (by destruct Hp as [-> | ->]; vm_compute).
  destruct (Z.le_gt_cases (len l) 111) as [Hs|Hs].
  - clear Hn. assert (∀ n, n ∈ seqZ 1 111 → Qfloor (rnd (inject_Z n * p)) ≤ n - 1) as H.
    { apply Forall_forall, (bool_decide_unpack _). by destruct Hp as [-> | ->]; vm_compute. }
    apply H, elem_of_seqZ. lia.
  - rewrite <- (Qfloor_Z (len l - 1)). apply Qfloor_resp_le, rnd_le; [|clear Hp|lia].
    + apply Qmult_lt_0_compat; [|done]. unfold Qlt. cbn. lia.
    + apply Qle_trans with (inject_Z (len l) * (991 # 1000))%Q; [apply Qmult_le_l; [|done]|]; unfold Qlt, Qle; cbn; lia.
Qed.

Section Scripts.
Context {S : Type} (serve : ParsedCommand → S → S * res WormResponse) (clock : nat → Z).
Context (floatsToBytes : list Q → bytes) (now : Z).

Definition not_ok (text : Z → jsstr) (i : Z) (r : WormResponse) : option exn :=
  match r with ok => None | r => Some (Error (text i ++ js ": " ++ stringify (response_json r))) end.

(** The call that inserts vector [i] *)
Definition insert_one (ns : jsstr) (metric : Metric) (data : list (list Q)) (i : Z) : S → S * res WormResponse :=
  serve (vinsertCmd (ns ++ show i) (floatsToBytes (default [] (data !! Z.to_nat i))) ns metric now).

Definition runStrategy (N : Z) (metric : Metric) (data : list (list Q)) (st : Strategy) (schedule : list nat) : M S Result :=
  t0 ← read_clock clock;
  perItem ← fan_out (insert_one (diag_ns (s_name st)) metric data) clock (not_ok (λ i, js "insert fail at " ++ show i)) (s_depth st)
              (shares_of N (clients st)) schedule;
  t1 ← read_clock clock;
  let sorted := merge_sort Z.le perItem in
  mret (MakeResult (s_name st) (t1 - t0) (rate N (t1 - t0)) (at_fraction sorted (rnd (1 # 2))) (at_fraction sorted (rnd (99 # 100)))).

(** [undefined.toFixed(2)] throws before the result is kept. *)
Definition shown (r : Result) : res Result :=
  match p50Of r, p99Of r with Some _, Some _ => Ok r | _, _ => Throw TypeError end.

(** The strategies one after another; one that fails is passed over. *)
Definition diagnostic (N : Z) (metric : Metric) (data : list (list Q)) (schedules : nat → list nat) : M S (list Result) :=
  rs ← each (λ js, catch (r ← runStrategy N metric data js.2 (schedules js.1); r ← of_result (shown r); mret (Some r)) (λ _, mret None))
         (imap pair strategies);
  mret (omap id rs).

(** *** [async-parallel-test.ts] *)

(** [vinsertNative] with [async: true] *)
Definition async_insert (ns : jsstr) (key : jsstr) (vec : bytes) : ParsedCommand :=
  Client.vinsertNative now key vec (Client.VinsertOptions (Some false) (Some ns) (Some l2) None (Some true)).

Definition parallel_ns (clientCount trial : Z) : jsstr := js "vec:par:" ++ show clientCount ++ js "c" ++ show trial ++ js ":".

(** [runWithClients]: one insert settles the mode, whatever its answer, and
    then each client inserts its share one at a time. *)
Definition runWithClients (N : Z) (dim : nat) (clientCount : nat) (data : list (list Q)) (trial : Z) (schedule : list nat) : M S (Z * num) :=
  let ns := parallel_ns (Z.of_nat clientCount) trial in
  t0 ← read_clock clock;
  _ ← lift (serve (async_insert ns (ns ++ js "establish") (replicate (dim * 4) 0)));
  _ ← fan_out (λ i, serve (async_insert ns (ns ++ show i) (floatsToBytes (default [] (data !! Z.to_nat i)))))
        clock (not_ok (λ i, js "insert failed c=" ++ show (i mod Z.of_nat clientCount) ++ js " i=" ++ show i)) 1
        (share N (Z.of_nat clientCount) <$> seqZ 0 (Z.of_nat clientCount)) schedule;
  t1 ← read_clock clock;
  mret (t1 - t0, rate N (t1 - t0)).
End Scripts.

(** *** [set-baseline.ts] *)

Definition baseline_value : jsstr := replicate 512 120.
Definition baseline_key (name : jsstr) (i : Z) : jsstr := name ++ js ":k" ++ show i.
Definition error_thrown (_ : Z) (r : WormResponse) : option exn :=
  match r with error m => Some (Error m) | _ => None end.

Section Baseline.
Context {S : Type} (serve : jsstr → S → S * res WormResponse) (clock : nat → Z).

Definition baseline_strategy (N : Z) (name : jsstr) (clientCount pipelineDepth : nat) (schedule : list nat) : M S (Z * num) :=
  t0 ← read_clock clock;
  _ ← fan_out (λ i, serve (set_text (baseline_key name i) baseline_value)) clock error_thrown pipelineDepth
        (share N (Z.of_nat clientCount) <$> seqZ 0 (Z.of_nat clientCount)) schedule;
  t1 ← read_clock clock;
  mret (t1 - t0, rate N (t1 - t0)).

Definition baselines : list (jsstr * nat * nat) :=
  [(js "seq-1c", 1, 1); (js "pipe64-1c", 1, 64); (js "par8-seq", 8, 1); (js "par8-pipe8", 8, 8); (js "par16-pipe8", 16, 8)]%nat.
Definition baseline (N : Z) (schedules : nat → list nat) : M S (list (Z * num)) :=
  each (λ b : nat * (jsstr * nat * nat), baseline_strategy N b.2.1.1 b.2.1.2 b.2.2 (schedules b.1)) (imap pair baselines).
End Baseline.

(** ** What the scripts leave behind *)

(** *** The baseline, over the key-value server *)

Section BaselineTheorem.
Context {UD : UnicodeData} {O : Others} (clock : nat → Z).

Lemma word_show n : word (show n).
Proof.
  destruct n as [|p|p]; [apply show_word; lia..|]. change (show (Zneg p)) with (45 :: show (Zpos p)).
  destruct (show_word (Zpos p) ltac:(lia)) as [Hne Hs]. split; [done|by constructor].
Qed.

Lemma baseline_value_word : word baseline_value ∧ says_worm baseline_value = false.
Proof.
  split; [split; [done|by apply Forall_replicate]|]. by apply says_worm_first.
Qed.

Lemma baseline_key_account c name i : 0 ≤ c < 128 → upper1 c ≠ 87 → is_space c = false → no_space name →
  account (baseline_key (c :: name) i).
Proof.
  intros Hc Hw Hs Hn. split; [|by apply says_worm_first]. split; [done|]. unfold baseline_key, no_space.
  destruct (word_show i) as [_ Hi]. apply Forall_app. split; [by constructor|]. apply Forall_app. split; [|done]. by repeat constructor.
Qed.

Definition no_worm (s : kv) : Prop := ∀ k, is_worm s k = false.

Definition plain_name (c : Z) (name : jsstr) : Prop := 0 ≤ c < 128 ∧ upper1 c ≠ 87 ∧ is_space c = false ∧ no_space name.

Lemma baseline_one c name (H : plain_name c name) i s : no_worm s → ∃ s' r,
  KvServer.serve (set_text (baseline_key (c :: name) i) baseline_value) s = (s', r) ∧ failure_of error_thrown i r = None ∧ no_worm s' ∧
  s' = <[baseline_key (c :: name) i := Entry baseline_value false]> s.
Proof.
  destruct H as (Hc & Hw & Hs & Hn). intros Hfit. destruct baseline_value_word as [Hv Hvw].
  exists (<[baseline_key (c :: name) i := Entry baseline_value false]> s), (Ok ok). split_and!; [|done| |done].
  - apply serve_put; [by apply baseline_key_account|done|done|apply Hfit].
  - intros k. unfold is_worm. destruct (decide (k = baseline_key (c :: name) i)) as [->|Hk]; [by rewrite lookup_insert_eq|].
    rewrite lookup_insert_ne by done. apply Hfit.
Qed.

Definition baseline_stores c name (H : plain_name c name) :
  Stores (λ i, KvServer.serve (set_text (baseline_key (c :: name) i) baseline_value)) error_thrown
    (baseline_key (c :: name)) (λ _, Entry baseline_value false) (λ _, True) :=
  {| contents := λ s : kv, s; fit := no_worm; stores := λ i s _, baseline_one c name H i s |}.

Lemma baseline_key_inj name i j : baseline_key name i = baseline_key name j → i = j.
Proof. unfold baseline_key. intros E%(inj (name ++.))%(inj (js ":k" ++.)). by apply show_inj. Qed.

(** A strategy of the baseline writes all its keys and no others, however its
    clients' calls are answered. *)
Theorem baseline_writes c name N clientCount pipelineDepth schedule s n :
  plain_name c name → (1 ≤ clientCount)%nat → (1 ≤ pipelineDepth)%nat → no_worm s →
  ∃ r s' n', baseline_strategy KvServer.serve clock N (c :: name) clientCount pipelineDepth schedule s n = (Ok r, s', n') ∧ no_worm s' ∧
    (∀ i, 0 ≤ i < N → s' !! baseline_key (c :: name) i = Some (Entry baseline_value false)) ∧
    (∀ k, (∀ i, 0 ≤ i < N → k ≠ baseline_key (c :: name) i) → s' !! k = s !! k).
Proof.
  intros H Hc Hd Hs. pose proof (concat_shares_elem N (Z.of_nat clientCount) ltac:(lia)) as Hall.
  destruct (fan_out_writes _ _ _ _ _ (ST := baseline_stores c name H) clock pipelineDepth Hd (λ i j _ _, baseline_key_inj _ i j)
    (share N (Z.of_nat clientCount) <$> seqZ 0 (Z.of_nat clientCount)) schedule s (Datatypes.S n) Hs ltac:(by apply Forall_true))
    as (lats & s' & n' & E & _ & Hs' & Hw & Hk).
  exists (clock n' - clock n, rate N (clock n' - clock n)), s', (Datatypes.S n'). split_and!; [|done| |].
  - unfold baseline_strategy, mbind, M_bind, read_clock. by rewrite E.
  - intros i Hi. by apply Hw, Hall.
  - intros k Hne. apply Hk. intros i Hi. by apply Hne, Hall.
Qed.
End BaselineTheorem.

(** *** The insert diagnostic, over the vector store *)

(** What the server promises of inserts that are not write-once, of vectors
    of one dimension *)
Class InsertServer {S : Type} (serve : ParsedCommand → S → S * res WormResponse) (dim : Z) := {
  vectors : S → gmap jsstr bytes;
  takes : S → Prop;
  vector_inserted s key v ns m ts async : takes s → startsWith key ns = true → len v = 4 * dim →
    ∃ s', serve (VINSERT key v false ns m ts async) s = (s', Ok ok) ∧ takes s' ∧ vectors s' = <[key := v]> (vectors s) }.

Section DiagnosticTheorem.
Context {S : Type} (serve : ParsedCommand → S → S * res WormResponse) (clock : nat → Z).
Context (floatsToBytes : list Q → bytes) (now : Z) (dim : Z) {IS : InsertServer serve dim}.
Context (four_bytes : ∀ v, len (floatsToBytes v) = 4 * len v).
Context (N : Z) (metric : Metric) (data : list (list Q)).
Context (Hdata : len data = N) (Hdim : Forall (λ v, len v = dim) data).
Notation vectors := (vectors (InsertServer := IS)).
Notation takes := (takes (InsertServer := IS)).

Definition bytes_of (i : Z) : bytes := floatsToBytes (default [] (data !! Z.to_nat i)).
Definition in_range (i : Z) : Prop := 0 ≤ i < N.

Lemma insert_stores ns m text : ∀ i s, in_range i → takes s → ∃ s' r,
  insert_one serve floatsToBytes now ns m data i s = (s', r) ∧ failure_of (not_ok text) i r = None ∧ takes s' ∧
  vectors s' = <[ns ++ show i := bytes_of i]> (vectors s).
Proof.
  intros i s Hi Hs. destruct (lookup_lt_is_Some_2 data (Z.to_nat i)) as [v Hv]; [unfold len, in_range in *; lia|].
  destruct (vector_inserted s (ns ++ show i) (bytes_of i) ns m now false Hs) as (s' & E & Hs' & Hc); [apply startsWith_app| |by exists s', (Ok ok)].
  unfold bytes_of. rewrite Hv. cbn. rewrite four_bytes. rewrite Forall_forall in Hdim. by rewrite (Hdim v) by by eapply list_elem_of_lookup_2.
Qed.

Definition diag_stores ns m text : Stores (insert_one serve floatsToBytes now ns m data) (not_ok text) (λ i, ns ++ show i) bytes_of in_range :=
  {| contents := vectors; fit := takes; stores := insert_stores ns m text |}.

Lemma shares_in_range clients : (1 ≤ clients)%nat → Forall in_range (concat (shares_of N clients)).
Proof. intros Hc. rewrite shares_of_all by done. apply Forall_forall. intros i Hi%elem_of_seqZ. unfold in_range. lia. Qed.

(** A strategy inserts every vector under its own namespace and nothing else,
    however its clients' calls are answered, and its result can be printed. *)
Lemma runStrategy_writes st schedule s n : (1 ≤ clients st)%nat → (1 ≤ s_depth st)%nat → takes s → ∃ r s' n',
  runStrategy serve clock floatsToBytes now N metric data st schedule s n = (Ok r, s', n') ∧ takes s' ∧
  (0 < N ≤ 2 ^ 51 → shown r = Ok r ∧ r_name r = s_name st) ∧
  (∀ i, in_range i → vectors s' !! (diag_ns (s_name st) ++ show i) = Some (bytes_of i)) ∧
  (∀ k, (∀ i, in_range i → k ≠ diag_ns (s_name st) ++ show i) → vectors s' !! k = vectors s !! k).
Proof.
  intros Hc Hd Hs.
  destruct (fan_out_writes _ _ _ _ _ (ST := diag_stores (diag_ns (s_name st)) metric (λ i, js "insert fail at " ++ show i)) clock (s_depth st) Hd)
    with (shares := shares_of N (clients st)) (schedule := schedule) (s := s) (n := Datatypes.S n) as (lats & s' & n' & E & Hl & Hs' & Hw & Hk).
  { intros i j _ _ H%app_inv_head. by apply show_inj. }
  { done. }
  { by apply shares_in_range. }
  assert (∀ i, i ∈ concat (shares_of N (clients st)) ↔ in_range i) as Hall.
  { intros i. rewrite shares_of_all, elem_of_seqZ by done. unfold in_range. lia. }
  eexists _, s', (Datatypes.S n'). split_and!; [|done| | |].
  - unfold runStrategy, mbind, M_bind, read_clock. rewrite E. done.
  - intros HN. rewrite shares_of_all, length_seqZ in Hl by done. unfold shown. cbn [p50Of p99Of r_name].
    assert (len (merge_sort Z.le lats) = N) as Hls by (pose proof (Permutation_length (merge_sort_Permutation Z.le lats)); unfold len; lia).
    assert (merge_sort Z.le lats ≠ []) as Hne by (intros E0; rewrite E0 in Hls; change (0 = N) in Hls; lia).
    destruct (at_fraction_some _ (rnd (1 # 2)) ltac:(by left) Hne ltac:(lia)) as [? ->].
    by destruct (at_fraction_some _ (rnd (99 # 100)) ltac:(by right) Hne ltac:(lia)) as [? ->].
  - intros i Hi. by apply Hw, Hall.
  - intros k Hne. apply Hk. intros i Hi. by apply Hne, Hall.
Qed.

Lemma show_no_colon i : 0 ≤ i → 58 ∉ show i.
Proof.
  intros Hi Hc. destruct (show_digits i Hi) as (_ & Hd & _). rewrite Forall_forall in Hd. specialize (Hd _ Hc). done.
Qed.

Lemma diag_key_inj a b i j : 0 ≤ i → 0 ≤ j → diag_ns a ++ show i = diag_ns b ++ show j → diag_ns a = diag_ns b ∧ i = j.
Proof.
  intros Hi Hj. unfold diag_ns. rewrite !app_assoc. intros E. rewrite <- !(app_assoc _ (js ":")) in E.
  destruct (last_unit 58 _ _ _ _ (show_no_colon i Hi) (show_no_colon j Hj) E) as [-> E2]. split; [done|]. by apply show_inj.
Qed.

Notation step schedules := (λ js, catch (r ← runStrategy serve clock floatsToBytes now N metric data js.2 (schedules js.1);
  r ← of_result (shown r); mret (Some r)) (λ _, mret None)).

Lemma diagnostic_from schedules : ∀ (l : list (nat * Strategy)) s n,
  NoDup ((λ x, diag_ns (s_name x.2)) <$> l) → Forall (λ x, (1 ≤ clients x.2)%nat ∧ (1 ≤ s_depth x.2)%nat) l → takes s →
  ∃ rs s' n', each (step schedules) l s n = (Ok rs, s', n') ∧ takes s' ∧
    (0 < N ≤ 2 ^ 51 → r_name <$> omap id rs = (λ x, s_name x.2) <$> l) ∧
    (∀ x i, x ∈ l → in_range i → vectors s' !! (diag_ns (s_name x.2) ++ show i) = Some (bytes_of i)) ∧
    (∀ k, (∀ x i, x ∈ l → in_range i → k ≠ diag_ns (s_name x.2) ++ show i) → vectors s' !! k = vectors s !! k).
Proof.
  induction l as [|[j st] l IH]; intros s n Hn Hl Hs; cbn [each].
  { exists [], s, n. split_and!; [done|done|done| |done]. by intros x i Hx%elem_of_nil. }
  apply NoDup_cons in Hn as [Hns Hn]. apply Forall_cons in Hl as [[Hc Hd] Hl].
  destruct (runStrategy_writes st (schedules j) s n Hc Hd Hs) as (r & s1 & n1 & E & Hs1 & Hr & Hw1 & Hk1).
  assert (∃ o, step schedules (j, st) s n = (Ok o, s1, n1) ∧ (shown r = Ok r → o = Some r)) as (o & Eo & Ho).
  { unfold catch, mbind, M_bind. cbn [fst snd]. rewrite E. unfold of_result. destruct (shown r) as [r'|e]; eexists; (split; [done|]); by intros [= ->]. }
  destruct (IH s1 n1 Hn Hl Hs1) as (rs & s2 & n2 & E2 & Hs2 & Hr2 & Hw2 & Hk2).
  exists (o :: rs), s2, n2. split_and!; [|done| | |].
  - unfold mbind at 1, M_bind at 1. rewrite Eo. unfold mbind at 1, M_bind at 1. by rewrite E2.
  - intros HN. destruct (Hr HN) as [Hsh Hnm]. rewrite (Ho Hsh). cbn. by rewrite Hnm, <- (Hr2 HN).
  - intros x i [->|Hx]%elem_of_cons Hi; [|by apply Hw2]. cbn [snd]. rewrite Hk2; [by apply Hw1|].
    intros y i' Hy Hi' [Ens _]%diag_key_inj; [|unfold in_range in *; lia..]. apply Hns. cbn [snd]. rewrite Ens.
    by apply (list_elem_of_fmap_2 (λ x, diag_ns (s_name x.2))).
  - intros k Hk. rewrite Hk2, Hk1; [done| |].
    + intros i Hi. apply (Hk (j, st)); [by left|done].
    + intros x i Hx. apply Hk. by right.
Qed.

(** The diagnostic always ends; whatever order its clients are answered in,
    it reports all eight strategies in their order (of a number of vectors that
    is not zero), and leaves the same vectors, each under its number, in the
    eight namespaces of its strategies, and nothing else. *)
Theorem diagnostic_inserts schedules s n : takes s → ∃ rs s' n',
  diagnostic serve clock floatsToBytes now N metric data schedules s n = (Ok rs, s', n') ∧
  (0 < N ≤ 2 ^ 51 → r_name <$> rs = s_name <$> strategies) ∧
  (∀ st i, st ∈ strategies → 0 ≤ i < N → vectors s' !! (diag_ns (s_name st) ++ show i) = Some (bytes_of i)) ∧
  (∀ k, (∀ st i, st ∈ strategies → 0 ≤ i < N → k ≠ diag_ns (s_name st) ++ show i) → vectors s' !! k = vectors s !! k).
Proof.
  intros Hs. destruct (diagnostic_from schedules (imap pair strategies) s n) as (rs & s' & n' & E & _ & Hr & Hw & Hk).
  - apply (bool_decide_unpack _). vm_compute. exact I.
  - apply (bool_decide_unpack _). vm_compute. exact I.
  - done.
  - exists (omap id rs), s', n'. split_and!; [unfold diagnostic, mbind at 1, M_bind at 1; by rewrite E|done| |].
    + intros st i (j & Hj)%list_elem_of_lookup_1 Hi. apply (Hw (j, st)); [|done]. apply elem_of_lookup_imap. by exists j, st.
    + intros k Hne. apply Hk. intros x i (j & st & -> & Hj)%elem_of_lookup_imap Hi. apply Hne; [by eapply list_elem_of_lookup_2|done].
Qed.
End DiagnosticTheorem.

Section Examples.
(** A store that keeps the vectors it is sent *)
Definition keep_vectors (c : ParsedCommand) (s : gmap jsstr bytes) : gmap jsstr bytes * res WormResponse :=
  match c with VINSERT key v _ _ _ _ _ => (<[key := v]> s, Ok ok) | _ => (s, Ok null) end.
#[local] Instance keep_vectors_server : InsertServer keep_vectors 2.
Proof.
  refine {| vectors := λ s, s; takes := λ _, True |}. intros s key v ns m ts async _ _ _. by exists (<[key := v]> s).
Defined.
Definition four_zeros (v : list Q) : bytes := replicate (4 * length v) 0.

Lemma diagnostic_inserts_witness : ∃ rs s' n',
  diagnostic keep_vectors Z.of_nat four_zeros 0 2 l2 [[1; 2]; [3; 4]]%Q (λ _, [0; 1; 0]%nat) ∅ 0%nat = (Ok rs, s', n') ∧
  length rs = 8%nat ∧ s' !! js "vec:diag:par8pipe8:1" = Some (replicate 8 0).
Proof.
  destruct (diagnostic_inserts keep_vectors Z.of_nat four_zeros 0 2
    (λ v, ltac:(unfold four_zeros, len; rewrite length_replicate; lia)) 2 l2 [[1; 2]; [3; 4]]%Q eq_refl
    ltac:(repeat constructor) (λ _, [0; 1; 0]%nat) ∅ 0%nat I) as (rs & s' & n' & E & Hr & H & _).
  exists rs, s', n'. split; [exact E|]. split; [by rewrite <- (length_fmap r_name), Hr by lia|].
  apply (H (MakeStrategy (js "par8-pipe8") 8 8) 1); [apply (bool_decide_unpack _); vm_compute; exact I|lia].
Defined.

#[local] Existing Instances ascii_only no_others.
Lemma baseline_writes_witness : ∃ r s' n',
  baseline_strategy KvServer.serve Z.of_nat 3 (js "par8-seq") 8 1 [2; 1; 0]%nat ∅ 0%nat = (Ok r, s', n') ∧
  s' !! js "par8-seq:k2" = Some (Entry baseline_value false).
Proof.
  destruct (baseline_writes Z.of_nat 112 (js "ar8-seq") 3 8 1 [2; 1; 0]%nat ∅ 0%nat) as (r & s' & n' & E & _ & H & _).
  - split_and!; [lia|lia|done|done|by repeat constructor].
  - lia.
  - lia.
  - by intros k.
  - exists r, s', n'. split; [exact E|]. apply (H 2). lia.
Defined.

Definition keep_one (i : Z) (s : gmap jsstr bytes) : gmap jsstr bytes * res WormResponse :=
  keep_vectors (VINSERT (js "k" ++ show i) [] false [] l2 0 false) s.
Definition keep_one_stores : Stores keep_one (not_ok (λ _, [])) (λ i, js "k" ++ show i) (λ _, [] : bytes) (λ _, True).
Proof.
  refine {| contents := λ s : gmap jsstr bytes, s; fit := λ _, True |}. intros i s _ _. by eexists _, _.
Defined.

Lemma fan_out_writes_witness : ∃ lats s' n',
  fan_out keep_one Z.of_nat (not_ok (λ _, [])) 2 [[0; 1; 2]; [3]] [1%nat] ∅ 0%nat = (Ok lats, s', n') ∧
  length lats = 4%nat ∧ s' !! js "k3" = Some [].
Proof.
  destruct (fan_out_writes _ _ _ _ _ (ST := keep_one_stores) Z.of_nat 2 ltac:(lia)
    (λ i j _ _ H, show_inj i j (app_inv_head _ _ _ H)) [[0; 1; 2]; [3]] [1%nat] ∅ 0%nat I ltac:(by apply Forall_true))
    as (lats & s' & n' & E & Hl & _ & H & _).
  exists lats, s', n'. split_and!; [exact E|exact Hl|]. apply (H 3). apply (bool_decide_unpack _). vm_compute. exact I.
Defined.
End Examples.
