(* ===== verification/ApiBackend.v ===== *)
(** * The REST backend of the browser demo ([apps/browser/demo/api-backend.ts])

    The proxy of the demo's classic lane: a request becomes one text command.
    What is printed at the start is left out; [value_text] is the text of a
    value that is no string. *)
From Stdlib Require Import QArith.
From S2P Require Import Prelude Utf8 JsText Number Command Protocol Json Prog KvServer WebApp Explorer Uri.
#[local] Open Scope Z_scope.

Section Handler.
Context {E : ErrorTexts} (value_text : json → jsstr).

Definition answer (status : Z) (fields : list (jsstr * json)) : prog response := Ret (Response status (Json (JObj fields))).

(** [{ ok: true, data: resp }] *)
Definition answer_data (resp : WormResponse) : prog response :=
  answer 200 [(js "ok", JBool true); (js "data", response_json resp)].

(** [catch (err) { ... }] *)
Definition or_502 (p : prog response) : prog response :=
  Prog.catch p (λ e, answer 502 [(js "ok", JBool false); (js "error", JStr (err_message e))]).

Definition error_answer (status : Z) (text : string) : prog response := answer status [(js "error", JStr (js text))].

(** [/^\/api\/kv\/(.+)$/] *)
Definition kvMatch (path : jsstr) : option jsstr :=
  k ← strip_prefix (js "/api/kv/") path;
  if bool_decide (k ≠ []) && negb (existsb is_line_terminator k) then Some k else None.

(** [body.value ?? ""], as a template takes it *)
Definition value_of_body (body : json) : res jsstr :=
  v ← prop body (js "value");
  Ok match coalesce v (Some (JStr [])) with Some (JStr s) => s | Some v => value_text v | None => [] end.

Definition get_kv (key : jsstr) : prog response := resp ← send (get_text key); answer_data resp.
Definition post_kv (key : jsstr) (req : request) : prog response :=
  body ← of_res (req_json req);
  value ← of_res (value_of_body body);
  resp ← send (set_text key value);
  answer_data resp.
Definition delete_kv (key : jsstr) : prog response := resp ← send (del_text key); answer_data resp.

Definition fetch (req : request) : prog response :=
  let is_ m := bool_decide (method req = js m) in
  if is_ "OPTIONS"%string then Ret (Response 204 Empty)
  else if bool_decide (pathname req = js "/api/status") && is_ "GET"%string
  then or_502 (resp ← send (js "STATUS"); answer_data resp)
  else match kvMatch (pathname req) with
  | None => error_answer 404 "not found"
  | Some k =>
      key ← of_res (decodeURIComponent k);
      or_502 (
        if is_ "GET"%string then get_kv key
        else if is_ "POST"%string then post_kv key req
        else if is_ "DELETE"%string then delete_kv key
        else error_answer 405 "method not allowed")
  end.
End Handler.

(** ** Properties *)

Section Properties.
Context {E : ErrorTexts} {UD : UnicodeData} {O : Others} (value_text : json → jsstr).
Notation fetch := (fetch value_text).

(** The request a browser makes about a key *)
Definition kv_request (m : string) (segment : jsstr) (body : option json) : request :=
  Request (js m) (js "/api/kv/" ++ segment) body.
Definition data_response (r : WormResponse) : response :=
  Response 200 (Json (JObj [(js "ok", JBool true); (js "data", response_json r)])).

Lemma encoded_plain s t : encodeURIComponent s = Ok t → existsb is_line_terminator t = false.
Proof.
  unfold encodeURIComponent. destruct (well_formed s) eqn:Hw; [|done]. intros [= <-].
  pose proof (code_points_scalar s (well_formed_units s Hw)) as Hc. apply not_true_iff_false. intros (x & Hx & Ht)%existsb_exists.
  apply list_elem_of_In, list_elem_of_bind in Hx as (c & Hx & Hin). rewrite Forall_forall in Hc. specialize (Hc c Hin).
  assert (37 ≤ x < 127 ∨ x = 33) as Hr; [|unfold is_line_terminator in Ht; lia].
  unfold encode_uri_cp in Hx. destruct (unreserved c) eqn:Eu.
  - apply list_elem_of_singleton in Hx as ->. unfold unreserved, is_digit in Eu. rewrite !orb_true_iff, bool_decide_eq_true, !elem_of_cons, elem_of_nil in Eu. lia.
  - apply list_elem_of_bind in Hx as (b & Hx & Hb). pose proof (encode_cp_bytes c Hc) as Hbs.
    rewrite Forall_forall in Hbs. pose proof (escape_byte_range b (Hbs b Hb)) as Hr. rewrite Forall_forall in Hr.
    specialize (Hr x Hx). cbn in Hr. lia.
Qed.

Lemma kvMatch_key k t : encodeURIComponent k = Ok t → k ≠ [] → kvMatch (js "/api/kv/" ++ t) = Some t.
Proof.
  intros Ht Hk. destruct (encoded_segment k t Ht Hk) as [Hne _]. unfold kvMatch, strip_prefix. rewrite startsWith_app, drop_app_length.
  cbn [mbind option_bind]. by rewrite bool_decide_eq_true_2, (encoded_plain k t).
Qed.

Notation run := (exec serve).

(** A request about a key is handled for that key, whatever characters the
    key has. *)
Lemma fetch_key req k t d s : method req ≠ js "OPTIONS" → encodeURIComponent k = Ok t → k ≠ [] → pathname req = js "/api/kv/" ++ t →
  run (fetch req) d s = run (or_502 (
    if bool_decide (method req = js "GET") then get_kv k
    else if bool_decide (method req = js "POST") then post_kv value_text k req
    else if bool_decide (method req = js "DELETE") then delete_kv k
    else error_answer 405 "method not allowed")) d s.
Proof.
  intros Hm Ht Hk Hp. unfold ApiBackend.fetch. rewrite (bool_decide_eq_false_2 _ Hm), Hp.
  rewrite bool_decide_eq_false_2 by done. cbn [andb]. rewrite (kvMatch_key k t) by done.
  rewrite (decode_encode_uri k t Ht). done.
Qed.

Lemma run_get k d s : word k → run (or_502 (get_kv k)) d s =
  (Ok (data_response match get s k with Some v => bulk v | None => null end), d, s).
Proof. intros Hk. unfold or_502, get_kv. rewrite exec_catch, exec_bind, exec_send, serve_get_text by done. done. Qed.

Lemma run_post k v body req d s : account k → word v → says_worm v = false → WebApp.body req = Some body →
  prop body (js "value") = Ok (Some (JStr v)) →
  run (or_502 (post_kv value_text k req)) d s =
  if is_worm s k then (Ok (data_response worm_violation), d, s) else (Ok (data_response ok), d, <[k := Entry v false]> s).
Proof.
  intros Hk Hv Hw Hb Hp. unfold or_502, post_kv. rewrite exec_catch, exec_bind. unfold req_json. rewrite Hb. cbn [of_res exec].
  rewrite exec_bind. unfold value_of_body. rewrite Hp. cbn [mbind res_bind coalesce of_res exec]. rewrite exec_bind, exec_send.
  destruct (is_worm s k) eqn:E1; [rewrite serve_put_refused by done|rewrite serve_put by done]; done.
Qed.

(** What is written through the backend reads back through it, under keys of
    any characters but spaces; a write-once key keeps its value. *)
Theorem posted_key_reads_back k t v body d s : account k → encodeURIComponent k = Ok t → word v → says_worm v = false →
  prop body (js "value") = Ok (Some (JStr v)) → is_worm s k = false →
  ∃ s', run (fetch (kv_request "POST" t (Some body))) d s = (Ok (data_response ok), d, s') ∧
    run (fetch (kv_request "GET" t None)) d s' = (Ok (data_response (bulk v)), d, s') ∧
    ∀ k', k' ≠ k → s' !! k' = s !! k'.
Proof.
  intros Hk Ht Hv Hw Hp Hs. pose proof Hk as [Hkw _]. pose proof Hkw as [Hne _]. exists (<[k := Entry v false]> s). split_and!.
  - rewrite (fetch_key _ k t) by done. rewrite !bool_decide_eq_false_2, bool_decide_eq_true_2 by done.
    by rewrite (run_post k v body), Hs.
  - rewrite (fetch_key _ k t), bool_decide_eq_true_2, run_get by done. unfold get. by rewrite lookup_insert_eq.
  - intros k' Hk'. by apply lookup_insert_ne.
Qed.

(** A write that the server refuses is answered as a success: status 200 and
    [ok: true], with the refusal in the data. *)
Lemma refused_write_ok k t v body d s : account k → encodeURIComponent k = Ok t → word v → says_worm v = false →
  prop body (js "value") = Ok (Some (JStr v)) → is_worm s k = true →
  run (fetch (kv_request "POST" t (Some body))) d s =
  (Ok (Response 200 (Json (JObj [(js "ok", JBool true); (js "data", response_json worm_violation)]))), d, s).
Proof.
  intros Hk Ht Hv Hw Hp Hs. pose proof Hk as [[Hne _] _]. rewrite (fetch_key _ k t) by done.
  rewrite !bool_decide_eq_false_2, bool_decide_eq_true_2 by done. by rewrite (run_post k v body), Hs.
Qed.
End Properties.

Section Examples.
#[local] Instance quiet : ErrorTexts := {| err_message := λ _, []; err_string := λ _, [] |}.
#[local] Existing Instances ascii_only no_others.
Definition no_draws : draws := Draws (λ _, 0%Q) 0 (λ _, 0) 0.
Definition value_c : json := JObj [(js "value", JStr (js "c"))].

(** A value is cut at its first space; a key with a space writes another key. *)
Lemma spaced_value_cut : final serve (fetch (λ _, []) (kv_request "POST" (js "a")
    (Some (JObj [(js "value", JStr (js "hello world"))])))) no_draws ∅ !! js "a" = Some (Entry (js "hello") false).
Proof. vm_compute. reflexivity. Qed.
Lemma spaced_key_written_elsewhere :
  final serve (fetch (λ _, []) (kv_request "POST" (js "a%20b") (Some value_c))) no_draws ∅ !! js "a" = Some (Entry (js "b") false).
Proof. vm_compute. reflexivity. Qed.

Lemma posted_key_reads_back_witness : ∃ s',
  exec serve (fetch (λ _, []) (kv_request "POST" (js "x%2Fy") (Some value_c))) no_draws ∅ = (Ok (data_response ok), no_draws, s') ∧
  exec serve (fetch (λ _, []) (kv_request "GET" (js "x%2Fy") None)) no_draws s' = (Ok (data_response (bulk (js "c"))), no_draws, s').
Proof.
  destruct (posted_key_reads_back (λ _, []) (js "x/y") (js "x%2Fy") (js "c") value_c no_draws ∅) as (s' & H1 & H2 & _).
  - split; [split; [done|repeat constructor]|vm_compute; reflexivity].
  - vm_compute. reflexivity.
  - split; [done|repeat constructor].
  - vm_compute. reflexivity.
  - reflexivity.
  - reflexivity.
  - exists s'. by split.
Defined.
End Examples.
