(* ===== verification/DemoKeys.v ===== *)
(** * The keys of the browser demo ([apps/browser/demo])

    [keygen.ts] makes a key pair and saves it; [auth-provider.ts] loads what
    was saved and imports the signing key; [serve.ts] is the server of the
    demo's files.  The key pair is what [crypto.subtle] exports, and a file of
    keys is given by the document in it. *)
From S2P Require Import Prelude Utf8 JsText Number TypedArray Base64 Json Sct WebApp.
#[local] Open Scope Z_scope.

(** ** [keygen.ts] *)

(** What [exportKey("raw", ...)] and [exportKey("pkcs8", ...)] give *)
Record KeyPair := Pair { publicRaw : bytes; pkcs8 : bytes }.

Definition seed_of (k : KeyPair) : bytes := take 32 (drop 16 (pkcs8 k)).

(** [secretKey.set(seed, 0); secretKey.set(publicRaw, 32)]: a value that does
    not fit throws. *)
Definition secretKey (k : KeyPair) : res bytes :=
  out ← set_at (replicate 64 0) 0 (seed_of k);
  set_at out 32 (publicRaw k).

(** The document saved with [--save] *)
Definition keygen (k : KeyPair) (generatedAt : jsstr) : res json :=
  secret ← secretKey k;
  Ok (JObj [(js "publicKey", JStr (b64_encode (publicRaw k))); (js "secretKey", JStr (b64_encode secret));
            (js "publicKeyHex", JStr (Sct.hex (publicRaw k))); (js "generatedAt", JStr generatedAt);
            (js "_warning", JStr (js "Keep secretKey private. Only share publicKey with WormDB nodes."))]).

(** ** [auth-provider.ts] *)

Definition pkcs8Header : bytes :=
  [0x30; 0x2e; 0x02; 0x01; 0x00; 0x30; 0x05; 0x06; 0x03; 0x2b; 0x65; 0x70; 0x04; 0x22; 0x04; 0x20].

(** [Buffer.from(x, "base64")] of a property; what is no string is left aside. *)
Definition key_bytes (keys : json) (name : string) : res bytes :=
  v ← prop keys (js name);
  match v with Some (JStr s) => Ok (buffer_from_base64 s) | _ => Throw TypeError end.

(** The signing key imported, and the public key's bytes *)
Definition load_keys (keys : json) : res KeyPair :=
  secretKeyBytes ← key_bytes keys "secretKey";
  publicKeyBytes ← key_bytes keys "publicKey";
  let seed := take 32 secretKeyBytes in
  let out := replicate (length pkcs8Header + length seed) 0 in
  pkcs8Key ← set_at out 0 pkcs8Header;
  pkcs8Key ← set_at pkcs8Key (len pkcs8Header) seed;
  Ok (Pair publicKeyBytes pkcs8Key).

(** ** [serve.ts] *)

Definition file_path (pathname : jsstr) : jsstr :=
  js "./apps/browser" ++ (if bool_decide (pathname = js "/" ∨ pathname = []) then js "/demo/index.html" else pathname).
Definition serve (exists_file : jsstr → bool) (pathname : jsstr) : response :=
  if exists_file (file_path pathname) then Response 200 (File (file_path pathname)) else Response 404 (Text (js "Not Found")).

(** ** Properties *)

Lemma set_at_fits pre mid post data : length data = length mid →
  set_at (pre ++ mid ++ post) (len pre) data = Ok (pre ++ data ++ post).
Proof.
  intros Hl. unfold set_at. note_len. rewrite !len_app. assert (len data = len mid) as Hd by (unfold len; lia).
  pose proof (len_nonneg post). repeat case_ztest; try lia. cbn [orb]. rewrite take_app_length' by (unfold len; lia). do 3 f_equal.
  rewrite app_assoc. apply drop_app_length'. rewrite length_app. unfold len in *. lia.
Qed.

(** An Ed25519 pair as [crypto.subtle] exports it: the header of RFC 8410 and
    the seed *)
Definition exported (k : KeyPair) (seed : bytes) : Prop :=
  pkcs8 k = pkcs8Header ++ seed ∧ length seed = 32%nat ∧ length (publicRaw k) = 32%nat ∧
  Forall is_byte seed ∧ Forall is_byte (publicRaw k).

Lemma secretKey_parts k seed : exported k seed → secretKey k = Ok (seed ++ publicRaw k).
Proof.
  intros (Hp & Hs & Hl & _ & _). unfold secretKey, seed_of. rewrite Hp. assert (drop 16 (pkcs8Header ++ seed) = seed) as -> by done.
  rewrite take_ge by lia. change (replicate 64 0) with ([] ++ replicate 32 0 ++ replicate 32 0).
  rewrite (set_at_fits [] (replicate 32 0)) by (by rewrite Hs). cbn [mbind res_bind app].
  pose proof (set_at_fits seed (replicate 32 0) [] (publicRaw k)) as H. rewrite !app_nil_r in H. unfold len in H. rewrite Hs in H. change (Z.of_nat 32) with 32 in H. apply H. by rewrite Hl.
Qed.

(** The provider signs with the key that was generated, and tells its public
    key: what [keygen.ts] saves is what [auth-provider.ts] loads. *)
Theorem saved_keys_load k seed at_ doc : exported k seed → keygen k at_ = Ok doc → load_keys doc = Ok k.
Proof.
  intros Hk Hdoc. pose proof Hk as (Hp & Hs & Hl & Hsb & Hpb). unfold keygen in Hdoc. rewrite (secretKey_parts k seed Hk) in Hdoc.
  cbn [mbind res_bind] in Hdoc. injection Hdoc as <-. set (doc := JObj _).
  assert (prop doc (js "secretKey") = Ok (Some (JStr (b64_encode (seed ++ publicRaw k)))) ∧
          prop doc (js "publicKey") = Ok (Some (JStr (b64_encode (publicRaw k))))) as [Hps Hpp] by done.
  unfold load_keys, key_bytes. rewrite Hps, Hpp. cbn [mbind res_bind].
  rewrite !buffer_from_encode by (try apply Forall_app; done). rewrite take_app_length' by done.
  replace (replicate (length pkcs8Header + length seed) 0) with ([] ++ replicate (length pkcs8Header) 0 ++ replicate (length seed) 0)
    by by rewrite <- replicate_add.
  rewrite (set_at_fits [] (replicate (length pkcs8Header) 0)) by (by rewrite length_replicate). cbn [mbind res_bind].
  pose proof (set_at_fits pkcs8Header (replicate (length seed) 0) [] seed ltac:(by rewrite length_replicate)) as H.
  rewrite !app_nil_r in H. change ([] ++ pkcs8Header ++ ?x) with (pkcs8Header ++ x). rewrite H. cbn [mbind res_bind]. rewrite <- Hp. by destruct k.
Qed.

Lemma saved_keys_load_witness : ∃ doc, keygen (Pair (replicate 32 7) (pkcs8Header ++ replicate 32 9)) (js "now") = Ok doc ∧
  load_keys doc = Ok (Pair (replicate 32 7) (pkcs8Header ++ replicate 32 9)).
Proof.
  eexists. split; [vm_compute; reflexivity|].
  apply (saved_keys_load (Pair (replicate 32 7) (pkcs8Header ++ replicate 32 9)) (replicate 32 9) (js "now")); [|vm_compute; reflexivity].
  split_and!; try reflexivity; apply Forall_replicate; unfold is_byte; lia.
Defined.
