(* ===== verification/Wasi.v ===== *)
(** * The WASI shim ([scripts/wasi-shim.mjs])

    The host functions a WebAssembly build of the engine imports, over the
    module's linear memory.  [host] is what they touch: the memory, the texts
    given to [onStdout], and how often the source of randomness was asked.  A
    pointer is the 32-bit number WebAssembly hands over, which JavaScript
    reads as signed. *)
From Stdlib Require Import QArith Qround.
From S2P Require Import Prelude Utf8 JsText Number TypedArray VectorBench.
#[local] Open Scope Z_scope.

(** ** Little-endian accesses of a [DataView] *)

Definition le_bytes (n : nat) (v : Z) : bytes := reverse (be_bytes n v).
Definition set_le (n : nat) (m : bytes) (off v : Z) : res bytes := set_at m off (le_bytes n v).
Definition get_le (n : nat) (m : bytes) (off : Z) : res Z :=
  if (off <? 0) || (len m <? off + Z.of_nat n) then Throw RangeError
  else Ok (be_value 0 (reverse (slice m off (off + Z.of_nat n)))).

(** ** The shim *)

Record host := Host { memory : bytes; stdout : list jsstr; drawn : nat }.

Definition ENOSYS : Z := 52.
Definition EBADF : Z := 8.

(** Bytes written to the memory *)
Definition stored (h : host) (r : res bytes) : host * res Z :=
  match r with Ok m => (Host m (stdout h) (drawn h), Ok 0) | Throw e => (h, Throw e) end.

(** Two sizes, both zero *)
Definition no_sizes (a b : Z) (h : host) : host * res Z :=
  match set_le 4 (memory h) a 0 with
  | Ok m => stored (Host m (stdout h) (drawn h)) (set_le 4 m b 0)
  | Throw e => (h, Throw e)
  end.

Definition clock_res_get (out : Z) (h : host) : host * res Z := stored h (set_le 8 (memory h) out 1).

(** [Date.now()] and [performance.now()], in milliseconds *)
Record clocks := Clocks { date_now : Z; performance_now : Q }.

Definition clock_time_get (c : clocks) (id out : Z) (h : host) : host * res Z :=
  let ms := if id =? 0 then inject_Z (date_now c) else performance_now c in
  stored h (set_le 8 (memory h) out (Qfloor (rnd (ms * 1000000)%Q))).

Section Random.
(** What the [k]-th call of [getRandomValues] puts into [n] bytes *)
Context (values : nat → Z → bytes).

(** The rounds of the loop from [at_], over the bytes from [base] on *)
Fixpoint fill (fuel : nat) (base size at_ : Z) (h : host) : host * res Z :=
  match fuel with
  | O => (h, Ok 0)
  | S fuel =>
      if at_ <? size then
        let n := Z.min (at_ + 65536) size - at_ in
        match set_at (memory h) (base + at_) (values (drawn h) n) with
        | Ok m => fill fuel base size (at_ + 65536) (Host m (stdout h) (S (drawn h)))
        | Throw e => (h, Throw e)
        end
      else (h, Ok 0)
  end.

Definition no_crypto : exn :=
  Error (js "no WebCrypto available: the engine needs a CSPRNG for random_get, and substituting Math.random would silently weaken key material").

(** The rounds for [n] bytes *)
Definition rounds (n : Z) : nat := Z.to_nat (n / 65536 + 1).

(** [u8().subarray(buf, buf + len)], filled in chunks *)
Definition random_get (webcrypto : bool) (buf n : Z) (h : host) : host * res Z :=
  if negb webcrypto then (h, Throw no_crypto)
  else
    let size := len (slice (memory h) buf (buf + n)) in
    fill (rounds size) (clamp_index (len (memory h)) buf) size 0 h.
End Random.

(** The loop over the vectors of [fd_write] *)
Fixpoint gather (n : nat) (m : bytes) (at_ : Z) (text : jsstr) (total : Z) : res (jsstr * Z) :=
  match n with
  | O => Ok (text, total)
  | S n =>
      ptr ← get_le 4 m at_;
      size ← get_le 4 m (at_ + 4);
      gather n m (at_ + 8) (text ++ text_decode (slice m ptr (ptr + size))) (total + size)
  end.

Definition fd_write (fd iovs iovsLen nwritten : Z) (h : host) : host * res Z :=
  match gather (Z.to_nat iovsLen) (memory h) iovs [] 0 with
  | Throw e => (h, Throw e)
  | Ok (text, total) =>
      match set_le 4 (memory h) nwritten total with
      | Throw e => (h, Throw e)
      | Ok m => (Host m (if (fd =? 1) || (fd =? 2) then stdout h ++ [text] else stdout h) (drawn h), Ok 0)
      end
  end.

(** An exit is an exception; its property [wasmExit] is left out. *)
Definition proc_exit (code : Z) : res Z := Throw (Error (js "wasm proc_exit(" ++ show code ++ js ")")).

(** The functions the engine may import *)
Inductive import :=
| ArgsSizesGet (argc argvBufSize : Z) | ArgsGet | EnvironSizesGet (a b : Z) | EnvironGet
| ClockResGet (out : Z) | ClockTimeGet (id out : Z) | RandomGet (buf n : Z)
| FdWrite (fd iovs iovsLen nwritten : Z) | ProcExit (code : Z) | SchedYield | PollOneoff
| FdPrestatGet | FdPrestatDirName | FdFdstatGet | Stub (name : string).

Definition createWasi (values : nat → Z → bytes) (webcrypto : bool) (c : clocks) (i : import) (h : host) : host * res Z :=
  match i with
  | ArgsSizesGet a b | EnvironSizesGet a b => no_sizes a b h
  | ArgsGet | EnvironGet | SchedYield => (h, Ok 0)
  | ClockResGet out => clock_res_get out h
  | ClockTimeGet id out => clock_time_get c id out h
  | RandomGet buf n => random_get values webcrypto buf n h
  | FdWrite fd iovs iovsLen nwritten => fd_write fd iovs iovsLen nwritten h
  | ProcExit code => (h, proc_exit code)
  | FdPrestatGet | FdPrestatDirName => (h, Ok EBADF)
  | PollOneoff | FdFdstatGet | Stub _ => (h, Ok ENOSYS)
  end.

(** ** Regions of memory *)

(** From [p] on, the memory holds [bs]. *)
Definition holds (m : bytes) (p : Z) (bs : bytes) : Prop :=
  0 ≤ p ∧ p + len bs ≤ len m ∧ slice m p (p + len bs) = bs.

Lemma slice_len (m : bytes) p n : 0 ≤ p → 0 ≤ n → p + n ≤ len m → len (slice m p (p + n)) = n.
Proof. intros. rewrite slice_take_drop, len_take, len_drop by lia. lia. Qed.

Lemma holds_split m p bs : holds m p bs ↔ ∃ pre post, m = pre ++ bs ++ post ∧ len pre = p.
Proof.
  split.
  - intros (Hp & Hl & E). rewrite slice_take_drop in E by len_tac. exists (take (Z.to_nat p) m), (drop (Z.to_nat (p + len bs)) m).
    split; [|rewrite len_take; len_tac]. rewrite <- E at 1. replace (Z.to_nat (p + len bs)) with (Z.to_nat p + Z.to_nat (p + len bs - p))%nat by len_tac.
    by rewrite <- drop_drop, take_drop, take_drop.
  - intros (pre & post & -> & <-). split_and!; [len_tac|len_tac|]. by apply slice_mid.
Qed.

Lemma holds_app m p a b : holds m p (a ++ b) ↔ holds m p a ∧ holds m (p + len a) b.
Proof.
  split.
  - rewrite !holds_split. intros (pre & post & -> & <-). split; [exists pre, (b ++ post)|exists (pre ++ a), post]; by rewrite ?len_app, <- ?app_assoc.
  - intros [(H0 & H1 & E1) (H2 & H3 & E2)]. rewrite slice_take_drop in E1, E2 by len_tac.
    split_and!; [done|len_tac|]. rewrite slice_take_drop by len_tac. rewrite <- E1 at 2. rewrite <- E2 at 2.
    replace (Z.to_nat (p + len (a ++ b) - p)) with (Z.to_nat (p + len a - p) + Z.to_nat (p + len a + len b - (p + len a)))%nat by len_tac.
    replace (Z.to_nat (p + len a)) with (Z.to_nat p + Z.to_nat (p + len a - p))%nat by len_tac.
    by rewrite <- drop_drop, take_take_drop.
Qed.

(** A write to the memory: it holds what was written, and elsewhere what it
    held. *)
Lemma set_at_holds m off data : 0 ≤ off → off + len data ≤ len m → ∃ m', set_at m off data = Ok m' ∧ len m' = len m ∧ holds m' off data ∧
  ∀ p bs, holds m p bs → p + len bs ≤ off ∨ off + len data ≤ p → holds m' p bs.
Proof.
  intros H0 Hl. set (m' := take (Z.to_nat off) m ++ data ++ drop (Z.to_nat (off + len data)) m). exists m'.
  assert (len m' = len m) as Hm by (unfold m'; rewrite !len_app, len_take, len_drop; len_tac).
  split_and!; [|done| |].
  - unfold set_at. repeat case_ztest; try lia. done.
  - apply holds_split. eexists _, _. split; [done|]. rewrite len_take. len_tac.
  - intros p bs Hp Hd. pose proof Hp as (Hp0 & Hpl & E). split_and!; [done|by rewrite Hm|].
    rewrite slice_take_drop in E |- * by (rewrite ?Hm; len_tac). rewrite <- E at 2. unfold m'. destruct Hd as [Hd|Hd].
    + rewrite drop_app_le by (rewrite length_take; unfold len in *; lia). rewrite take_app_le by (rewrite length_drop, length_take; unfold len in *; lia).
      rewrite skipn_firstn_comm, take_take. f_equal. unfold len in *. lia.
    + rewrite app_assoc, drop_app_ge by (rewrite length_app, length_take; unfold len in *; lia).
      rewrite drop_drop. do 2 f_equal. rewrite length_app, length_take. unfold len in *. lia.
Qed.

Lemma len_le_bytes n v : len (le_bytes n v) = Z.of_nat n.
Proof. unfold le_bytes, len. rewrite length_reverse. apply len_be_bytes. Qed.
#[export] Hint Rewrite len_le_bytes : len.

Lemma get_le_holds n m off v : holds m off (le_bytes n v) → 0 ≤ v < 256 ^ Z.of_nat n → get_le n m off = Ok v.
Proof.
  intros (H0 & Hl & E) Hv. unfold get_le. rewrite len_le_bytes in Hl, E. repeat case_ztest; try lia. cbn [orb].
  rewrite E. unfold le_bytes. rewrite reverse_involutive, be_value_bytes. f_equal. by apply Z.mod_small.
Qed.

Lemma set_le_holds n m off v : 0 ≤ off → off + Z.of_nat n ≤ len m → ∃ m', set_le n m off v = Ok m' ∧ len m' = len m ∧ holds m' off (le_bytes n v) ∧
  ∀ p bs, holds m p bs → p + len bs ≤ off ∨ off + Z.of_nat n ≤ p → holds m' p bs.
Proof. intros H0 Hl. rewrite <- (len_le_bytes n v) in Hl |- *. by apply set_at_holds. Qed.

Lemma set_at_len m off data m' : set_at m off data = Ok m' → len m' = len m.
Proof.
  unfold set_at. destruct (Z.ltb_spec off 0); [done|]. destruct (Z.ltb_spec (len m) (off + len data)); [done|]. intros [= <-].
  rewrite !len_app, len_take, len_drop. len_tac.
Qed.

(** ** Printing *)

(** The vectors of a write, as the table of [iovs] has them *)
Definition iov (pt : Z * jsstr) : bytes := le_bytes 4 pt.1 ++ le_bytes 4 (len (text_encode pt.2)).
Definition piece (m : bytes) (pt : Z * jsstr) : Prop :=
  holds m pt.1 (text_encode pt.2) ∧ pt.1 < 2 ^ 32 ∧ len (text_encode pt.2) < 2 ^ 32 ∧ well_formed pt.2 = true ∧ hd_error pt.2 ≠ Some 0xFEFF.

Lemma gather_pieces m : ∀ pts at_ text total, holds m at_ (pts ≫= iov) → Forall (piece m) pts →
  gather (length pts) m at_ text total = Ok (text ++ (pts ≫= snd), total + len (pts ≫= text_encode ∘ snd)).
Proof.
  intros pts. induction pts as [|[p t] pts IH]; intros at_ text total Ht Hp.
  - cbn. rewrite app_nil_r. do 2 f_equal. change (len (@nil Z)) with 0. lia.
  - apply Forall_cons in Hp as [(Hh & Hp32 & Hn32 & Hwf & Hbom) Hp]. cbn [fst snd] in *. pose proof Hh as (Hp0 & Hpl & E).
    rewrite bind_cons in Ht. unfold iov in Ht at 1. rewrite <- app_assoc in Ht. apply holds_app in Ht as [H1 Ht]. apply holds_app in Ht as [H2 Ht].
    rewrite !len_le_bytes in Ht. rewrite len_le_bytes in H2. change (Z.of_nat 4) with 4 in *. cbn [length gather fst snd] in *. note_len.
    rewrite (get_le_holds 4 _ _ p H1) by lia. cbn [mbind res_bind]. rewrite (get_le_holds 4 _ _ _ H2) by lia. cbn [mbind res_bind].
    replace (at_ + 4 + 4) with (at_ + 8) in Ht by lia. rewrite (IH _ _ _ Ht Hp).
    rewrite E, text_decode_encode, (normalize_id t Hwf Hbom) by (by apply well_formed_units). rewrite !bind_cons, <- app_assoc.
    cbn [compose snd]. rewrite len_app. do 2 f_equal. lia.
Qed.

(** What the engine prints is what the page is given: the texts of all its
    vectors in order, and the number of their bytes; only that number is
    written to the memory. *)
Theorem fd_write_prints h fd iovs nwritten pts : fd = 1 ∨ fd = 2 → holds (memory h) iovs (pts ≫= iov) → Forall (piece (memory h)) pts →
  0 ≤ nwritten → nwritten + 4 ≤ len (memory h) →
  ∃ m', fd_write fd iovs (len pts) nwritten h = (Host m' (stdout h ++ [pts ≫= snd]) (drawn h), Ok 0) ∧ len m' = len (memory h) ∧
    holds m' nwritten (le_bytes 4 (len (pts ≫= text_encode ∘ snd))) ∧
    ∀ p bs, holds (memory h) p bs → p + len bs ≤ nwritten ∨ nwritten + 4 ≤ p → holds m' p bs.
Proof.
  intros Hfd Ht Hp H0 Hn. unfold fd_write. replace (Z.to_nat (len pts)) with (length pts) by (unfold len; lia).
  rewrite (gather_pieces _ pts _ [] 0 Ht Hp), Z.add_0_l.
  destruct (set_le_holds 4 (memory h) nwritten (len (pts ≫= text_encode ∘ snd)) H0 Hn) as (m' & -> & Hl & Hh & Hf).
  exists m'. split_and!; [|done..]. by destruct Hfd as [-> | ->].
Qed.

(** ** Random bytes *)

Section RandomBytes.
Context (values : nat → Z → bytes) (values_len : ∀ k n, 0 < n ≤ 65536 → len (values k n) = n).

(** What the calls from the [k]-th on put into [n] bytes *)
Fixpoint drawn_bytes (fuel k : nat) (n : Z) : bytes :=
  match fuel with
  | O => []
  | S fuel => if 0 <? n then values k (Z.min 65536 n) ++ drawn_bytes fuel (S k) (n - 65536) else []
  end.

Lemma drawn_bytes_len fuel : ∀ k n, 0 ≤ n ≤ Z.of_nat fuel * 65536 → len (drawn_bytes fuel k n) = n.
Proof.
  induction fuel as [|fuel IH]; intros k n Hn; cbn [drawn_bytes]; [change (0 = n); lia|].
  destruct (Z.ltb_spec 0 n); [|change (0 = n); lia]. rewrite len_app, values_len by lia.
  destruct (Z.le_gt_cases n 65536).
  - rewrite Z.min_r by lia. destruct fuel; cbn [drawn_bytes]; [change (n + 0 = n); lia|].
    rewrite (proj2 (Z.ltb_ge 0 (n - 65536))) by lia. change (n + 0 = n). lia.
  - rewrite IH by lia. lia.
Qed.

Lemma fill_bytes fuel : ∀ base size at_ pre mid post out k, len pre = base + at_ → len mid = size - at_ → 0 ≤ base → 0 ≤ at_ →
  size - at_ ≤ Z.of_nat fuel * 65536 → at_ ≤ size →
  ∃ k', fill values fuel base size at_ (Host (pre ++ mid ++ post) out k) = (Host (pre ++ drawn_bytes fuel k (size - at_) ++ post) out k', Ok 0).
Proof.
  induction fuel as [|fuel IH]; intros base size at_ pre mid post out k Hpre Hmid Hb Ha Hf Hs; cbn [fill drawn_bytes].
  - exists k. assert (mid = []) as -> by (apply len_0_nil; lia). done.
  - destruct (Z.ltb_spec at_ size) as [Hlt|Hge].
    2: { exists k. rewrite (proj2 (Z.ltb_ge 0 (size - at_))) by lia. assert (mid = []) as -> by (apply len_0_nil; lia). done. }
    rewrite (proj2 (Z.ltb_lt 0 (size - at_))) by lia. cbn [memory stdout drawn].
    set (n := Z.min (at_ + 65536) size - at_). assert (Z.min 65536 (size - at_) = n) as -> by (unfold n; lia).
    assert (0 < n ≤ 65536 ∧ n ≤ len mid) as [Hn Hnm] by (unfold n; lia).
    assert (set_at (pre ++ mid ++ post) (base + at_) (values k n) = Ok (pre ++ values k n ++ drop (Z.to_nat n) mid ++ post)) as ->.
    { unfold set_at. rewrite !len_app, values_len by done. note_len. repeat case_ztest; try lia. cbn [orb]. f_equal.
      rewrite take_app_length' by (unfold len in Hpre; lia). do 2 f_equal. rewrite drop_app_ge by (unfold len in Hpre; lia).
      rewrite drop_app_le by (unfold len in *; lia). do 2 f_equal. unfold len in *. lia. }
    destruct (Z.le_gt_cases size (at_ + 65536)) as [Hl|Hl].
    + assert (n = size - at_) as En by (unfold n; lia). assert (drop (Z.to_nat n) mid = []) as -> by (apply drop_ge; unfold len in *; lia).
      exists (S k). destruct fuel; cbn [fill drawn_bytes]; [by rewrite app_nil_r|].
      rewrite (proj2 (Z.ltb_ge (at_ + 65536) size)), (proj2 (Z.ltb_ge 0 (size - at_ - 65536))) by lia. by rewrite app_nil_r.
    + assert (n = 65536) as En by (unfold n; lia).
      destruct (IH base size (at_ + 65536) (pre ++ values k n) (drop (Z.to_nat n) mid) post out (S k)) as (k' & E);
        [rewrite len_app, values_len by done; lia|rewrite len_drop; lia|lia|lia|lia|lia|].
      exists k'. rewrite <- !app_assoc in E |- *. rewrite E, <- !app_assoc. by replace (size - (at_ + 65536)) with (size - at_ - 65536) by lia.
Qed.

(** The buffer, and nothing else, is filled with what the calls give, none of
    which asks for more than the 65536 bytes that are allowed. *)
Theorem random_get_fills h buf n : 0 ≤ buf → 0 ≤ n → buf + n ≤ len (memory h) →
  ∃ m' k', random_get values true buf n h = (Host m' (stdout h) k', Ok 0) ∧ len m' = len (memory h) ∧
    holds m' buf (drawn_bytes (rounds n) (drawn h) n) ∧ len (drawn_bytes (rounds n) (drawn h) n) = n ∧
    ∀ p bs, holds (memory h) p bs → p + len bs ≤ buf ∨ buf + n ≤ p → holds m' p bs.
Proof.
  intros H0 Hn Hl. destruct h as [m out k]. cbn [memory stdout drawn] in *.
  destruct (holds_split m buf (slice m buf (buf + n))) as [(pre & post & Em & Hpre) _].
  { split_and!; [done|rewrite slice_len; lia|by rewrite (slice_len m buf n)]. }
  set (mid := slice m buf (buf + n)) in *. assert (len mid = n) as Hmid by by apply slice_len.
  set (fuel := rounds n). assert (n ≤ Z.of_nat fuel * 65536) as Hf.
  { unfold fuel, rounds. pose proof (Z.div_mod n 65536 ltac:(lia)). pose proof (Z.mod_pos_bound n 65536 ltac:(lia)). pose proof (Z.div_pos n 65536 Hn ltac:(lia)). lia. }
  destruct (fill_bytes fuel buf n 0 pre mid post out k) as (k' & E); [lia..|]. rewrite Z.sub_0_r in E.
  pose proof (drawn_bytes_len fuel k n ltac:(lia)) as Hd.
  exists (pre ++ drawn_bytes fuel k n ++ post), k'. split_and!.
  - unfold random_get. cbn [negb memory]. fold mid. rewrite Hmid. fold fuel. unfold clamp_index. rewrite (proj2 (Z.ltb_ge buf 0)), Z.min_l by lia.
    rewrite Em at 1. exact E.
  - rewrite Em, !len_app. lia.
  - apply holds_split. eauto.
  - done.
  - intros p bs Hp Hd'. rewrite Em in Hp.
    destruct (set_at_holds (pre ++ mid ++ post) buf (drawn_bytes fuel k n)) as (m' & Es & _ & _ & Hfr); [done|rewrite <- Em; lia|].
    assert (m' = pre ++ drawn_bytes fuel k n ++ post) as <-; [|apply Hfr; [done|lia]].
    unfold set_at in Es. destruct (_ || _); [done|]. injection Es as <-. rewrite take_app_length' by (unfold len in *; lia). do 2 f_equal.
    rewrite drop_app_ge by (unfold len in *; lia). rewrite drop_app_ge by (unfold len in *; lia). rewrite <- (drop_0 post) at 2. f_equal. unfold len in *. lia.
Qed.
End RandomBytes.

(** ** Every import *)

Lemma fill_size values fuel : ∀ base size at_ h, len (memory (fill values fuel base size at_ h).1) = len (memory h).
Proof.
  induction fuel as [|fuel IH]; intros base size at_ h; cbn [fill]; [done|].
  destruct (at_ <? size); [|done]. destruct (set_at _ _ _) as [m|e] eqn:E; [|done]. rewrite IH. cbn [memory]. by eapply set_at_len.
Qed.

Lemma stored_size h (r : res bytes) : (∀ m, r = Ok m → len m = len (memory h)) → len (memory (stored h r).1) = len (memory h).
Proof. intros H. destruct r; [by apply H|done]. Qed.

(** No import changes the size of the memory, and what is not implemented
    changes nothing and says so. *)
Theorem imports_keep_size values webcrypto c i h :
  len (memory (createWasi values webcrypto c i h).1) = len (memory h) ∧
  match i with PollOneoff | FdFdstatGet | Stub _ => createWasi values webcrypto c i h = (h, Ok ENOSYS) | _ => True end.
Proof.
  split; [|by destruct i]. destruct i; cbn [createWasi]; try done.
  1, 2: unfold no_sizes; destruct (set_le 4 (memory h) _ 0) as [m|e] eqn:E; [|done];
    rewrite stored_size; [by eapply set_at_len|]; intros m' E'; by eapply set_at_len.
  1, 2: apply stored_size; intros m' E'; by eapply set_at_len.
  - unfold random_get. destruct webcrypto; [apply fill_size|done].
  - unfold fd_write. destruct (gather _ _ _ _ _) as [[text total]|e]; [|done].
    destruct (set_le _ _ _ _) as [m|e] eqn:E; [|done]. cbn. by eapply set_at_len.
Qed.

(** ** Executions *)

Section Examples.
(** A memory of 64 bytes: the table of the vectors at 0, the texts from 32 *)
Definition printing : bytes :=
  le_bytes 4 32 ++ le_bytes 4 5 ++ le_bytes 4 40 ++ le_bytes 4 3 ++ replicate 16 0 ++
  text_encode (js "hello") ++ replicate 3 0 ++ text_encode [33; 0xE9] ++ replicate 21 0.
Definition engine : host := Host printing [] 0.

Lemma fd_write_prints_witness : ∃ m', fd_write 1 0 2 60 engine = (Host m' [js "hello" ++ [33; 0xE9]] 0, Ok 0) ∧ holds m' 60 (le_bytes 4 8).
Proof.
  destruct (fd_write_prints engine 1 0 60 [(32, js "hello"); (40, [33; 0xE9])]) as (m' & E & _ & Hn & _).
  - by left.
  - split_and!; [lia|vm_compute; discriminate|vm_compute; reflexivity].
  - repeat constructor; try lia; try done; vm_compute; done.
  - lia.
  - vm_compute. discriminate.
  - exists m'. split; [exact E|exact Hn].
Defined.

(** A character whose bytes lie in two vectors is printed as two replacement
    characters: each vector is decoded by itself. *)
Definition split_character : bytes :=
  le_bytes 4 16 ++ le_bytes 4 1 ++ le_bytes 4 17 ++ le_bytes 4 1 ++ text_encode [0xE9] ++ replicate 6 0.
Lemma split_character_garbled : stdout (fd_write 1 0 2 20 (Host split_character [] 0)).1 = [[0xFFFD; 0xFFFD]].
Proof. vm_compute. reflexivity. Qed.

(** A buffer that ends beyond the memory is filled as far as it goes, and the
    call succeeds. *)
Lemma short_buffer_succeeds : random_get (λ _ n, replicate (Z.to_nat n) 7) true 6 4 (Host (replicate 8 0) [] 0) =
  (Host [0; 0; 0; 0; 0; 0; 7; 7] [] 1, Ok 0).
Proof. vm_compute. reflexivity. Qed.

(** In the upper half of a memory of more than 2 GiB a pointer arrives as a
    negative number, which no access takes. *)
Lemma negative_pointer_throws v m off n : off < 0 → set_le n m off v = Throw RangeError ∧ get_le n m off = Throw RangeError.
Proof. intros H. unfold set_le, set_at, get_le. by rewrite (proj2 (Z.ltb_lt off 0)). Qed.

Lemma random_get_fills_witness : ∃ m' k', random_get (λ _ n, replicate (Z.to_nat n) 7) true 2 3 engine = (Host m' [] k', Ok 0) ∧ holds m' 2 [7; 7; 7].
Proof.
  destruct (random_get_fills (λ _ n, replicate (Z.to_nat n) 7)) with (h := engine) (buf := 2) (n := 3) as (m' & k' & E & _ & H & _).
  - intros k n Hn. rewrite len_replicate. lia.
  - lia.
  - lia.
  - vm_compute. discriminate.
  - exists m', k'. split; [exact E|exact H].
Defined.
End Examples.
