(* ===== verification/RedisBench.v ===== *)
(** * The Redis benchmark ([apps/bun/src/bin/redis-bench.ts])

    Connections that keep a bounded number of operations in flight each, with
    the counts and times they share.  Redis is a parameter: what it does with
    one request.  The answers of a connection come in order, and those of
    different connections in the order of a schedule.  The options are taken
    as the numbers their texts give; printing is left out. *)
From Stdlib Require Import QArith Qround.
From stdpp Require Import sorting.
From S2P Require Import Prelude JsText Number Effects VectorBench VectorRun FinancialBench LoadScripts.
#[local] Open Scope Z_scope.

Record Settings := MakeSettings { tests : list jsstr; total_ops : Z; concurrency_of : nat; inflight : Z; keyspace_of : Z; value_size : Z; read_ratio : num }.
Definition WARMUP : Z := 1000.

Inductive redis_request := Get (key : jsstr) | Set_ (key value : jsstr).
#[export] Instance redis_request_eq_dec : EqDecision redis_request.
Proof. solve_decision. Defined.

(** The counts and the latencies the connections share *)
Record counts := Counts { latencies : list Z; succeeded : Z; failed : Z }.
Definition none : counts := Counts [] 0 0.

(** A connection: its operations in flight, the oldest first, each with the
    time it was started, and how many are still to start *)
Record conn := Conn { flight : list (Z * redis_request); left : Z }.

Section Driver.
Context {S : Type} (redis : redis_request → S → S * res ()) (clock : nat → Z).

(** The world: Redis, and how many numbers have been drawn *)
Notation world := (S * nat)%type.
(** The operation of a test, from the numbers drawn so far *)
Context (opFn : nat → redis_request * nat).
(** The warm-up takes no times and counts nothing. *)
Context (measured : bool) (INFLIGHT : Z).

Definition draw_op : M world redis_request := lift (λ w, let '(q, d) := opFn w.2 in ((w.1, d), Ok q)).
Definition start_time : M world Z := if measured then read_clock clock else mret 0.

(** The operations of one round, started together *)
Definition start_op (_ : Z) : M world (Z * redis_request) := t ← start_time; q ← draw_op; mret (t, q).
Definition batch_size (ops : Z) : Z := if INFLIGHT <=? 1 then Z.min 1 ops else Z.min INFLIGHT ops.
Definition begin_batch (ops : Z) : M world conn :=
  flight ← each start_op (seqZ 0 (batch_size ops));
  mret (Conn flight (ops - batch_size ops)).

(** What becomes of the counts with one answer *)
Definition answered (t0 : Z) (r : res ()) (c : counts) : M world counts :=
  match r with
  | Ok _ => t ← start_time; mret (Counts (latencies c ++ [t - t0]) (succeeded c + 1) (failed c))
  | Throw _ => mret (Counts (latencies c) (succeeded c) (failed c + 1))
  end.

(** Redis answers the oldest operation of a connection; with the last of its
    round the next round is started. *)
Definition turn (k : conn) (c : counts) : M world (conn * counts) :=
  match flight k with
  | [] => mret (k, c)
  | (t0, q) :: rest =>
      r ← lift (λ w, let '(s, r) := redis q w.1 in ((s, w.2), Ok r));
      c ← answered t0 r c;
      match rest with
      | [] => k ← begin_batch (left k); mret (k, c)
      | _ => mret (Conn rest (left k), c)
      end
  end.

Fixpoint turns (schedule : list nat) (ks : list conn) (c : counts) : M world (list conn * counts) :=
  match schedule with
  | [] => mret (ks, c)
  | j :: schedule =>
      match ks !! j with
      | None => turns schedule ks c
      | Some k => kc ← turn k c; turns schedule (<[j := kc.1]> ks) kc.2
      end
  end.

Definition work (k : conn) : nat := (length (flight k) + Z.to_nat (left k))%nat.
Fixpoint to_the_end (n : nat) (k : conn) (c : counts) : M world counts :=
  match n with O => mret c | Datatypes.S n => kc ← turn k c; to_the_end n kc.1 kc.2 end.
Fixpoint finish (ks : list conn) (c : counts) : M world counts :=
  match ks with [] => mret c | k :: ks => c ← to_the_end (work k) k c; finish ks c end.

(** [Promise.all] over the pool *)
Definition run_pool (pool : nat) (ops : Z) (schedule : list nat) : M world counts :=
  ks ← each (λ _, begin_batch ops) (seqZ 0 (Z.of_nat pool));
  kc ← turns schedule ks none;
  finish kc.1 kc.2.
End Driver.

Record Report := MakeReport {
  attempted : Z; ok_ops : Z; failed_ops : Z; elapsed : Z; opsPerSec : num; avg : num; p50 : Z; p95 : Z; p99 : Z }.

(** [sum / length] of no times is no number. *)
Definition mean_of (l : list Z) : num :=
  match l with [] => NaN | _ => Fin (rnd (inject_Z (foldl Z.add 0%Z l) / inject_Z (len l)))%Q end.

Section Bench.
Context {S : Type} (redis : redis_request → S → S * res ()) (clock : nat → Z) (random : nat → Q) (cfg : Settings).

Definition value : jsstr := replicate (Z.to_nat (value_size cfg)) 120.
Definition bench_key (i : Z) : jsstr := js "bench:" ++ show i.

(** [Math.floor(Math.random() * KEYSPACE)] *)
Definition randomKey (d : nat) : jsstr := bench_key (Qfloor (random d * inject_Z (keyspace_of cfg))).
Definition below_ratio (x : Q) : bool :=
  match read_ratio cfg with Fin r => negb (Qle_bool r x) | Infinity neg => negb neg | NaN => false end.

Definition read_op (d : nat) : redis_request * nat := (Get (randomKey d), Datatypes.S d).
Definition write_op (d : nat) : redis_request * nat := (Set_ (randomKey d) value, Datatypes.S d).
Definition mixed_op (d : nat) : redis_request * nat :=
  if below_ratio (random d) then (Get (randomKey (Datatypes.S d)), Datatypes.S (Datatypes.S d))
  else (Set_ (randomKey (Datatypes.S d)) value, Datatypes.S (Datatypes.S d)).

Definition op_of (test : jsstr) : option (nat → redis_request * nat) :=
  if bool_decide (test = js "read") then Some read_op
  else if bool_decide (test = js "write") then Some write_op
  else if bool_decide (test = js "mixed") then Some mixed_op
  else None.

Definition share_of (ops : Z) : Z := ceil_div ops (Z.of_nat (concurrency_of cfg)).

Definition report_of (c : counts) (elapsed : Z) : Report :=
  let sorted := merge_sort Z.le (latencies c) in
  MakeReport (succeeded c + failed c) (succeeded c) (failed c) elapsed (rate (succeeded c) elapsed) (mean_of sorted)
    (default 0 (at_fraction sorted (rnd (1 # 2)))) (default 0 (at_fraction sorted (rnd (95 # 100))))
    (default 0 (at_fraction sorted (rnd (99 # 100)))).

Definition runBenchmark (opFn : nat → redis_request * nat) (warm schedule : list nat) : M (S * nat) Report :=
  _ ← run_pool redis clock opFn false 1 (concurrency_of cfg) (share_of WARMUP) warm;
  t0 ← read_clock clock;
  c ← run_pool redis clock opFn true (inflight cfg) (concurrency_of cfg) (share_of (total_ops cfg)) schedule;
  t1 ← read_clock clock;
  mret (report_of c (t1 - t0)).

Definition request (q : redis_request) : M (S * nat) () := lift (λ w, let '(s, r) := redis q w.1 in ((s, w.2), r)).

Definition createPool : M (S * nat) (list ()) :=
  each (λ _, request (Set_ (js "__ping__") (js "1"))) (seqZ 0 (Z.of_nat (concurrency_of cfg))).

(** The keys are set over the first connection; without one there is nothing
    to call. *)
Definition seed : M (S * nat) () :=
  each (λ i, if bool_decide (concurrency_of cfg = 0%nat) then of_result (Throw TypeError) else request (Set_ (bench_key i) value))
    (seqZ 0 (keyspace_of cfg)) ≫= λ _, mret tt.

(** The tests one after another; a name that is not known is passed over. *)
Definition main (schedules : jsstr → list nat * list nat) : M (S * nat) (list (jsstr * Report)) :=
  _ ← createPool;
  _ ← seed;
  rs ← each (λ t, match op_of t with
                  | Some opFn => r ← runBenchmark opFn (schedules t).1 (schedules t).2; mret (Some (t, r))
                  | None => mret None
                  end) (tests cfg);
  mret (omap id rs).
End Bench.

(** ** Every operation is counted once *)

Section Counting.
Context {S : Type} (redis : redis_request → S → S * res ()) (clock : nat → Z) (opFn : nat → redis_request * nat).
Context (measured : bool) (INFLIGHT : Z).
Notation world := (S * nat)%type.

Definition total (ks : list conn) : Z := foldr (λ k z, len (flight k) + left k + z) 0 ks.
(** Of [N] operations those counted are no longer with a connection, and a
    connection has nothing left to start without something in flight. *)
Definition idle_or_busy (k : conn) : Prop := 0 ≤ left k ∧ (flight k = [] → left k = 0).
Definition counted (c : counts) (n : Z) : Prop := succeeded c + failed c = n ∧ len (latencies c) = succeeded c ∧ 0 ≤ failed c.

Lemma counted_eq c n m : counted c n → n = m → counted c m.
Proof. by intros H <-. Qed.

Lemma does_weaken {W A} (p : M W A) I (R R' : A → Prop) : does p I R → (∀ a, R a → R' a) → does p I R'.
Proof. intros H Hr w n Hw. destruct (H w n Hw) as (a & w' & n' & E & Hw' & Ha). exists a, w', n'. auto. Qed.

Lemma does_start_op i : does (start_op clock opFn measured i) (λ _ : world, True) (λ _, True).
Proof.
  intros [s d] n _. unfold start_op, start_time, draw_op, mbind, M_bind, lift. destruct (opFn d) as [q d'] eqn:E.
  destruct measured; cbn; rewrite E; by eexists _, _, _.
Qed.

Lemma does_begin ops : 0 ≤ ops → does (begin_batch clock opFn measured INFLIGHT ops) (λ _ : world, True)
  (λ k, idle_or_busy k ∧ len (flight k) + left k = ops).
Proof.
  intros H0. assert (0 ≤ batch_size INFLIGHT ops ≤ ops ∧ (batch_size INFLIGHT ops = 0 → ops = 0)) as [Hb Hz].
  { unfold batch_size. destruct (Z.leb_spec INFLIGHT 1); lia. }
  unfold begin_batch. eapply does_then.
  - apply (does_each _ _ _ (λ _, True) (λ _ _, True)); [by apply Forall_true|]. intros. apply does_start_op.
  - intros fl Hfl%Forall2_length. apply does_ret. rewrite length_seqZ in Hfl. unfold idle_or_busy. cbn [flight left]. unfold len.
    split_and!; [lia| |lia]. intros ->. cbn in Hfl. lia.
Qed.

Lemma does_answered t0 r c n : counted c n → does (answered clock measured t0 r c) (λ _ : world, True) (λ c', counted c' (n + 1)).
Proof.
  intros (H1 & H2 & H3). unfold answered. destruct r as [[]|e].
  - eapply does_then; [|intros t _; apply does_ret; split_and!; cbn; [lia|rewrite len_app; len_tac|done]].
    unfold start_time. destruct measured; [apply does_clock|by apply does_ret].
  - apply does_ret. split_and!; cbn; [lia|done|lia].
Qed.

Lemma does_pool_turn k c n : idle_or_busy k → counted c n → does (turn redis clock opFn measured INFLIGHT k c) (λ _ : world, True)
  (λ kc, idle_or_busy kc.1 ∧ counted kc.2 (n + (len (flight k) + left k) - (len (flight kc.1) + left kc.1)) ∧
         work kc.1 = pred (work k)).
Proof.
  intros [H0 Hi] Hc. unfold turn. destruct (flight k) as [|[t0 q] rest] eqn:E.
  { apply does_ret. cbn [fst snd]. rewrite E. split_and!; [by split; [|rewrite E]| |].
    - by rewrite (Hi eq_refl), Z.add_simpl_r.
    - unfold work. by rewrite E, Hi. }
  eapply does_then; [apply (does_lift _ _ (λ _, True)); intros [s d] _; cbn; destruct (redis q s) as [s' r]; by eexists _, _|].
  intros r _. eapply does_then; [by apply does_answered|]. intros c' Hc'. destruct rest as [|p rest].
  - eapply does_then; [by apply does_begin|]. intros k' [Hk' Hl]. apply does_ret. cbn [fst snd]. split_and!; [done| |].
    + rewrite Hl. rewrite len_cons. change (len (@nil (Z * redis_request))) with 0. eapply counted_eq; [exact Hc'|lia].
    + unfold work. rewrite E. destruct Hk' as [? _]. unfold len in Hl. cbn. lia.
  - apply does_ret. cbn [fst snd flight left]. split_and!; [by split| |].
    + rewrite (len_cons (t0, q)). eapply counted_eq; [exact Hc'|lia].
    + unfold work. rewrite E. cbn. lia.
Qed.

Lemma total_cons k ks : total (k :: ks) = len (flight k) + left k + total ks.
Proof. done. Qed.
Lemma total_app ks ks' : total (ks ++ ks') = total ks + total ks'.
Proof. induction ks as [|k ks IH]; cbn [app]; [done|]. rewrite !total_cons, IH. lia. Qed.

Lemma does_pool_turns N schedule : ∀ ks c, Forall idle_or_busy ks → counted c (N - total ks) →
  does (turns redis clock opFn measured INFLIGHT schedule ks c) (λ _ : world, True)
    (λ kc, Forall idle_or_busy kc.1 ∧ counted kc.2 (N - total kc.1)).
Proof.
  induction schedule as [|j schedule IH]; intros ks c Hks Hc; cbn [turns]; [by apply does_ret|].
  destruct (ks !! j) as [k|] eqn:Ej; [|by apply IH].
  rewrite Forall_forall in Hks. pose proof (list_elem_of_lookup_2 _ _ _ Ej) as Hin.
  eapply does_then; [apply (does_pool_turn k c _ (Hks k Hin) Hc)|]. intros [k' c'] (Hk' & Hc' & _). cbn [fst snd] in *. apply IH.
  - apply Forall_insert; [by apply Forall_forall|done].
  - pose proof (take_drop_middle _ _ _ Ej) as Hs. rewrite insert_take_drop by by eapply lookup_lt_Some.
    rewrite <- Hs in Hc' at 1. rewrite !total_app, !total_cons in *.
    eapply counted_eq; [exact Hc'|lia].
Qed.

Lemma does_to_the_end m : ∀ k c n, idle_or_busy k → counted c n → (work k ≤ m)%nat →
  does (to_the_end redis clock opFn measured INFLIGHT m k c) (λ _ : world, True) (λ c', counted c' (n + (len (flight k) + left k))).
Proof.
  induction m as [|m IH]; intros k c n Hk Hc Hm; cbn [to_the_end].
  - apply does_ret. destruct Hk as [Hk _]. unfold work in Hm. by replace (n + (len (flight k) + left k)) with n by (unfold len; lia).
  - eapply does_then; [by apply does_pool_turn|]. intros [k' c'] (Hk' & Hc' & Hw). cbn [fst snd] in *.
    pose proof (IH k' c' _ Hk' Hc' ltac:(lia)) as H.
    eapply does_weaken; [exact H|]. intros c2 Hc2. eapply counted_eq; [exact Hc2|lia].
Qed.

Lemma does_pool_finish N ks : ∀ c, Forall idle_or_busy ks → counted c (N - total ks) →
  does (finish redis clock opFn measured INFLIGHT ks c) (λ _ : world, True) (λ c', counted c' N).
Proof.
  induction ks as [|k ks IH]; intros c Hks Hc; cbn [finish].
  - apply does_ret. by replace N with (N - total []) by (cbn; lia).
  - apply Forall_cons in Hks as [Hk Hks]. rewrite total_cons in Hc. eapply does_then; [by apply (does_to_the_end _ k c _ Hk Hc)|].
    intros c' Hc'. apply IH; [done|]. eapply counted_eq; [exact Hc'|lia].
Qed.

(** A run of the pool ends, in whatever order it is answered and whatever
    fails, with every operation counted once. *)
Lemma does_pool pool ops schedule : 0 ≤ ops →
  does (run_pool redis clock opFn measured INFLIGHT pool ops schedule) (λ _ : world, True) (λ c, counted c (Z.of_nat pool * ops)).
Proof.
  intros H0. unfold run_pool. eapply does_then.
  { apply (does_each _ _ _ (λ _, True) (λ _ k, idle_or_busy k ∧ len (flight k) + left k = ops)); [by apply Forall_true|]. intros. by apply does_begin. }
  intros ks Hks. assert (Forall idle_or_busy ks ∧ total ks = Z.of_nat pool * ops) as [Hi Ht].
  { pose proof (Forall2_length _ _ _ Hks) as Hl. rewrite length_seqZ, Nat2Z.id in Hl. rewrite Hl. clear Hl.
    induction Hks as [|i k l ks [Hk Ho] _ [IH1 IH2]]; [by split|]. split; [by constructor|]. rewrite total_cons, Ho, IH2. cbn [length]. lia. }
  eapply does_then; [apply (does_pool_turns (Z.of_nat pool * ops) schedule ks none Hi)|].
  - rewrite Ht, Z.sub_diag. done.
  - intros [ks' c'] [Hi' Hc']. by apply does_pool_finish.
Qed.
End Counting.

Section Theorems.
Context {S : Type} (redis : redis_request → S → S * res ()) (clock : nat → Z) (random : nat → Q) (cfg : Settings).

Lemma share_bounds n P : 0 ≤ n → 0 < P → n ≤ P * ceil_div n P < n + P ∧ 0 ≤ ceil_div n P.
Proof.
  intros Hn HP. unfold ceil_div. pose proof (Z.div_mod (- n) P ltac:(lia)). pose proof (Z.mod_pos_bound (- n) P HP). nia.
Qed.

(** A test ends, in whatever order the connections are answered and whatever
    operations fail; it reports as attempted every operation it started,
    which are those asked for, rounded up to a whole number for each
    connection, and of each either a success or a failure. *)
Theorem run_reports opFn warm schedule w n : (0 < concurrency_of cfg)%nat → 0 ≤ total_ops cfg → ∃ r w' n',
  runBenchmark redis clock cfg opFn warm schedule w n = (Ok r, w', n') ∧
  attempted r = ok_ops r + failed_ops r ∧ 0 ≤ ok_ops r ∧ 0 ≤ failed_ops r ∧
  attempted r = Z.of_nat (concurrency_of cfg) * share_of cfg (total_ops cfg) ∧
  total_ops cfg ≤ attempted r < total_ops cfg + Z.of_nat (concurrency_of cfg) ∧ (avg r = NaN ↔ ok_ops r = 0).
Proof.
  intros HP Ht. destruct (share_bounds (total_ops cfg) (Z.of_nat (concurrency_of cfg)) Ht ltac:(lia)) as [Hb H0].
  destruct (share_bounds WARMUP (Z.of_nat (concurrency_of cfg)) ltac:(done) ltac:(lia)) as [_ Hw0].
  destruct (does_pool redis clock opFn false 1 (concurrency_of cfg) (share_of cfg WARMUP) warm Hw0 w n I) as (c1 & w1 & n1 & E1 & _ & _).
  destruct (does_pool redis clock opFn true (inflight cfg) (concurrency_of cfg) (share_of cfg (total_ops cfg)) schedule H0 w1 (Datatypes.S n1) I)
    as (c & w2 & n2 & E2 & _ & Hc & Hl & Hf).
  eexists _, w2, (Datatypes.S n2). split.
  { unfold runBenchmark, mbind, M_bind. rewrite E1. unfold read_clock at 1. rewrite E2. done. }
  unfold report_of. cbn [attempted ok_ops failed_ops avg]. fold (share_of cfg (total_ops cfg)) in Hb.
  pose proof (len_nonneg (latencies c)). split_and!; [done|lia|lia|lia|lia|lia|].
  pose proof (Permutation_length (merge_sort_Permutation Z.le (latencies c))) as Hm. unfold mean_of, len in *.
  destruct (merge_sort Z.le (latencies c)); cbn [length] in Hm; split; intros; try done; lia.
Qed.
End Theorems.

Section Examples.
(** A Redis that refuses every write *)
Definition read_only (q : redis_request) (s : nat) : nat * res () :=
  (Datatypes.S s, match q with Get _ => Ok tt | Set_ _ _ => Throw (Error []) end).
Definition demo : Settings := MakeSettings [js "mixed"] 10 3 4 5 8 (Fin (1 # 2)).

Lemma run_reports_witness : ∃ r w' n',
  runBenchmark read_only Z.of_nat demo (mixed_op (λ k, if Nat.even k then 1 # 4 else 3 # 4)%Q demo) [] [2; 0; 1]%nat (0, 0)%nat 0%nat = (Ok r, w', n') ∧
  attempted r = 12 ∧ attempted r = ok_ops r + failed_ops r.
Proof.
  destruct (run_reports read_only Z.of_nat demo (mixed_op (λ k, if Nat.even k then 1 # 4 else 3 # 4)%Q demo) [] [2; 0; 1]%nat (0, 0)%nat 0%nat)
    as (r & w' & n' & E & Ha & _ & _ & Hs & _).
  - cbn. lia.
  - cbn. lia.
  - exists r, w', n'. split; [exact E|]. split; [rewrite Hs; reflexivity|exact Ha].
Defined.
End Examples.
