(* ===== verification/DocsTerminal.v ===== *)
(** * The terminal of the documentation ([docs/.vitepress/theme/components/WormTerminal.vue])

    The simulated client on the home page: a line is cut into words, its
    command changes a small store of its own, and what a server would answer
    is printed.  Scrolling and focus are left out; [String] of a number that
    is no small integer, the five decimals of a score and [Math.sqrt] are
    parameters. *)
From Stdlib Require Import QArith Qround.
From stdpp Require Import sorting.
From S2P Require Import Prelude Utf8 JsText Number Command Protocol Json KvServer VectorBench.
#[local] Open Scope Z_scope.

(** ** State *)

Record item := Item { i_value : jsstr; flags : Z }.
Record vec_item := VecItem { vector : list Q; namespace : jsstr; metric : jsstr; v_worm : bool }.
#[export] Instance item_eq_dec : EqDecision item.
Proof. solve_decision. Defined.
Inductive line := Input (text : jsstr) | Output (text colorClass : jsstr).

(** [vectorStore] in the order of its insertions *)
Record terminal := Terminal {
  currentInput : jsstr; history : list line; dbStore : gmap jsstr item; vectorStore : list (jsstr * vec_item);
  cmdHistory : list jsstr; cmdHistoryIdx : Z }.

Definition set_input v t := Terminal v (history t) (dbStore t) (vectorStore t) (cmdHistory t) (cmdHistoryIdx t).
Definition set_lines v t := Terminal (currentInput t) v (dbStore t) (vectorStore t) (cmdHistory t) (cmdHistoryIdx t).
Definition set_db v t := Terminal (currentInput t) (history t) v (vectorStore t) (cmdHistory t) (cmdHistoryIdx t).
Definition set_vectors v t := Terminal (currentInput t) (history t) (dbStore t) v (cmdHistory t) (cmdHistoryIdx t).
Definition set_index i t := Terminal (currentInput t) (history t) (dbStore t) (vectorStore t) (cmdHistory t) i.

Definition dim_color : jsstr := js "color-dim".
Definition red : jsstr := js "color-red".
Definition green : jsstr := js "color-green".
Definition cyan : jsstr := js "color-cyan".

Definition start : terminal := Terminal []
  [Output (js "WormDB reference client walkthrough") cyan;
   Output (js "The real server speaks WormWire v1 binary frames after the WW handshake.") dim_color;
   Output (js "Seed data: acct:a=1000, acct:b=500, counter=0, vec:articles: has 2 vectors.") dim_color;
   Output [] []]
  {[ js "acct:a" := Item (js "1000") 0; js "acct:b" := Item (js "500") 0; js "counter" := Item (js "0") 0 ]}
  [(js "doc-001", VecItem (rnd <$> [10 # 100; 90 # 100; - 40 # 100]%Q) (js "vec:articles:") (js "cosine") true);
   (js "doc-002", VecItem (rnd <$> [14 # 100; 82 # 100; - 32 # 100]%Q) (js "vec:articles:") (js "cosine") true)]
  [] (-1).

Definition push (text colorClass : jsstr) (t : terminal) : terminal := set_lines (history t ++ [Output text colorClass]) t.

(** ** Words of a line *)

(** The matches of the regular expression: a text between two quotation marks
    (with them), or a run of what is no white space *)
Fixpoint matches (fuel : nat) (s : jsstr) : list jsstr :=
  match fuel, s with
  | S fuel, c :: r =>
      let token := let '(w, rest) := span (λ x, negb (is_space x)) s in w :: matches fuel rest in
      if c =? 34 then
        match span (λ x, negb (x =? 34)) r with
        | (inner, _ :: rest) => (34 :: inner ++ [34]) :: matches fuel rest
        | (_, []) => token
        end
      else if is_space c then matches fuel r else token
  | _, _ => []
  end.

(** A quotation mark at the beginning and one at the end are removed. *)
Definition unquote (m : jsstr) : jsstr :=
  let m := match m with 34 :: r => r | _ => m end in
  match rev m with 34 :: r => rev r | _ => m end.

Definition parseArgs (str : jsstr) : list jsstr := unquote <$> matches (length str) str.

(** ** Commands *)

Section Terminal.
Context {UD : UnicodeData} (num_text : num → jsstr) (five_digits : Q → jsstr) (sqrt : Q → Q).

(** A finite number, as [Number.parseInt] gives it *)
Definition finite_int (s : option jsstr) : option Q := s ← s; match parseInt s with Fin q => Some q | _ => None end.
Definition readInt (key : jsstr) (t : terminal) : option Q := finite_int (i_value <$> dbStore t !! key).

Definition sealed_in (t : terminal) (key : jsstr) : bool := bool_decide (flags <$> dbStore t !! key = Some 1).
Definition violation : terminal → terminal := push (js "ERR WORM violation: key is immutable") red.

Definition handleSet (parts : list jsstr) (t : terminal) : terminal :=
  match parts with
  | _ :: key :: value :: more =>
      let isWorm := existsb says_worm more in
      if sealed_in t key then violation t
      else push (if isWorm then js "OK (WORM record sealed)" else js "OK") green
             (set_db (<[key := Item value (if isWorm then 1 else 0)]> (dbStore t)) t)
  | _ => push (js "ERR SET requires key and value") red t
  end.

Definition handleGet (parts : list jsstr) (t : terminal) : terminal :=
  match parts with
  | _ :: key :: _ =>
      match dbStore t !! key with
      | None => push (js "(null)") dim_color t
      | Some i => push (i_value i ++ if flags i =? 1 then js " [WORM]" else []) cyan t
      end
  | _ => push (js "ERR GET requires key") red t
  end.

Definition handleDelete (parts : list jsstr) (t : terminal) : terminal :=
  match parts with
  | _ :: key :: _ =>
      match dbStore t !! key with
      | None => push (js "(null)") dim_color t
      | Some i => if flags i =? 1 then violation t else push (js "OK") green (set_db (delete key (dbStore t)) t)
      end
  | _ => push (js "ERR DEL requires key") red t
  end.

(** A text that is there and not empty *)
Definition given (s : option jsstr) : option jsstr := match s with Some [] => None | s => s end.
Definition store_num (key : jsstr) (x : num) (t : terminal) : terminal := set_db (<[key := Item (num_text x) 0]> (dbStore t)) t.
Definition add_num (a b : Q) : num := to_double (a + b)%Q.

Definition increment (parts : list jsstr) (t : terminal) : terminal :=
  match given (parts !! 2%nat) with
  | None => push (js "ERR increment requires <key> [delta]") red t
  | Some key =>
      let current := default 0%Q (readInt key t) in
      match (match given (parts !! 3%nat) with Some d => finite_int (Some d) | None => Some 1%Q end) with
      | None => push (js "ERR increment delta must be an integer") red t
      | Some delta =>
          if sealed_in t key then violation t
          else push (num_text (add_num current delta)) green (store_num key (add_num current delta) t)
      end
  end.

Definition transfer_cmd (parts : list jsstr) (t : terminal) : terminal :=
  match given (parts !! 2%nat), given (parts !! 3%nat), finite_int (parts !! 4%nat) with
  | Some from, Some to, Some amount =>
      if Qle_bool amount 0 then push (js "ERR amount must be positive") red t else
      match readInt from t, readInt to t with
      | None, _ => push (js "ERR from account not found") red t
      | _, None => push (js "ERR to account not found") red t
      | Some fromBalance, Some toBalance =>
          if negb (Qle_bool amount fromBalance) then push (js "ERR insufficient_funds") red t
          else
            let a := add_num fromBalance (- amount) in
            let b := add_num toBalance amount in
            push (from ++ js "=" ++ num_text a ++ js " " ++ to ++ js "=" ++ num_text b) dim_color
              (push (js "OK") green (store_num to b (store_num from a t)))
      end
  | _, _, _ => push (js "ERR transfer requires <from_key> <to_key> <amount>") red t
  end.

(** *** Vectors *)

Definition rows_of (ns : jsstr) (t : terminal) : list (jsstr * vec_item) :=
  base.filter (λ e : jsstr * vec_item, namespace e.2 = ns) (vectorStore t).
Definition count_text {A} (l : list A) : jsstr := show (len l).

Definition vstats (parts : list jsstr) (t : terminal) : terminal :=
  let ns := default (js "vec:") (parts !! 2%nat) in
  let rows := rows_of ns t in
  let dim := match rows with [] => 0 | r :: _ => len (vector r.2) end in
  let m := match rows with [] => js "cosine" | r :: _ => metric r.2 end in
  push ([123; 34] ++ js "namespace" ++ [34; 58; 34] ++ ns ++ [34; 44; 34] ++ js "count" ++ [34; 58] ++ count_text rows ++ [44; 34] ++
    js "dimensions" ++ [34; 58] ++ show dim ++ [44; 34] ++ js "hnsw" ++ [34; 58; 123; 34] ++ js "metric" ++ [34; 58; 34] ++ m ++
    [34; 44; 34] ++ js "live" ++ [34; 58] ++ count_text rows ++ [125; 125]) cyan t.

Definition vreindex (parts : list jsstr) (t : terminal) : terminal :=
  let ns := default (js "vec:") (parts !! 2%nat) in
  push ([123; 34] ++ js "namespace" ++ [34; 58; 34] ++ ns ++ [34; 44; 34] ++ js "inserted" ++ [34; 58] ++ count_text (rows_of ns t) ++
    [44; 34] ++ js "skipped" ++ [34; 58; 48; 125]) cyan t.

(** [Map.set]: a key that is there keeps its place. *)
Fixpoint map_set {A} (k : jsstr) (v : A) (l : list (jsstr * A)) : list (jsstr * A) :=
  match l with
  | [] => [(k, v)]
  | e :: l => if bool_decide (e.1 = k) then (k, v) :: l else e :: map_set k v l
  end.
Definition map_get {A} (k : jsstr) (l : list (jsstr * A)) : option A :=
  snd <$> head (base.filter (λ e : jsstr * A, e.1 = k) l).

Definition vinsert (parts : list jsstr) (t : terminal) : terminal :=
  match given (parts !! 2%nat), given (parts !! 3%nat) with
  | Some key, Some _ =>
      let ns := default (js "vec:") (parts !! 5%nat) in
      let m := default (js "cosine") (parts !! 6%nat) in
      push (js "OK (stored " ++ ns ++ key ++ js ", metric=" ++ m ++ js ", dim=3)") green
        (set_vectors (map_set key (VecItem (rnd <$> [12 # 100; 88 # 100; - 35 # 100]%Q) ns m (bool_decide (parts !! 4%nat ≠ Some (js "0")))) (vectorStore t)) t)
  | _, _ => push (js "ERR vinsert requires <key> <vector_bytes> [worm] [namespace] [metric]") red t
  end.

Definition dotProduct (a b : list Q) : Q :=
  foldl (λ s iv, rnd (s + rnd (iv.2 * default 0 (b !! iv.1))))%Q 0%Q (imap pair a).
Definition magnitude (a : list Q) : Q := sqrt (foldl (λ s v, rnd (s + rnd (v * v)))%Q 0%Q a).
Definition cosineSimilarity (a b : list Q) : Q :=
  let magA := magnitude a in
  let magB := magnitude b in
  if Qeq_bool magA 0 || Qeq_bool magB 0 then 0%Q else rnd (dotProduct a b / rnd (magA * magB))%Q.

(** [.sort((a, b) => b.score - a.score)], which is stable *)
Fixpoint insert_scored (x : jsstr * Q) (l : list (jsstr * Q)) : list (jsstr * Q) :=
  match l with
  | [] => [x]
  | y :: l => if Qle_bool y.2 x.2 then x :: y :: l else y :: insert_scored x l
  end.
Definition by_score (l : list (jsstr * Q)) : list (jsstr * Q) := foldr insert_scored [] l.

Definition vsearch (parts : list jsstr) (t : terminal) : terminal :=
  let queryKey := default (js "undefined") (parts !! 2%nat) in
  let limit := default 10%Q (finite_int (Some (default (js "10") (parts !! 3%nat)))) in
  let ns := default (js "vec:") (parts !! 4%nat) in
  match parts !! 2%nat ≫= λ k, map_get k (vectorStore t) with
  | None => push (js "ERR vsearch: query key not found") red t
  | Some query =>
      let others := base.filter (λ e : jsstr * vec_item, e.1 ≠ queryKey ∧ namespace e.2 = ns) (vectorStore t) in
      let results := slice (by_score ((λ e, (e.1, cosineSimilarity (vector query) (vector e.2))) <$> others)) 0 (Qfloor limit) in
      push (stringify (JArr ((λ r, JObj [(js "k", JStr r.1); (js "s", JNum (five_digits r.2))]) <$> results))) cyan t
  end.

Definition handleExec (parts : list jsstr) (t : terminal) : terminal :=
  match given (toLowerCase <$> parts !! 1%nat) with
  | None => push (js "ERR EXEC requires procedure_name and args") red t
  | Some proc =>
      let is_ p := bool_decide (proc = js p) in
      if is_ "increment"%string then increment parts t
      else if is_ "transfer"%string then transfer_cmd parts t
      else if is_ "vstats"%string then vstats parts t
      else if is_ "vinsert"%string then vinsert parts t
      else if is_ "vsearch"%string then vsearch parts t
      else if is_ "vreindex"%string then vreindex parts t
      else push (js "ERR unknown procedure: " ++ proc) red t
  end.

Definition handleStatus (t : terminal) : terminal :=
  let wormKeys := base.size (base.filter (λ e : jsstr * item, flags e.2 = 1) (dbStore t)) in
  push (js "backend=threadpool") cyan (push (js "cluster_enabled=0") cyan (push (js "wal_size=256") cyan
    (push (js "worm_keys=" ++ show (Z.of_nat wormKeys)) cyan (push (js "keys=" ++ show (Z.of_nat (base.size (dbStore t)))) cyan t)))).

Definition handleCluster (parts : list jsstr) (t : terminal) : terminal :=
  if bool_decide (toUpperCase <$> parts !! 1%nat = Some (js "STATUS"))
  then foldl (λ t l, push (js l) cyan t) t
         ["cluster_enabled=1"; "cluster_nodes=3"; "cluster_alive=3"; "cluster_suspected=0"; "cluster_dead=0"; "replication_factor=0"]%string
  else push (js "ERR supported cluster example: CLUSTER STATUS") red t.

Definition help (t : terminal) : terminal :=
  foldl (λ t l, push (js l) dim_color t) (push (js "Available examples:") cyan t)
    ["  SET <key> <value> [WORM]             Write a key, optionally immutable"; "  GET <key>                            Read a key";
     "  DEL <key>                            Delete a mutable key"; "  EXEC increment <key> [delta]          Atomic counter";
     "  EXEC transfer <from> <to> <amount>    Atomic two-key update"; "  EXEC vinsert <key> <f32> [worm] [ns]  Store an embedding";
     "  EXEC vsearch <query_key> <k> [ns]     Search local vector namespace"; "  EXEC vstats [namespace]               Inspect vector namespace";
     "  STATUS | CLUSTER STATUS | CLEAR"]%string.

Definition processCommand (cmd : jsstr) (parts : list jsstr) (t : terminal) : terminal :=
  let is_ c := bool_decide (cmd = js c) in
  if is_ "HELP"%string then help t
  else if is_ "CLEAR"%string then set_lines [] t
  else if is_ "SET"%string then handleSet parts t
  else if is_ "GET"%string then handleGet parts t
  else if is_ "DEL"%string then handleDelete parts t
  else if is_ "EXEC"%string then handleExec parts t
  else if is_ "STATUS"%string then handleStatus t
  else if is_ "CLUSTER"%string then handleCluster parts t
  else push (js "error: Unknown command " ++ [34] ++ cmd ++ [34] ++ js ". Type HELP for available examples.") red t.

Definition handleCommand (t : terminal) : terminal :=
  match trim (currentInput t) with
  | [] => t
  | input =>
      let parts := parseArgs input in
      processCommand (default [] (toUpperCase <$> head parts)) parts
        (Terminal [] (history t ++ [Input input]) (dbStore t) (vectorStore t) (cmdHistory t ++ [input]) (-1))
  end.

Definition historyUp (t : terminal) : terminal :=
  if bool_decide (cmdHistory t = []) then t else
  let i := if cmdHistoryIdx t =? -1 then len (cmdHistory t) - 1
           else if 0 <? cmdHistoryIdx t then cmdHistoryIdx t - 1 else cmdHistoryIdx t in
  set_input (default [] (cmdHistory t !! Z.to_nat i)) (set_index i t).

Definition historyDown (t : terminal) : terminal :=
  if cmdHistoryIdx t =? -1 then t
  else if cmdHistoryIdx t <? len (cmdHistory t) - 1
  then set_input (default [] (cmdHistory t !! Z.to_nat (cmdHistoryIdx t + 1))) (set_index (cmdHistoryIdx t + 1) t)
  else set_input [] (set_index (-1) t).

Inductive event := Typed (v : jsstr) | Enter | ArrowUp | ArrowDown | Preset (command : jsstr).
Definition step (e : event) (t : terminal) : terminal :=
  match e with
  | Typed v => set_input v t
  | Enter => handleCommand t
  | ArrowUp => historyUp t
  | ArrowDown => historyDown t
  | Preset c => handleCommand (set_input c t)
  end.
Definition run (es : list event) (t : terminal) : terminal := foldl (λ t e, step e t) t es.
End Terminal.

(** ** Words of a plain line *)

(** A word without quotation marks *)
Definition plain (w : jsstr) : Prop := word w ∧ Forall (λ c, c ≠ 34) w.
#[export] Instance plain_dec w : Decision (plain w).
Proof. unfold plain. apply _. Defined.

Lemma matches_plain ws : ∀ fuel, Forall plain ws → (length (join (js " ") ws) ≤ fuel)%nat → matches fuel (join (js " ") ws) = ws.
Proof.
  induction ws as [|w ws IH]; intros fuel Hws Hf; [by destruct fuel|].
  apply Forall_cons in Hws as [[[Hne Hs] Hq] Hws]. destruct w as [|c w]; [done|].
  assert (c ≠ 34 ∧ is_space c = false) as [Hc34 Hcs] by (apply Forall_cons in Hq as [? _]; by apply Forall_cons in Hs as [? _]).
  assert (Forall (λ x, negb (is_space x) = true) (c :: w)) as Hn by (eapply Forall_impl; [exact Hs|]; by intros x ->).
  destruct ws as [|w' ws].
  - cbn [join] in *. destruct fuel as [|fuel]; [cbn in Hf; lia|]. cbn [matches]. rewrite (proj2 (Z.eqb_neq c 34)), Hcs by done.
    rewrite <- (app_nil_r (c :: w)), (span_app _ _ [] Hn) by done. rewrite app_nil_r. by destruct fuel.
  - rewrite join_cons2 in *. rewrite !length_app in Hf. cbn [length] in Hf. destruct fuel as [|fuel]; [lia|].
    cbn [matches app]. rewrite (proj2 (Z.eqb_neq c 34)), Hcs by done.
    change (c :: w ++ js " " ++ ?r) with ((c :: w) ++ 32 :: r). rewrite (span_app _ (c :: w) _ Hn) by done. f_equal.
    change (length (js " ")) with 1%nat in Hf. destruct fuel as [|fuel]; [lia|]. cbn [matches].
    change (32 =? 34) with false. change (is_space 32) with true. cbv iota. apply IH; [done|lia].
Qed.

Lemma unquote_plain w : plain w → unquote w = w.
Proof.
  intros [[Hne _] Hq]. unfold unquote. assert (match w with 34 :: r => r | _ => w end = w) as ->.
  { destruct w as [|c w]; [done|]. apply Forall_cons in Hq as [Hc _]. repeat case_match; congruence. }
  destruct w as [|c w _] using rev_ind; [done|]. rewrite rev_app_distr. cbn [rev app].
  apply Forall_app in Hq as [_ Hc]. apply Forall_cons in Hc as [Hc _]. repeat case_match; congruence.
Qed.

Lemma parseArgs_plain ws : Forall plain ws → parseArgs (sentence ws) = ws.
Proof.
  intros Hws. unfold parseArgs, sentence. rewrite matches_plain by done.
  induction Hws as [|w ws Hw _ IH]; [done|]. by rewrite fmap_cons, IH, unquote_plain.
Qed.

(** ** The terminal and the server *)

Section Theorems.
Context {UD : UnicodeData} {O : Others} (num_text : num → jsstr) (five_digits : Q → jsstr) (sqrt : Q → Q).
(** [String] of an integer *)
Context (num_text_int : ∀ z, Z.abs z ≤ 2 ^ 53 → num_text (Fin (inject_Z z)) = show z).
Notation handleCommand := (handleCommand num_text five_digits sqrt).
Notation processCommand := (processCommand num_text five_digits sqrt).

(** What the terminal's store says as a store of the server *)
Definition entry_of (i : item) : entry := Entry (i_value i) (flags i =? 1).
Definition mirrors (s : kv) (t : terminal) : Prop := s = entry_of <$> dbStore t.

Definition last_color (t : terminal) : option jsstr := match last (history t) with Some (Output _ c) => Some c | _ => None end.
Definition is_error (r : res WormResponse) : bool := match r with Ok (error _) | Throw _ => true | _ => false end.

(** The command lines that mean the same to both *)
Inductive command := LSet (k v : jsstr) (w : bool) | LGet (k : jsstr) | LDel (k : jsstr) | LTransfer (a b amount : jsstr).
Definition words_of (c : command) : list jsstr :=
  match c with
  | LSet k v w => [js "SET"; k; v] ++ if w then [js "WORM"] else []
  | LGet k => [js "GET"; k]
  | LDel k => [js "DEL"; k]
  | LTransfer a b n => [js "EXEC"; js "transfer"; a; b; n]
  end.

(** Texts that the terminal's [parseInt] and the server's [parse_i64] read
    alike: both as the same integer, which the numbers of both represent, or
    both as none *)
Definition reads_alike (v : jsstr) : Prop :=
  (parse_i64 v = None ∧ finite_int (Some v) = None) ∨
  ∃ z, Z.abs z ≤ 2 ^ 52 ∧ parse_i64 v = Some z ∧ finite_int (Some v) = Some (inject_Z z).

(** An account that a transfer may write: not sealed, and if it is there, of a
    value that both sides read alike *)
Definition open_account (s : kv) (k : jsstr) : Prop :=
  is_worm s k = false ∧ ∀ v, get s k = Some v → reads_alike v.
Definition admissible (s : kv) (c : command) : Prop :=
  match c with
  | LSet k v false => says_worm k = false ∧ says_worm v = false
  | LTransfer a b n => reads_alike n ∧ open_account s a ∧ open_account s b
  | _ => True
  end.

Lemma plain_show z : 0 ≤ z → plain (show z).
Proof.
  intros Hz. split; [by apply show_word|]. destruct (show_digits z Hz) as (_ & Hd & _).
  eapply Forall_impl; [exact Hd|]. intros c Hc ->. done.
Qed.

Lemma handle_plain w ws t : Forall plain (w :: ws) → handleCommand (set_input (sentence (w :: ws)) t) =
  processCommand (toUpperCase w) (w :: ws)
    (Terminal [] (history t ++ [Input (sentence (w :: ws))]) (dbStore t) (vectorStore t) (cmdHistory t ++ [sentence (w :: ws)]) (-1)).
Proof.
  intros Hws. unfold DocsTerminal.handleCommand. cbn [set_input currentInput]. unfold sentence at 1 2.
  rewrite trim_join; [|done|eapply Forall_impl; [exact Hws|by intros ? []]].
  change (join (js " ") (w :: ws)) with (sentence (w :: ws)). destruct (sentence (w :: ws)) as [|x l] eqn:E.
  - apply Forall_cons in Hws as [[[Hw _] _] _]. by destruct w, ws.
  - rewrite <- E, (parseArgs_plain _ Hws). done.
Qed.

Lemma mirror_lookup s t k : mirrors s t → s !! k = entry_of <$> dbStore t !! k.
Proof. intros ->. apply lookup_fmap. Qed.

Lemma mirror_worm s t k : mirrors s t → is_worm s k = sealed_in t k.
Proof.
  intros H. unfold is_worm, sealed_in. rewrite (mirror_lookup s t k H). destruct (dbStore t !! k) as [i|]; [|done]. cbn.
  destruct (Z.eqb_spec (flags i) 1) as [->|Hne]; [done|]. rewrite bool_decide_eq_false_2; [done|]. by intros [=].
Qed.

Lemma mirror_insert s t k v (w : bool) f : mirrors s t → (f =? 1) = w → <[k := Entry v w]> s = entry_of <$> <[k := Item v f]> (dbStore t).
Proof. intros -> <-. rewrite fmap_insert. done. Qed.

Lemma add_num_int a b : Z.abs (a + b) ≤ 2 ^ 53 → add_num (inject_Z a) (inject_Z b) = Fin (inject_Z (a + b)).
Proof.
  intros H. unfold add_num. rewrite <- (to_double_int (a + b) H). unfold Qplus, inject_Z. cbn [Qnum Qden]. by rewrite !Z.mul_1_r.
Qed.

Lemma finite_show z : 0 ≤ z ≤ 2 ^ 53 → finite_int (Some (show z)) = Some (inject_Z z).
Proof. intros Hz. unfold finite_int. cbn [mbind option_bind]. by rewrite parseInt_show. Qed.

Lemma show_reads_alike z : 0 ≤ z ≤ 2 ^ 52 → reads_alike (show z).
Proof. intros Hz. right. exists z. rewrite parse_i64_show, finite_show by lia. split; [lia|done]. Qed.

Lemma le_bool_int a b : Qle_bool (inject_Z a) (inject_Z b) = (a <=? b).
Proof. unfold Qle_bool, inject_Z. cbn [Qnum Qden]. by rewrite !Z.mul_1_r. Qed.

(** A balance as both sides read it *)
Lemma read_both s t k : mirrors s t → open_account s k →
  (get_int s k = None ∧ readInt k t = None) ∨
  ∃ z, Z.abs z ≤ 2 ^ 52 ∧ get_int s k = Some z ∧ readInt k t = Some (inject_Z z).
Proof.
  intros Hm [_ Ha]. unfold get_int, readInt, get in *. rewrite (mirror_lookup s t k Hm) in *. destruct (dbStore t !! k) as [i|]; [|by left].
  exact (Ha _ eq_refl).
Qed.

Lemma set_unsafe_open k v s : is_worm s k = false → set_unsafe k v s = <[k := Entry v false]> s.
Proof. intros H. unfold set_unsafe, put. by rewrite H. Qed.

Lemma is_worm_insert k v k' s : is_worm s k' = false → is_worm (<[k := Entry v false]> s) k' = false.
Proof.
  intros H. unfold is_worm. destruct (decide (k' = k)) as [->|Hne]; [by rewrite lookup_insert_eq|by rewrite lookup_insert_ne].
Qed.

(** One transfer *)
Lemma transfer_mirrors s t a b n ts : mirrors s t → a ≠ [] → b ≠ [] → admissible s (LTransfer a b n) →
  ts = transfer_cmd num_text [js "EXEC"; js "transfer"; a; b; n] t →
  mirrors (transfer [a; b; n] s).1 ts ∧ (is_error (Ok (transfer [a; b; n] s).2) = true ↔ last_color ts = Some red).
Proof.
  intros Hm Ha Hb (Hn & Hoa & Hob) ->. pose proof Hoa as [Hwa _]. pose proof Hob as [Hwb _].
  assert (∀ x, last_color (push x red t) = Some red) as Hred by (intros x; unfold last_color, push; cbn; by rewrite last_snoc).
  unfold transfer, transfer_cmd. cbn [head mbind option_bind].
  change ([js "EXEC"; js "transfer"; a; b; n] !! 2%nat) with (Some a). change ([js "EXEC"; js "transfer"; a; b; n] !! 3%nat) with (Some b).
  change ([js "EXEC"; js "transfer"; a; b; n] !! 4%nat) with (Some n).
  assert (given (Some a) = Some a ∧ given (Some b) = Some b) as [-> ->] by (by destruct a, b).
  destruct Hn as [[-> ->]|(zn & Hzn & -> & ->)]; [by cbn; rewrite Hred|]. change 0%Q with (inject_Z 0). rewrite le_bool_int.
  destruct (Z.leb_spec zn 0); [by cbn; rewrite Hred|].
  destruct (read_both s t a Hm Hoa) as [[-> ->]|(za & Hza & -> & ->)]; [by cbn; rewrite Hred|].
  destruct (read_both s t b Hm Hob) as [[-> ->]|(zb & Hzb & -> & ->)]; [by cbn; rewrite Hred|].
  rewrite le_bool_int. destruct (Z.ltb_spec za zn) as [Hlt|Hge].
  { rewrite (proj2 (Z.leb_gt zn za)) by done. cbn. by rewrite Hred. }
  rewrite (proj2 (Z.leb_le zn za)) by done. cbn [negb fst snd]. change (- inject_Z zn)%Q with (inject_Z (- zn)).
  rewrite !add_num_int, to_i64_small by lia. split.
  - unfold mirrors, push, set_lines. cbn [dbStore]. unfold store_num. cbn [set_db dbStore]. rewrite !num_text_int by lia.
    rewrite (set_unsafe_open a) by done. rewrite set_unsafe_open by by apply is_worm_insert.
    rewrite !fmap_insert, Hm. done.
  - cbn [is_error]. split; [done|]. unfold last_color, push. cbn. by rewrite last_snoc.
Qed.

Lemma set_words k v (w : bool) t : processCommand (toUpperCase (js "SET")) (js "SET" :: k :: v :: if w then [js "WORM"] else []) t =
  if sealed_in t k then violation t
  else push (if w then js "OK (WORM record sealed)" else js "OK") green (set_db (<[k := Item v (if w then 1 else 0)]> (dbStore t)) t).
Proof. by destruct w. Qed.
Lemma other_words p t : processCommand (toUpperCase (js "GET")) p t = handleGet p t ∧
  processCommand (toUpperCase (js "DEL")) p t = handleDelete p t ∧
  ∀ args, processCommand (toUpperCase (js "EXEC")) (js "EXEC" :: js "transfer" :: args) t = transfer_cmd num_text (js "EXEC" :: js "transfer" :: args) t.
Proof. done. Qed.

(** One line, typed into a terminal whose store is the server's *)
Lemma line_follows_server s t c : mirrors s t → Forall plain (words_of c) → admissible s c →
  let t' := handleCommand (set_input (sentence (words_of c)) t) in
  mirrors (serve (sentence (words_of c)) s).1 t' ∧ (is_error (serve (sentence (words_of c)) s).2 = true ↔ last_color t' = Some red).
Proof.
  intros Hm Hp Hc t'. assert (Forall word (words_of c)) as Hw by (eapply Forall_impl; [exact Hp|by intros ? []]).
  assert (∀ t x col, last_color (push x col t) = Some col) as Hcol by (intros; unfold last_color, push; cbn; by rewrite last_snoc).
  destruct c as [k v w|k|k|a b n]; unfold t'; cbn [words_of app] in *; rewrite (handle_plain _ _ t Hp); clear t';
    set (t0 := Terminal _ _ _ _ _ _); (assert (mirrors s t0) as Hm0 by exact Hm); unfold serve.
  - rewrite (parse_render (SET k v w)); [|done|done|by destruct w].
    rewrite set_words. cbn [execute]. unfold put. rewrite (mirror_worm s t0 k Hm0). destruct (sealed_in t0 k); [unfold violation; by rewrite Hcol|].
    cbn [fst snd is_error]. split; [|by rewrite Hcol].
    unfold mirrors. cbn. apply (mirror_insert s t0); [done|by destruct w].
  - rewrite (parse_render (GET k)) by done. rewrite (proj1 (other_words _ _)). unfold handleGet. cbn [execute]. unfold get. rewrite (mirror_lookup s t0 k Hm0). destruct (dbStore t0 !! k) as [i|] eqn:E; cbn [fmap option_fmap option_map fst snd];
      (split; [exact Hm0|by rewrite Hcol]).
  - rewrite (parse_render (DEL k)) by done. rewrite (proj1 (proj2 (other_words _ _))). unfold handleDelete. cbn [execute].
    rewrite (mirror_worm s t0 k Hm0). unfold sealed_in. destruct (dbStore t0 !! k) as [i|] eqn:E; cbn [fmap option_fmap option_map].
    + destruct (Z.eqb_spec (flags i) 1) as [Hf|Hf].
      * rewrite bool_decide_eq_true_2 by by rewrite Hf. cbn [fst snd is_error]. unfold violation. by rewrite Hcol.
      * rewrite bool_decide_eq_false_2 by by intros [=]. cbn [fst snd is_error]. split; [|by rewrite Hcol].
        unfold mirrors. cbn. rewrite fmap_delete. f_equal. exact Hm.
    + rewrite bool_decide_eq_false_2 by done. cbn [fst snd is_error]. split; [|by rewrite Hcol].
      unfold mirrors. rewrite delete_id; [done|]. by rewrite (mirror_lookup s t0 k Hm0), E.
  - rewrite (parse_render (EXEC (js "transfer") (ArgStr <$> [a; b; n]))) by done. cbn [execute].
    rewrite bool_decide_eq_true_2 by done. change (omap arg_text (ArgStr <$> [a; b; n])) with [a; b; n].
    assert (a ≠ [] ∧ b ≠ []) as [Ha Hb] by (rewrite !Forall_cons in Hw; unfold word in Hw; tauto).
    destruct (transfer_mirrors s t0 a b n _ Hm0 Ha Hb Hc eq_refl) as [H1 H2].
    rewrite (proj2 (proj2 (other_words [] _))).
    destruct (transfer [a; b; n] s) as [s' r]. exact (conj H1 H2).
Qed.

(** A session: its lines are typed into the terminal and sent to the server.
    The stores stay the same, and the line printed last is an error where the
    server answers one. *)
Definition answer_of (s : kv) (c : command) : kv * res WormResponse := serve (sentence (words_of c)) s.
Definition typed_in (t : terminal) (c : command) : terminal := handleCommand (set_input (sentence (words_of c)) t).
Fixpoint agrees (s : kv) (t : terminal) (cs : list command) : Prop :=
  mirrors s t ∧ match cs with
  | [] => True
  | c :: cs => (is_error (answer_of s c).2 = true ↔ last_color (typed_in t c) = Some red) ∧ agrees (answer_of s c).1 (typed_in t c) cs
  end.
Fixpoint admitted (s : kv) (cs : list command) : Prop :=
  match cs with [] => True | c :: cs => Forall plain (words_of c) ∧ admissible s c ∧ admitted (answer_of s c).1 cs end.

(** C32: The simulated terminal of the documentation does what the server does,
    in the sessions of [SET], [GET], [DEL] and [EXEC transfer] lines that mean
    the same to both: its store is always the server's, and it prints an error
    exactly where the server answers one.  The lines are of words without
    quotation marks, which the terminal takes off ([quotes_differ]); no record
    that is not to be sealed has [WORM] for its key or its value; and a
    transfer is between accounts that are not sealed, for a sealed one is
    written by the terminal alone ([transfer_unseals]), and of an amount and
    between balances that both read alike, as an integer of at most [2 ^ 52]
    or as none: the terminal reads the digits a text begins with, the server
    the whole text ([balance_prefix_differs]). *)
Theorem terminal_follows_server cs s t : mirrors s t → admitted s cs → agrees s t cs.
Proof.
  revert s t. induction cs as [|c cs IH]; intros s t Hm Hc; [by split|]. destruct Hc as (Hp & Hc & Hcs).
  destruct (line_follows_server s t c Hm Hp Hc) as [H1 H2]. split; [done|]. split; [exact H2|]. by apply IH.
Qed.

(** A sealed record stays under every command but a transfer. *)
Lemma sealed_stays cmd parts t k v : dbStore t !! k = Some (Item v 1) → toLowerCase <$> parts !! 1%nat ≠ Some (js "transfer") →
  dbStore (processCommand cmd parts t) !! k = Some (Item v 1).
Proof.
  intros Hk Hp. assert (∀ key, sealed_in t key = false → key ≠ k) as Hne.
  { intros key Hs ->. unfold sealed_in in Hs. rewrite Hk in Hs. done. }
  unfold DocsTerminal.processCommand. repeat case_bool_decide; try done.
  - unfold handleSet. repeat case_match; try done. all: cbn [push set_lines set_db dbStore]; rewrite lookup_insert_ne by (apply Hne; done); done.
  - unfold handleGet. repeat case_match; done.
  - unfold handleDelete. repeat case_match; try done. cbn. rewrite lookup_delete_ne; [done|]. intros ->. by simplify_eq.
  - unfold handleExec. destruct (given _) as [proc|] eqn:Eg; [|done].
    case_bool_decide; [|case_bool_decide; [|repeat case_bool_decide; try done]].
    + unfold increment. repeat case_match; try done. all: cbn; rewrite lookup_insert_ne by (apply Hne; done); done.
    + subst proc. exfalso. destruct (toLowerCase <$> parts !! 1%nat) as [[|]|]; simplify_eq/=.
    + unfold vinsert. repeat case_match; done.
    + unfold vsearch. case_match; done.
  - unfold handleCluster. by case_bool_decide.
Qed.
End Theorems.

(** ** Executions *)

Section Examples.
#[local] Existing Instances ascii_only no_others.
Definition int_text (n : num) : jsstr := match as_integer n with Some z => show z | None => [] end.
Definition type_lines (l : list string) : terminal := run int_text (λ _, []) (λ q, q) ((λ c, Preset (js c)) <$> l) start.

(** A transfer writes a sealed record and unseals it; the server leaves the
    record as it is. *)
Lemma transfer_unseals :
  dbStore (type_lines ["SET a 5 WORM"; "SET b 1"; "EXEC transfer a b 2"]%string) !! js "a" = Some (Item (js "3") 0) ∧
  (serve (js "EXEC transfer a b 2") {[ js "a" := Entry (js "5") true; js "b" := Entry (js "1") false ]}).1 !! js "a" = Some (Entry (js "5") true).
Proof. split; vm_compute; reflexivity. Qed.

(** The deletion of a key that is not there is answered differently. *)
Lemma missing_deletion_differs :
  last (history (type_lines ["DEL nothing"]%string)) = Some (Output (js "(null)") dim_color) ∧ (serve (js "DEL nothing") ∅).2 = Ok ok.
Proof. split; vm_compute; reflexivity. Qed.

(** The first suggestion, with the value in quotation marks: the terminal
    takes them off, the client it stands for sends them. *)
Definition suggestion : jsstr := js "SET audit:tx-92 " ++ [34] ++ js "hash:f810" ++ [34] ++ js " WORM".
Lemma quotes_differ : parseArgs suggestion = [js "SET"; js "audit:tx-92"; js "hash:f810"; js "WORM"] ∧
  parseCommand suggestion = Ok (SET (js "audit:tx-92") ([34] ++ js "hash:f810" ++ [34]) true).
Proof. split; vm_compute; reflexivity. Qed.

(** The terminal takes the digits that a balance or an amount begins with for
    all of it, and the server takes the whole: what is no integer is refused,
    and underscores are passed over. *)
Lemma balance_prefix_differs :
  ¬ reads_alike (js "12abc") ∧ ¬ reads_alike (js "1_000") ∧
  dbStore (type_lines ["SET a 12abc"; "EXEC transfer a acct:b 5"]%string) !! js "a" = Some (Item (js "7") 0) ∧
  serve (js "EXEC transfer a acct:b 5") {[ js "a" := Entry (js "12abc") false; js "acct:b" := Entry (js "500") false ]} =
    ({[ js "a" := Entry (js "12abc") false; js "acct:b" := Entry (js "500") false ]}, Ok (error (js "from account not found"))).
Proof.
  split; [|split; [|split; vm_compute; reflexivity]].
  - intros [[_ H]|(z & _ & H & _)]; vm_compute in H; discriminate H.
  - intros [[H _]|(z & _ & Hp & Hf)]; [vm_compute in H; discriminate H|].
    vm_compute in Hp. injection Hp as <-. vm_compute in Hf. discriminate Hf.
Qed.

(** A vector that was inserted write-once is replaced. *)
Lemma worm_vector_replaced : v_worm <$> map_get (js "doc-001") (vectorStore start) = Some true ∧
  v_worm <$> map_get (js "doc-001") (vectorStore (type_lines ["EXEC vinsert doc-001 x 0"]%string)) = Some false.
Proof. split; vm_compute; reflexivity. Qed.

Definition server_start : kv := entry_of <$> dbStore start.
Definition session : list command :=
  [LTransfer (js "acct:a") (js "acct:b") (js "200"); LSet (js "note") (js "hello") false; LTransfer (js "note") (js "acct:b") (js "1"); LGet (js "acct:b"); LSet (js "audit") (js "x") true; LSet (js "audit") (js "y") false; LDel (js "counter")].

Lemma int_text_int z : int_text (Fin (inject_Z z)) = show z.
Proof. unfold int_text, as_integer. rewrite Qfloor_Z. by rewrite (proj2 (Qeq_bool_iff _ _)). Qed.

Lemma transfer_admissible : admissible server_start (LTransfer (js "acct:a") (js "acct:b") (js "200")).
Proof.
  split; [apply (show_reads_alike 200); lia|].
  split; (split; [vm_compute; reflexivity|]); intros v Hv; vm_compute in Hv; injection Hv as <-.
  - apply (show_reads_alike 1000); lia.
  - apply (show_reads_alike 500); lia.
Qed.

(** An account that holds no number: both refuse. *)
Lemma note_admissible : admissible (answer_of (answer_of server_start (LTransfer (js "acct:a") (js "acct:b") (js "200"))).1
  (LSet (js "note") (js "hello") false)).1 (LTransfer (js "note") (js "acct:b") (js "1")).
Proof.
  split; [apply (show_reads_alike 1); lia|].
  split; (split; [vm_compute; reflexivity|]); intros v Hv; vm_compute in Hv; injection Hv as <-.
  - left. split; vm_compute; reflexivity.
  - apply (show_reads_alike 700); lia.
Qed.

Lemma terminal_follows_server_witness : agrees int_text (λ _, []) (λ q, q) server_start start session.
Proof.
  apply (terminal_follows_server int_text (λ _, []) (λ q, q) (λ z _, int_text_int z)); [reflexivity|].
  assert (Forall (λ c, Forall plain (words_of c)) session) as Hp by (apply (bool_decide_unpack _); vm_compute; exact I).
  unfold session in *. rewrite !Forall_cons in Hp. destruct Hp as (H1 & Hs & Hn & H2 & H3 & H4 & H5 & _).
  split; [exact H1|]. split; [exact transfer_admissible|]. split; [exact Hs|]. split; [split; vm_compute; reflexivity|].
  split; [exact Hn|]. split; [exact note_admissible|]. split; [exact H2|]. split; [exact I|]. split; [exact H3|]. split; [exact I|].
  split; [exact H4|]. split; [split; vm_compute; reflexivity|]. split; [exact H5|]. split; [exact I|exact I].
Defined.
End Examples.
